(* ===== verification/_CoqProject ===== *)
-Q . S2P
Prelude.v
Zephyr.v
Config.v
Platform.v
Buf.v
Block.v
Header.v
Node.v
Cert.v
SaeadSession.v
Saead.v
Packetizer.v
CryptoNone.v
CryptoSpec.v
SaeadSpec.v
Reference.v
SaeadReference.v
Entry.v
Stream.v
Uplink.v
Session.v
SaeadChain.v
Downlink.v
Pouch.v
Preemption.v
Receive.v
SaeadReceive.v
EndToEnd.v
Names.v
Conformance.v
ConformanceDownlink.v
Gatt.v
GattCert.v
Zcbor.v
Dispatch.v
ZcborOut.v
Ota.v
OtaManifest.v
OtaUpper.v
OtaTransfer.v
Settings.v
Golioth.v
Firmware.v
FirmwareOverPouch.v
Credentials.v
Application.v
