(* ===== verification/Prelude.v ===== *)
(** A model of pouch, a library that carries data between an embedded device and a
    cloud over intermediate transports, with the theorems that make it correct.

    File names are those of the repository, from its root; a definition has the name
    of the function, type or macro that it translates unless its comment says so.
    This file is the prelude: machine integers, byte lists, C strings, programs and
    their reasoning rules.

    * The program and its model

    An application writes entries and streams; they are packed into blocks, the
    blocks are encrypted and sent behind a pouch header in packets of a Bluetooth
    characteristic. On the receiving side packets are put together, the pouch is
    taken apart into header and blocks, the blocks are decrypted and taken apart, and
    handlers of the application are called. The Golioth SDK sits on both ends: it
    dispatches received streams to an OTA and a settings service, and reports their
    status.

    - [Zephyr], [Config], [Platform]: the kernel services the sources use (lists,
      queues, atomics), the Kconfig options with the size macros of [src/block.h],
      and PSA crypto, mbedTLS and base64. The kernel and these libraries are not part
      of the repository: they are type classes here, with what is relied on of them
      in a second class ([ZephyrSpec], [PsaSpec], [Base64Spec]), and a reference
      implementation of both, so that nothing is assumed that cannot hold.
    - [Buf], [Block]: [src/buf.c] and [src/block.c]. The heap maps numbers to buffers;
      [Malloc] says which allocations succeed. Every access is checked: one outside
      the allocation is undefined behaviour ([UB]).
    - [Header]: the pouch header, with the generated CBOR code as a class.
    - [Node]: the static variables of all modules as one record, [node]; the work
      items, the callbacks made (recorded in order), and the interface of a crypto
      module ([Crypto], [src/crypto.h]).
    - [CryptoNone]: [src/crypto_none.c]. [Cert], [SaeadSession], [Saead]: [src/cert.c],
      [src/saead] and [src/crypto_saead.c]. [CryptoSpec] states what uplink and
      downlink rely on of a crypto module, as a class; both modules obey it
      ([SaeadSpec] for SAEAD).
    - [Entry], [Stream], [Uplink], [Session]: [src/entry.c], [src/stream.c],
      [src/uplink.c], [src/header.c]. [Downlink], [Pouch]: [src/downlink.c],
      [src/pouch.c]. Work items run one at a time, in any order ([Pouch.work_step]), and
      between the calls of the transport ([Receive.rx_step]). In [Preemption] they also
      run between the calls that one function makes: [pouch_uplink_close] is there the
      sequence of its calls ([Uplink.close_thread]), and [Preemption.thread_step] runs
      the next of them or a work item.
    - [Packetizer], [Gatt], [GattCert]: [lib/pouch_ble_gatt_common/packetizer.c] and
      the characteristics of [src/transport/ble_gatt].
    - [Zcbor], [ZcborOut]: the map decoder of [lib/zcbor_utils], and zcbor itself as
      the classes [Zcbor] and [ZcborEncoder]. Its laws speak of CBOR items: what is
      left to read in each open container, and what has been put into a map.
    - [Names], [Dispatch], [Ota], [OtaUpper], [Settings], [Golioth]:
      [golioth_sdk/dispatch.c], [ota.c], [ota_upper.c], [settings.c] with
      [settings_callbacks.c], and the services registered with one another. The
      two halves of the OTA service meet in the class [Ota.OtaUpper], which is the
      header [golioth_sdk/ota.h]. [OtaManifest] and [OtaTransfer] hold what the
      service promises.
    - [Firmware], [Credentials], [Application]: the example [examples/ble_gatt], its
      [fw_update.c], [credentials.c], and [main.c] with the sensor: what an application
      makes of the library and the SDK. Drivers, flash and file system are parameters.
    - [Reference], [SaeadReference]: concrete nodes on which witnesses run;
      [SaeadChain], [Receive], [SaeadReceive], [EndToEnd], [FirmwareOverPouch]:
      theorems on several components at once. [Receive] follows a pouch from the bytes
      pushed to the calls of the application, whatever the crypto module;
      [SaeadReceive] is its case for encrypted pouches, and [FirmwareOverPouch] goes on
      with what the SDK and the example application make of the calls.
    - [Conformance], [ConformanceDownlink]: the test suites of the repository
      ([tests/pouch/uplink], [events], [downlink]) translated and run on the model:
      all tests pass ([Conformance.uplink_suite_passes], [events_suite_passes],
      [ConformanceDownlink.downlink_suite_passes]).

    * Programs

    A C function is a function of the state that returns a value and a new state
    ([Ret]), runs into undefined behaviour ([UB]), or out of fuel ([NoFuel]); [M] is
    the monad. [wp m Q s] says that [m] returns from [s] and [Q] holds then: every
    theorem in this form is total correctness. [wlp] allows for undefined behaviour,
    but not for a lack of fuel; [outcome_rel] compares two runs, whatever they end
    in. An error code is [Some e], success is [None]. Sizes wrap as [size_t] does
    ([usz], of 32 bits or more), other integers by [u8], [u16], [u32].

    * Fuel

    A loop that is not a recursion on a list gets fuel, and it is proved to be
    enough: one more than the number of heap objects for the loops over the queues of
    buffers ([Uplink.heap_fuel]; a queue holds each buffer once), one more than the
    bytes given for [push_loop] and [stream_write_loop] (each turn takes some), one
    more than the bytes of a block for its entries, 2 for [new_stream_id] (it skips
    one id), one more than the depth of the event queue, one more than the bytes left
    for the CBOR loops (each turn reads a key or a label), one more than the number
    of components for [ota_uplink].

    * Theorems

    - From one application to another: [EndToEnd.entries_end_to_end],
      [FirmwareOverPouch.firmware_over_pouch], [SaeadReceive.saead_pouch_delivered],
      [Golioth.component_download]. The calls of the application are recorded by the
      node and handled afterwards: the SDK does not change the node inside them. What
      is received on the way has to be pushed in pieces no longer than the shortest
      block of the pouch: of two blocks completed in one push the second is held back
      ([Downlink.second_block_is_held]).
    - Crypto: the chain of sealed blocks and their authenticity
      ([SaeadChain.saead_session_sealed], [downlink_authentic]), the reach of replay
      protection ([replay_protection]), keys bound to their session
      ([SaeadSession.key_info_injective]), provisioning, each outcome
      with its cause ([Cert.server_set_outcomes]).
    - Writing: entries and streams refine abstract specifications and come back as
      callbacks ([Entry.entry_write_refines], [entries_round_trip],
      [Stream.stream_open_refines], [stream_write_refines], [stream_round_trip],
      [stale_stream]).
    - Sending: [Uplink.process_refines], [Session.session_sends], [start_refines],
      [finish_resets], and what goes wrong around closing ([Preemption.close_race],
      lemma [close_timeout_drops_entries]).
    - Receiving: [Downlink.downlink_reassembles], [push_keeps_bytes],
      [Receive.pouches_in_sequence], [Entry.block_push_terminates],
      [Pouch.events_delivered].
    - Transport: [Packetizer.packets_round_trip], [Gatt.gatt_session],
      [downlink_writes], [GattCert.server_cert_written].
    - SDK: map decoding of any item ([Zcbor.map_decode_outcomes]), routing by ownership
      ([Dispatch.dispatch_routes_by_owner]), manifests
      ([OtaTransfer.manifest_sets_targets], [OtaManifest.manifest_ends]), settings
      ([Settings.settings_document]). The references of these theorems
      ([OtaManifest.announced_component], [OtaTransfer.targets_set], [Zcbor.map_result],
      [Settings.ref_set]) use none of the functions they specify.
    - Application: reports ([Application.session_start_reports], on top of
      [Golioth.sync_to_cloud_run], with paths and contents spelled out), requests for a
      sync, up to what the Bluetooth stack was last told ([sync_never_forgotten]),
      credentials ([Credentials.load_private_key_outcomes]).
    - What a peer or an application can break: [Entry.short_path_is_undefined],
      [Downlink.second_block_is_held], [Zcbor.int_key_is_dereferenced], and lemmas and
      examples next to the functions concerned.

    * Not modelled

    Logging, the registration of services with the Bluetooth stack, the thread of the
    work queue (its items are steps), and locks, of which only the result counts: no
    other thread runs inside a function, save where a theorem says so
    ([Preemption.close_race]). The code that the build generates from [src/header.cddl],
    the kernel, zcbor, PSA crypto, mbedTLS, the file system and the drivers of the board
    are parameters. Of [tests], the test that writes from two threads, the downlink run of
    102400 bytes, and the program of the encryption build, which only calls
    [pouch_init], are left out. *)
From Stdlib Require Export ZArith Lia.
From stdpp Require Export base list gmap tactics.
From stdpp Require Export numbers.
#[global] Open Scope Z_scope.

Declare Scope pouch_scope.
Delimit Scope pouch_scope with pouch.
#[global] Open Scope pouch_scope.

(** ** Machine integers and bytes *)

Definition u8 (x : Z) : Z := x mod 256.
Definition u16 (x : Z) : Z := x mod 65536.
Definition u32 (x : Z) : Z := x mod 2 ^ 32.
Definition is_byte (x : Z) : Prop := 0 ≤ x < 256.

#[export] Instance is_byte_dec x : Decision (is_byte x).
Proof. unfold is_byte. apply _. Defined.

Create HintDb pouch.
Create Rewrite HintDb zlen.

Lemma u8_small x : 0 ≤ x < 256 → u8 x = x.
Proof. intros. by apply Z.mod_small. Qed.

Lemma u16_small x : 0 ≤ x < 65536 → u16 x = x.
Proof. intros. by apply Z.mod_small. Qed.

Lemma u8_range x : is_byte (u8 x).
Proof. unfold is_byte, u8. apply Z.mod_pos_bound. lia. Qed.

Lemma u16_range x : 0 ≤ u16 x < 65536.
Proof. apply Z.mod_pos_bound. lia. Qed.
#[export] Hint Resolve u8_range u16_range : pouch.

(** ** Lists indexed by C sizes *)

Definition zlen {A} (l : list A) : Z := Z.of_nat (length l).

(** [slice off n l]: the [n] elements of [l] from index [off]. *)
Definition slice {A} (off n : Z) (l : list A) : list A :=
  take (Z.to_nat n) (drop (Z.to_nat off) l).

(** [splice off d l]: [l] with the elements from [off] on overwritten by [d]. *)
Definition splice {A} (off : Z) (d l : list A) : list A :=
  take (Z.to_nat off) l ++ d ++ drop (Z.to_nat off + length d) l.

Section zlists.
Context {A : Type}.
Implicit Types l k d : list A.

Lemma zlen_nonneg l : 0 ≤ zlen l.
Proof. unfold zlen. lia. Qed.

Lemma zlen_nil : zlen (@nil A) = 0.
Proof. done. Qed.

Lemma zlen_cons x l : zlen (x :: l) = 1 + zlen l.
Proof. unfold zlen. cbn [length]. lia. Qed.

Lemma zlen_singleton (x : A) : zlen [x] = 1.
Proof. done. Qed.

Lemma zlen_app l k : zlen (l ++ k) = zlen l + zlen k.
Proof. unfold zlen. rewrite length_app. lia. Qed.

Lemma zlen_zero_nil l : zlen l = 0 → l = [].
Proof. destruct l; [done|]. unfold zlen. cbn [length]. lia. Qed.

Lemma zlen_slice off n l :
  0 ≤ off → 0 ≤ n → off + n ≤ zlen l → zlen (slice off n l) = n.
Proof. unfold zlen, slice. rewrite length_take, length_drop. lia. Qed.

Lemma zlen_splice off d l :
  0 ≤ off → off + zlen d ≤ zlen l → zlen (splice off d l) = zlen l.
Proof.
  unfold zlen, splice. rewrite !length_app, length_take, length_drop. lia.
Qed.

Lemma slice_0_all l : slice 0 (zlen l) l = l.
Proof.
  unfold slice, zlen. rewrite Nat2Z.id. change (Z.to_nat 0) with 0%nat.
  by rewrite drop_0, firstn_all.
Qed.

Lemma slice_nil off l : slice off 0 l = [].
Proof. done. Qed.

Lemma slice_app_l off n l k :
  0 ≤ off → 0 ≤ n → off + n ≤ zlen l → slice off n (l ++ k) = slice off n l.
Proof.
  unfold slice, zlen. intros.
  rewrite drop_app_le by lia. rewrite take_app_le; [done|].
  rewrite length_drop. lia.
Qed.

Lemma slice_app_r off n l k :
  zlen l ≤ off → slice off n (l ++ k) = slice (off - zlen l) n k.
Proof.
  unfold slice, zlen. intros. rewrite drop_app_ge by lia. do 2 f_equal. lia.
Qed.

Lemma slice_shift l n k : 0 ≤ n → slice (zlen l) n (l ++ k) = slice 0 n k.
Proof. intros. rewrite slice_app_r by lia. by rewrite Z.sub_diag. Qed.

Lemma slice_prefix l k : slice 0 (zlen l) (l ++ k) = l.
Proof.
  pose proof (zlen_nonneg l). rewrite slice_app_l by lia. apply slice_0_all.
Qed.

Lemma slice_0_app n l k : 0 ≤ n →
  slice 0 (zlen l + n) (l ++ k) = l ++ slice 0 n k.
Proof.
  unfold slice, zlen. intros. rewrite !drop_0.
  replace (Z.to_nat (Z.of_nat (length l) + n)) with (length l + Z.to_nat n)%nat by lia.
  by rewrite take_app_add.
Qed.

Lemma slice_split n m l : 0 ≤ n → 0 ≤ m → n + m ≤ zlen l →
  slice 0 (n + m) l = slice 0 n l ++ slice n m l.
Proof.
  unfold slice, zlen. intros. rewrite !drop_0.
  replace (Z.to_nat (n + m)) with (Z.to_nat n + Z.to_nat m)%nat by lia.
  symmetry. apply take_take_drop.
Qed.

Lemma slice_slice off n off' n' l :
  0 ≤ off → 0 ≤ off' → 0 ≤ n' → off' + n' ≤ n →
  slice off' n' (slice off n l) = slice (off + off') n' l.
Proof.
  unfold slice. intros. rewrite skipn_firstn_comm, drop_drop, take_take.
  f_equal; [lia|]. f_equal. lia.
Qed.

(** Reading back what was written, and what was not touched. *)
Lemma slice_splice_eq off d l :
  0 ≤ off → off + zlen d ≤ zlen l → slice off (zlen d) (splice off d l) = d.
Proof.
  unfold slice, splice, zlen. intros.
  rewrite drop_app_ge, length_take by (rewrite length_take; lia).
  replace (Z.to_nat off - _)%nat with 0%nat by lia.
  rewrite drop_0, Nat2Z.id, take_app_le by lia. by rewrite firstn_all.
Qed.

Lemma slice_splice_before off d l n :
  0 ≤ n ≤ off → off ≤ zlen l → slice 0 n (splice off d l) = slice 0 n l.
Proof.
  unfold slice, splice, zlen. intros. rewrite !drop_0.
  rewrite take_app_le by (rewrite length_take; lia).
  rewrite take_take. f_equal. lia.
Qed.

Lemma slice_add off n m l : 0 ≤ off → 0 ≤ n → 0 ≤ m →
  slice off (n + m) l = slice off n l ++ slice (off + n) m l.
Proof.
  unfold slice. intros. rewrite (Z2Nat.inj_add off), (Z2Nat.inj_add n) by lia.
  rewrite <- drop_drop. generalize (drop (Z.to_nat off) l) as l'. intros l'.
  revert l'. induction (Z.to_nat n) as [|k IH]; intros [|x l']; cbn; try done.
  - by rewrite take_nil.
  - by rewrite IH.
Qed.

Lemma slice_splice_append off d l :
  0 ≤ off → off + zlen d ≤ zlen l →
  slice 0 (off + zlen d) (splice off d l) = slice 0 off l ++ d.
Proof.
  intros. pose proof (zlen_nonneg d). pose proof (zlen_splice off d l).
  rewrite slice_split by lia.
  by rewrite slice_splice_before, slice_splice_eq by lia.
Qed.

(** Overwriting a prefix of the first [n] elements. *)
Lemma slice_splice_0 d l n :
  zlen d ≤ n ≤ zlen l →
  slice 0 n (splice 0 d l) = d ++ slice (zlen d) (n - zlen d) l.
Proof.
  unfold slice, splice, zlen. intros. change (Z.to_nat 0) with 0%nat.
  rewrite take_0, drop_0, app_nil_l, Nat.add_0_l.
  replace (Z.to_nat n) with (length d + Z.to_nat (n - Z.of_nat (length d)))%nat by lia.
  rewrite take_app_add. by rewrite Nat2Z.id.
Qed.

Lemma slice_splice_after off d l off' n :
  0 ≤ off → off + zlen d ≤ off' → off + zlen d ≤ zlen l →
  slice off' n (splice off d l) = slice off' n l.
Proof.
  unfold slice, splice, zlen. intros. f_equal.
  rewrite drop_app_ge, length_take by (rewrite length_take; lia).
  rewrite drop_app_ge by lia. rewrite drop_drop. f_equal. lia.
Qed.

Lemma splice_splice_app off d d' l :
  0 ≤ off → off + zlen d + zlen d' ≤ zlen l →
  splice (off + zlen d) d' (splice off d l) = splice off (d ++ d') l.
Proof.
  unfold splice, zlen. intros.
  rewrite take_app_ge, length_take, <- app_assoc by (rewrite length_take; lia). f_equal.
  rewrite length_app, <- app_assoc.
  replace (Z.to_nat (off + Z.of_nat (length d)) - _)%nat with (length d) by lia.
  rewrite take_app_length. f_equal. f_equal.
  rewrite drop_app_ge, length_take by (rewrite length_take; lia).
  rewrite drop_app_ge by lia. rewrite drop_drop. f_equal. lia.
Qed.

Lemma splice_nil off l : splice off [] l = l.
Proof. unfold splice. cbn. rewrite Nat.add_0_r. apply take_drop. Qed.

Lemma Forall_slice (P : A → Prop) off n l : Forall P l → Forall P (slice off n l).
Proof. intros. by apply Forall_take, Forall_drop. Qed.

Lemma Forall_splice (P : A → Prop) off d l :
  Forall P l → Forall P d → Forall P (splice off d l).
Proof. intros. unfold splice. auto using Forall_app_2, Forall_take, Forall_drop. Qed.
End zlists.

(** Concrete bytes. *)
Ltac solve_bytes := apply (bool_decide_unpack _); vm_compute; exact I.

(** The characters of a C string up to its terminator. *)
Fixpoint c_string (l : list Z) : list Z :=
  match l with
  | [] => []
  | x :: l => if x =? 0 then [] else x :: c_string l
  end.

Lemma c_string_id l : Forall (λ c, c ≠ 0) l → c_string l = l.
Proof.
  induction 1 as [|x l Hx _ IH]; [done|]. cbn [c_string].
  rewrite (proj2 (Z.eqb_neq _ _)) by done. by rewrite IH.
Qed.

Lemma c_string_nonzero l : Forall (λ c, c ≠ 0) (c_string l).
Proof.
  induction l as [|x l IH]; cbn [c_string]; [done|].
  destruct (Z.eqb_spec x 0); [done|]. by constructor.
Qed.

Lemma c_string_app l k : Forall (λ c, c ≠ 0) l → c_string (l ++ 0 :: k) = l.
Proof.
  induction 1 as [|x l Hx _ IH]; [done|]. cbn [app c_string].
  rewrite (proj2 (Z.eqb_neq _ _)) by done. by rewrite IH.
Qed.

(** [strcmp] of two strings is zero. *)
Definition str_eq (a b : list Z) : bool := bool_decide (c_string a = c_string b).

(** The [n] characters that [strncpy] writes. *)
Definition strncpy (n : Z) (s : list Z) : list Z :=
  take (Z.to_nat n) (c_string s ++ replicate (Z.to_nat n) 0).

Lemma zlen_strncpy n s : 0 ≤ n → zlen (strncpy n s) = n.
Proof. unfold zlen, strncpy. rewrite length_take, length_app, length_replicate. lia. Qed.

(** A copy that was cut off to fit, and terminated. *)
Lemma c_string_strncpy n s k : 0 ≤ n → c_string (strncpy n s ++ 0 :: k) = take (Z.to_nat n) (c_string s).
Proof.
  intros Hn. unfold strncpy. pose proof (c_string_nonzero s) as Hs.
  destruct (Nat.le_gt_cases (Z.to_nat n) (length (c_string s))) as [Hle|Hgt].
  - rewrite take_app_le by lia. by apply c_string_app, Forall_take.
  - rewrite take_app_ge, take_replicate, <- app_assoc, take_ge by lia.
    replace (Nat.min _ _) with (S (Z.to_nat n - length (c_string s) - 1)) by lia.
    by apply c_string_app.
Qed.

(** A piece taken off the front is as long as asked unless nothing is left. *)
Lemma zlen_take_drop {A} k (l : list A) :
  0 ≤ k → zlen (take (Z.to_nat k) l) ≤ k ∧
  (drop (Z.to_nat k) l ≠ [] → zlen (take (Z.to_nat k) l) = k).
Proof.
  unfold zlen. intros Hk. rewrite length_take. split; [lia|]. intros Hne.
  destruct (Nat.lt_ge_cases (Z.to_nat k) (length l)) as [Hlt|Hge]; [lia|].
  by rewrite drop_ge in Hne.
Qed.

Lemma Forall2_impl_in {A B} (P Q : A → B → Prop) l k :
  Forall2 P l k → (∀ x y, x ∈ l → P x y → Q x y) → Forall2 Q l k.
Proof.
  induction 1 as [|x y l k ? _ IH]; intros HPQ; constructor.
  - apply HPQ; [apply elem_of_cons; by left|done].
  - apply IH. intros ????. apply HPQ; [apply elem_of_cons; by right|done].
Qed.

#[export] Hint Rewrite @zlen_singleton @zlen_app @zlen_cons : zlen.

(** ** Programs: state, undefined behaviour, fuel *)

(** What running a C function does: it returns with a value and a state, it
    executes something the C standard leaves undefined (a null or dangling
    pointer, an access out of the allocated object), or a loop exhausted the
    fuel it was given. *)
Inductive outcome (S A : Type) : Type :=
  | Ret (a : A) (s : S)
  | UB
  | NoFuel.
Arguments Ret {S A} a s.
Arguments UB {S A}.
Arguments NoFuel {S A}.

(** Running a program on a concrete state, the state itself left aside. *)
Definition is_undefined {S A} (o : outcome S A) : bool := match o with UB => true | _ => false end.

Lemma is_undefined_ub {S A} (o : outcome S A) : is_undefined o = true → o = UB.
Proof. by destruct o. Qed.

Definition M (S A : Type) : Type := S → outcome S A.

#[export] Instance M_ret S : MRet (M S) := λ A a s, Ret a s.
#[export] Instance M_bind S : MBind (M S) := λ A B k m s,
  match m s with
  | Ret a s' => k a s'
  | UB => UB
  | NoFuel => NoFuel
  end.

#[global] Arguments mbind {M MBind A B} k m : simpl never.
#[global] Arguments mret {M MRet A} a : simpl never.

Definition get {S} : M S S := λ s, Ret s s.
Definition modify {S} (f : S → S) : M S unit := λ s, Ret tt (f s).
Definition ub {S A} : M S A := λ _, UB.
Definition nofuel {S A} : M S A := λ _, NoFuel.

(** Running a program of a component inside a larger state. *)
Definition zoom {S T A} (g : T → S) (p : S → T → T) (m : M S A) : M T A := λ t,
  match m (g t) with
  | Ret a s' => Ret a (p s' t)
  | UB => UB
  | NoFuel => NoFuel
  end.

(** A function that runs while others do, as the calls that it makes one after the
    other: what another thread does comes between two of them. On its own it is the
    program of these calls. *)
Inductive thread (S A : Type) : Type :=
  | returns (a : A)
  | call_then {X : Type} (m : M S X) (k : X → thread S A).
Arguments returns {S A} a.
Arguments call_then {S A X} m k.

Fixpoint run_thread {S A} (t : thread S A) : M S A :=
  match t with
  | returns a => mret a
  | call_then m k => x ← m; run_thread (k x)
  end.

(** [wp m Q s]: from [s] the program [m] returns (no undefined behaviour, fuel
    enough) with a value and a state that satisfy [Q]. *)
Definition wp {S A} (m : M S A) (Q : A → S → Prop) (s : S) : Prop :=
  match m s with
  | Ret a s' => Q a s'
  | UB | NoFuel => False
  end.

#[global] Arguments wp {S A} m Q s : simpl never.
#[global] Arguments zoom {S T A} g p m t : simpl never.

Section wp_rules.
Context {S : Type}.

Lemma wp_ret {A} (a : A) Q (s : S) : Q a s → wp (mret a) Q s.
Proof. done. Qed.

Lemma wp_bind {A B} (m : M S A) (k : A → M S B) Q s :
  wp m (λ a, wp (k a) Q) s → wp (m ≫= k) Q s.
Proof. unfold wp, mbind, M_bind. by destruct (m s). Qed.

Lemma wp_mono {A} (m : M S A) (P Q : A → S → Prop) s :
  wp m P s → (∀ a s', P a s' → Q a s') → wp m Q s.
Proof. unfold wp. destruct (m s); naive_solver. Qed.

Lemma wp_get Q (s : S) : Q s s → wp get Q s.
Proof. done. Qed.

Lemma wp_modify f Q (s : S) : Q tt (f s) → wp (modify f) Q s.
Proof. done. Qed.

Lemma wp_same {A} (p p' : M S A) Q s : p s = p' s → wp p' Q s → wp p Q s.
Proof. unfold wp. by intros ->. Qed.

Lemma wp_as {A} (p p' : M S A) Q s s' : p s = p' s' → wp p' Q s' → wp p Q s.
Proof. unfold wp. by intros ->. Qed.

Lemma wp_eq {A} (m : M S A) Q s a s' : m s = Ret a s' → Q a s' → wp m Q s.
Proof. unfold wp. by intros ->. Qed.

Lemma wp_inv {A} (m : M S A) Q s : wp m Q s → ∃ a s', m s = Ret a s' ∧ Q a s'.
Proof. unfold wp. destruct (m s); naive_solver. Qed.

Lemma wp_run {A} (m : M S A) a s s' : wp m (λ x t, x = a ∧ t = s') s → m s = Ret a s'.
Proof. intros (?&?&?&->&->)%wp_inv. done. Qed.

Lemma bind_run {A B} (m : M S A) (k : A → M S B) s a s' :
  m s = Ret a s' → (m ≫= k) s = k a s'.
Proof. unfold mbind, M_bind. by intros ->. Qed.

(** Undefined behaviour that a program reaches after its first part. *)
Lemma ub_bind {A B} (m : M S A) (k : A → M S B) s :
  wp m (λ a s', k a s' = UB) s → (m ≫= k) s = UB.
Proof. unfold wp, mbind, M_bind. by destruct (m s). Qed.
End wp_rules.

Lemma seq_assoc {S A B C} (a : M S A) (b : M S B) (c : M S C) s : (a;; b;; c) s = ((a;; b);; c) s.
Proof. cbv [mbind M_bind]. by destruct (a s) as [x t| |]. Qed.

Lemma seq_ret {S} (m : M S unit) s : (m;; mret tt) s = m s.
Proof. cbv [mbind M_bind]. by destruct (m s) as [[] ?| |]. Qed.

Lemma wp_zoom {S T A} (g : T → S) p (m : M S A) Q t :
  wp m (λ a s', Q a (p s' t)) (g t) → wp (zoom g p m) Q t.
Proof. unfold wp, zoom. by destruct (m (g t)). Qed.

Lemma zoom_run {S T A} (g : T → S) p (m : M S A) t a s' :
  m (g t) = Ret a s' → zoom g p m t = Ret a (p s' t).
Proof. unfold zoom. by intros ->. Qed.

(** [wlp m Q s]: from [s] the program [m] does not run out of fuel, and if it
    returns (rather than running into undefined behaviour) then [Q] holds. *)
Definition wlp {S A} (m : M S A) (Q : A → S → Prop) (s : S) : Prop :=
  match m s with
  | Ret a s' => Q a s'
  | UB => True
  | NoFuel => False
  end.
#[global] Arguments wlp {S A} m Q s : simpl never.

Section wlp_rules.
Context {S : Type}.

Lemma wlp_ret {A} (a : A) Q (s : S) : Q a s → wlp (mret a) Q s.
Proof. done. Qed.

Lemma wlp_bind {A B} (m : M S A) (k : A → M S B) Q s :
  wlp m (λ a, wlp (k a) Q) s → wlp (m ≫= k) Q s.
Proof. unfold wlp, mbind, M_bind. by destruct (m s). Qed.

Lemma wlp_mono {A} (m : M S A) (P Q : A → S → Prop) s :
  wlp m P s → (∀ a s', P a s' → Q a s') → wlp m Q s.
Proof. unfold wlp. destruct (m s); naive_solver. Qed.

Lemma wlp_get Q (s : S) : Q s s → wlp get Q s.
Proof. done. Qed.

Lemma wlp_modify f Q (s : S) : Q tt (f s) → wlp (modify f) Q s.
Proof. done. Qed.

Lemma wlp_ub {A} (Q : A → S → Prop) s : wlp ub Q s.
Proof. done. Qed.

Lemma wp_wlp {A} (m : M S A) Q s : wp m Q s → wlp m Q s.
Proof. unfold wp, wlp. by destruct (m s). Qed.

Lemma wlp_fuel {A} (m : M S A) Q s : wlp m Q s → m s ≠ NoFuel.
Proof. unfold wlp. by destruct (m s). Qed.
End wlp_rules.

Lemma wp_and_wlp {S A} (m : M S A) (P Q : A → S → Prop) s :
  wp m P s → wlp m Q s → wp m (λ a s', P a s' ∧ Q a s') s.
Proof. unfold wp, wlp. by destruct (m s). Qed.

Lemma wlp_zoom {S T A} (g : T → S) p (m : M S A) Q t :
  wlp m (λ a s', Q a (p s' t)) (g t) → wlp (zoom g p m) Q t.
Proof. unfold wlp, zoom. by destruct (m (g t)). Qed.

(** Two runs with the same result, and states that [R] relates. *)
Definition outcome_rel {S T A} (R : A → S → T → Prop) (o : outcome S A) (o' : outcome T A) : Prop :=
  match o, o' with
  | Ret a s, Ret b t => a = b ∧ R a s t
  | UB, UB | NoFuel, NoFuel => True
  | _, _ => False
  end.

Lemma outcome_rel_mono {S T A} (R R' : A → S → T → Prop) (o : outcome S A) (o' : outcome T A) :
  outcome_rel R o o' → (∀ a s t, R a s t → R' a s t) → outcome_rel R' o o'.
Proof. destruct o, o'; naive_solver. Qed.

Lemma outcome_rel_bind {S T A B} (R : A → S → T → Prop) (R' : B → S → T → Prop) (m : M S A) (m' : M T A)
    (k : A → M S B) (k' : A → M T B) s t :
  outcome_rel R (m s) (m' t) → (∀ a s t, R a s t → outcome_rel R' (k a s) (k' a t)) →
  outcome_rel R' ((m ≫= k) s) ((m' ≫= k') t).
Proof.
  intros Hm Hk. unfold mbind, M_bind. destruct (m s), (m' t); try done.
  destruct Hm as [-> Hr]. by apply Hk.
Qed.

(** A step that only the left run makes. *)
Lemma outcome_rel_left {S T A B} (R : B → S → T → Prop) (m : M S A) (k : A → M S B) s (o : outcome T B) :
  wp m (λ a s', outcome_rel R (k a s') o) s → outcome_rel R ((m ≫= k) s) o.
Proof. unfold wp, mbind, M_bind. by destruct (m s). Qed.

Lemma outcome_rel_ret {S T A} (R : A → S → T → Prop) (m : M S A) a s t :
  wp m (λ b s', b = a ∧ R b s' t) s → outcome_rel R (m s) (Ret a t).
Proof. unfold wp. by destruct (m s). Qed.

Lemma outcome_rel_wp {S T A} (R : A → S → T → Prop) (m : M S A) a s t :
  outcome_rel R (m s) (Ret a t) → wp m (λ b s', b = a ∧ R b s' t) s.
Proof. unfold wp. by destruct (m s). Qed.

(** A part of the state that the right run does not have. *)
Lemma outcome_rel_zoom {S T A} (g : T → S) p (m : M S A) (R : A → T → S → Prop) t s :
  g t = s → (∀ a s', R a (p s' t) s') → outcome_rel R (zoom g p m t) (m s).
Proof. intros <- HR. unfold zoom. by destruct (m (g t)); cbn. Qed.

(** ** Tactics *)

(** Peel the straight-line structure of a program off a [wp] goal. *)
Ltac wp_step :=
  match goal with
  | |- wp (mbind _ _) _ _ => apply wp_bind
  | |- wp (mret _) _ _ => apply wp_ret
  | |- wp get _ _ => apply wp_get
  | |- wp (modify _) _ _ => apply wp_modify
  | |- wp (zoom _ _ _) _ _ => apply wp_zoom
  end.
Ltac wp_steps := repeat (wp_step; cbn beta).

Ltac wlp_step :=
  match goal with
  | |- wlp (mbind _ _) _ _ => apply wlp_bind
  | |- wlp (mret _) _ _ => apply wlp_ret
  | |- wlp get _ _ => apply wlp_get
  | |- wlp (modify _) _ _ => apply wlp_modify
  | |- wlp (zoom _ _ _) _ _ => apply wlp_zoom
  | |- wlp ub _ _ => apply wlp_ub
  end; cbn beta.
