(* ===== verification/Zephyr.v ===== *)
(** The Zephyr kernel services the pouch sources call, as an interface.

    Zephyr is not part of the repository, so its functions are parameters of the
    model: [Zephyr] lists the functions the sources use and [ZephyrSpec] the
    documented behaviour they rely on ([sys/slist.h], [sys/byteorder.h],
    [sys/atomic.h], [sys/util.h], [kernel.h] message queues).
    [zephyr_ref] is a reference implementation of the interface; the witnesses
    and examples run on it. *)
From S2P Require Import Prelude.

Class Zephyr : Type := {
  (* sys/slist.h: singly linked lists, here of the nodes' containers *)
  slist : Type → Type;
  sys_slist_init : ∀ {A}, slist A;
  sys_slist_append : ∀ {A}, slist A → A → slist A;
  sys_slist_get : ∀ {A}, slist A → option A * slist A;
  sys_slist_peek_head : ∀ {A}, slist A → option A;
  (* sys/byteorder.h *)
  sys_put_be16 : Z → list Z;
  sys_get_be16 : list Z → Z;
  sys_get_be32 : list Z → Z;
  sys_get_be64 : list Z → Z;
  (* sys/atomic.h: the value after the operation; the bit operations take the
     bit number *)
  atomic_inc : Z → Z;
  atomic_dec : Z → Z;
  atomic_set_bit : Z → Z → Z;
  atomic_clear_bit : Z → Z → Z;
  atomic_test_bit : Z → Z → bool;
  (* sys/util.h *)
  LOG2 : Z → Z;
  BIT : Z → Z;
  (* kernel.h message queues: [true] when the message was accepted *)
  msgq : Type → Type;
  k_msgq_define : ∀ {A}, Z → msgq A;
  k_msgq_put : ∀ {A}, msgq A → A → bool * msgq A;
  k_msgq_get : ∀ {A}, msgq A → option A * msgq A;
}.

(** [slist_items] and [msgq_items] are what the client sees of a queue: its
    elements, the next one to be taken first. Appending is specified for an
    element that is not linked yet: the list is intrusive, so appending a linked
    node corrupts it. [atomic_wrap] is the value an atomic counter has after
    counting to a number: that number while it fits in 32 bits, and equal to it
    modulo 2^32 always ([atomic_t] has 32 bits or more). *)
Class ZephyrSpec (Zk : Zephyr) : Type := {
  slist_items : ∀ {A}, slist A → list A;
  slist_items_init : ∀ A, slist_items (sys_slist_init (A:=A)) = [];
  slist_items_append : ∀ A (q : slist A) x,
    x ∉ slist_items q → slist_items (sys_slist_append q x) = slist_items q ++ [x];
  slist_get_empty : ∀ A (q : slist A), slist_items q = [] →
    (sys_slist_get q).1 = None ∧ slist_items (sys_slist_get q).2 = [];
  slist_get_cons : ∀ A (q : slist A) x l, slist_items q = x :: l →
    (sys_slist_get q).1 = Some x ∧ slist_items (sys_slist_get q).2 = l;
  slist_peek : ∀ A (q : slist A), sys_slist_peek_head q = head (slist_items q);

  sys_put_be16_spec : ∀ v, 0 ≤ v < 65536 → sys_put_be16 v = [v / 256; v mod 256];
  sys_get_be16_spec : ∀ a b, is_byte a → is_byte b → sys_get_be16 [a; b] = a * 256 + b;
  sys_get_be32_spec : ∀ a b c d, Forall is_byte [a; b; c; d] →
    sys_get_be32 [a; b; c; d] = ((a * 256 + b) * 256 + c) * 256 + d;
  sys_get_be64_spec : ∀ hi lo, length hi = 4%nat → length lo = 4%nat →
    Forall is_byte (hi ++ lo) →
    sys_get_be64 (hi ++ lo) = sys_get_be32 hi * 2 ^ 32 + sys_get_be32 lo;

  atomic_wrap : Z → Z;
  atomic_wrap_id : ∀ v, - 2 ^ 31 ≤ v < 2 ^ 31 → atomic_wrap v = v;
  atomic_wrap_mod : ∀ v, atomic_wrap v mod 2 ^ 32 = v mod 2 ^ 32;
  atomic_inc_spec : ∀ v, atomic_inc (atomic_wrap v) = atomic_wrap (v + 1);
  atomic_dec_spec : ∀ v, atomic_dec (atomic_wrap v) = atomic_wrap (v - 1);
  atomic_set_bit_spec : ∀ v i, 0 ≤ i < 31 → atomic_set_bit v i = Z.setbit v i;
  atomic_clear_bit_spec : ∀ v i, 0 ≤ i < 31 → atomic_clear_bit v i = Z.clearbit v i;
  atomic_test_bit_spec : ∀ v i, 0 ≤ i < 31 → atomic_test_bit v i = Z.testbit v i;

  LOG2_spec : ∀ x, 0 < x → LOG2 x = Z.log2 x;
  BIT_spec : ∀ i, 0 ≤ i < 31 → BIT i = Z.shiftl 1 i;

  msgq_items : ∀ {A}, msgq A → list A;
  msgq_depth : ∀ {A}, msgq A → Z;
  msgq_define_items : ∀ A n, msgq_items (k_msgq_define (A:=A) n) = [];
  msgq_define_depth : ∀ A n, msgq_depth (k_msgq_define (A:=A) n) = n;
  msgq_put_room : ∀ A (q : msgq A) x, zlen (msgq_items q) < msgq_depth q →
    (k_msgq_put q x).1 = true ∧
    msgq_items (k_msgq_put q x).2 = msgq_items q ++ [x] ∧
    msgq_depth (k_msgq_put q x).2 = msgq_depth q;
  msgq_put_full : ∀ A (q : msgq A) x, msgq_depth q ≤ zlen (msgq_items q) →
    k_msgq_put q x = (false, q);
  msgq_get_spec : ∀ A (q : msgq A),
    (k_msgq_get q).1 = head (msgq_items q) ∧
    msgq_items (k_msgq_get q).2 = tail (msgq_items q) ∧
    msgq_depth (k_msgq_get q).2 = msgq_depth q;
}.

(** ** Reference implementation *)

Definition be_value (l : list Z) : Z := fold_left (λ acc b, acc * 256 + b) l 0.

Definition zephyr_ref : Zephyr := {|
  slist A := list A;
  sys_slist_init A := [];
  sys_slist_append A q x := q ++ [x];
  sys_slist_get A q := (head q, tail q);
  sys_slist_peek_head A q := head q;
  sys_put_be16 v := [v / 256; v mod 256];
  sys_get_be16 := be_value;
  sys_get_be32 := be_value;
  sys_get_be64 := be_value;
  atomic_inc v := v + 1;
  atomic_dec v := v - 1;
  atomic_set_bit := Z.setbit;
  atomic_clear_bit := Z.clearbit;
  atomic_test_bit := Z.testbit;
  LOG2 := Z.log2;
  BIT i := Z.shiftl 1 i;
  msgq A := (Z * list A)%type;
  k_msgq_define A n := (n, []);
  k_msgq_put A q x := if zlen q.2 <? q.1 then (true, (q.1, q.2 ++ [x])) else (false, q);
  k_msgq_get A q := (head q.2, (q.1, tail q.2));
|}.

Lemma be_value_app_4 hi lo :
  length lo = 4%nat → be_value (hi ++ lo) = be_value hi * 2 ^ 32 + be_value lo.
Proof.
  unfold be_value. rewrite fold_left_app. intros Hlo.
  do 4 (destruct lo as [|? lo]; [done|]). destruct lo; [|done]. cbn. lia.
Qed.

Definition zephyr_ref_spec : ZephyrSpec zephyr_ref.
Proof.
  refine {| slist_items A := λ q : slist (Zephyr:=zephyr_ref) A, (q : list A);
            atomic_wrap := id;
            msgq_items A := λ q : msgq (Zephyr:=zephyr_ref) A, (q : Z * list A).2;
            msgq_depth A := λ q : msgq (Zephyr:=zephyr_ref) A, (q : Z * list A).1 |};
    cbn -[be_value Z.pow]; try done.
  all: try (intros; by subst).
  all: try (intros A q Hq; cbn in *; by rewrite Hq).
  - intros. apply be_value_app_4. done.
  - intros A [n q] x; cbn. intros Hlt. by rewrite (proj2 (Z.ltb_lt _ _) Hlt).
  - intros A [n q] x; cbn. intros Hge. by rewrite (proj2 (Z.ltb_ge _ _) Hge).
Defined.

(** ** Derived facts, stated for any implementation *)

Section facts.
Context `{ZephyrSpec}.

(** The two bytes [sys_put_be16] writes. *)
Lemma be16_length v : 0 ≤ v < 65536 → length (sys_put_be16 v) = 2%nat.
Proof. intros. by rewrite sys_put_be16_spec. Qed.

Lemma be16_bytes v : 0 ≤ v < 65536 → Forall is_byte (sys_put_be16 v).
Proof.
  intros. rewrite sys_put_be16_spec by done. unfold is_byte.
  repeat constructor; [apply Z.div_pos|apply Z.div_lt_upper_bound|
    apply Z.mod_pos_bound|apply Z.mod_pos_bound]; lia.
Qed.

Lemma get_put_be16 v : 0 ≤ v < 65536 → sys_get_be16 (sys_put_be16 v) = v.
Proof.
  intros Hv. pose proof (be16_bytes v Hv) as Hb. revert Hb.
  rewrite sys_put_be16_spec by done. intros Hb. inversion Hb as [|?? Ha Hb']; subst.
  inversion Hb'; subst. rewrite sys_get_be16_spec by done.
  pose proof (Z.div_mod v 256). lia.
Qed.

Lemma put_get_be16 a b : is_byte a → is_byte b → sys_put_be16 (sys_get_be16 [a; b]) = [a; b].
Proof.
  unfold is_byte. intros. rewrite sys_get_be16_spec by done.
  rewrite sys_put_be16_spec by lia.
  rewrite Z.div_add_l, Z.div_small, Z.add_0_r by lia.
  by rewrite Z.add_comm, Z.mod_add, Z.mod_small by lia.
Qed.

Lemma get_be16_range a b : is_byte a → is_byte b → 0 ≤ sys_get_be16 [a; b] < 65536.
Proof. unfold is_byte. intros. rewrite sys_get_be16_spec by done. lia. Qed.

Lemma atomic_inc_small v : - 2 ^ 31 ≤ v < 2 ^ 31 - 1 → atomic_inc v = v + 1.
Proof. intros. rewrite <- (atomic_wrap_id v), atomic_inc_spec, !atomic_wrap_id by lia. done. Qed.

(** The test [flags & BIT(i)] of the sources. *)
Lemma BIT_test v i : 0 ≤ i < 31 → negb (Z.land v (BIT i) =? 0) = Z.testbit v i.
Proof.
  intros. rewrite BIT_spec by done. destruct (Z.testbit v i) eqn:E.
  - apply negb_true_iff, Z.eqb_neq. intros Hz.
    assert (Z.testbit (Z.land v (Z.shiftl 1 i)) i = true) as Ht.
    { rewrite Z.land_spec, Z.shiftl_spec, Z.sub_diag, E by lia. done. }
    rewrite Hz, Z.bits_0 in Ht. done.
  - apply negb_false_iff, Z.eqb_eq. apply Z.bits_inj'. intros j Hj.
    rewrite Z.land_spec, Z.bits_0. destruct (decide (j = i)) as [->|].
    + by rewrite E.
    + rewrite Z.shiftl_1_l, Z.pow2_bits_false by lia. by rewrite andb_false_r.
Qed.
End facts.

Create Rewrite HintDb flags.
#[export] Hint Rewrite @BIT_test @atomic_set_bit_spec @atomic_clear_bit_spec
  @atomic_test_bit_spec using lia : flags.
