(* ===== verification/Config.v ===== *)
(** Build configuration: the Kconfig options of the repository and the size
    macros of [src/block.h] and [src/header.c] computed from them. *)
From S2P Require Import Prelude Zephyr.

(** The options a build chooses ([Kconfig]), and the byte order and the width of
    [size_t] of the target. *)
Class Config : Type := {
  CONFIG_POUCH_BLOCK_SIZE : Z;
  CONFIG_POUCH_ENCRYPTION_SAEAD : bool;
  CONFIG_POUCH_EVENT_QUEUE_DEPTH : Z;
  CONFIG_POUCH_SERVER_CERT_MAX_LEN : Z;
  CONFIG_POUCH_VALIDATE_SERVER_CERT : bool;
  CONFIG_POUCH_SERVER_CERT_CN : list Z;
  (* the AES-GCM option otherwise *)
  CONFIG_POUCH_ENCRYPTION_CHACHA20_POLY1305 : bool;
  CONFIG_BIG_ENDIAN : bool;
  size_bits : Z;
}.

(** What the size computations of the sources need of the configuration: a
    block whose size fits the 16 bit size field, a [size_t] of 32 bits or more, and
    room for the server certificate that an [int] can hold. *)
Class ConfigOk (Cfg : Config) : Prop := {
  block_size_range : 1 ≤ CONFIG_POUCH_BLOCK_SIZE < 65536;
  size_bits_range : 32 ≤ size_bits;
  server_cert_range : 0 < CONFIG_POUCH_SERVER_CERT_MAX_LEN < 2 ^ 31;
}.

(** The defaults of [Kconfig], on a 32 bit target. *)
Definition default_config : Config := {|
  CONFIG_POUCH_BLOCK_SIZE := 512;
  CONFIG_POUCH_ENCRYPTION_SAEAD := false;
  CONFIG_POUCH_EVENT_QUEUE_DEPTH := 4;
  CONFIG_POUCH_SERVER_CERT_MAX_LEN := 4096;
  CONFIG_POUCH_VALIDATE_SERVER_CERT := true;
  (* "pouch.golioth.io" *)
  CONFIG_POUCH_SERVER_CERT_CN :=
    [112; 111; 117; 99; 104; 46; 103; 111; 108; 105; 111; 116; 104; 46; 105; 111];
  CONFIG_POUCH_ENCRYPTION_CHACHA20_POLY1305 := true;
  CONFIG_BIG_ENDIAN := false;
  size_bits := 32;
|}.

#[export] Instance default_config_ok : ConfigOk default_config.
Proof. by split. Qed.

Section config.
Context `{Cfg : Config} `{Zk : Zephyr}.

Definition CONFIG_POUCH_AUTH_TAG_LEN : Z :=
  if CONFIG_POUCH_ENCRYPTION_SAEAD then 16 else 0.

(** Conversion to [size_t]. *)
Definition usz (x : Z) : Z := x mod 2 ^ size_bits.

(** [src/block.h] *)
Definition MAX_BLOCK_PAYLOAD_SIZE_LOG : Z := LOG2 CONFIG_POUCH_BLOCK_SIZE.
Definition MAX_BLOCK_PAYLOAD_SIZE : Z := Z.shiftl 1 MAX_BLOCK_PAYLOAD_SIZE_LOG.
Definition BLOCK_HEADER_SIZE : Z := 3.
Definition MAX_PLAINTEXT_BLOCK_SIZE : Z := BLOCK_HEADER_SIZE + MAX_BLOCK_PAYLOAD_SIZE.
Definition MAX_CIPHERTEXT_BLOCK_SIZE : Z :=
  MAX_PLAINTEXT_BLOCK_SIZE + CONFIG_POUCH_AUTH_TAG_LEN.
Definition MAX_BLOCK_SIZE_FIELD_VALUE : Z := MAX_CIPHERTEXT_BLOCK_SIZE - 2.
End config.

Section config_facts.
Context `{COk : ConfigOk} `{ZS : ZephyrSpec}.

Lemma size_max_ge : 2 ^ 32 ≤ 2 ^ size_bits.
Proof. apply Z.pow_le_mono_r; [lia|]. apply size_bits_range. Qed.

Lemma usz_small x : 0 ≤ x < 2 ^ 32 → usz x = x.
Proof. intros. pose proof size_max_ge. apply Z.mod_small. lia. Qed.

Lemma usz_range x : 0 ≤ usz x < 2 ^ size_bits.
Proof. pose proof size_max_ge. apply Z.mod_pos_bound. lia. Qed.

Lemma max_payload_range : 1 ≤ MAX_BLOCK_PAYLOAD_SIZE ≤ 32768.
Proof.
  unfold MAX_BLOCK_PAYLOAD_SIZE, MAX_BLOCK_PAYLOAD_SIZE_LOG.
  pose proof block_size_range as Hb.
  rewrite LOG2_spec, Z.shiftl_1_l by lia. split.
  - pose proof (Z.pow_pos_nonneg 2 (Z.log2 CONFIG_POUCH_BLOCK_SIZE)).
    pose proof (Z.log2_nonneg CONFIG_POUCH_BLOCK_SIZE). lia.
  - change 32768 with (2 ^ 15). apply Z.pow_le_mono_r; [lia|].
    apply Z.lt_succ_r, Z.log2_lt_pow2; [lia|]. cbn -[Z.pow]. lia.
Qed.

(** The payload limit of a block is the configured size rounded down. *)
Lemma max_payload_le : MAX_BLOCK_PAYLOAD_SIZE ≤ CONFIG_POUCH_BLOCK_SIZE.
Proof.
  unfold MAX_BLOCK_PAYLOAD_SIZE, MAX_BLOCK_PAYLOAD_SIZE_LOG.
  pose proof block_size_range as Hb.
  rewrite LOG2_spec, Z.shiftl_1_l by lia. apply Z.log2_spec. lia.
Qed.

Lemma auth_tag_range : 0 ≤ CONFIG_POUCH_AUTH_TAG_LEN ≤ 16.
Proof. unfold CONFIG_POUCH_AUTH_TAG_LEN. destruct CONFIG_POUCH_ENCRYPTION_SAEAD; lia. Qed.

(** Every block size the sources compute fits in the 16 bit size field. *)
Lemma block_sizes_range :
  4 ≤ MAX_PLAINTEXT_BLOCK_SIZE ≤ MAX_CIPHERTEXT_BLOCK_SIZE ∧
  MAX_CIPHERTEXT_BLOCK_SIZE < 32800.
Proof.
  unfold MAX_CIPHERTEXT_BLOCK_SIZE, MAX_PLAINTEXT_BLOCK_SIZE, BLOCK_HEADER_SIZE.
  pose proof max_payload_range. pose proof auth_tag_range. lia.
Qed.
End config_facts.
