(* ===== verification/Platform.v ===== *)
(** The crypto services the pouch sources call, as interfaces: PSA crypto
    ([psa/crypto.h]), X.509 certificates ([mbedtls/x509_crt.h]) and base64
    ([zephyr/sys/base64.h]).

    None of them is part of the repository. [Psa], [Mbedtls] and [Base64] list the
    functions the sources use; [PsaSpec] and [Base64Spec] state the documented
    behaviour that is relied on. Toy implementations at the end serve the
    witnesses. *)
From S2P Require Import Prelude.

(** ** PSA crypto *)

Inductive psa_algorithm := PSA_ALG_CHACHA20_POLY1305 | PSA_ALG_GCM.
Inductive psa_key_type := PSA_KEY_TYPE_CHACHA20 | PSA_KEY_TYPE_AES.
Inductive psa_key_usage :=
  | PSA_KEY_USAGE_ENCRYPT | PSA_KEY_USAGE_DECRYPT | PSA_KEY_USAGE_VERIFY_MESSAGE
  | PSA_KEY_USAGE_COPY.

#[export] Instance psa_algorithm_eq_dec : EqDecision psa_algorithm.
Proof. solve_decision. Defined.
#[export] Instance psa_key_type_eq_dec : EqDecision psa_key_type.
Proof. solve_decision. Defined.
#[export] Instance psa_key_usage_eq_dec : EqDecision psa_key_usage.
Proof. solve_decision. Defined.

(** Key attributes, as far as the sources set them; usage flags as a list. All keys
    are volatile. *)
Record psa_key_attributes := mk_attributes {
  attr_type : option psa_key_type;
  attr_bits : Z;
  attr_algorithm : option psa_algorithm;
  attr_usage : list psa_key_usage;
}.

Definition PSA_KEY_ATTRIBUTES_INIT : psa_key_attributes := mk_attributes None 0 None [].

Definition PSA_KEY_ID_NULL : Z := 0.

(** [psa_st] is the state of the implementation, its key store and its random
    generator; [psa_op] is a key derivation operation. A [bool] is the status
    [PSA_SUCCESS]; an option is absent when the call fails. The key derivation is
    set up for ECDH followed by HKDF with SHA-256, the hash is SHA-256. *)
Class Psa : Type := {
  psa_st : Type;
  psa_op : Type;
  PSA_EXPORT_PUBLIC_KEY_MAX_SIZE : Z;
  PSA_KEY_DERIVATION_OPERATION_INIT : psa_op;
  psa_key_derivation_setup : psa_op → psa_st → bool * psa_op;
  (* the private key, the peer's public key *)
  psa_key_derivation_key_agreement : Z → list Z → psa_op → psa_st → bool * psa_op;
  psa_key_derivation_input_info : list Z → psa_op → psa_st → bool * psa_op;
  psa_key_derivation_output_key : psa_key_attributes → psa_op → psa_st → option Z * psa_st;
  psa_copy_key : Z → psa_key_attributes → psa_st → option Z * psa_st;
  psa_destroy_key : Z → psa_st → psa_st;
  (* the bytes of the destination after the call *)
  psa_generate_random : Z → psa_st → bool * list Z * psa_st;
  (* the message, the room for the hash; the bytes written *)
  psa_hash_compute : list Z → Z → bool * list Z;
  (* key, algorithm, nonce, associated data, input, room for the output *)
  psa_aead_encrypt : psa_st → Z → psa_algorithm → list Z → list Z → list Z → Z → option (list Z);
  psa_aead_decrypt : psa_st → Z → psa_algorithm → list Z → list Z → list Z → Z → option (list Z);
}.

(** What the key store knows of a key. *)
Record psa_key := mk_key {
  key_material : list Z;
  key_algorithm : option psa_algorithm;
  key_usage : list psa_key_usage;
}.

(** The length of an AEAD tag. *)
Definition aead_tag_len : Z := 16.

(** [psa_keys] is the key store. Both AEADs are deterministic: [aead_seal] is what
    encryption makes of key, nonce, associated data and plaintext, a ciphertext as
    long as the plaintext and a tag behind it; decryption returns a plaintext only
    of a ciphertext and tag that encryption makes of it. A key that permits it
    encrypts and decrypts, if there is room. A key can be copied only if its usage
    flags allow it. The null id names no key. *)
Class PsaSpec (Ps : Psa) : Type := {
  psa_keys : psa_st → Z → option psa_key;
  aead_seal : psa_algorithm → list Z → list Z → list Z → list Z → list Z;
  pubkey_size_range : 0 < PSA_EXPORT_PUBLIC_KEY_MAX_SIZE;
  output_key_ok : ∀ a op s k s', psa_key_derivation_output_key a op s = (Some k, s') →
    k ≠ PSA_KEY_ID_NULL ∧ psa_keys s k = None ∧
    (∃ m, psa_keys s' k = Some (mk_key m (attr_algorithm a) (attr_usage a))) ∧
    ∀ j, j ≠ k → psa_keys s' j = psa_keys s j;
  output_key_failed : ∀ a op s s' j, psa_key_derivation_output_key a op s = (None, s') →
    psa_keys s' j = psa_keys s j;
  copy_key_ok : ∀ src a s k s', psa_copy_key src a s = (Some k, s') →
    k ≠ PSA_KEY_ID_NULL ∧ psa_keys s k = None ∧
    (∃ key usage, psa_keys s src = Some key ∧ PSA_KEY_USAGE_COPY ∈ key_usage key ∧
       psa_keys s' k = Some (mk_key (key_material key) (key_algorithm key) usage)) ∧
    ∀ j, j ≠ k → psa_keys s' j = psa_keys s j;
  copy_key_failed : ∀ src a s s' j, psa_copy_key src a s = (None, s') →
    psa_keys s' j = psa_keys s j;
  destroy_key_gone : ∀ k s, psa_keys (psa_destroy_key k s) k = None;
  destroy_key_others : ∀ k s j, j ≠ k → psa_keys (psa_destroy_key k s) j = psa_keys s j;
  null_key : ∀ s, psa_keys s PSA_KEY_ID_NULL = None;
  random_len : ∀ n s, 0 ≤ n → zlen (psa_generate_random n s).1.2 = n;
  random_bytes : ∀ n s, Forall is_byte (psa_generate_random n s).1.2;
  random_keys : ∀ n s j, psa_keys (psa_generate_random n s).2 j = psa_keys s j;
  hash_len : ∀ msg room, 0 ≤ room → zlen (psa_hash_compute msg room).2 ≤ room;
  seal_len : ∀ alg m n ad pt, zlen (aead_seal alg m n ad pt) = zlen pt + aead_tag_len;
  seal_bytes : ∀ alg m n ad pt, Forall is_byte pt → Forall is_byte (aead_seal alg m n ad pt);
  aead_encrypt_ok : ∀ s k alg n ad pt room ct,
    psa_aead_encrypt s k alg n ad pt room = Some ct →
    ∃ key, psa_keys s k = Some key ∧ ct = aead_seal alg (key_material key) n ad pt;
  aead_encrypt_seal : ∀ s k alg n ad pt room key,
    psa_keys s k = Some key → key_algorithm key = Some alg →
    PSA_KEY_USAGE_ENCRYPT ∈ key_usage key → Forall is_byte pt → zlen pt + aead_tag_len ≤ room →
    psa_aead_encrypt s k alg n ad pt room = Some (aead_seal alg (key_material key) n ad pt);
  aead_decrypt_ok : ∀ s k alg n ad ct room pt,
    psa_aead_decrypt s k alg n ad ct room = Some pt →
    Forall is_byte pt ∧
    ∃ key, psa_keys s k = Some key ∧ ct = aead_seal alg (key_material key) n ad pt;
  aead_decrypt_seal : ∀ s k alg n ad pt room key,
    psa_keys s k = Some key → key_algorithm key = Some alg →
    PSA_KEY_USAGE_DECRYPT ∈ key_usage key → Forall is_byte pt → zlen pt ≤ room →
    psa_aead_decrypt s k alg n ad (aead_seal alg (key_material key) n ad pt) room = Some pt;
}.

(** Running a PSA call in a program. *)
Definition psa {Ps : Psa} {A} (f : psa_st → A * psa_st) : M psa_st A :=
  λ s, Ret (f s).1 (f s).2.

(** ** X.509 certificates *)

(** A certificate as parsed, with the fields the sources read. Key writing is given
    the room of the destination and returns the status, the length it reports, and
    the bytes written. *)
Class Mbedtls : Type := {
  mbedtls_x509_crt : Type;
  mbedtls_ecp_keypair : Type;
  mbedtls_x509_crt_parse : list Z → option mbedtls_x509_crt;
  (* the certificate, the CA certificate, the expected common name *)
  mbedtls_x509_crt_verify : mbedtls_x509_crt → mbedtls_x509_crt → list Z → bool;
  crt_serial : mbedtls_x509_crt → list Z;
  (* the key of the certificate if it is an elliptic curve key *)
  crt_pk_ec : mbedtls_x509_crt → option mbedtls_ecp_keypair;
  mbedtls_ecp_write_public_key : mbedtls_ecp_keypair → Z → bool * Z * list Z;
  (* the certificate the build includes from CONFIG_POUCH_CA_CERT_FILENAME *)
  golioth_ca_cert : list Z;
}.

(** The bytes written fit the room; a key that was written has a length, of the
    bytes written. The room that PSA names is enough for every key, so the length
    reported stays within it. *)
Class MbedtlsSpec {Ps : Psa} (Tls : Mbedtls) : Prop := {
  write_key_room : ∀ key room, 0 ≤ room →
    zlen (mbedtls_ecp_write_public_key key room).2 ≤ room;
  write_key_ok : ∀ key room, (mbedtls_ecp_write_public_key key room).1.1 = true →
    0 < (mbedtls_ecp_write_public_key key room).1.2 ∧
    (mbedtls_ecp_write_public_key key room).1.2 = zlen (mbedtls_ecp_write_public_key key room).2;
  write_key_reported : ∀ key,
    0 ≤ (mbedtls_ecp_write_public_key key PSA_EXPORT_PUBLIC_KEY_MAX_SIZE).1.2
      ≤ PSA_EXPORT_PUBLIC_KEY_MAX_SIZE;
  golioth_ca_cert_nonempty : golioth_ca_cert ≠ [];
}.

(** ** Base64 *)

(** The room for the string and its terminator, the input; the string without the
    terminator. *)
Class Base64 : Type := { base64_encode : Z → list Z → option (list Z) }.

(** The string has four characters for every three bytes begun, none of them is the
    terminator, and the input can be told from it. *)
Class Base64Spec (B64 : Base64) : Prop := {
  base64_ok : ∀ room l, 4 * ((zlen l + 2) / 3) < room → is_Some (base64_encode room l);
  base64_len : ∀ room l x, base64_encode room l = Some x → zlen x = 4 * ((zlen l + 2) / 3);
  base64_chars : ∀ room l x, base64_encode room l = Some x → Forall (λ c, 0 < c < 128) x;
  base64_inj : ∀ room l l' x, Forall is_byte l → Forall is_byte l' → zlen l = zlen l' →
    base64_encode room l = Some x → base64_encode room l' = Some x → l = l';
}.

(** ** Toy implementations

    For witnesses and examples only: keys and tags that anyone can make. *)

(** *** Base64 (RFC 4648) *)

Definition b64_char (x : Z) : Z :=
  if x <? 26 then 65 + x else if x <? 52 then 71 + x else if x <? 62 then x - 4
  else if x =? 62 then 43 else 47.

Definition b64_group (a b c : Z) : list Z :=
  [b64_char (a / 4); b64_char (a mod 4 * 16 + b / 16); b64_char (b mod 16 * 4 + c / 64);
   b64_char (c mod 64)].

Fixpoint b64 (l : list Z) : list Z :=
  match l with
  | a :: b :: c :: l => b64_group a b c ++ b64 l
  | [a; b] => take 3 (b64_group a b 0) ++ [61]
  | [a] => take 2 (b64_group a 0 0) ++ [61; 61]
  | [] => []
  end.

Definition base64_ref : Base64 := {|
  base64_encode room l := let x := b64 (map u8 l) in if zlen x <? room then Some x else None;
|}.

(** Induction three bytes at a time. *)
Lemma b64_ind (P : list Z → Prop) :
  P [] → (∀ a, P [a]) → (∀ a b, P [a; b]) → (∀ a b c l, P l → P (a :: b :: c :: l)) → ∀ l, P l.
Proof.
  intros H0 H1 H2 H3. fix go 1. intros [|a [|b [|c l]]];
    [exact H0|exact (H1 a)|exact (H2 a b)|exact (H3 a b c l (go l))].
Qed.

Lemma b64_len l : zlen (b64 l) = 4 * ((zlen l + 2) / 3).
Proof.
  induction l as [| | |a b c l IH] using b64_ind; try done. cbn [b64].
  rewrite zlen_app, IH, !zlen_cons. change (zlen (b64_group a b c)) with 4.
  replace (1 + (1 + (1 + zlen l)) + 2) with (zlen l + 2 + 1 * 3) by lia.
  rewrite Z.div_add by lia. lia.
Qed.

Lemma b64_char_range x : 0 ≤ x → 0 < b64_char x < 128.
Proof.
  unfold b64_char. destruct (Z.ltb_spec x 26), (Z.ltb_spec x 52), (Z.ltb_spec x 62),
    (Z.eqb_spec x 62); lia.
Qed.

Lemma b64_char_inj x y : 0 ≤ x < 64 → 0 ≤ y < 64 → b64_char x = b64_char y → x = y.
Proof.
  unfold b64_char. intros ??. destruct (Z.ltb_spec x 26), (Z.ltb_spec x 52), (Z.ltb_spec x 62),
    (Z.eqb_spec x 62), (Z.ltb_spec y 26), (Z.ltb_spec y 52), (Z.ltb_spec y 62),
    (Z.eqb_spec y 62); lia.
Qed.

(** The six bit groups of three bytes. *)
Lemma b64_group_range a b c : is_byte a → is_byte b → is_byte c →
  0 ≤ a / 4 < 64 ∧ 0 ≤ a mod 4 * 16 + b / 16 < 64 ∧
  0 ≤ b mod 16 * 4 + c / 64 < 64 ∧ 0 ≤ c mod 64 < 64.
Proof. unfold is_byte. intros. split_and!; Z.to_euclidean_division_equations; lia. Qed.

Lemma b64_groups_inj a b c a' b' c' :
  is_byte a → is_byte b → is_byte c → is_byte a' → is_byte b' → is_byte c' →
  b64_group a b c = b64_group a' b' c' → a = a' ∧ b = b' ∧ c = c'.
Proof.
  intros Ha Hb Hc Ha' Hb' Hc'.
  destruct (b64_group_range a b c) as (?&?&?&?); [done..|].
  destruct (b64_group_range a' b' c') as (?&?&?&?); [done..|].
  unfold b64_group. intros [= E1 E2 E3 E4].
  apply b64_char_inj in E1, E2, E3, E4; try done. unfold is_byte in *.
  split_and!; Z.to_euclidean_division_equations; lia.
Qed.

Lemma b64_chars l : Forall is_byte l → Forall (λ c, 0 < c < 128) (b64 l).
Proof.
  assert (∀ a b c, is_byte a → is_byte b → is_byte c →
    Forall (λ c, 0 < c < 128) (b64_group a b c)) as Hg.
  { intros a b c Ha Hb Hc. destruct (b64_group_range a b c) as (?&?&?&?); [done..|].
    repeat constructor; apply b64_char_range; lia. }
  assert (is_byte 0) as H0 by done.
  induction l as [|a|a b|a b c l IH] using b64_ind; cbn [b64]; rewrite ?Forall_cons_iff.
  - done.
  - intros [Ha _]. specialize (Hg a 0 0 Ha H0 H0). apply Forall_app. split; [by apply Forall_take|].
    repeat constructor; lia.
  - intros (Ha & Hb & _). specialize (Hg a b 0 Ha Hb H0). apply Forall_app.
    split; [by apply Forall_take|]. repeat constructor; lia.
  - intros (Ha & Hb & Hc & Hl). apply Forall_app. split; [by apply Hg|by apply IH].
Qed.

Lemma b64_inj l l' : Forall is_byte l → Forall is_byte l' → length l = length l' →
  b64 l = b64 l' → l = l'.
Proof.
  revert l'. assert (is_byte 0) as H0 by done.
  induction l as [|a|a b|a b c l IH] using b64_ind; intros l' Hl Hl' Hlen; rewrite ?Forall_cons_iff in Hl.
  - by destruct l'.
  - destruct l' as [|a' [|? l']]; try done. rewrite Forall_cons_iff in Hl'. destruct Hl as [Ha _], Hl' as [Ha' _].
    cbn [b64]. intros [= E1 E2]. destruct (b64_groups_inj a 0 0 a' 0 0) as (-> & _); try done.
    unfold b64_group. by rewrite E1, E2.
  - destruct l' as [|a' [|b' [|? l']]]; try done. rewrite !Forall_cons_iff in Hl'.
    destruct Hl as (Ha & Hb & _), Hl' as (Ha' & Hb' & _).
    cbn [b64]. intros [= E1 E2 E3]. destruct (b64_groups_inj a b 0 a' b' 0) as (-> & -> & _); try done.
    unfold b64_group. by rewrite E1, E2, E3.
  - destruct l' as [|a' [|b' [|c' l']]]; try done. rewrite !Forall_cons_iff in Hl'.
    destruct Hl as (Ha & Hb & Hc & Hl), Hl' as (Ha' & Hb' & Hc' & Hl').
    cbn [b64]. intros [Hg Hr]%app_inj_1; [|done].
    destruct (b64_groups_inj a b c a' b' c') as (-> & -> & ->); try done.
    f_equal. f_equal. f_equal. apply IH; [done|done| |done]. by injection Hlen.
Qed.

Lemma map_u8_bytes l : Forall is_byte (map u8 l).
Proof. apply Forall_map, Forall_true. intros. apply u8_range. Qed.

Lemma map_u8_id l : Forall is_byte l → map u8 l = l.
Proof. induction 1 as [|x l Hx _ IH]; [done|]. cbn. by rewrite IH, u8_small. Qed.

Lemma zlen_map_u8 l : zlen (map u8 l) = zlen l.
Proof. unfold zlen. by rewrite length_map. Qed.

Definition base64_ref_spec : Base64Spec base64_ref.
Proof.
  split; cbn.
  - intros room l Hr. rewrite b64_len, zlen_map_u8. by rewrite (proj2 (Z.ltb_lt _ _) Hr).
  - intros room l x. destruct (_ <? _); [|done]. intros [= <-]. by rewrite b64_len, zlen_map_u8.
  - intros room l x. destruct (_ <? _); [|done]. intros [= <-]. apply b64_chars, map_u8_bytes.
  - intros room l l' x Hl Hl' Hn. rewrite !map_u8_id by done. destruct (_ <? _); [|done]. intros [= <-].
    destruct (_ <? _); [|done]. intros [= He]. apply b64_inj; [done|done| |done].
    unfold zlen in Hn. lia.
Qed.

(** *** PSA *)

Definition sum (l : list Z) : Z := foldr Z.add 0 l.

Definition toy_tag (m n ad pt : list Z) : list Z :=
  replicate 15 0 ++ [(sum m + 3 * sum n + 7 * sum ad + 13 * sum pt) mod 256].

Definition toy_seal (alg : psa_algorithm) (m n ad pt : list Z) : list Z := pt ++ toy_tag m n ad pt.

(** A store of keys and the seed of the random generator. *)
Definition toy_store : Type := gmap Z psa_key * Z.

Definition toy_permits (alg : psa_algorithm) (u : psa_key_usage) (key : psa_key) : bool :=
  bool_decide (key_algorithm key = Some alg ∧ u ∈ key_usage key).

(** The null id is no key. *)
Definition toy_lookup (s : toy_store) (k : Z) : option psa_key := if decide (k = PSA_KEY_ID_NULL) then None else s.1 !! k.

(** A key id that is not in use. *)
Definition toy_fresh (s : toy_store) : Z := fresh ({[0]} ∪ dom s.1 : gset Z).

Definition toy_decrypt (s : toy_store) (k : Z) (alg : psa_algorithm) (n ad ct : list Z) (room : Z)
    : option (list Z) :=
  key ← toy_lookup s k;
  let pt := take (length ct - 16) ct in
  if toy_permits alg PSA_KEY_USAGE_DECRYPT key &&
     bool_decide (ct = toy_seal alg (key_material key) n ad pt ∧ Forall is_byte pt ∧ zlen pt ≤ room)
  then Some pt else None.

Definition psa_toy : Psa := {|
  psa_st := toy_store;
  psa_op := list Z;
  PSA_EXPORT_PUBLIC_KEY_MAX_SIZE := 97;
  PSA_KEY_DERIVATION_OPERATION_INIT := [];
  psa_key_derivation_setup op s := (true, op);
  psa_key_derivation_key_agreement k peer op s := (true, op ++ k :: peer);
  psa_key_derivation_input_info info op s := (true, op ++ info);
  psa_key_derivation_output_key a op s :=
    let k := toy_fresh s in
    (Some k, (<[k := mk_key op (attr_algorithm a) (attr_usage a)]> s.1, s.2));
  psa_copy_key src a s :=
    match toy_lookup s src with
    | Some key =>
        if bool_decide (PSA_KEY_USAGE_COPY ∈ key_usage key) then
          let k := toy_fresh s in
          (Some k, (<[k := mk_key (key_material key) (key_algorithm key)
                      (filter (λ u, u ∈ key_usage key) (attr_usage a))]> s.1, s.2))
        else (None, s)
    | None => (None, s)
    end;
  psa_destroy_key k s := (delete k s.1, s.2);
  psa_generate_random n s := ((true, replicate (Z.to_nat n) (s.2 mod 256)), (s.1, s.2 + 1));
  psa_hash_compute msg room :=
    if 32 <=? room then (true, replicate 32 (sum msg mod 256)) else (false, []);
  psa_aead_encrypt s k alg n ad pt room :=
    key ← toy_lookup s k;
    if toy_permits alg PSA_KEY_USAGE_ENCRYPT key && (zlen pt + 16 <=? room)
    then Some (toy_seal alg (key_material key) n ad pt) else None;
  psa_aead_decrypt := toy_decrypt;
|}.

Lemma toy_fresh_spec s : toy_fresh s ≠ 0 ∧ s.1 !! toy_fresh s = None.
Proof.
  pose proof (is_fresh ({[0]} ∪ dom s.1 : gset Z)) as Hf. fold (toy_fresh s) in Hf.
  rewrite elem_of_union, elem_of_singleton, elem_of_dom in Hf. split; [tauto|].
  apply eq_None_not_Some. tauto.
Qed.

Lemma toy_seal_len alg m n ad pt : zlen (toy_seal alg m n ad pt) = zlen pt + aead_tag_len.
Proof. unfold toy_seal. by rewrite zlen_app. Qed.

Definition psa_toy_spec : PsaSpec psa_toy.
Proof.
  refine {| psa_keys := toy_lookup : psa_st (Psa := psa_toy) → Z → option psa_key;
            aead_seal := toy_seal |}; cbn -[toy_fresh toy_seal is_byte toy_lookup].
  - done.
  - intros a op s k s' [= <- <-]. destruct (toy_fresh_spec s) as [? Hs]. unfold toy_lookup.
    split_and!; [done|by rewrite decide_False| |].
    + exists op. rewrite decide_False by done. cbn. by rewrite lookup_insert_eq.
    + intros j Hj. cbn. by rewrite lookup_insert_ne by done.
  - done.
  - intros src a s k s'. destruct (toy_lookup s src) as [key|] eqn:Hk; [|done].
    case_bool_decide as Hc; [|done]. intros [= <- <-]. destruct (toy_fresh_spec s) as [? Hs]. unfold toy_lookup.
    split_and!; [done|by rewrite decide_False| |].
    + exists key. eexists. split_and!; [done|done|]. rewrite decide_False by done. cbn. by rewrite lookup_insert_eq.
    + intros j Hj. cbn. by rewrite lookup_insert_ne by done.
  - intros src a s s' j. destruct (toy_lookup s src) as [key|]; [|by intros [= <-]].
    case_bool_decide; [done|]. by intros [= <-].
  - intros k s. unfold toy_lookup. case_decide; [done|]. apply lookup_delete_eq.
  - intros k s j Hj. unfold toy_lookup. case_decide; [done|]. by apply lookup_delete_ne.
  - done.
  - intros n s Hn. unfold zlen. rewrite length_replicate. lia.
  - intros n s. apply Forall_replicate, u8_range.
  - done.
  - intros msg room Hr. destruct (Z.leb_spec 32 room); cbn [snd]; [|done].
    change (zlen _) with 32. lia.
  - apply toy_seal_len.
  - intros alg m n ad pt Hpt. apply Forall_app. split; [done|]. apply Forall_app.
    split; [by apply Forall_replicate|]. constructor; [apply u8_range|done].
  - intros s k alg n ad pt room ct. destruct (toy_lookup s k) as [key|]; [|done]. unfold mbind, option_bind.
    destruct (_ && _); [|done]. intros [= <-]. by exists key.
  - intros s k alg n ad pt room key -> Halg Hu _ Hroom. unfold mbind, option_bind, toy_permits.
    rewrite bool_decide_true by done. unfold aead_tag_len in Hroom. by rewrite (proj2 (Z.leb_le _ _)).
  - intros s k alg n ad ct room pt. unfold toy_decrypt. destruct (toy_lookup s k) as [key|]; [|done]. unfold mbind, option_bind.
    destruct (toy_permits _ _ _); [|done]. cbn [andb]. case_bool_decide as Hd; [|done].
    destruct Hd as (Hct & Hb & _). intros [= <-]. split; [done|]. by exists key.
  - intros s k alg n ad pt room key Hk Halg Hu Hb Hroom. unfold toy_decrypt. rewrite Hk. unfold mbind, option_bind.
    unfold toy_permits. rewrite bool_decide_true by done. cbn [andb].
    assert (take (length (toy_seal alg (key_material key) n ad pt) - 16)
      (toy_seal alg (key_material key) n ad pt) = pt) as ->.
    { unfold toy_seal at 2. rewrite take_app_le; [|unfold toy_seal; rewrite length_app; cbn; lia].
      apply take_ge. unfold toy_seal. rewrite length_app. cbn. lia. }
    by rewrite bool_decide_true by done.
Defined.

(** *** Certificates: the serial number (its length first), the flag of a valid
    signature, the public key. *)
Record toy_crt := mk_toy_crt { toy_serial : list Z; toy_signed : bool; toy_key : list Z }.

Definition mbedtls_toy : Mbedtls := {|
  mbedtls_x509_crt := toy_crt;
  mbedtls_ecp_keypair := list Z;
  mbedtls_x509_crt_parse l :=
    match l with
    | n :: s :: r =>
        if (0 <=? n) && (n <=? zlen r)
        then Some (mk_toy_crt (slice 0 n r) (s =? 1) (drop (Z.to_nat n) r)) else None
    | _ => None
    end;
  mbedtls_x509_crt_verify c ca cn := toy_signed c;
  crt_serial := toy_serial;
  crt_pk_ec c := if zlen (toy_key c) =? 0 then None else Some (toy_key c);
  mbedtls_ecp_write_public_key key room :=
    if (0 <? zlen key) && (zlen key <=? room) then (true, zlen key, key) else (false, 0, []);
  golioth_ca_cert := [1; 1; 7; 9];
|}.

Definition mbedtls_toy_spec : MbedtlsSpec (Ps := psa_toy) mbedtls_toy.
Proof.
  split; cbn.
  - intros key room Hr. destruct (Z.ltb_spec 0 (zlen key)), (Z.leb_spec (zlen key) room); done.
  - intros key room. destruct (Z.ltb_spec 0 (zlen key)), (Z.leb_spec (zlen key) room); done.
  - intros key. destruct (Z.ltb_spec 0 (zlen key)), (Z.leb_spec (zlen key) 97); cbn; lia.
  - done.
Qed.
