(* ===== verification/Buf.v ===== *)
(** Pouch buffers: [src/buf.c] and [src/buf.h].

    A buffer is a heap object: the number of bytes in use and the storage that
    was allocated with it. Every access goes through the heap and is undefined
    behaviour when the pointer is null or dangling, or when the access leaves the
    allocated storage. *)
From S2P Require Import Prelude Zephyr Config.

(** Heap locations, nullable pointers to buffers, and pointers into the storage
    of a buffer. *)
Abbreviation loc := nat (only parsing).
Abbreviation ptr := (option nat) (only parsing).
Abbreviation NULL := (@None nat) (only parsing).
Abbreviation dptr := (option nat * Z)%type (only parsing).

(** [malloc] of the C library. It may fail, and the contents of what it returns
    are arbitrary: [malloc_bytes n sz] is the outcome of the [n]-th call for an
    object with [sz] bytes of trailing storage, [malloc_obj n] whether the
    [n]-th call for an object of fixed size succeeds. *)
Class Malloc : Type := {
  malloc_bytes : nat → Z → option (list Z);
  malloc_bytes_len : ∀ n sz l, 0 ≤ sz → malloc_bytes n sz = Some l → zlen l = sz;
  malloc_bytes_range : ∀ n sz l, malloc_bytes n sz = Some l → Forall is_byte l;
  malloc_obj : nat → bool;
}.

(** [struct pouch_buf]; the list node is left to the queues that link it. *)
Record pouch_buf := mk_buf { buf_bytes : Z; buf_data : list Z }.

(** The heap, the counter [bufs] of [buf.c], and the number of [malloc] calls
    made so far, from which fresh locations are taken. *)
Record mem := mk_mem { heap : gmap nat pouch_buf; bufs : Z; mallocs : nat }.

Definition set_buf (l : loc) (b : pouch_buf) (m : mem) : mem :=
  mk_mem (<[l := b]> (heap m)) (bufs m) (mallocs m).

Definition init_mem : mem := mk_mem ∅ 0 0.

(** Buffer views: a read position in a buffer. *)
Record pouch_bufview := mk_view { view_buf : ptr; view_offset : Z }.

Section buf.
Context `{Cfg : Config} `{Zk : Zephyr} `{Mal : Malloc}.

(** *** Memory accesses *)

Definition deref (p : ptr) : M mem pouch_buf := λ m,
  match p with
  | Some l => match heap m !! l with Some b => Ret b m | None => UB end
  | None => UB
  end.

Definition update (p : ptr) (f : pouch_buf → pouch_buf) : M mem unit := λ m,
  match p with
  | Some l => match heap m !! l with Some b => Ret tt (set_buf l (f b) m) | None => UB end
  | None => UB
  end.

(** [n] bytes read from, or [d] written to, the storage at [a]. *)
Definition load_bytes (a : dptr) (n : Z) : M mem (list Z) :=
  b ← deref a.1;
  if decide (0 ≤ a.2 ∧ 0 ≤ n ∧ a.2 + n ≤ zlen (buf_data b))
  then mret (slice a.2 n (buf_data b)) else ub.

Definition store_bytes (a : dptr) (d : list Z) : M mem unit :=
  b ← deref a.1;
  if decide (0 ≤ a.2 ∧ a.2 + zlen d ≤ zlen (buf_data b))
  then update a.1 (λ b, mk_buf (buf_bytes b) (splice a.2 d (buf_data b))) else ub.

(** [memcpy] out of a caller's object [src]. *)
Definition memcpy (a : dptr) (src : list Z) (n : Z) : M mem unit :=
  if decide (0 ≤ n ≤ zlen src) then store_bytes a (slice 0 n src) else ub.

(** *** Operations on buffers *)

Definition buf_bytes_get (p : ptr) : M mem Z := b ← deref p; mret (buf_bytes b).

Definition buf_bytes_set (p : ptr) (offset : Z) : M mem unit :=
  update p (λ b, mk_buf offset (buf_data b)).

Definition buf_next (p : ptr) : M mem dptr := b ← deref p; mret (p, buf_bytes b).

Definition buf_claim (p : ptr) (n : Z) : M mem dptr :=
  b ← deref p;
  update p (λ b, mk_buf (usz (buf_bytes b + n)) (buf_data b));;
  mret (p, buf_bytes b).

Definition buf_write (p : ptr) (src : list Z) (len : Z) : M mem unit :=
  a ← buf_claim p len; memcpy a src len.

Definition POUCH_BUF_STATE_INITIAL : Z := 0.

Definition buf_state_get (p : ptr) : M mem Z := b ← deref p; mret (buf_bytes b).

Definition buf_restore (p : ptr) (state : Z) : M mem unit :=
  update p (λ b, mk_buf state (buf_data b)).

Definition buf_size_get (p : ptr) : M mem Z := b ← deref p; mret (buf_bytes b).

(** [malloc] either fails, or returns a new object. *)
Definition buf_alloc (size : Z) : M mem ptr := λ m,
  let n := mallocs m in
  match malloc_bytes n size with
  | None => Ret NULL (mk_mem (heap m) (bufs m) (S n))
  | Some junk =>
      Ret (Some n) (mk_mem (<[n := mk_buf 0 junk]> (heap m)) (atomic_inc (bufs m)) (S n))
  end.

(** [free(NULL)] does nothing, freeing a dangling pointer is undefined. *)
Definition buf_free (p : ptr) : M mem unit := λ m,
  match p with
  | None => Ret tt m
  | Some l =>
      match heap m !! l with
      | Some _ => Ret tt (mk_mem (delete l (heap m)) (atomic_dec (bufs m)) (mallocs m))
      | None => UB
      end
  end.

Definition buf_active_count : M mem Z := m ← get; mret (bufs m).

Definition buf_trim_start (p : ptr) (n : Z) : M mem Z :=
  b ← deref p;
  let n := Z.min n (buf_bytes b) in
  update p (λ b, mk_buf (usz (buf_bytes b - n)) (buf_data b));;
  b' ← deref p;
  moved ← load_bytes (p, n) (buf_bytes b');
  store_bytes (p, 0) moved;;
  mret n.

Definition buf_trim_end (p : ptr) (n : Z) : M mem Z :=
  b ← deref p;
  let n := Z.min n (buf_bytes b) in
  update p (λ b, mk_buf (usz (buf_bytes b - n)) (buf_data b));;
  mret n.

(** *** Queues of buffers

    The operations take the queue and return the queue they leave. *)

Definition buf_queue_init : slist nat := sys_slist_init.

(** Linking writes the node, so the buffer must be live. *)
Definition buf_queue_submit (q : slist nat) (p : ptr) : M mem (slist nat) :=
  deref p;;
  match p with Some l => mret (sys_slist_append q l) | None => ub end.

(** Unlinking reads the node of the first buffer. *)
Definition buf_queue_get (q : slist nat) : M mem (ptr * slist nat) :=
  match sys_slist_get q with
  | (Some l, q') => deref (Some l);; mret (Some l, q')
  | (None, q') => mret (NULL, q')
  end.

Definition buf_queue_peek (q : slist nat) : ptr := sys_slist_peek_head q.

Definition buf_queue_is_empty (q : slist nat) : bool :=
  match buf_queue_peek q with None => true | Some _ => false end.

(** *** Buffer views *)

Definition pouch_bufview_init (p : ptr) : pouch_bufview := mk_view p 0.

Definition pouch_bufview_available (v : pouch_bufview) : M mem Z :=
  match view_buf v with
  | None => mret 0
  | Some _ => b ← deref (view_buf v); mret (usz (buf_bytes b - view_offset v))
  end.

Definition bufview_read (v : pouch_bufview) (n : Z) : M mem (dptr * pouch_bufview) :=
  deref (view_buf v);;
  mret ((view_buf v, view_offset v), mk_view (view_buf v) (usz (view_offset v + n))).

(** The bytes copied to the destination, their number being what the function
    returns. *)
Definition pouch_bufview_memcpy (v : pouch_bufview) (n : Z)
    : M mem (list Z * pouch_bufview) :=
  avail ← pouch_bufview_available v;
  let n := Z.min n avail in
  '(a, v) ← bufview_read v n;
  d ← load_bytes a n;
  mret (d, v).

(** [None] is the null pointer returned when not enough is available. *)
Definition pouch_bufview_read (v : pouch_bufview) (n : Z)
    : M mem (option dptr * pouch_bufview) :=
  avail ← pouch_bufview_available v;
  if avail <? n then mret (None, v)
  else '(a, v) ← bufview_read v n; mret (Some a, v).

(** The scalar readers do not look at the number of bytes available. *)
Definition pouch_bufview_read_byte (v : pouch_bufview) : M mem (Z * pouch_bufview) :=
  '(a, v) ← bufview_read v 1;
  d ← load_bytes a 1;
  mret (match d with [x] => x | _ => 0 end, v).

Definition pouch_bufview_read_be16 (v : pouch_bufview) : M mem (Z * pouch_bufview) :=
  '(a, v) ← bufview_read v 2; d ← load_bytes a 2; mret (sys_get_be16 d, v).

Definition pouch_bufview_read_be32 (v : pouch_bufview) : M mem (Z * pouch_bufview) :=
  '(a, v) ← bufview_read v 4; d ← load_bytes a 4; mret (sys_get_be32 d, v).

Definition pouch_bufview_read_be64 (v : pouch_bufview) : M mem (Z * pouch_bufview) :=
  '(a, v) ← bufview_read v 8; d ← load_bytes a 8; mret (sys_get_be64 d, v).

Definition pouch_bufview_is_ready (v : pouch_bufview) : M mem bool :=
  match view_buf v with
  | None => mret false
  | Some _ => avail ← pouch_bufview_available v; mret (0 <? avail)
  end.

Definition pouch_bufview_free (v : pouch_bufview) : M mem pouch_bufview :=
  buf_free (view_buf v);; mret (mk_view NULL 0).
End buf.

(** ** What the operations do *)

(** A well-formed buffer: the bytes in use are inside the storage. *)
Record wf_buf (b : pouch_buf) : Prop := {
  wf_bytes : 0 ≤ buf_bytes b ≤ zlen (buf_data b);
  wf_cap : zlen (buf_data b) < 2 ^ 32;
  wf_data : Forall is_byte (buf_data b);
}.

(** The bytes in use. *)
Definition contents (b : pouch_buf) : list Z := slice 0 (buf_bytes b) (buf_data b).

Definition capacity (b : pouch_buf) : Z := zlen (buf_data b).

(** A buffer after [d] was written at its end. *)
Definition buf_append (b : pouch_buf) (d : list Z) : pouch_buf :=
  mk_buf (buf_bytes b + zlen d) (splice (buf_bytes b) d (buf_data b)).

Lemma set_buf_set_buf l b b' m : set_buf l b (set_buf l b' m) = set_buf l b m.
Proof. unfold set_buf; cbn. by rewrite insert_insert_eq. Qed.

Lemma heap_set_buf_eq l b m : heap (set_buf l b m) !! l = Some b.
Proof. apply lookup_insert_eq. Qed.

Lemma heap_set_buf_ne l l' b m : l ≠ l' → heap (set_buf l b m) !! l' = heap m !! l'.
Proof. apply lookup_insert_ne. Qed.

Lemma set_buf_id l b m : heap m !! l = Some b → set_buf l b m = m.
Proof. intros. destruct m; unfold set_buf; cbn in *. by rewrite insert_id. Qed.

#[export] Hint Resolve heap_set_buf_eq : pouch.

Section buf_pure.
Lemma contents_zlen b : wf_buf b → zlen (contents b) = buf_bytes b.
Proof. intros [? _ _]. apply zlen_slice; lia. Qed.

Lemma buf_append_contents b d :
  wf_buf b → buf_bytes b + zlen d ≤ capacity b →
  contents (buf_append b d) = contents b ++ d.
Proof. intros [? _ _] ?. apply slice_splice_append; unfold capacity in *; lia. Qed.

Lemma buf_append_capacity b d :
  wf_buf b → buf_bytes b + zlen d ≤ capacity b →
  capacity (buf_append b d) = capacity b.
Proof. intros [? _ _] ?. apply zlen_splice; unfold capacity in *; lia. Qed.

Lemma buf_append_wf b d :
  wf_buf b → buf_bytes b + zlen d ≤ capacity b → Forall is_byte d →
  wf_buf (buf_append b d).
Proof.
  intros Hwf Hd Hb. pose proof (buf_append_capacity b d Hwf Hd) as Hc.
  destruct Hwf as [? ? ?]. unfold capacity in *. pose proof (zlen_nonneg d).
  split; [|lia|]; [cbn [buf_append buf_bytes]; lia|].
  by apply Forall_splice.
Qed.

Lemma buf_append_app b d1 d2 :
  wf_buf b → buf_bytes b + zlen d1 + zlen d2 ≤ capacity b →
  buf_append (buf_append b d1) d2 = buf_append b (d1 ++ d2).
Proof.
  intros [? _ _] ?. unfold capacity, buf_append in *; cbn [buf_bytes buf_data].
  f_equal; [rewrite zlen_app; lia|]. apply splice_splice_app; lia.
Qed.

Lemma contents_bytes b : wf_buf b → Forall is_byte (contents b).
Proof. intros [_ _ ?]. by apply Forall_slice. Qed.
End buf_pure.

(** [appends b d b']: [b'] is [b] with [d] written at its end. *)
Record appends (b : pouch_buf) (d : list Z) (b' : pouch_buf) : Prop := {
  app_wf : wf_buf b';
  app_cap : capacity b' = capacity b;
  app_contents : contents b' = contents b ++ d;
}.

Lemma buf_append_appends b d :
  wf_buf b → buf_bytes b + zlen d ≤ capacity b → Forall is_byte d →
  appends b d (buf_append b d).
Proof. split; auto using buf_append_wf, buf_append_capacity, buf_append_contents. Qed.

Lemma appends_trans b d b' d' b'' :
  appends b d b' → appends b' d' b'' → appends b (d ++ d') b''.
Proof.
  intros [? Hc1 Ho1] [? Hc2 Ho2]. split; [done|congruence|].
  by rewrite Ho2, Ho1, app_assoc.
Qed.

Lemma appends_bytes b d b' : wf_buf b → appends b d b' → buf_bytes b' = buf_bytes b + zlen d.
Proof.
  intros ? [? _ Hc]. rewrite <- (contents_zlen b'), Hc, zlen_app by done.
  by rewrite contents_zlen.
Qed.

Lemma empty_contents b : buf_bytes b = 0 → contents b = [].
Proof. unfold contents. by intros ->. Qed.

#[export] Hint Resolve contents_bytes buf_append_wf : pouch.

(** The heap after an allocation that succeeded, and one that failed. *)
Definition new_buf `{Zephyr} (b : pouch_buf) (m : mem) : mem :=
  mk_mem (<[mallocs m := b]> (heap m)) (atomic_inc (bufs m)) (S (mallocs m)).

Definition no_buf (m : mem) : mem := mk_mem (heap m) (bufs m) (S (mallocs m)).

Lemma set_new_buf `{Zephyr} b b' m : set_buf (mallocs m) b' (new_buf b m) = new_buf b' m.
Proof. unfold set_buf, new_buf; cbn. by rewrite insert_insert_eq. Qed.

Lemma heap_new_buf_eq `{Zephyr} b m : heap (new_buf b m) !! mallocs m = Some b.
Proof. apply lookup_insert_eq. Qed.

Lemma heap_new_buf_ne `{Zephyr} b m l :
  l ≠ mallocs m → heap (new_buf b m) !! l = heap m !! l.
Proof. intros. by apply lookup_insert_ne. Qed.

Section buf_wp.
Context `{COk : ConfigOk} `{ZS : ZephyrSpec} `{Mal : Malloc}.
Implicit Types (m : mem) (b : pouch_buf) (l : nat) (d : list Z).

Lemma wp_deref l b Q m :
  heap m !! l = Some b → Q b m → wp (deref (Some l)) Q m.
Proof. intros Hl ?. unfold wp, deref. by rewrite Hl. Qed.

Lemma wp_update l b f Q m :
  heap m !! l = Some b → Q tt (set_buf l (f b) m) → wp (update (Some l) f) Q m.
Proof. intros Hl ?. unfold wp, update. by rewrite Hl. Qed.

Lemma wp_load l b off n Q m :
  heap m !! l = Some b → 0 ≤ off → 0 ≤ n → off + n ≤ capacity b →
  Q (slice off n (buf_data b)) m → wp (load_bytes (Some l, off) n) Q m.
Proof.
  intros Hl ???. unfold load_bytes. intros. wp_step. eapply wp_deref; [done|].
  cbn. by rewrite decide_True by (unfold capacity in *; done).
Qed.

Lemma wp_store l b off d Q m :
  heap m !! l = Some b → 0 ≤ off → off + zlen d ≤ capacity b →
  Q tt (set_buf l (mk_buf (buf_bytes b) (splice off d (buf_data b))) m) →
  wp (store_bytes (Some l, off) d) Q m.
Proof.
  intros Hl ??. unfold store_bytes. intros. wp_step. eapply wp_deref; [done|].
  cbn. rewrite decide_True by (unfold capacity in *; done). by eapply wp_update.
Qed.

Lemma wp_buf_claim l b n Q m :
  heap m !! l = Some b → wf_buf b → 0 ≤ n → buf_bytes b + n ≤ capacity b →
  Q (Some l, buf_bytes b) (set_buf l (mk_buf (buf_bytes b + n) (buf_data b)) m) →
  wp (buf_claim (Some l) n) Q m.
Proof.
  intros Hl [? Hcap _] ?? HQ. unfold capacity in *. unfold buf_claim.
  wp_step. eapply wp_deref; [done|]. wp_step. eapply wp_update; [done|].
  wp_step. by rewrite usz_small by lia.
Qed.

(** Claiming room for [d] and storing it there appends it. *)
Lemma wp_claim_store l b n d Q m :
  heap m !! l = Some b → wf_buf b → n = zlen d → buf_bytes b + n ≤ capacity b →
  Forall is_byte d →
  (∀ b', appends b d b' → Q tt (set_buf l b' m)) →
  wp (buf_claim (Some l) n) (λ a, wp (store_bytes a d) Q) m.
Proof.
  intros Hl Hwf -> ? ? HQ. pose proof (zlen_nonneg d).
  eapply wp_buf_claim; try done. cbn beta. pose proof Hwf as [? _ _].
  eapply wp_store; [apply heap_set_buf_eq|lia|unfold capacity in *; cbn; lia|].
  rewrite set_buf_set_buf. by apply (HQ (buf_append b d)), buf_append_appends.
Qed.

Lemma wp_put_last l b n d Q m :
  heap m !! l = Some b → wf_buf b → n = zlen d → buf_bytes b + n ≤ capacity b →
  Forall is_byte d →
  (∀ b', appends b d b' → Q tt (set_buf l b' m)) →
  wp (a ← buf_claim (Some l) n; store_bytes a d) Q m.
Proof. intros. wp_step. by apply (wp_claim_store l b n d). Qed.

Lemma wp_put {B} l b n d (k : unit → M mem B) Q m :
  heap m !! l = Some b → wf_buf b → n = zlen d → buf_bytes b + n ≤ capacity b →
  Forall is_byte d →
  (∀ b', appends b d b' → wp (k tt) Q (set_buf l b' m)) →
  wp (a ← buf_claim (Some l) n; store_bytes a d ≫= k) Q m.
Proof.
  intros Hl Hwf Hn Hfit Hd HQ.
  assert (wp (a ← buf_claim (Some l) n; store_bytes a d) (λ u, wp (k u) Q) m) as Hw
    by (by apply (wp_put_last l b n d)).
  revert Hw. unfold wp, mbind, M_bind. destruct (buf_claim (Some l) n m); [|done..].
  by destruct (store_bytes _ _ _).
Qed.

(** Writing [n] bytes that fit appends them. *)
Lemma wp_buf_write l b src n Q m :
  heap m !! l = Some b → wf_buf b → 0 ≤ n ≤ zlen src → buf_bytes b + n ≤ capacity b →
  Forall is_byte src →
  (∀ b', appends b (slice 0 n src) b' → Q tt (set_buf l b' m)) →
  wp (buf_write (Some l) src n) Q m.
Proof.
  intros Hl Hwf ? ? ? HQ. unfold buf_write, memcpy.
  assert (zlen (slice 0 n src) = n) as Hn by (apply zlen_slice; lia). wp_step.
  eapply wp_mono; [apply (wp_claim_store l b n (slice 0 n src) Q); try done|].
  - by apply Forall_slice.
  - intros a m' Hw; cbn in Hw |- *. by rewrite decide_True by done.
Qed.

Lemma wp_buf_size_get l b Q m :
  heap m !! l = Some b → Q (buf_bytes b) m → wp (buf_size_get (Some l)) Q m.
Proof. intros. unfold buf_size_get. wp_step. eapply wp_deref; [done|]. by wp_step. Qed.

(** Allocation: the two outcomes. *)
Lemma wp_buf_alloc sz Q m :
  0 ≤ sz →
  (∀ junk, malloc_bytes (mallocs m) sz = Some junk →
     zlen junk = sz → Forall is_byte junk →
     Q (Some (mallocs m)) (new_buf (mk_buf 0 junk) m)) →
  (malloc_bytes (mallocs m) sz = None → Q NULL (no_buf m)) →
  wp (buf_alloc sz) Q m.
Proof.
  intros Hsz HS HN. unfold wp, buf_alloc.
  destruct (malloc_bytes (mallocs m) sz) as [junk|] eqn:E; [|by apply HN].
  apply HS; [done| |]; eauto using malloc_bytes_len, malloc_bytes_range.
Qed.

Lemma wp_buf_free l b Q m :
  heap m !! l = Some b →
  Q tt (mk_mem (delete l (heap m)) (atomic_dec (bufs m)) (mallocs m)) →
  wp (buf_free (Some l)) Q m.
Proof. intros Hl ?. unfold wp, buf_free. by rewrite Hl. Qed.

Lemma wp_trim_end l b n Q m :
  heap m !! l = Some b → wf_buf b → 0 ≤ n →
  Q (Z.min n (buf_bytes b))
    (set_buf l (mk_buf (buf_bytes b - Z.min n (buf_bytes b)) (buf_data b)) m) →
  wp (buf_trim_end (Some l) n) Q m.
Proof.
  intros Hl [? ? _] ? HQ. unfold buf_trim_end. wp_step. eapply wp_deref; [done|].
  wp_step. eapply wp_update; [done|]. wp_step. cbn.
  rewrite usz_small by lia. done.
Qed.

Lemma wp_trim_start l b n Q m :
  heap m !! l = Some b → wf_buf b → 0 ≤ n ≤ buf_bytes b →
  (∀ b', wf_buf b' → capacity b' = capacity b →
     contents b' = slice n (buf_bytes b - n) (buf_data b) →
     Q n (set_buf l b' m)) →
  wp (buf_trim_start (Some l) n) Q m.
Proof.
  intros Hl [? Hcap Hb] ? HQ. unfold buf_trim_start. wp_step. eapply wp_deref; [done|].
  wp_step. eapply wp_update; [done|]. cbn. rewrite Z.min_l, usz_small by lia.
  wp_step. eapply wp_deref; [apply heap_set_buf_eq|]. cbn.
  wp_step. eapply wp_load; [apply heap_set_buf_eq|lia|lia|unfold capacity; cbn; lia|].
  cbn. set (moved := slice n _ _).
  assert (zlen moved = buf_bytes b - n) as Hlen by (apply zlen_slice; lia).
  wp_step. eapply wp_store; [apply heap_set_buf_eq|lia|unfold capacity; cbn; lia|].
  cbn. rewrite !set_buf_set_buf. wp_step.
  pose proof (zlen_splice 0 moved (buf_data b)) as Hsp.
  apply HQ; [split; cbn| |].
  - lia.
  - lia.
  - apply Forall_splice; [done|]. by apply Forall_slice.
  - unfold capacity; cbn. lia.
  - unfold contents; cbn. rewrite <- Hlen at 1. by rewrite slice_splice_eq by lia.
Qed.
End buf_wp.

(** ** Views as readers

    [view_rest m v r]: the bytes still to be read through [v] are [r]. *)
Definition view_rest (m : mem) (v : pouch_bufview) (r : list Z) : Prop :=
  ∃ l b, view_buf v = Some l ∧ heap m !! l = Some b ∧ wf_buf b ∧
    0 ≤ view_offset v ≤ buf_bytes b ∧
    slice (view_offset v) (buf_bytes b - view_offset v) (buf_data b) = r.

Lemma view_rest_init m l b :
  heap m !! l = Some b → wf_buf b → view_rest m (pouch_bufview_init (Some l)) (contents b).
Proof.
  intros Hl Hwf. exists l, b. destruct Hwf as [? ? ?]. repeat split; cbn; try done; try lia.
  unfold contents. by rewrite Z.sub_0_r.
Qed.

Lemma view_rest_split m v d r :
  view_rest m v (d ++ r) →
  ∃ l b, view_buf v = Some l ∧ heap m !! l = Some b ∧ wf_buf b ∧
    0 ≤ view_offset v ∧ view_offset v + zlen d ≤ buf_bytes b ∧
    slice (view_offset v) (zlen d) (buf_data b) = d ∧
    view_rest m (mk_view (Some l) (view_offset v + zlen d)) r.
Proof.
  intros (l & b & Hv & Hl & Hwf & Ho & Hr). pose proof Hwf as [? ? ?].
  pose proof (f_equal zlen Hr) as Hlen. rewrite zlen_slice, zlen_app in Hlen by lia.
  pose proof (zlen_nonneg d). pose proof (zlen_nonneg r).
  pose proof (slice_slice (view_offset v) (buf_bytes b - view_offset v) 0 (zlen d)
    (buf_data b)) as Hd.
  pose proof (slice_slice (view_offset v) (buf_bytes b - view_offset v) (zlen d) (zlen r)
    (buf_data b)) as Hr'.
  rewrite Hr, slice_prefix, Z.add_0_r in Hd by lia.
  rewrite Hr, slice_shift, slice_0_all in Hr' by lia.
  exists l, b. repeat split; try done; try lia; [symmetry; apply Hd; lia|].
  exists l, b. repeat split; cbn; try done; try lia.
  replace (buf_bytes b - _) with (zlen r) by lia. symmetry. apply Hr'; lia.
Qed.

Lemma view_rest_bytes m v r : view_rest m v r → Forall is_byte r.
Proof. intros (l & b & _ & _ & [_ _ ?] & _ & <-). by apply Forall_slice. Qed.

Section view_wp.
Context `{COk : ConfigOk} `{ZS : ZephyrSpec}.
Implicit Types (m : mem) (b : pouch_buf) (v : pouch_bufview) (d r : list Z).

Lemma wp_available m v r Q :
  view_rest m v r → Q (zlen r) m → wp (pouch_bufview_available v) Q m.
Proof.
  intros (l & b & Hv & Hl & [? ? ?] & Ho & Hr) HQ. unfold pouch_bufview_available.
  rewrite Hv. wp_step. eapply wp_deref; [done|]. wp_step.
  pose proof (f_equal zlen Hr) as Hlen. rewrite zlen_slice in Hlen by lia.
  rewrite usz_small by lia. by rewrite Hlen.
Qed.

Lemma wp_bufview_read m v d r Q n :
  view_rest m v (d ++ r) → n = zlen d →
  (∀ l b, view_buf v = Some l → heap m !! l = Some b → wf_buf b → 0 ≤ view_offset v →
     view_offset v + n ≤ buf_bytes b → slice (view_offset v) n (buf_data b) = d →
     view_rest m (mk_view (Some l) (view_offset v + n)) r →
     Q ((Some l, view_offset v), mk_view (Some l) (view_offset v + n)) m) →
  wp (bufview_read v n) Q m.
Proof.
  intros (l & b & Hv & Hl & Hwf & Ho & Hle & Hd & Hr)%view_rest_split -> HQ.
  unfold bufview_read. rewrite Hv. wp_step. eapply wp_deref; [done|]. wp_step.
  destruct Hwf as [? ? ?]. pose proof (zlen_nonneg d). rewrite usz_small by lia. by eapply HQ.
Qed.

(** Reading the bytes [d] that come next. *)
Lemma wp_view_load m v d r Q n :
  view_rest m v (d ++ r) → n = zlen d →
  (∀ v', view_buf v' = view_buf v → view_rest m v' r → Q (d, v') m) →
  wp ('(a, v') ← bufview_read v n; x ← load_bytes a n; mret (x, v')) Q m.
Proof.
  intros Hr -> HQ. wp_step. eapply wp_bufview_read; [done|done|].
  intros l b Hv Hl [? ? ?] ? ? Hd Hr'. pose proof (zlen_nonneg d). wp_step.
  eapply wp_load; [done|lia|lia|unfold capacity; lia|]. rewrite Hd. wp_step. apply HQ; [|done].
  by rewrite Hv.
Qed.

Lemma wp_read_be16 m v x r Q :
  0 ≤ x < 65536 → view_rest m v (sys_put_be16 x ++ r) →
  (∀ v', view_buf v' = view_buf v → view_rest m v' r → Q (x, v') m) →
  wp (pouch_bufview_read_be16 v) Q m.
Proof.
  intros Hx Hr HQ. unfold pouch_bufview_read_be16. wp_step.
  assert (2 = zlen (sys_put_be16 x)) as H2 by (unfold zlen; by rewrite be16_length).
  eapply wp_bufview_read; [done|done|].
  intros l b Hv Hl [? ? ?] ? ? Hd Hr'. wp_step.
  eapply wp_load; [done|lia|lia|unfold capacity; lia|]. rewrite Hd, get_put_be16 by done.
  wp_step. apply HQ; [|done]. by rewrite Hv.
Qed.

Lemma wp_read_byte m v x r Q :
  view_rest m v (x :: r) →
  (∀ v', view_buf v' = view_buf v → view_rest m v' r → Q (x, v') m) →
  wp (pouch_bufview_read_byte v) Q m.
Proof.
  intros Hr HQ. unfold pouch_bufview_read_byte. wp_step.
  eapply (wp_bufview_read m v [x] r); [done|done|].
  intros l b Hv Hl [? ? ?] ? ? Hd Hr'. wp_step.
  eapply wp_load; [done|lia|lia|unfold capacity; lia|]. rewrite Hd. wp_step.
  apply HQ; [|done]. by rewrite Hv.
Qed.

(** The checked reader returns a pointer to the bytes [d] that come next. *)
Lemma wp_view_read m v d r Q n :
  view_rest m v (d ++ r) → n = zlen d →
  (∀ a v', view_buf v' = view_buf v → view_rest m v' r →
     (∀ Q', Q' d m → wp (load_bytes a n) Q' m) → Q (Some a, v') m) →
  wp (pouch_bufview_read v n) Q m.
Proof.
  intros Hr -> HQ. unfold pouch_bufview_read. wp_step. eapply wp_available; [done|].
  pose proof (zlen_nonneg r). pose proof (zlen_nonneg d).
  rewrite zlen_app. destruct (Z.ltb_spec (zlen d + zlen r) (zlen d)); [lia|].
  wp_step. eapply wp_bufview_read; [done|done|].
  intros l b Hv Hl [? ? ?] ? ? Hd Hr'. wp_step. apply HQ; [by rewrite Hv|done|].
  intros Q' HQ'. eapply wp_load; [done|lia|lia|unfold capacity; lia|]. by rewrite Hd.
Qed.

(** Reading no bytes gives a pointer to the read position. *)
Lemma wp_view_peek m l off r Q :
  view_rest m (mk_view (Some l) off) r →
  Q (Some (Some l, off), mk_view (Some l) off) m → wp (pouch_bufview_read (mk_view (Some l) off) 0) Q m.
Proof.
  intros Hr HQ. unfold pouch_bufview_read. wp_step. eapply wp_available; [exact Hr|].
  pose proof (zlen_nonneg r). destruct (Z.ltb_spec (zlen r) 0); [lia|]. wp_step.
  eapply (wp_bufview_read _ _ [] r); [exact Hr|done|].
  intros l' b [= <-] _ _ _ _ _ _. wp_step. cbn [view_offset]. by rewrite Z.add_0_r.
Qed.

(** Loading bytes ahead of the read position. *)
Lemma wp_load_ahead m l off d1 d r Q a n :
  view_rest m (mk_view (Some l) off) (d1 ++ d ++ r) → a = off + zlen d1 → n = zlen d →
  Q d m → wp (load_bytes (Some l, a) n) Q m.
Proof.
  intros Hr -> -> HQ. pose proof (zlen_nonneg d1). pose proof (zlen_nonneg d).
  apply view_rest_split in Hr as (l' & b & [= <-] & Hl & [? ? ?] & Ho & Hle & _ & Hr).
  apply view_rest_split in Hr as (l' & b' & [= <-] & Hl' & _ & _ & Hle' & Hd & _).
  rewrite Hl in Hl'. injection Hl' as <-. cbn [view_offset] in *.
  eapply wp_load; [exact Hl|lia|lia|unfold capacity; lia|]. by rewrite Hd.
Qed.

(** It returns null, and leaves the view, when not enough is available. *)
Lemma wp_view_read_short m v r Q n :
  view_rest m v r → zlen r < n → Q (None, v) m → wp (pouch_bufview_read v n) Q m.
Proof.
  intros Hr Hn HQ. unfold pouch_bufview_read. wp_step. eapply wp_available; [done|].
  by destruct (Z.ltb_spec (zlen r) n); [|lia].
Qed.

(** Copying takes as much as there is. *)
Lemma wp_view_memcpy m v r Q n :
  view_rest m v r → 0 ≤ n →
  (∀ v', view_buf v' = view_buf v → view_rest m v' (drop (Z.to_nat n) r) →
     Q (take (Z.to_nat n) r, v') m) →
  wp (pouch_bufview_memcpy v n) Q m.
Proof.
  intros Hr Hn HQ. unfold pouch_bufview_memcpy. wp_step. eapply wp_available; [done|].
  apply (wp_view_load m v (take (Z.to_nat n) r) (drop (Z.to_nat n) r)); [| |done].
  - by rewrite take_drop.
  - unfold zlen. rewrite length_take. lia.
Qed.
End view_wp.

(** ** Views on a buffer whose contents are not known

    The scalar readers leave the heap as it is and move on, or their access is
    outside the storage and undefined; the checked reader may jump ahead. *)
Section view_wlp.
Context `{COk : ConfigOk} `{ZS : ZephyrSpec}.
Implicit Types (m : mem) (b : pouch_buf) (v : pouch_bufview).

Lemma wlp_view_load {A} m l b off n (f : list Z → A) Q :
  heap m !! l = Some b → zlen (buf_data b) < 2 ^ 31 → 0 ≤ off → 0 ≤ n ≤ 8 →
  (off + n ≤ zlen (buf_data b) →
     Q (f (slice off n (buf_data b)), mk_view (Some l) (off + n)) m) →
  wlp ('(a, v) ← bufview_read (mk_view (Some l) off) n;
       d ← load_bytes a n; mret (f d, v)) Q m.
Proof.
  intros Hl Hc Ho Hn HQ. wlp_step. unfold bufview_read. wlp_step.
  apply wp_wlp. eapply wp_deref; [done|]. do 2 wlp_step. unfold load_bytes. wlp_step.
  apply wp_wlp. eapply wp_deref; [done|]. cbn [fst snd view_buf view_offset].
  case_decide as Hin; [|apply wlp_ub]. do 2 wlp_step. rewrite usz_small by lia.
  apply HQ. lia.
Qed.

Lemma wlp_read_be16 m l b off Q :
  heap m !! l = Some b → wf_buf b → zlen (buf_data b) < 2 ^ 31 → 0 ≤ off →
  (∀ x, 0 ≤ x < 65536 → off + 2 ≤ zlen (buf_data b) → Q (x, mk_view (Some l) (off + 2)) m) →
  wlp (pouch_bufview_read_be16 (mk_view (Some l) off)) Q m.
Proof.
  intros Hl [_ _ Hb] Hc Ho HQ. eapply wlp_view_load; [done|done|done|lia|]. intros Hle.
  apply HQ; [|done]. apply (Forall_slice _ off 2) in Hb.
  assert (length (slice off 2 (buf_data b)) = 2%nat) as Hlen
    by (pose proof (zlen_slice off 2 (buf_data b)); unfold zlen in *; lia).
  destruct (slice off 2 (buf_data b)) as [|x1 [|x2 [|??]]]; try done.
  apply Forall_cons_iff in Hb as [? [? _]%Forall_cons_iff]. by apply get_be16_range.
Qed.

Lemma wlp_read_byte m l b off Q :
  heap m !! l = Some b → wf_buf b → zlen (buf_data b) < 2 ^ 31 → 0 ≤ off →
  (∀ x, 0 ≤ x < 256 → off + 1 ≤ zlen (buf_data b) → Q (x, mk_view (Some l) (off + 1)) m) →
  wlp (pouch_bufview_read_byte (mk_view (Some l) off)) Q m.
Proof.
  intros Hl [_ _ Hb] Hc Ho HQ.
  eapply (wlp_view_load _ _ _ _ _ (λ d, match d with [x] => x | _ => 0 end));
    [done|done|done|lia|]. intros Hle.
  apply HQ; [|done]. apply (Forall_slice _ off 1) in Hb.
  destruct (slice off 1 (buf_data b)) as [|x1 [|??]]; try lia.
  apply Forall_cons_iff in Hb as [Hb _]. exact Hb.
Qed.

Lemma wlp_load m l b off n Q :
  heap m !! l = Some b → (∀ d, Q d m) → wlp (load_bytes (Some l, off) n) Q m.
Proof.
  intros Hl HQ. unfold load_bytes. wlp_step. apply wp_wlp. eapply wp_deref; [done|].
  case_decide; wlp_step. apply HQ.
Qed.

Lemma wlp_view_read m l b off n Q :
  heap m !! l = Some b → zlen (buf_data b) < 2 ^ 31 →
  0 ≤ off ≤ zlen (buf_data b) + 256 → 0 ≤ n < 65536 →
  (∀ r off', off ≤ off' ≤ off + n →
     (r = None ∨ r = Some (Some l, off)) → Q (r, mk_view (Some l) off') m) →
  wlp (pouch_bufview_read (mk_view (Some l) off) n) Q m.
Proof.
  intros Hl Hc Ho Hn HQ. unfold pouch_bufview_read, pouch_bufview_available. cbn [view_buf].
  do 2 wlp_step. apply wp_wlp. eapply wp_deref; [done|]. wlp_step.
  destruct (_ <? n); [wlp_step; apply HQ; [lia|by left]|]. unfold bufview_read. do 2 wlp_step.
  apply wp_wlp. eapply wp_deref; [done|]. do 2 wlp_step. cbn [view_offset].
  rewrite usz_small by lia. apply HQ; [lia|by right].
Qed.

Lemma wlp_available m l b off Q :
  heap m !! l = Some b → (∀ x, Q x m) →
  wlp (pouch_bufview_available (mk_view (Some l) off)) Q m.
Proof.
  intros Hl HQ. unfold pouch_bufview_available. cbn [view_buf]. wlp_step.
  apply wp_wlp. eapply wp_deref; [done|]. by wlp_step.
Qed.
End view_wlp.

(** ** Queues, seen as lists *)

Section queue_wp.
Context `{ZS : ZephyrSpec}.
Implicit Types (m : mem) (q : slist nat).

Lemma queue_is_empty_spec q : buf_queue_is_empty q = bool_decide (slist_items q = []).
Proof.
  unfold buf_queue_is_empty, buf_queue_peek. rewrite slist_peek.
  by destruct (slist_items q).
Qed.

Lemma wp_queue_submit q l b m Q :
  heap m !! l = Some b → l ∉ slist_items q →
  (∀ q', slist_items q' = slist_items q ++ [l] → Q q' m) →
  wp (buf_queue_submit q (Some l)) Q m.
Proof.
  intros Hl Hq HQ. unfold buf_queue_submit. wp_step. eapply wp_deref; [done|].
  wp_step. apply HQ. by apply slist_items_append.
Qed.

Lemma wp_queue_get_empty q m Q :
  slist_items q = [] → (∀ q', slist_items q' = [] → Q (NULL, q') m) →
  wp (buf_queue_get q) Q m.
Proof.
  intros Hq HQ. unfold buf_queue_get. destruct (slist_get_empty _ _ Hq) as [H1 H2].
  destruct (sys_slist_get q) as [o q']; cbn in *; subst. wp_step. by apply HQ.
Qed.

Lemma wp_queue_get_cons q l ls b m Q :
  slist_items q = l :: ls → heap m !! l = Some b →
  (∀ q', slist_items q' = ls → Q (Some l, q') m) →
  wp (buf_queue_get q) Q m.
Proof.
  intros Hq Hl HQ. unfold buf_queue_get. destruct (slist_get_cons _ _ _ _ Hq) as [H1 H2].
  destruct (sys_slist_get q) as [o q']; cbn in *; subst. wp_step.
  eapply wp_deref; [done|]. wp_step. by apply HQ.
Qed.
End queue_wp.

(** ** Ownership of the heap

    [heap_owns m ls]: the live buffers are exactly those of [ls], each once and
    well formed, the counter of [buf.c] counts them, and fresh locations are
    fresh. *)
Section owns.
Context `{COk : ConfigOk} `{ZS : ZephyrSpec} `{Mal : Malloc}.
Implicit Types (m : mem) (b : pouch_buf) (l : nat) (ls : list nat).

Record heap_owns (m : mem) (ls : list nat) : Prop := {
  owns_nodup : NoDup ls;
  owns_dom : ∀ l, l ∈ ls ↔ is_Some (heap m !! l);
  owns_wf : ∀ l b, heap m !! l = Some b → wf_buf b;
  owns_fresh : ∀ l, l ∈ ls → (l < mallocs m)%nat;
  owns_count : bufs m = atomic_wrap (zlen ls);
}.

#[export] Instance heap_owns_proper m : Proper ((≡ₚ) ==> iff) (heap_owns m).
Proof.
  assert (∀ ls ls', ls ≡ₚ ls' → heap_owns m ls → heap_owns m ls') as Himp.
  { intros ls ls' Hp [? ? ? ? Hc]. split.
    - by rewrite <- Hp.
    - intros l. rewrite <- Hp. done.
    - done.
    - intros l Hl. rewrite <- Hp in Hl. auto.
    - rewrite Hc. unfold zlen. by rewrite Hp. }
  intros ls ls' Hp. split; apply Himp; [done|by symmetry].
Qed.

Lemma owns_init : heap_owns init_mem [].
Proof.
  split; cbn.
  - constructor.
  - intros l. rewrite lookup_empty, elem_of_nil. split; [done|by intros [? ?]].
  - intros l b. by rewrite lookup_empty.
  - intros l. by rewrite elem_of_nil.
  - by rewrite atomic_wrap_id.
Qed.

Lemma owns_lookup m ls l : heap_owns m ls → l ∈ ls → ∃ b, heap m !! l = Some b ∧ wf_buf b.
Proof. intros H Hl. apply (owns_dom _ _ H) in Hl as [b Hb]. eauto using owns_wf. Qed.

(** Buffers change in place. *)
Lemma owns_set_buf m ls l b :
  heap_owns m ls → l ∈ ls → wf_buf b → heap_owns (set_buf l b m) ls.
Proof.
  intros [? Hd Hw ? ?] Hl Hb. split; cbn; try done.
  - intros k. rewrite Hd in *. rewrite lookup_insert. case_decide; subst; [|done].
    split; by eauto.
  - intros k c. rewrite lookup_insert. case_decide; [by intros [= <-]|apply Hw].
Qed.

Lemma owns_new_buf m ls b :
  heap_owns m ls → wf_buf b → heap_owns (new_buf b m) (mallocs m :: ls).
Proof.
  intros [Hn Hd Hw Hf Hc] Hb. assert (mallocs m ∉ ls) as Hfresh.
  { intros Hl. apply Hf in Hl. lia. }
  split; cbn.
  - by apply list.NoDup_cons.
  - intros k. rewrite elem_of_cons, Hd, lookup_insert.
    case_decide; subst; split; eauto; intros [?|?]; congruence || done.
  - intros k c. rewrite lookup_insert. case_decide; [by intros [= <-]|apply Hw].
  - intros k [->|Hk]%elem_of_cons; [lia|]. apply Hf in Hk. lia.
  - rewrite Hc, atomic_inc_spec, zlen_cons. f_equal. lia.
Qed.

Lemma owns_no_buf m ls : heap_owns m ls → heap_owns (no_buf m) ls.
Proof.
  intros [Hn Hd Hw Hf Hc]. split; cbn; try done. intros l Hl. apply Hf in Hl. lia.
Qed.

(** Freeing an owned buffer gives it up. *)
Lemma wp_free_owned m ls l Q :
  heap_owns m (l :: ls) →
  (∀ m', heap_owns m' ls → mallocs m' = mallocs m →
     (∀ k, k ≠ l → heap m' !! k = heap m !! k) → Q tt m') →
  wp (buf_free (Some l)) Q m.
Proof.
  intros H HQ. pose proof H as [Hn Hd Hw Hf Hc].
  destruct (owns_lookup _ _ l H) as (b & Hl & _); [by apply elem_of_cons; left|].
  apply list.NoDup_cons in Hn as [Hnl Hn]. eapply wp_buf_free; [done|].
  apply HQ; [|done|intros; by apply lookup_delete_ne]. split; cbn; try done.
  - intros k. rewrite lookup_delete. case_decide as Hk.
    + subst. split; [done|by intros [? ?]].
    + rewrite <- Hd, elem_of_cons. split; [by right|]. intros [?|?]; congruence || done.
  - intros k c. rewrite lookup_delete. case_decide; [done|apply Hw].
  - intros k Hk. apply Hf. by apply elem_of_cons; right.
  - rewrite Hc, atomic_dec_spec, zlen_cons. f_equal. lia.
Qed.

(** Freeing what a pointer refers to, if anything. *)
Lemma wp_free_opt m p ls Q :
  heap_owns m (option_list p ++ ls) →
  (∀ m', heap_owns m' ls → mallocs m' = mallocs m →
     (∀ k, k ∈ ls → heap m' !! k = heap m !! k) → Q tt m') →
  wp (buf_free p) Q m.
Proof.
  intros H HQ. destruct p as [l|]; [|by apply HQ].
  eapply wp_free_owned; [exact H|]. intros m' Hm' Hn Hk. apply HQ; [done|done|].
  intros k Hin. apply Hk. intros ->. apply owns_nodup in H.
  by apply list.NoDup_cons in H as [? _].
Qed.
End owns.
