(* ===== verification/Block.v ===== *)
(** Blocks: [src/block.c] and [src/block.h].

    A block is a buffer that starts with its size (two bytes, big endian, not
    counting themselves) and an id byte: the stream id in the low five bits, the
    first-block and last-block marks above. *)
From S2P Require Import Prelude Zephyr Config Buf.

Definition BLOCK_ID_MASK : Z := 0x1f.
Definition BLOCK_ID_ENTRY : Z := 0x00.
Definition FIRST_DATA_MASK : Z := 0x40.
Definition LAST_DATA_MASK : Z := 0x80.

(** The results of [block_decode_hdr]. *)
Record block_hdr := mk_hdr {
  hdr_block_size : Z;
  hdr_stream_id : Z;
  hdr_is_stream : bool;
  hdr_is_first : bool;
  hdr_is_last : bool;
}.

Section block.
Context `{Cfg : Config} `{Zk : Zephyr} `{Mal : Malloc}.

Definition block_decode_hdr (v : pouch_bufview) : M mem (block_hdr * pouch_bufview) :=
  if decide (view_offset v = 0) then
    '(block_size, v) ← pouch_bufview_read_be16 v;
    '(id, v) ← pouch_bufview_read_byte v;
    let stream_id := Z.land id BLOCK_ID_MASK in
    mret (mk_hdr block_size stream_id
            (negb (stream_id =? BLOCK_ID_ENTRY))
            (negb (Z.land id FIRST_DATA_MASK =? 0))
            (negb (Z.land id LAST_DATA_MASK =? 0)), v)
  else ub.

Definition update_block_header (block : ptr) (size flags : Z) : M mem unit :=
  a ← buf_claim block 2; store_bytes a (sys_put_be16 (u16 size));;
  a ← buf_claim block 1;
  x ← load_bytes a 1;
  store_bytes a (map (λ x, u8 (Z.lor x flags)) x).

Definition write_block_header (block : ptr) (size id flags : Z) : M mem unit :=
  a ← buf_claim block 2; store_bytes a (sys_put_be16 (u16 size));;
  a ← buf_claim block 1; store_bytes a [u8 (Z.lor id flags)].

Definition block_size_get (block : ptr) : M mem Z := buf_size_get block.

Definition block_space_get (block : ptr) : M mem Z :=
  size ← block_size_get block; mret (usz (MAX_PLAINTEXT_BLOCK_SIZE - size)).

Definition block_size_write (block : ptr) (size : Z) : M mem unit :=
  a ← buf_claim block 2; store_bytes a (sys_put_be16 (u16 size)).

Definition block_alloc : M mem ptr :=
  block ← buf_alloc MAX_PLAINTEXT_BLOCK_SIZE;
  match block with
  | Some _ =>
      write_block_header block 0 BLOCK_ID_ENTRY (Z.lor FIRST_DATA_MASK LAST_DATA_MASK);;
      mret block
  | None => mret block
  end.

Definition block_alloc_stream (stream_id : Z) (first : bool) : M mem ptr :=
  block ← buf_alloc MAX_PLAINTEXT_BLOCK_SIZE;
  match block with
  | Some _ =>
      write_block_header block 0 stream_id (if first then FIRST_DATA_MASK else 0);;
      mret block
  | None => mret block
  end.

Definition block_free (block : ptr) : M mem unit := buf_free block.

Definition finish (block : ptr) (id flags : Z) : M mem unit :=
  size ← block_size_get block;
  state ← buf_state_get block;
  buf_restore block POUCH_BUF_STATE_INITIAL;;
  update_block_header block (usz (size - 2)) flags;;
  buf_restore block state.

Definition block_finish (block : ptr) : M mem unit :=
  finish block BLOCK_ID_ENTRY (Z.lor FIRST_DATA_MASK LAST_DATA_MASK).

Definition block_finish_stream (block : ptr) (stream_id : Z) (last : bool) : M mem unit :=
  finish block stream_id (if last then LAST_DATA_MASK else 0).
End block.

(** ** Specification *)

(** The id byte of a block. *)
Definition block_id_byte (id : Z) (first last : bool) : Z :=
  Z.lor (Z.lor id (if first then FIRST_DATA_MASK else 0)) (if last then LAST_DATA_MASK else 0).

Section block_spec.
Context `{COk : ConfigOk} `{ZS : ZephyrSpec} `{Mal : Malloc}.
Implicit Types (m : mem) (b : pouch_buf) (l : nat).

(** A finished block on the wire. *)
Definition block_bytes (id : Z) (first last : bool) (payload : list Z) : list Z :=
  sys_put_be16 (1 + zlen payload) ++ block_id_byte id first last :: payload.

(** A block under construction: its size field still zero, no last mark. *)
Record open_block (b : pouch_buf) (idb : Z) (payload : list Z) : Prop := {
  ob_wf : wf_buf b;
  ob_cap : capacity b = MAX_PLAINTEXT_BLOCK_SIZE;
  ob_contents : contents b = sys_put_be16 0 ++ idb :: payload;
}.

Lemma be16_zlen v : 0 ≤ v < 65536 → zlen (sys_put_be16 v) = 2.
Proof. intros. unfold zlen. by rewrite be16_length. Qed.

Lemma block_bytes_zlen id first last payload :
  zlen payload < 65535 → zlen (block_bytes id first last payload) = 3 + zlen payload.
Proof.
  intros. pose proof (zlen_nonneg payload). unfold block_bytes.
  rewrite zlen_app, be16_zlen, zlen_cons by lia. lia.
Qed.

(** The id byte is a byte, and its three fields are read back. *)
Lemma block_id_byte_fields id first last :
  0 ≤ id < 32 →
  let x := block_id_byte id first last in
  0 ≤ x < 256 ∧
  Z.land x BLOCK_ID_MASK = id ∧
  negb (Z.land x FIRST_DATA_MASK =? 0) = first ∧
  negb (Z.land x LAST_DATA_MASK =? 0) = last.
Proof.
  intros Hid.
  assert (forallb (λ n, let x := block_id_byte (Z.of_nat n) first last in
    (0 <=? x) && (x <? 256) && (Z.land x BLOCK_ID_MASK =? Z.of_nat n) &&
    Bool.eqb (negb (Z.land x FIRST_DATA_MASK =? 0)) first &&
    Bool.eqb (negb (Z.land x LAST_DATA_MASK =? 0)) last) (seq 0 32) = true) as Hall
    by (destruct first, last; vm_compute; reflexivity).
  rewrite forallb_forall in Hall. assert (In (Z.to_nat id) (seq 0 32)) as Hin by (apply in_seq; lia).
  specialize (Hall _ Hin). rewrite Z2Nat.id in Hall by lia. cbn zeta in Hall |- *.
  rewrite !andb_true_iff, Z.leb_le, Z.ltb_lt, Z.eqb_eq, !eqb_true_iff in Hall.
  by destruct_and! Hall.
Qed.

(** Decoding the header of a finished block. *)
Lemma wp_block_decode_hdr m v id first last payload Q :
  0 ≤ id < 32 → zlen payload < 65535 → view_offset v = 0 →
  view_rest m v (block_bytes id first last payload) →
  (∀ v', view_buf v' = view_buf v → view_rest m v' payload →
     Q (mk_hdr (1 + zlen payload) id (negb (id =? BLOCK_ID_ENTRY)) first last, v') m) →
  wp (block_decode_hdr v) Q m.
Proof.
  intros Hid Hlen Hv Hr HQ. pose proof (zlen_nonneg payload).
  unfold block_decode_hdr. rewrite decide_True by done.
  wp_step. eapply wp_read_be16; [|done|]; [lia|]. intros v1 Hv1 Hr1.
  wp_step. eapply wp_read_byte; [done|]. intros v2 Hv2 Hr2. wp_step.
  destruct (block_id_byte_fields id first last Hid) as (_ & -> & -> & ->).
  apply HQ; [congruence|done].
Qed.

(** A block that was just allocated gets its header. *)
Lemma wp_write_block_header m l junk id flags Q :
  heap m !! l = Some (mk_buf 0 junk) → zlen junk = MAX_PLAINTEXT_BLOCK_SIZE →
  Forall is_byte junk → 0 ≤ Z.lor id flags < 256 →
  (∀ b, open_block b (Z.lor id flags) [] → Q tt (set_buf l b m)) →
  wp (write_block_header (Some l) 0 id flags) Q m.
Proof.
  intros Hl Hj Hb Hid HQ. pose proof block_sizes_range.
  assert (zlen (sys_put_be16 (u16 0)) = 2) as H2 by (apply be16_zlen; done).
  assert (wf_buf (mk_buf 0 junk)) as Hwf by (split; cbn; try done; lia).
  assert (capacity (mk_buf 0 junk) = MAX_PLAINTEXT_BLOCK_SIZE) as Hc by done.
  unfold write_block_header.
  eapply wp_put; [done|done|done|cbn; lia|by apply be16_bytes|]. intros b1 H1.
  pose proof (appends_bytes _ _ _ Hwf H1) as Hn1. pose proof H1 as [? Hc1 _].
  eapply wp_put_last; [apply heap_set_buf_eq|done|done|cbn in *; lia| |].
  { repeat constructor; apply u8_range. }
  intros b2 [? Hc2 Ho2]%(appends_trans _ _ _ _ _ H1). rewrite set_buf_set_buf.
  apply HQ. split; [done|congruence|].
  rewrite Ho2, empty_contents, u8_small by done. done.
Qed.

Lemma wp_alloc_with_header m id flags Q :
  0 ≤ Z.lor id flags < 256 →
  (∀ b, is_Some (malloc_bytes (mallocs m) MAX_PLAINTEXT_BLOCK_SIZE) →
     open_block b (Z.lor id flags) [] → Q (Some (mallocs m)) (new_buf b m)) →
  (malloc_bytes (mallocs m) MAX_PLAINTEXT_BLOCK_SIZE = None → Q NULL (no_buf m)) →
  wp (block ← buf_alloc MAX_PLAINTEXT_BLOCK_SIZE;
      match block with
      | Some _ => write_block_header block 0 id flags;; mret block
      | None => mret block
      end) Q m.
Proof.
  intros Hid HS HN. pose proof block_sizes_range. wp_step.
  apply wp_buf_alloc; [lia| |intros; wp_step; by apply HN].
  intros junk Hj Hlen Hb. wp_step.
  eapply wp_write_block_header; [apply heap_new_buf_eq|done..|].
  intros b Hopen. rewrite set_new_buf. wp_step. apply HS; [by eexists|done].
Qed.

(** Allocating an entry block. *)
Lemma wp_block_alloc m Q :
  (∀ b, is_Some (malloc_bytes (mallocs m) MAX_PLAINTEXT_BLOCK_SIZE) →
     open_block b (block_id_byte BLOCK_ID_ENTRY true true) [] →
     Q (Some (mallocs m)) (new_buf b m)) →
  (malloc_bytes (mallocs m) MAX_PLAINTEXT_BLOCK_SIZE = None → Q NULL (no_buf m)) →
  wp block_alloc Q m.
Proof. intros HS HN. apply wp_alloc_with_header; done. Qed.

(** Allocating a stream block. *)
Lemma wp_block_alloc_stream m id first Q :
  0 ≤ id < 32 →
  (∀ b, is_Some (malloc_bytes (mallocs m) MAX_PLAINTEXT_BLOCK_SIZE) →
     open_block b (block_id_byte id first false) [] →
     Q (Some (mallocs m)) (new_buf b m)) →
  (malloc_bytes (mallocs m) MAX_PLAINTEXT_BLOCK_SIZE = None → Q NULL (no_buf m)) →
  wp (block_alloc_stream id first) Q m.
Proof.
  intros Hid. destruct (block_id_byte_fields id first false Hid) as [Hb _].
  unfold block_id_byte in *. rewrite Z.lor_0_r in *. intros HS HN.
  by apply wp_alloc_with_header.
Qed.

(** The fields of an open block in its allocation. *)
Lemma block_parts b x idb payload :
  wf_buf b → contents b = sys_put_be16 x ++ idb :: payload → 0 ≤ x < 65536 →
  buf_bytes b = 3 + zlen payload ∧ slice 2 1 (buf_data b) = [idb] ∧
  slice 3 (zlen payload) (buf_data b) = payload.
Proof.
  intros Hwf Hco Hx. pose proof (zlen_nonneg payload). pose proof (f_equal zlen Hco) as Hlen.
  rewrite contents_zlen, zlen_app, be16_zlen, zlen_cons in Hlen by (done || lia). split; [lia|].
  pose proof (f_equal (slice 2 1) Hco) as H1. pose proof (f_equal (slice 3 (zlen payload)) Hco) as H3.
  unfold contents in H1, H3. rewrite slice_slice in H1, H3 by lia.
  rewrite slice_app_r, be16_zlen in H1, H3 by (rewrite ?be16_zlen; lia).
  split; [exact H1|]. etransitivity; [exact H3|].
  etransitivity; [by apply (slice_app_r _ _ [idb])|]. apply slice_0_all.
Qed.

(** The allocation with the first three bytes written anew. *)
Lemma wf_finished b hd payload :
  wf_buf b → buf_bytes b = 3 + zlen payload → slice 3 (zlen payload) (buf_data b) = payload →
  zlen hd = 3 → Forall is_byte hd →
  let b' := mk_buf (buf_bytes b) (splice 0 hd (buf_data b)) in
  wf_buf b' ∧ capacity b' = capacity b ∧ contents b' = hd ++ payload.
Proof.
  intros [Hlo Hcap Hby] Hbb Hpay H3 Hhd b'. pose proof (zlen_nonneg payload).
  pose proof (zlen_splice 0 hd (buf_data b)). unfold b'. split_and!.
  - split; cbn; [lia|lia|by apply Forall_splice].
  - unfold capacity; cbn; lia.
  - unfold contents; cbn. rewrite slice_splice_0, H3 by lia. do 2 f_equal.
    by replace (buf_bytes b - 3) with (zlen payload) by lia.
Qed.

(** Finishing a block fills in the size and adds the flags; the payload is
    untouched. *)
Lemma wp_finish m l b x idb payload id flags Q :
  heap m !! l = Some b → wf_buf b →
  contents b = sys_put_be16 x ++ idb :: payload →
  0 ≤ x < 65536 → zlen payload < 65535 → 0 ≤ Z.lor idb flags < 256 →
  (∀ b', wf_buf b' → capacity b' = capacity b →
     contents b' = sys_put_be16 (1 + zlen payload) ++ Z.lor idb flags :: payload →
     Q tt (set_buf l b' m)) →
  wp (finish (Some l) id flags) Q m.
Proof.
  intros Hl Hwf Hco Hx Hp Hfl HQ. pose proof (zlen_nonneg payload).
  destruct (block_parts b x idb payload Hwf Hco Hx) as (Hlen & Hid & Hpay).
  pose proof Hwf as [? ? Hby]. remember (1 + zlen payload) as n eqn:Hneq.
  assert (zlen (sys_put_be16 n) = 2) as H2 by (apply be16_zlen; lia).
  unfold finish, block_size_get. wp_step. eapply wp_buf_size_get; [done|].
  wp_step. eapply wp_buf_size_get; [done|]. wp_step. eapply wp_update; [done|].
  unfold update_block_header. rewrite Hlen, usz_small, u16_small by lia.
  replace (3 + zlen payload - 2) with n by lia. unfold POUCH_BUF_STATE_INITIAL.
  wp_step. wp_step. eapply wp_buf_claim; [apply heap_set_buf_eq|by split; cbn; try lia|lia|unfold capacity; cbn; lia|].
  cbn [buf_bytes buf_data]. rewrite set_buf_set_buf. wp_step.
  eapply wp_store; [apply heap_set_buf_eq|lia|unfold capacity; cbn; lia|].
  cbn [buf_bytes buf_data]. rewrite set_buf_set_buf.
  assert (zlen (splice 0 (sys_put_be16 n) (buf_data b)) = zlen (buf_data b)) as Hz1
    by (apply zlen_splice; lia).
  assert (Forall is_byte (splice 0 (sys_put_be16 n) (buf_data b))) as Hz2
    by (apply Forall_splice; [done|apply be16_bytes; lia]).
  wp_step. eapply wp_buf_claim; [apply heap_set_buf_eq|by split; cbn; try lia|lia|unfold capacity; cbn; lia|].
  cbn [buf_bytes buf_data]. rewrite set_buf_set_buf. wp_step.
  eapply wp_load; [apply heap_set_buf_eq|lia|lia|unfold capacity; cbn; lia|].
  cbn [buf_bytes buf_data].
  rewrite slice_splice_after by lia. change (0 + 2) with 2. rewrite Hid. cbn [map]. rewrite u8_small by done.
  eapply wp_store; [apply heap_set_buf_eq|lia|
    unfold capacity; cbn [buf_data]; rewrite zlen_singleton; lia|].
  cbn [buf_bytes buf_data]. rewrite !set_buf_set_buf.
  eapply wp_update; [apply heap_set_buf_eq|]. rewrite set_buf_set_buf. cbn [buf_data].
  replace (splice 2) with (splice (A:=Z) (0 + zlen (sys_put_be16 n))) by (f_equal; lia).
  rewrite splice_splice_app by (rewrite ?zlen_singleton; lia).
  destruct (wf_finished b (sys_put_be16 n ++ [Z.lor idb flags]) payload) as (Hwf' & Hcap & Hco');
    [done|done|done|by rewrite zlen_app, H2|apply Forall_app; split; [apply be16_bytes; lia|by apply Forall_singleton]|].
  rewrite Hlen, <- app_assoc in *. by apply HQ.
Qed.
End block_spec.
