(* ===== verification/Header.v ===== *)
(** The pouch header: the data of [src/header.cddl] and the interface of the
    encoder and decoder that the build generates from it. *)
From S2P Require Import Prelude.

(** Lengths of the identifiers in a header ([src/saead/session.h], [src/cert.h]). *)
Definition SESSION_ID_LEN : Z := 16.
Definition CERT_REF_SHORT_LEN : Z := 6.

(** ** Data ([src/header.cddl], types of the generated [header_types.h]) *)

Inductive role := device | server.
Inductive algorithm := chacha20_poly1305 | aes_gcm.

#[export] Instance role_eq_dec : EqDecision role.
Proof. solve_decision. Defined.
#[export] Instance algorithm_eq_dec : EqDecision algorithm.
Proof. solve_decision. Defined.

Inductive session_id_info :=
  | session_id_random (random : list Z)
  | session_id_sequential (tag : list Z) (seq : Z).

Record session_info := mk_session_info {
  si_id : session_id_info;
  si_initiator : role;
  si_algorithm : algorithm;
  si_max_block_size_log : Z;
  si_cert_ref : list Z;
}.

Inductive encryption_info :=
  | plaintext_info (id : list Z)
  | saead_info (session : session_info) (pouch_id : Z).

Record pouch_header := mk_header {
  hd_version : Z;
  hd_encryption_info : encryption_info;
}.

(** ** The generated codec

    The build generates [cbor_encode_pouch_header] and
    [cbor_decode_pouch_header] with zcbor from the CDDL file; they are
    parameters. The encoder is given the room it may use and returns the bytes;
    the decoder is given the bytes received so far and returns the header and
    the length of its encoding. Both may fail. *)
Class HeaderCodec : Type := {
  cbor_encode_pouch_header : Z → pouch_header → option (list Z);
  cbor_decode_pouch_header : list Z → option (pouch_header * Z);
}.

(** What is relied on: an encoding is made of bytes, is not longer than the room
    given, is not empty, and is decoded whatever follows it; the length the
    decoder reports is inside its input, and input that decodes does so with more
    bytes behind it, which CBOR's self-delimiting items give. *)
Class HeaderCodecSpec (Co : HeaderCodec) : Prop := {
  encode_bytes : ∀ n h l, cbor_encode_pouch_header n h = Some l → Forall is_byte l;
  encode_len : ∀ n h l, cbor_encode_pouch_header n h = Some l → 0 < zlen l ≤ n;
  decode_encode : ∀ n h l r, cbor_encode_pouch_header n h = Some l →
    cbor_decode_pouch_header (l ++ r) = Some (h, zlen l);
  decode_len : ∀ l h n, cbor_decode_pouch_header l = Some (h, n) → 0 ≤ n ≤ zlen l;
  decode_mono : ∀ l h n r, cbor_decode_pouch_header l = Some (h, n) →
    cbor_decode_pouch_header (l ++ r) = Some (h, n);
}.

(** The build selects canonical CBOR ([ZCBOR_CANONICAL] in [Kconfig]): a plaintext
    header with a version below 24 is two array heads, the version, the encryption
    type, and the id with a head of one byte, or of two from 24 bytes on. *)
Class CanonicalCodec (Co : HeaderCodec) : Prop := {
  encode_plain_len : ∀ room v id l, 0 ≤ v < 24 → zlen id < 256 →
    cbor_encode_pouch_header room (mk_header v (plaintext_info id)) = Some l →
    zlen l = 4 + (if zlen id <? 24 then 1 else 2) + zlen id;
}.

Section codec_facts.
Context `{HC : HeaderCodecSpec}.

(** A proper prefix of an encoding does not decode. *)
Lemma decode_prefix n h enc l r :
  cbor_encode_pouch_header n h = Some enc → enc = l ++ r → r ≠ [] →
  cbor_decode_pouch_header l = None.
Proof.
  intros Henc -> Hr. destruct (cbor_decode_pouch_header l) as [[h' k]|] eqn:Hd; [|done].
  pose proof (decode_mono _ _ _ r Hd) as Hd'.
  pose proof (decode_encode _ _ _ [] Henc) as He. rewrite app_nil_r, Hd' in He.
  injection He as -> ->. apply decode_len in Hd. rewrite zlen_app in Hd.
  destruct r as [|x r]; [done|]. rewrite zlen_cons in Hd. pose proof (zlen_nonneg r). lia.
Qed.
End codec_facts.
