(* ===== verification/Node.v ===== *)
(** The state of a pouch node, the services its modules share, and the
    interface of the crypto module ([src/crypto.h]).

    Every module of the sources keeps its state in static variables; a node is
    the record of them all. Programs of [buf.c] and [block.c] run on the heap
    alone and are lifted with [on_mem], programs of a crypto module run on the
    heap and the crypto state and are lifted with [on_crypto]. *)
From S2P Require Import Prelude Zephyr Config Buf Block Header.

(** The error codes the sources return; a result of type [rc] is the [int] they
    return, [success] being 0. *)
Inductive errno :=
  | EPERM | ENOENT | EIO | ENOMEM | EBUSY | EINVAL | EALREADY | ENOTSUP
  | EBADMSG | ENOTCONN | EAGAIN | ENODATA
  | EZCBOR. (** the positive codes of the generated encoder *)

#[export] Instance errno_eq_dec : EqDecision errno.
Proof. solve_decision. Defined.

Abbreviation rc := (option errno) (only parsing).
Abbreviation success := (@None errno) (only parsing).

(** ** Services *)

(** The work items of the modules: [process_blocks], [decrypt_blocks],
    [consume_blocks] and [dispatch_events]. *)
Inductive work_item := work_process | work_decrypt | work_consume | work_event.

#[export] Instance work_item_eq_dec : EqDecision work_item.
Proof. solve_decision. Defined.

(** [enum pouch_event] *)
Inductive pouch_event := POUCH_EVENT_SESSION_START | POUCH_EVENT_SESSION_END.

#[export] Instance pouch_event_eq_dec : EqDecision pouch_event.
Proof. solve_decision. Defined.

(** A call of an application callback: the registered downlink handlers
    ([start_cb] and [data_cb]) and event handlers. The data pointer of a data
    callback may be null; otherwise the bytes it points to are recorded. *)
Inductive callback :=
  | start_cb (handler : nat) (stream_id : Z) (path : list Z) (content_type : Z)
  | data_cb (handler : nat) (stream_id : Z) (data : option (list Z)) (len : Z) (is_last : bool)
  | event_cb (handler : nat) (event : pouch_event).

(** The callbacks the application registers (iterable sections). *)
Class Handlers : Type := {
  pouch_downlink_handlers : list nat;
  pouch_event_handlers : list nat;
}.

(** ** The crypto module *)

(** One of [crypto_none.c] and [crypto_saead.c] is built in. *)
Class Crypto : Type := {
  crypto_st : Type;
  crypto_session_start : M crypto_st rc;
  crypto_session_end : M crypto_st unit;
  crypto_downlink_start : encryption_info → M crypto_st rc;
  crypto_pouch_start : M crypto_st rc;
  (* the encryption info is meaningful when 0 is returned *)
  crypto_header_get : M crypto_st (rc * encryption_info);
  crypto_decrypt_block : ptr → M (mem * crypto_st) ptr;
  crypto_encrypt_block : ptr → M (mem * crypto_st) ptr;
}.

(** ** State *)

(** [struct pouch_uplink] of [src/uplink.c]. *)
Record pouch_uplink `{Zk : Zephyr} := mk_uplink {
  up_header : ptr;
  up_flags : Z;
  up_id : Z;
  up_error : Z;
  up_processing : slist nat;  (** [processing.queue] *)
  up_transport : slist nat;   (** [transport.queue] *)
  up_reader : pouch_bufview;  (** [transport.reader] *)
}.

(** [struct pouch_stream] and the counters of [src/stream.c]; open streams are
    heap objects of their own. *)
Record pouch_stream := mk_stream {
  st_id : Z;
  st_buf : ptr;
  st_bytes : Z;
  st_session_id : Z;
}.

Record streams := mk_streams {
  stream_objs : gmap nat pouch_stream;
  stream_id : Z;
  open_streams : Z;
}.

(** The static variables of [src/downlink.c]. *)
Record downlink `{Zk : Zephyr} := mk_downlink {
  dl_pouch_buf : ptr;
  dl_pouch_header : bool;
  dl_decrypt : slist nat;  (** [decrypt.queue] *)
  dl_consume : slist nat;  (** [consume.buf_queue] *)
}.

Record node `{Zk : Zephyr} `{Cr : Crypto} := mk_node {
  n_mem : mem;
  n_uplink : pouch_uplink;
  n_entry : ptr;                 (** [block] of [src/entry.c] *)
  n_streams : streams;
  n_downlink : downlink;
  n_crypto : crypto_st;
  n_work : list work_item;       (** submitted work items, not yet run *)
  n_events : msgq pouch_event;   (** [pouch_event_q] of [src/pouch.c] *)
  n_calls : list callback;       (** callbacks made so far *)
}.

Arguments mk_uplink {_}.
Arguments mk_downlink {_}.
Arguments mk_node {_ _}.

Section node.
Context `{Cfg : Config} `{Zk : Zephyr} `{Mal : Malloc} `{Cr : Crypto}.

Definition set_mem (m : mem) (n : node) : node :=
  mk_node m (n_uplink n) (n_entry n) (n_streams n) (n_downlink n) (n_crypto n)
    (n_work n) (n_events n) (n_calls n).
Definition set_uplink (u : pouch_uplink) (n : node) : node :=
  mk_node (n_mem n) u (n_entry n) (n_streams n) (n_downlink n) (n_crypto n)
    (n_work n) (n_events n) (n_calls n).
Definition set_entry (p : ptr) (n : node) : node :=
  mk_node (n_mem n) (n_uplink n) p (n_streams n) (n_downlink n) (n_crypto n)
    (n_work n) (n_events n) (n_calls n).
Definition set_streams (s : streams) (n : node) : node :=
  mk_node (n_mem n) (n_uplink n) (n_entry n) s (n_downlink n) (n_crypto n)
    (n_work n) (n_events n) (n_calls n).
Definition set_downlink (d : downlink) (n : node) : node :=
  mk_node (n_mem n) (n_uplink n) (n_entry n) (n_streams n) d (n_crypto n)
    (n_work n) (n_events n) (n_calls n).
Definition set_crypto (c : crypto_st) (n : node) : node :=
  mk_node (n_mem n) (n_uplink n) (n_entry n) (n_streams n) (n_downlink n) c
    (n_work n) (n_events n) (n_calls n).
Definition set_work (w : list work_item) (n : node) : node :=
  mk_node (n_mem n) (n_uplink n) (n_entry n) (n_streams n) (n_downlink n) (n_crypto n)
    w (n_events n) (n_calls n).
Definition set_events (e : msgq pouch_event) (n : node) : node :=
  mk_node (n_mem n) (n_uplink n) (n_entry n) (n_streams n) (n_downlink n) (n_crypto n)
    (n_work n) e (n_calls n).
Definition set_calls (c : list callback) (n : node) : node :=
  mk_node (n_mem n) (n_uplink n) (n_entry n) (n_streams n) (n_downlink n) (n_crypto n)
    (n_work n) (n_events n) c.

Definition on_mem {A} (m : M mem A) : M node A := zoom n_mem set_mem m.

Definition on_crypto {A} (m : M (mem * crypto_st) A) : M node A :=
  zoom (λ n, (n_mem n, n_crypto n)) (λ s n, set_crypto s.2 (set_mem s.1 n)) m.

Definition on_crypto_st {A} (m : M crypto_st A) : M node A := zoom n_crypto set_crypto m.

(** Field updates of the uplink. *)
Definition up_set_header (p : ptr) (u : pouch_uplink) : pouch_uplink :=
  mk_uplink p (up_flags u) (up_id u) (up_error u) (up_processing u) (up_transport u) (up_reader u).
Definition up_set_flags (f : Z) (u : pouch_uplink) : pouch_uplink :=
  mk_uplink (up_header u) f (up_id u) (up_error u) (up_processing u) (up_transport u) (up_reader u).
Definition up_set_id (i : Z) (u : pouch_uplink) : pouch_uplink :=
  mk_uplink (up_header u) (up_flags u) i (up_error u) (up_processing u) (up_transport u) (up_reader u).
Definition up_set_processing (q : slist nat) (u : pouch_uplink) : pouch_uplink :=
  mk_uplink (up_header u) (up_flags u) (up_id u) (up_error u) q (up_transport u) (up_reader u).
Definition up_set_transport (q : slist nat) (u : pouch_uplink) : pouch_uplink :=
  mk_uplink (up_header u) (up_flags u) (up_id u) (up_error u) (up_processing u) q (up_reader u).
Definition up_set_reader (v : pouch_bufview) (u : pouch_uplink) : pouch_uplink :=
  mk_uplink (up_header u) (up_flags u) (up_id u) (up_error u) (up_processing u) (up_transport u) v.

Definition modify_uplink (f : pouch_uplink → pouch_uplink) : M node unit :=
  modify (λ n, set_uplink (f (n_uplink n)) n).

Definition modify_downlink (f : downlink → downlink) : M node unit :=
  modify (λ n, set_downlink (f (n_downlink n)) n).

(** Field updates of the downlink. *)
Definition dl_set_pouch_buf (p : ptr) (d : downlink) : downlink :=
  mk_downlink p (dl_pouch_header d) (dl_decrypt d) (dl_consume d).
Definition dl_set_pouch_header (h : bool) (d : downlink) : downlink :=
  mk_downlink (dl_pouch_buf d) h (dl_decrypt d) (dl_consume d).
Definition dl_set_decrypt (q : slist nat) (d : downlink) : downlink :=
  mk_downlink (dl_pouch_buf d) (dl_pouch_header d) q (dl_consume d).
Definition dl_set_consume (q : slist nat) (d : downlink) : downlink :=
  mk_downlink (dl_pouch_buf d) (dl_pouch_header d) (dl_decrypt d) q.

(** Submitting a work item that is already submitted has no effect. *)
Definition add_work (w : work_item) (ws : list work_item) : list work_item :=
  if decide (w ∈ ws) then ws else ws ++ [w].

Definition k_work_submit (w : work_item) : M node unit :=
  modify (λ n, set_work (add_work w (n_work n)) n).

(** Calling an application callback. *)
Definition call (c : callback) : M node unit :=
  modify (λ n, set_calls (n_calls n ++ [c]) n).

(** [STRUCT_SECTION_FOREACH]: every registered handler in turn. *)
Definition for_each {S} (hs : list nat) (f : nat → M S unit) : M S unit :=
  foldr (λ h k, f h;; k) (mret tt) hs.

(** [pouch_event_emit] of [src/pouch.c]: a full queue drops the event. *)
Definition pouch_event_emit (e : pouch_event) : M node unit :=
  modify (λ n, set_events (k_msgq_put (n_events n) e).2 n);;
  k_work_submit work_event.

(** ** The operations of [src/uplink.c] that the writers use *)

Definition uplink_enqueue (block : ptr) : M node unit :=
  n ← get;
  q ← on_mem (buf_queue_submit (up_processing (n_uplink n)) block);
  modify_uplink (up_set_processing q);;
  k_work_submit work_process.

Definition uplink_session_id : M node Z := n ← get; mret (u32 (up_id (n_uplink n))).
End node.

(** ** Lemmas *)

Section node_facts.
Context `{COk : ConfigOk} `{ZS : ZephyrSpec} `{Mal : Malloc} `{Cr : Crypto}.
Implicit Types (n : node).

Lemma wp_on_mem {A} (p : M mem A) Q n :
  wp p (λ a m, Q a (set_mem m n)) (n_mem n) → wp (on_mem p) Q n.
Proof. apply wp_zoom. Qed.

Lemma wlp_on_mem {A} (p : M mem A) Q n :
  wlp p (λ a m, Q a (set_mem m n)) (n_mem n) → wlp (on_mem p) Q n.
Proof. apply wlp_zoom. Qed.

(** A program that leaves the heap as it is, lifted. *)
Lemma set_mem_id n : set_mem (n_mem n) n = n.
Proof. by destruct n. Qed.

Lemma set_calls_id n : set_calls (n_calls n) n = n.
Proof. by destruct n. Qed.

(** One call per handler, in the order of registration. *)
Lemma wp_for_each_call hs (f : nat → callback) Q n :
  Q tt (set_calls (n_calls n ++ map f hs) n) →
  wp (for_each hs (λ h, call (f h))) Q n.
Proof.
  revert n. induction hs as [|h hs IH]; intros n HQ; cbn [for_each foldr].
  - wp_step. cbn [map] in HQ. by rewrite app_nil_r, set_calls_id in HQ.
  - unfold call at 1. wp_steps. apply IH. cbn. by rewrite <- app_assoc.
Qed.

Lemma add_work_in w ws : w ∈ add_work w ws.
Proof. unfold add_work. case_decide; [done|]. apply elem_of_app. right. by apply list_elem_of_singleton. Qed.

Lemma add_work_mono w w' ws : w ∈ ws → w ∈ add_work w' ws.
Proof. intros Hw. unfold add_work. case_decide; [done|]. apply elem_of_app. by left. Qed.

(** Submitting a block to the uplink queue. *)
Lemma wp_uplink_enqueue n l b Q :
  heap (n_mem n) !! l = Some b → l ∉ slist_items (up_processing (n_uplink n)) →
  (∀ q, slist_items q = slist_items (up_processing (n_uplink n)) ++ [l] →
     Q tt (set_work (add_work work_process (n_work n))
             (set_uplink (up_set_processing q (n_uplink n)) n))) →
  wp (uplink_enqueue (Some l)) Q n.
Proof.
  intros Hl Hq HQ. unfold uplink_enqueue. wp_step. wp_step. wp_step. apply wp_on_mem.
  eapply wp_queue_submit; [done|done|]. intros q Hitems. rewrite set_mem_id.
  unfold modify_uplink, k_work_submit. wp_steps. apply HQ. done.
Qed.
End node_facts.

(** ** Who owns the buffers

    Every live buffer is owned by one place of the state; [lk] lists the buffers
    that no place points to any more. *)
Section owned.
Context `{COk : ConfigOk} `{ZS : ZephyrSpec} `{Mal : Malloc} `{Cr : Crypto}.
Implicit Types (n : node).

Definition stream_bufs (s : streams) : list nat :=
  omap st_buf (map_to_list (stream_objs s)).*2.

Definition uplink_owned (u : pouch_uplink) : list nat :=
  slist_items (up_processing u) ++ slist_items (up_transport u) ++
  option_list (up_header u) ++ option_list (view_buf (up_reader u)).

Definition downlink_owned (d : downlink) : list nat :=
  option_list (dl_pouch_buf d) ++ slist_items (dl_decrypt d) ++ slist_items (dl_consume d).

Definition owned n : list nat :=
  uplink_owned (n_uplink n) ++ option_list (n_entry n) ++
  stream_bufs (n_streams n) ++ downlink_owned (n_downlink n).

(** The memory invariant of a node. *)
Definition node_inv n (lk : list nat) : Prop := heap_owns (n_mem n) (owned n ++ lk).

Lemma node_inv_change n n' lk m ls ls' :
  heap_owns m ls → owned n' ++ lk ≡ₚ ls → n_mem n' = m → ls' = owned n' ++ lk →
  node_inv n' lk.
Proof. intros H Hp <- _. unfold node_inv. by rewrite Hp. Qed.

(** A buffer that one place owns is in no other place. *)
Lemma owned_split n lk l rest :
  node_inv n lk → owned n ++ lk ≡ₚ l :: rest → l ∉ rest.
Proof.
  intros [Hn _ _ _ _] Hp. rewrite Hp in Hn. by apply list.NoDup_cons in Hn as [? _].
Qed.

Lemma stream_bufs_insert s i o (k z : Z) :
  stream_objs s !! i = None →
  stream_bufs (mk_streams (<[i := o]> (stream_objs s)) k z)
    ≡ₚ option_list (st_buf o) ++ stream_bufs s.
Proof.
  intros Hi. unfold stream_bufs; cbn [stream_objs]. rewrite map_to_list_insert by done.
  cbn. by destruct (st_buf o).
Qed.

Lemma stream_bufs_delete s i o (k z : Z) :
  stream_objs s !! i = Some o →
  stream_bufs s ≡ₚ option_list (st_buf o) ++
    stream_bufs (mk_streams (delete i (stream_objs s)) k z).
Proof.
  intros Hi. rewrite <- (stream_bufs_insert (mk_streams (delete i (stream_objs s)) k z) i o k z)
    by apply lookup_delete_eq.
  unfold stream_bufs; cbn [stream_objs]. by rewrite insert_delete_id.
Qed.

Lemma stream_bufs_update s i o o' (k z : Z) :
  stream_objs s !! i = Some o →
  stream_bufs (mk_streams (<[i := o']> (stream_objs s)) k z)
    ≡ₚ option_list (st_buf o') ++ stream_bufs (mk_streams (delete i (stream_objs s)) k z).
Proof.
  intros Hi.
  rewrite <- (stream_bufs_insert (mk_streams (delete i (stream_objs s)) k z) i o' k z)
    by apply lookup_delete_eq.
  unfold stream_bufs; cbn [stream_objs]. by rewrite insert_delete_eq.
Qed.

(** Finishing the block [l], which the uplink queues do not hold yet, and
    sending it off. *)
Lemma wp_finish_enqueue {A} n lk rest (l : nat) b id idb flags payload (k : M node A) Q :
  node_inv n lk → owned n ++ lk ≡ₚ l :: uplink_owned (n_uplink n) ++ rest →
  heap (n_mem n) !! l = Some b → open_block b idb payload →
  zlen payload ≤ MAX_BLOCK_PAYLOAD_SIZE → 0 ≤ Z.lor idb flags < 256 →
  (∀ b' q, wf_buf b' →
     contents b' = sys_put_be16 (1 + zlen payload) ++ Z.lor idb flags :: payload →
     slist_items q = slist_items (up_processing (n_uplink n)) ++ [l] →
     wp k Q (set_work (add_work work_process (n_work n))
             (set_uplink (up_set_processing q (n_uplink n))
               (set_mem (set_buf l b' (n_mem n)) n)))) →
  wp (on_mem (finish (Some l) id flags);; uplink_enqueue (Some l);; k) Q n.
Proof.
  intros Hinv Hp Hl [Hwf Hcap Hco] Hsz Hfl HQ. pose proof max_payload_range.
  wp_step. apply wp_on_mem.
  eapply wp_finish; [done|done|exact Hco|lia|lia|done|]. intros b' Hwf' Hcap' Hco'.
  wp_step. eapply wp_uplink_enqueue; [apply heap_set_buf_eq| |].
  - cbn. intros Hin. apply (owned_split _ _ _ _ Hinv Hp).
    unfold uplink_owned. rewrite !elem_of_app. auto.
  - intros q Hq. by eapply HQ.
Qed.
End owned.

(** Permutation goals between lists of owned buffers. *)
Ltac owned_solve :=
  unfold owned, uplink_owned, downlink_owned in *; cbn in *;
  repeat match goal with H : slist_items _ = _ |- _ => rewrite H in *; clear H end;
  cbn; solve_Permutation.
