(* ===== verification/Cert.v ===== *)
(** Certificates: [src/cert.c].

    The device certificate with its reference, and what is kept of the server
    certificate: its public key and serial number. *)
From S2P Require Import Prelude Zephyr Config Platform Buf Block Header Node.

Definition CERT_REF_LEN : Z := 32.
Definition CERT_SERIAL_MAXLEN : Z := 20.

(** [struct pouch_cert]: the object the buffer pointer refers to, if it is not
    null, and the length. *)
Record pouch_cert := mk_cert { cert_buffer : option (list Z); cert_size : Z }.

(** [struct pubkey] *)
Record pubkey := mk_pubkey { pk_data : list Z; pk_len : Z }.

(** The static variables [device] and [server_cert], and those of [load_ca_cert]:
    the CA certificate once it is loaded. *)
Record certs `{Tls : Mbedtls} := mk_certs {
  device_certificate : pouch_cert;
  device_ref : list Z;
  server_pubkey : pubkey;
  serial_data : list Z;
  serial_len : Z;
  ca_cert : option mbedtls_x509_crt;
}.
Arguments mk_certs {_}.

Section cert.
Context `{Cfg : Config} `{Ps : Psa} `{Tls : Mbedtls}.
Implicit Types (cert : pouch_cert) (c : certs).

Definition PUBKEY_LEN : Z := PSA_EXPORT_PUBLIC_KEY_MAX_SIZE.

(** Zero-initialised static variables. *)
Definition init_certs : certs :=
  mk_certs (mk_cert None 0) (replicate (Z.to_nat CERT_REF_LEN) 0)
    (mk_pubkey (replicate (Z.to_nat PUBKEY_LEN) 0) 0)
    (replicate (Z.to_nat CERT_SERIAL_MAXLEN) 0) 0 None.

Definition set_device (cert : pouch_cert) c : certs :=
  mk_certs cert (device_ref c) (server_pubkey c) (serial_data c) (serial_len c) (ca_cert c).
Definition set_ref (ref : list Z) c : certs :=
  mk_certs (device_certificate c) ref (server_pubkey c) (serial_data c) (serial_len c) (ca_cert c).
Definition set_pubkey (k : pubkey) c : certs :=
  mk_certs (device_certificate c) (device_ref c) k (serial_data c) (serial_len c) (ca_cert c).
Definition set_serial (d : list Z) (n : Z) c : certs :=
  mk_certs (device_certificate c) (device_ref c) (server_pubkey c) d n (ca_cert c).
Definition set_ca (ca : mbedtls_x509_crt) c : certs :=
  mk_certs (device_certificate c) (device_ref c) (server_pubkey c) (serial_data c)
    (serial_len c) (Some ca).

Definition raw_ca_cert : list Z := if CONFIG_POUCH_VALIDATE_SERVER_CERT then golioth_ca_cert else [].

(** A null argument is [None]. *)
Definition cert_is_valid (cert : option pouch_cert) : bool :=
  match cert with
  | None => false
  | Some cert => match cert_buffer cert with None => false | Some _ => 0 <? cert_size cert end
  end.

(** The [size] bytes of the buffer, which the libraries read. *)
Definition cert_bytes (cert : pouch_cert) : M certs (list Z) :=
  match cert_buffer cert with
  | Some d => if decide (0 ≤ cert_size cert ≤ zlen d) then mret (slice 0 (cert_size cert) d) else ub
  | None => ub
  end.

(** [memcpy] of [d] to the front of an array. *)
Definition put_front (d array : list Z) : M certs (list Z) :=
  if decide (zlen d ≤ zlen array) then mret (splice 0 d array) else ub.

Definition parse_x509_cert (cert : option pouch_cert) : M certs (errno + mbedtls_x509_crt)%type :=
  match cert with
  | Some cert' =>
      if negb (cert_is_valid cert) then mret (inl EINVAL) else
      d ← cert_bytes cert';
      mret (match mbedtls_x509_crt_parse d with Some crt => inr crt | None => inl EIO end)
  | None => mret (inl EINVAL)
  end.

Definition load_ca_cert : M certs (option mbedtls_x509_crt) :=
  c ← get;
  match ca_cert c with
  | Some ca => mret (Some ca)
  | None =>
      r ← parse_x509_cert (Some (mk_cert (Some raw_ca_cert) (zlen raw_ca_cert)));
      match r with
      | inl _ => mret None
      | inr ca => modify (set_ca ca);; mret (Some ca)
      end
  end.

(** Called with [device.ref] as the destination. *)
Definition generate_ref (cert : pouch_cert) : M certs rc :=
  d ← cert_bytes cert;
  let '(status, hash) := psa_hash_compute d CERT_REF_LEN in
  c ← get;
  ref ← put_front hash (device_ref c);
  modify (set_ref ref);;
  if negb status || negb (zlen hash =? CERT_REF_LEN) then mret (Some EIO) else mret success.

Definition authenticate_server_cert (crt : mbedtls_x509_crt) : M certs rc :=
  ca ← load_ca_cert;
  match ca with
  | None => mret (Some EIO)
  | Some ca =>
      if mbedtls_x509_crt_verify crt ca CONFIG_POUCH_SERVER_CERT_CN then mret success
      else mret (Some EPERM)
  end.

(** Called with [server_cert.pubkey] as the destination. *)
Definition extract_pubkey (crt : mbedtls_x509_crt) : M certs rc :=
  match crt_pk_ec crt with
  | None => mret (Some EIO)
  | Some key =>
      let '(ok, len, d) := mbedtls_ecp_write_public_key key PUBKEY_LEN in
      c ← get;
      data ← put_front d (pk_data (server_pubkey c));
      modify (set_pubkey (mk_pubkey data len));;
      if ok then mret success else mret (Some EIO)
  end.

Definition cert_device_set (cert : option pouch_cert) : M certs rc :=
  match cert with
  | Some cert' =>
      if negb (cert_is_valid cert) then mret (Some EINVAL) else
      err ← generate_ref cert';
      match err with
      | Some _ => mret err
      | None => modify (set_device cert');; mret success
      end
  | None => mret (Some EINVAL)
  end.

Definition cert_server_set (certbuf : option pouch_cert) : M certs rc :=
  if negb (cert_is_valid certbuf) then mret (Some EINVAL) else
  r ← parse_x509_cert certbuf;
  match r with
  | inl err => mret (Some err)
  | inr crt =>
      err ← (if CONFIG_POUCH_VALIDATE_SERVER_CERT then authenticate_server_cert crt
             else mret success);
      match err with
      | Some _ => mret err
      | None =>
          if CERT_SERIAL_MAXLEN <? zlen (crt_serial crt) then mret err else
          err ← extract_pubkey crt;
          match err with
          | Some _ => mret err
          | None =>
              c ← get;
              data ← put_front (crt_serial crt) (serial_data c);
              modify (set_serial data (zlen (crt_serial crt)));;
              mret err
          end
      end
  end.

Definition cert_ref_get : M certs (option (list Z)) :=
  c ← get;
  mret (if cert_is_valid (Some (device_certificate c)) then Some (device_ref c) else None).

Definition cert_server_key_get : M certs pubkey := c ← get; mret (server_pubkey c).

Definition cert_has_server_info : M certs bool :=
  c ← get; mret (negb (pk_len (server_pubkey c) =? 0)).

(** *** Transport API *)

Definition pouch_server_certificate_set (cert : option pouch_cert) : M certs rc :=
  cert_server_set cert.

(** The bytes copied to the destination of length [len]; their number is returned. *)
Definition pouch_server_certificate_serial_get (len : Z) : M certs (errno + list Z)%type :=
  c ← get;
  if len <? serial_len c then mret (inl EINVAL)
  else if decide (0 ≤ serial_len c ≤ zlen (serial_data c))
  then mret (inr (slice 0 (serial_len c) (serial_data c))) else ub.

Definition pouch_device_certificate_ref_get (len : Z) : M certs (errno + list Z)%type :=
  c ← get;
  if negb (cert_is_valid (Some (device_certificate c))) || (CERT_REF_LEN <? len)
  then mret (inl EINVAL)
  else mret (inr (slice 0 len (device_ref c))).

Definition pouch_device_certificate_get : M certs (errno + pouch_cert)%type :=
  c ← get;
  if cert_is_valid (Some (device_certificate c)) then mret (inr (device_certificate c))
  else mret (inl ENOENT).
End cert.

(** ** Specification *)

Section cert_spec.
Context `{Cfg : Config} `{PS : PsaSpec} {Tls : Mbedtls} {TS : MbedtlsSpec Tls}.
Implicit Types (cert : pouch_cert) (c : certs).

(** The arrays have their sizes, and the lengths stay within them. *)
Record certs_ok c : Prop := {
  co_ref : zlen (device_ref c) = CERT_REF_LEN;
  co_serial : zlen (serial_data c) = CERT_SERIAL_MAXLEN;
  co_serial_len : 0 ≤ serial_len c ≤ CERT_SERIAL_MAXLEN;
  co_pubkey : zlen (pk_data (server_pubkey c)) = PUBKEY_LEN;
  co_pubkey_len : 0 ≤ pk_len (server_pubkey c) ≤ PUBKEY_LEN;
  co_ca : ∀ ca, ca_cert c = Some ca → mbedtls_x509_crt_parse raw_ca_cert = Some ca;
}.

Lemma init_certs_ok : certs_ok init_certs.
Proof.
  pose proof pubkey_size_range. split; cbn; try done.
  - unfold zlen, PUBKEY_LEN. rewrite length_replicate. lia.
  - unfold PUBKEY_LEN. lia.
Qed.

(** A certificate argument whose length the buffer covers. *)
Definition cert_arg (cert : option pouch_cert) : Prop :=
  match cert with
  | Some cert => match cert_buffer cert with Some d => cert_size cert ≤ zlen d | None => True end
  | None => True
  end.

(** The certificate that a valid argument holds. *)
Definition arg_parses (cert : option pouch_cert) (crt : mbedtls_x509_crt) : Prop :=
  ∃ cert' d, cert = Some cert' ∧ cert_buffer cert' = Some d ∧
    mbedtls_x509_crt_parse (slice 0 (cert_size cert') d) = Some crt.

(** Signed by the built-in CA for the expected server, as far as the build asks. *)
Definition trusted (crt : mbedtls_x509_crt) : Prop :=
  CONFIG_POUCH_VALIDATE_SERVER_CERT = true →
  ∃ ca, mbedtls_x509_crt_parse golioth_ca_cert = Some ca ∧
    mbedtls_x509_crt_verify crt ca CONFIG_POUCH_SERVER_CERT_CN = true.

(** What exporting the key of [crt] makes of the stored key. *)
Definition exported (crt : mbedtls_x509_crt) (old new : pubkey) : Prop :=
  ∃ key, crt_pk_ec crt = Some key ∧
    let r := mbedtls_ecp_write_public_key key PUBKEY_LEN in
    new = mk_pubkey (splice 0 r.2 (pk_data old)) r.1.2.

(** The key that is kept comes from a trusted certificate, or there is none. *)
Definition key_trusted c : Prop :=
  pk_len (server_pubkey c) = 0 ∨ ∃ crt old, trusted crt ∧ exported crt old (server_pubkey c).

Lemma valid_arg certbuf : cert_arg certbuf → cert_is_valid certbuf = true →
  ∃ cert' d, certbuf = Some cert' ∧ cert_buffer cert' = Some d ∧ 0 < cert_size cert' ≤ zlen d.
Proof.
  destruct certbuf as [cert|]; [|done]. cbn. destruct (cert_buffer cert) as [d|] eqn:Hd; [|done].
  intros Ha Hv%Z.ltb_lt. by exists cert, d.
Qed.

Lemma wp_put_front d array Q c :
  zlen d ≤ zlen array → Q (splice 0 d array) c → wp (put_front d array) Q c.
Proof. intros. unfold put_front. by rewrite decide_True by done. Qed.

Lemma wp_parse_cert certbuf Q c :
  cert_arg certbuf →
  (cert_is_valid certbuf = false → Q (inl EINVAL) c) →
  (cert_is_valid certbuf = true → (∀ crt, ¬ arg_parses certbuf crt) → Q (inl EIO) c) →
  (∀ crt, cert_is_valid certbuf = true → arg_parses certbuf crt → Q (inr crt) c) →
  wp (parse_x509_cert certbuf) Q c.
Proof.
  intros Ha HN HF HS. unfold parse_x509_cert.
  destruct (cert_is_valid certbuf) eqn:Hv.
  - destruct (valid_arg certbuf Ha Hv) as (cert' & d & -> & Hd & Hlen). cbn [negb]. wp_step.
    unfold cert_bytes. rewrite Hd, decide_True by lia. wp_step.
    destruct (mbedtls_x509_crt_parse _) as [crt|] eqn:Hp; wp_step.
    + apply HS; [done|]. by exists cert', d.
    + apply HF; [done|]. intros crt (? & ? & [= <-] & Hd' & Hp'). rewrite Hd in Hd'.
      injection Hd' as <-. congruence.
  - destruct certbuf; cbn [negb]; wp_step; by apply HN.
Qed.

Lemma wp_load_ca Q c :
  certs_ok c → CONFIG_POUCH_VALIDATE_SERVER_CERT = true →
  (mbedtls_x509_crt_parse golioth_ca_cert = None → Q None c) →
  (∀ ca c', mbedtls_x509_crt_parse golioth_ca_cert = Some ca → (c' = c ∨ c' = set_ca ca c) →
     Q (Some ca) c') →
  wp load_ca_cert Q c.
Proof.
  intros Hok Hval HN HS. unfold load_ca_cert. do 2 wp_step.
  assert (raw_ca_cert = golioth_ca_cert) as Hraw by (unfold raw_ca_cert; by rewrite Hval).
  destruct (ca_cert c) as [ca|] eqn:Hca.
  { wp_step. apply HS; [|by left]. rewrite <- Hraw. by apply (co_ca _ Hok). }
  wp_step. rewrite Hraw. pose proof golioth_ca_cert_nonempty as Hne.
  assert (0 < zlen golioth_ca_cert).
  { pose proof (zlen_nonneg golioth_ca_cert).
    destruct (Z.eq_dec (zlen golioth_ca_cert) 0) as [?%zlen_zero_nil|]; [done|lia]. }
  apply wp_parse_cert; [cbn; lia| | |].
  - cbn. intros ?%Z.ltb_ge. lia.
  - intros _ Hno. wp_step. apply HN.
    destruct (mbedtls_x509_crt_parse golioth_ca_cert) as [crt|] eqn:Hp; [|done].
    destruct (Hno crt). eexists _, _. split_and!; [done|done|]. cbn. by rewrite slice_0_all.
  - intros crt _ (? & ? & [= <-] & [= <-] & Hp). cbn in Hp. rewrite slice_0_all in Hp. do 3 wp_step.
    apply HS; [done|by right].
Qed.

(** The CA certificate may have been loaded on the way. *)
Definition ca_loaded c c' : Prop :=
  c' = c ∨ ∃ ca, mbedtls_x509_crt_parse golioth_ca_cert = Some ca ∧ c' = set_ca ca c.

Lemma wp_authenticate crt Q c :
  certs_ok c → CONFIG_POUCH_VALIDATE_SERVER_CERT = true →
  (∀ c', ca_loaded c c' →
     (trusted crt → Q success c') ∧
     (mbedtls_x509_crt_parse golioth_ca_cert = None → Q (Some EIO) c') ∧
     (∀ ca, mbedtls_x509_crt_parse golioth_ca_cert = Some ca →
        mbedtls_x509_crt_verify crt ca CONFIG_POUCH_SERVER_CERT_CN = false → Q (Some EPERM) c')) →
  wp (authenticate_server_cert crt) Q c.
Proof.
  intros Hok Hval HQ. unfold authenticate_server_cert. wp_step. apply wp_load_ca; [done|done| |].
  - intros Hp. wp_step. apply (HQ c); [by left|done].
  - intros ca c' Hp Hc'.
    assert (ca_loaded c c') as Hc by (destruct Hc' as [->| ->]; [by left|right; by exists ca]).
    destruct (HQ c' Hc) as (HT & _ & HE).
    destruct (mbedtls_x509_crt_verify _ _ _) eqn:Hv; wp_step; [|by eapply HE].
    apply HT. intros _. by exists ca.
Qed.

Lemma wp_extract_pubkey crt Q c :
  certs_ok c →
  (crt_pk_ec crt = None → Q (Some EIO) c) →
  (∀ key k ok, crt_pk_ec crt = Some key → (mbedtls_ecp_write_public_key key PUBKEY_LEN).1.1 = ok →
     exported crt (server_pubkey c) k → certs_ok (set_pubkey k c) →
     (ok = true → 0 < pk_len k) → Q (if ok : bool then success else Some EIO) (set_pubkey k c)) →
  wp (extract_pubkey crt) Q c.
Proof.
  intros Hok HN HS. unfold extract_pubkey. destruct (crt_pk_ec crt) as [key|] eqn:Hk.
  2: { wp_step. by apply HN. }
  pose proof Hok as [? ? ? Hpk ? ?].
  assert (0 < PUBKEY_LEN) as Hpos by apply pubkey_size_range.
  assert (zlen (mbedtls_ecp_write_public_key key PUBKEY_LEN).2 ≤ PUBKEY_LEN) as Hroom
    by (apply write_key_room; lia).
  pose proof (write_key_ok key PUBKEY_LEN) as Hwok. pose proof (write_key_reported key) as Hrep.
  specialize (HS key (mk_pubkey (splice 0 (mbedtls_ecp_write_public_key key PUBKEY_LEN).2
    (pk_data (server_pubkey c))) (mbedtls_ecp_write_public_key key PUBKEY_LEN).1.2)).
  fold PUBKEY_LEN in Hrep.
  destruct (mbedtls_ecp_write_public_key key PUBKEY_LEN) as [[ok len] d] eqn:Hw. cbn in *.
  do 3 wp_step. apply wp_put_front; [lia|]. do 2 wp_step.
  specialize (HS ok). destruct ok; wp_step; apply HS; try done.
  all: try (exists key; rewrite Hw; done).
  all: try (split; cbn; try done; rewrite zlen_splice; lia).
  intros _. by destruct Hwok.
Qed.

(** What the server side keeps. *)
Definition server_kept c c' : Prop :=
  server_pubkey c' = server_pubkey c ∧ serial_data c' = serial_data c ∧ serial_len c' = serial_len c.

(** A server certificate taken over. *)
Definition server_stored (crt : mbedtls_x509_crt) c c' : Prop :=
  exported crt (server_pubkey c) (server_pubkey c') ∧ 0 < pk_len (server_pubkey c') ∧
  pouch_server_certificate_serial_get CERT_SERIAL_MAXLEN c' = Ret (inr (crt_serial crt)) c'.

Record server_set c c' : Prop := {
  ss_ok : certs_ok c';
  ss_device : device_certificate c' = device_certificate c;
  ss_ref : device_ref c' = device_ref c;
  ss_trusted : key_trusted c → key_trusted c';
}.

(** A certificate that is good enough to be stored. *)
Definition acceptable (certbuf : option pouch_cert) (crt : mbedtls_x509_crt) : Prop :=
  cert_is_valid certbuf = true ∧ arg_parses certbuf crt ∧ trusted crt.

(** Every outcome of [cert_server_set], with its cause; no two of the causes can hold at
    once. *)
Inductive server_set_result (certbuf : option pouch_cert) c : rc → certs → Prop :=
  | set_bad_argument c' :
      cert_is_valid certbuf = false → server_kept c c' → server_set_result certbuf c (Some EINVAL) c'
  | set_not_parsed c' :
      cert_is_valid certbuf = true → (∀ crt, ¬ arg_parses certbuf crt) → server_kept c c' →
      server_set_result certbuf c (Some EIO) c'
  | set_no_ca crt c' :
      cert_is_valid certbuf = true → arg_parses certbuf crt →
      CONFIG_POUCH_VALIDATE_SERVER_CERT = true → mbedtls_x509_crt_parse golioth_ca_cert = None →
      server_kept c c' → server_set_result certbuf c (Some EIO) c'
  | set_not_trusted crt ca c' :
      cert_is_valid certbuf = true → arg_parses certbuf crt →
      CONFIG_POUCH_VALIDATE_SERVER_CERT = true → mbedtls_x509_crt_parse golioth_ca_cert = Some ca →
      mbedtls_x509_crt_verify crt ca CONFIG_POUCH_SERVER_CERT_CN = false →
      server_kept c c' → server_set_result certbuf c (Some EPERM) c'
  | set_long_serial crt c' :
      acceptable certbuf crt → CERT_SERIAL_MAXLEN < zlen (crt_serial crt) →
      server_kept c c' → server_set_result certbuf c success c'
  | set_no_key crt c' :
      acceptable certbuf crt → zlen (crt_serial crt) ≤ CERT_SERIAL_MAXLEN →
      crt_pk_ec crt = None → server_kept c c' → server_set_result certbuf c (Some EIO) c'
  | set_key_failed crt key c' :
      acceptable certbuf crt → zlen (crt_serial crt) ≤ CERT_SERIAL_MAXLEN →
      crt_pk_ec crt = Some key → (mbedtls_ecp_write_public_key key PUBKEY_LEN).1.1 = false →
      exported crt (server_pubkey c) (server_pubkey c') →
      serial_data c' = serial_data c → serial_len c' = serial_len c →
      server_set_result certbuf c (Some EIO) c'
  | set_stored crt key c' :
      acceptable certbuf crt → zlen (crt_serial crt) ≤ CERT_SERIAL_MAXLEN →
      crt_pk_ec crt = Some key → (mbedtls_ecp_write_public_key key PUBKEY_LEN).1.1 = true →
      server_stored crt c c' → server_set_result certbuf c success c'.

Lemma server_kept_trans c1 c2 c3 : server_kept c1 c2 → server_kept c2 c3 → server_kept c1 c3.
Proof. intros (? & ? & ?) (? & ? & ?). split_and!; congruence. Qed.

(** What was kept does not matter to the outcome. *)
Lemma server_set_result_kept certbuf c1 c2 err c3 :
  server_kept c1 c2 → server_set_result certbuf c2 err c3 → server_set_result certbuf c1 err c3.
Proof.
  intros Hk Hr. pose proof Hk as (Hpk & Hsd & Hsl).
  destruct Hr as [c' ? ?|c' ? ? ?|crt c'|crt ca c'|crt c' ? ? ?|crt c' ? ? ? ?|crt key c' ? ? ? ? Hex ? ?|crt key c' ? ? ? ? (Hex & ? & ?)].
  - apply set_bad_argument; [done|by eapply server_kept_trans].
  - apply set_not_parsed; [done|done|by eapply server_kept_trans].
  - eapply set_no_ca; [done..|by eapply server_kept_trans].
  - eapply set_not_trusted; [done..|by eapply server_kept_trans].
  - eapply set_long_serial; [done..|by eapply server_kept_trans].
  - eapply set_no_key; [done..|by eapply server_kept_trans].
  - rewrite Hpk in Hex. eapply set_key_failed; [done..|congruence|congruence].
  - rewrite Hpk in Hex. eapply set_stored; [done..|by split_and!].
Qed.

Lemma server_set_refl c : certs_ok c → server_set c c.
Proof. by split. Qed.

Lemma server_set_ca ca c :
  certs_ok c → mbedtls_x509_crt_parse golioth_ca_cert = Some ca →
  CONFIG_POUCH_VALIDATE_SERVER_CERT = true → server_set c (set_ca ca c).
Proof.
  intros [] Hp Hval. split; try done. split; try done. cbn. intros ca' [= <-].
  unfold raw_ca_cert. by rewrite Hval.
Qed.

(** The second half of [cert_server_set], for a trusted certificate. *)
Lemma wp_store_server certbuf crt c Q :
  certs_ok c → acceptable certbuf crt →
  (∀ err c', server_set c c' → server_set_result certbuf c err c' → Q err c') →
  wp (if CERT_SERIAL_MAXLEN <? zlen (crt_serial crt) then mret success else
      err ← extract_pubkey crt;
      match err with
      | Some _ => mret err
      | None =>
          c ← get;
          data ← put_front (crt_serial crt) (serial_data c);
          modify (set_serial data (zlen (crt_serial crt)));;
          mret err
      end) Q c.
Proof.
  intros Hok Ht HQ. destruct (CERT_SERIAL_MAXLEN <? zlen (crt_serial crt)) eqn:Hlen.
  { wp_step. apply Z.ltb_lt in Hlen. apply HQ; [by apply server_set_refl|by eapply set_long_serial]. }
  apply Z.ltb_ge in Hlen. pose proof (zlen_nonneg (crt_serial crt)) as Hpos.
  wp_step. apply wp_extract_pubkey; [done| |].
  { intros Hec. wp_step. apply HQ; [by apply server_set_refl|by eapply set_no_key]. }
  intros key k ok Hec Hst Hex Hok' Hk.
  assert (key_trusted (set_pubkey k c)) as Hkt by (right; exists crt, (server_pubkey c); by destruct Ht as (_ & _ & ?)).
  destruct ok; [|wp_step; apply HQ; [done|by eapply set_key_failed]].
  do 2 wp_step. pose proof Hok' as [Href Hser Hsl Hpk Hpl Hca]. wp_step.
  apply wp_put_front; [lia|]. do 3 wp_step.
  assert (zlen (splice 0 (crt_serial crt) (serial_data (set_pubkey k c))) = CERT_SERIAL_MAXLEN) as Hz
    by (rewrite zlen_splice; lia).
  apply HQ; [by split; try done; split|]. eapply set_stored; [done..|]. split_and!; [done|by apply Hk|].
  unfold pouch_server_certificate_serial_get. apply wp_run. do 2 wp_step. cbn.
  rewrite (proj2 (Z.ltb_ge _ _)) by done. cbn in Hz. rewrite decide_True by (rewrite Hz; lia). wp_step.
  split; [|done]. cbn in Hser. by rewrite slice_splice_eq by lia.
Qed.

Lemma ca_loaded_kept c c' :
  certs_ok c → CONFIG_POUCH_VALIDATE_SERVER_CERT = true → ca_loaded c c' →
  server_set c c' ∧ server_kept c c'.
Proof.
  intros Hok Hval [->|(ca & Hca & ->)]; (split; [|done]); [by apply server_set_refl|by apply server_set_ca].
Qed.

Lemma wp_server_set certbuf c :
  certs_ok c → cert_arg certbuf →
  wp (cert_server_set certbuf) (λ err c', server_set c c' ∧ server_set_result certbuf c err c') c.
Proof.
  intros Hok Ha. unfold cert_server_set. destruct (cert_is_valid certbuf) eqn:Hv; cbn [negb].
  2: { wp_step. split; [by apply server_set_refl|by apply set_bad_argument]. }
  wp_step. apply wp_parse_cert; [done|congruence| |].
  { intros _ Hno. wp_step. split; [by apply server_set_refl|by apply set_not_parsed]. }
  intros crt _ Hp. wp_step.
  destruct CONFIG_POUCH_VALIDATE_SERVER_CERT eqn:Hval.
  - apply wp_authenticate; [done|done|]. intros c1 Hc1.
    destruct (ca_loaded_kept c c1 Hok Hval Hc1) as [Hs1 Hk1]. split_and!.
    + intros Ht. apply (wp_store_server certbuf); [apply Hs1|done|]. intros err c' [? Hd Hr Htr] Herr.
      destruct Hs1 as [_ Hd1 Hr1 Ht1]. split; [split; [done|congruence|congruence|auto]|].
      by eapply server_set_result_kept.
    + intros Hca. wp_step. split; [done|by eapply set_no_ca].
    + intros ca Hca Hver. wp_step. split; [done|by eapply set_not_trusted].
  - wp_step. apply (wp_store_server certbuf); [done| |done].
    split_and!; [done|done|]. intros Hv'. congruence.
Qed.
End cert_spec.

(** ** Properties *)

Section cert_theorems.
Context `{Cfg : Config} `{PS : PsaSpec} {Tls : Mbedtls} {TS : MbedtlsSpec Tls}.
Implicit Types (c : certs).

(** C10: every outcome of setting a server certificate, with its cause. The key and
    the serial number are stored if the certificate parses, is signed by the CA for
    the expected server name (as far as the build asks), has a serial number of at
    most 20 bytes and its key can be exported. A bad argument is refused with
    [EINVAL], a certificate that is not signed with [EPERM], and one that does not
    parse, that cannot be checked because the CA certificate does not parse, or that
    has no elliptic-curve key with [EIO]; none of these changes the stored key and
    serial number. If only writing the key out fails, [EIO] is returned, the old serial
    number is kept, but the key has been overwritten. A serial number of more than 20
    bytes is the exception: success is returned although nothing is stored. Whatever
    certificates are set, a key that is kept comes from a trusted certificate. *)
Theorem server_set_outcomes certbuf c :
  certs_ok c → cert_arg certbuf →
  wp (cert_server_set certbuf) (λ err c', certs_ok c' ∧
    device_certificate c' = device_certificate c ∧ device_ref c' = device_ref c ∧
    (key_trusted c → key_trusted c') ∧ server_set_result certbuf c err c') c.
Proof.
  intros Hok Ha. eapply wp_mono; [by apply wp_server_set|]. by intros err c' [[] Hr].
Qed.
End cert_theorems.

Section cert_witnesses.
#[local] Existing Instances default_config psa_toy psa_toy_spec mbedtls_toy mbedtls_toy_spec.

(** A signed certificate with the serial number 5 6. *)
Definition sample_cert : option pouch_cert := Some (mk_cert (Some [2; 1; 5; 6; 10; 11]) 6).

Lemma server_set_outcomes_witness :
  wp (cert_server_set sample_cert) (λ err c', certs_ok c' ∧
    device_certificate c' = device_certificate init_certs ∧ device_ref c' = device_ref init_certs ∧
    (key_trusted init_certs → key_trusted c') ∧ server_set_result sample_cert init_certs err c')
    init_certs.
Proof. apply (server_set_outcomes sample_cert init_certs); [apply init_certs_ok|by vm_compute]. Defined.

(** The certificate is taken over; one that is not signed is refused; one with a long
    serial number is accepted and forgotten. *)
Example sample_cert_set :
  match cert_server_set sample_cert init_certs with
  | Ret err c => err = success ∧ pk_len (server_pubkey c) = 2 ∧ serial_len c = 2
  | _ => False
  end.
Proof. vm_compute. done. Qed.

Example unsigned_cert_refused :
  match cert_server_set (Some (mk_cert (Some [2; 0; 5; 6; 10; 11]) 6)) init_certs with
  | Ret err c => err = Some EPERM ∧ pk_len (server_pubkey c) = 0
  | _ => False
  end.
Proof. vm_compute. done. Qed.

Example long_serial_ignored :
  match cert_server_set (Some (mk_cert (Some (21 :: 1 :: replicate 21 7 ++ [10; 11])) 25)) init_certs with
  | Ret err c => err = success ∧ pk_len (server_pubkey c) = 0 ∧ serial_len c = 0
  | _ => False
  end.
Proof. vm_compute. done. Qed.
End cert_witnesses.
