(* ===== verification/SaeadSession.v ===== *)
(** SAEAD sessions: [src/saead/session.c] and [src/saead/session.h].

    A session is a key and a position in a pouch. Every block is encrypted under a
    nonce made of the pouch id, the index of the block and the role of the sender,
    with the tag of the block before as associated data. *)
From S2P Require Import Prelude Zephyr Config Platform Buf Block Header Node Cert.

Definition SESSION_ID_TAG_LEN : Z := SESSION_ID_LEN - 8.
Definition AUTH_TAG_LEN : Z := 16.
Definition AD_LEN : Z := AUTH_TAG_LEN.
Definition NONCE_LEN : Z := 12.

(** String length of a base64 encoding, without the terminator. *)
Definition BASE64_STRLEN (buflen : Z) : Z := 4 * ((buflen + 2) / 3).
Definition INFO_MAX_LEN : Z := 12 + BASE64_STRLEN SESSION_ID_LEN + 1.

Definition SAEAD_KEY_SIZE (alg : psa_algorithm) : Z :=
  if decide (alg = PSA_ALG_CHACHA20_POLY1305) then 32 else 16.
Definition SESSION_KEY_TYPE (alg : psa_algorithm) : psa_key_type :=
  if decide (alg = PSA_ALG_CHACHA20_POLY1305) then PSA_KEY_TYPE_CHACHA20 else PSA_KEY_TYPE_AES.

(** [enum session_id_type], [enum pouch_role] *)
Inductive session_id_type := SESSION_ID_TYPE_SEQUENTIAL | SESSION_ID_TYPE_RANDOM.
Inductive pouch_role := POUCH_ROLE_DEVICE | POUCH_ROLE_SERVER.

#[export] Instance session_id_type_eq_dec : EqDecision session_id_type.
Proof. solve_decision. Defined.
#[export] Instance pouch_role_eq_dec : EqDecision pouch_role.
Proof. solve_decision. Defined.

(** The values of the enumeration. *)
Definition role_value (r : pouch_role) : Z :=
  match r with POUCH_ROLE_DEVICE => 0 | POUCH_ROLE_SERVER => 1 end.

(** [enum session_flags]: bit numbers *)
Definition SESSION_VALID : Z := 0.
Definition SESSION_ACTIVE : Z := 1.
Definition SESSION_HAS_POUCH : Z := 2.

(** [struct session_id]; the union is given by its bytes: a random id, or a tag and
    a sequence number. *)
Record session_id := mk_id {
  id_type : session_id_type;
  id_initiator : pouch_role;
  id_value : list Z;
}.

(** [struct session] *)
Record session := mk_session {
  s_id : session_id;
  s_flags : Z;
  s_algorithm : psa_algorithm;
  s_key : Z;
  s_pouch_id : Z;
  s_block_index : Z;
  s_ad : list Z;
}.

Definition s_set_id (i : session_id) (s : session) : session :=
  mk_session i (s_flags s) (s_algorithm s) (s_key s) (s_pouch_id s) (s_block_index s) (s_ad s).
Definition s_set_flags (f : Z) (s : session) : session :=
  mk_session (s_id s) f (s_algorithm s) (s_key s) (s_pouch_id s) (s_block_index s) (s_ad s).
Definition s_set_algorithm (a : psa_algorithm) (s : session) : session :=
  mk_session (s_id s) (s_flags s) a (s_key s) (s_pouch_id s) (s_block_index s) (s_ad s).
Definition s_set_key (k : Z) (s : session) : session :=
  mk_session (s_id s) (s_flags s) (s_algorithm s) k (s_pouch_id s) (s_block_index s) (s_ad s).
Definition s_set_pouch_id (i : Z) (s : session) : session :=
  mk_session (s_id s) (s_flags s) (s_algorithm s) (s_key s) i (s_block_index s) (s_ad s).
Definition s_set_block_index (i : Z) (s : session) : session :=
  mk_session (s_id s) (s_flags s) (s_algorithm s) (s_key s) (s_pouch_id s) i (s_ad s).
Definition s_set_ad (ad : list Z) (s : session) : session :=
  mk_session (s_id s) (s_flags s) (s_algorithm s) (s_key s) (s_pouch_id s) (s_block_index s) ad.

(** [%02x] of a byte. *)
Definition hex_digit (x : Z) : Z := if x <? 10 then 48 + x else 87 + x.
Definition hex2 (x : Z) : list Z := [hex_digit (x / 16); hex_digit (x mod 16)].

(** [uint64_t] in memory. *)
Fixpoint le_bytes (n : nat) (v : Z) : list Z :=
  match n with O => [] | S n => v mod 256 :: le_bytes n (v / 256) end.
Definition le_value (l : list Z) : Z := foldr (λ b v, b + 256 * v) 0 l.

Section session.
Context `{Cfg : Config} `{Zk : Zephyr} `{Mal : Malloc} `{Ps : Psa} `{B64 : Base64}.
Implicit Types (s : session) (id : session_id).

Definition u64_store (v : Z) : list Z :=
  let l := le_bytes 8 (v mod 2 ^ 64) in if CONFIG_BIG_ENDIAN then rev l else l.
Definition u64_load (l : list Z) : Z := le_value (if CONFIG_BIG_ENDIAN then rev l else l).

(** The parts of a sequential id. *)
Definition id_tag id : list Z := slice 0 SESSION_ID_TAG_LEN (id_value id).
Definition id_seqnum id : Z := u64_load (slice SESSION_ID_TAG_LEN 8 (id_value id)).
Definition id_set_tag (tag : list Z) id : session_id :=
  mk_id (id_type id) (id_initiator id) (splice 0 tag (id_value id)).
Definition id_set_seqnum (n : Z) id : session_id :=
  mk_id (id_type id) (id_initiator id) (splice SESSION_ID_TAG_LEN (u64_store n) (id_value id)).

Definition session_id_is_equal (a b : session_id) : bool :=
  bool_decide (id_type a = id_type b) && bool_decide (id_initiator a = id_initiator b) &&
  bool_decide (id_value a = id_value b).

(** [atomic_test_bit] and its kin on the flags of a session. *)
Definition s_test_bit (i : Z) s : bool := atomic_test_bit (s_flags s) i.
Definition s_set_bit (i : Z) s : session := s_set_flags (atomic_set_bit (s_flags s) i) s.
Definition s_clear_bit (i : Z) s : session := s_set_flags (atomic_clear_bit (s_flags s) i) s.

(** The operations take the session and return the session they leave. *)
Definition session_end s : M psa_st session :=
  let active := s_test_bit SESSION_ACTIVE s in
  let s := s_clear_bit SESSION_ACTIVE s in
  if negb active then mret s else
  psa (λ st, (tt, psa_destroy_key (s_key s) st));;
  mret (s_set_key PSA_KEY_ID_NULL s).

Definition session_id_generate id : M psa_st (rc * session_id) :=
  let id := mk_id (id_type id) POUCH_ROLE_DEVICE (id_value id) in
  match id_type id with
  | SESSION_ID_TYPE_RANDOM =>
      '(ok, random) ← psa (psa_generate_random SESSION_ID_LEN);
      let id := mk_id (id_type id) (id_initiator id) random in
      mret (if ok : bool then success else Some EIO, id)
  | SESSION_ID_TYPE_SEQUENTIAL =>
      '(ok, tag) ← psa (psa_generate_random SESSION_ID_TAG_LEN);
      let id := id_set_tag tag id in
      if negb ok then mret (Some EIO, id) else
      mret (success, id_set_seqnum (id_seqnum id + 1) id)
  end.

(** The string without its terminator. [session_id] has [BASE64_STRLEN] bytes and one
    for the terminator, the destination [INFO_MAX_LEN] bytes. *)
Definition session_key_info_build id (algorithm : psa_algorithm) (max_block_size_log : Z)
    : M psa_st (errno + list Z)%type :=
  match base64_encode (BASE64_STRLEN SESSION_ID_LEN + 1) (id_value id) with
  | None => mret (inl EIO)
  | Some sid =>
      if decide (zlen sid < BASE64_STRLEN SESSION_ID_LEN + 1) then
        let info :=
          [69; 48; 58] ++ [if decide (id_initiator id = POUCH_ROLE_DEVICE) then 68 else 83] ++
          [58] ++ c_string sid ++ [58; 67] ++
          [if decide (algorithm = PSA_ALG_CHACHA20_POLY1305) then 67 else 65] ++
          [if decide (id_type id = SESSION_ID_TYPE_SEQUENTIAL) then 83 else 82] ++
          [58] ++ hex2 max_block_size_log in
        if decide (zlen info + 1 ≤ INFO_MAX_LEN) then mret (inr info) else ub
      else ub
  end.

Definition session_key_generate id (algorithm : psa_algorithm) (max_block_size_log private_key : Z)
    (key : pubkey) (usage : list psa_key_usage) : M psa_st Z :=
  if pk_len key =? 0 then mret PSA_KEY_ID_NULL else
  st ← get;
  let '(ok, op) := psa_key_derivation_setup PSA_KEY_DERIVATION_OPERATION_INIT st in
  if negb ok then mret PSA_KEY_ID_NULL else
  if decide (0 ≤ pk_len key ≤ zlen (pk_data key)) then
    let '(ok, op) := psa_key_derivation_key_agreement private_key
      (slice 0 (pk_len key) (pk_data key)) op st in
    if negb ok then mret PSA_KEY_ID_NULL else
    info ← session_key_info_build id algorithm max_block_size_log;
    match info with
    | inl _ => mret PSA_KEY_ID_NULL
    | inr info =>
        let '(ok, op) := psa_key_derivation_input_info info op st in
        if negb ok then mret PSA_KEY_ID_NULL else
        let key_attributes := mk_attributes (Some (SESSION_KEY_TYPE algorithm))
          (SAEAD_KEY_SIZE algorithm * 8) (Some algorithm) usage in
        k ← psa (psa_key_derivation_output_key key_attributes op);
        mret (default PSA_KEY_ID_NULL k)
    end
  else ub.

Definition session_pouch_start s (pouch_id : Z) : rc * session :=
  if negb (s_test_bit SESSION_ACTIVE s) then (Some EBUSY, s)
  else (success, s_set_block_index 0 (s_set_pouch_id pouch_id s)).

Definition nonce_generate s (sender : pouch_role) : list Z :=
  sys_put_be16 (u16 (s_pouch_id s)) ++ sys_put_be16 (u16 (s_block_index s)) ++
  [role_value sender] ++ replicate 7 0.

(** The associated data of the next block. *)
Definition block_ad s : list Z := if 0 <? s_block_index s then s_ad s else [].

(** Programs on the heap alone. *)
Definition in_mem {A} (m : M mem A) : M (mem * psa_st) A := zoom fst (λ m t, (m, t.2)) m.

Definition session_encrypt_block s (block : ptr) : M (mem * psa_st) (ptr * session) :=
  encrypted ← in_mem (buf_alloc MAX_CIPHERTEXT_BLOCK_SIZE);
  match encrypted with
  | None => mret (NULL, s)
  | Some _ =>
      let nonce := nonce_generate s POUCH_ROLE_DEVICE in
      let plaintext := pouch_bufview_init block in
      '(plaintext_len, plaintext) ← in_mem (pouch_bufview_read_be16 plaintext);
      avail ← in_mem (pouch_bufview_available plaintext);
      if negb (plaintext_len =? avail) then in_mem (buf_free encrypted);; mret (NULL, s) else
      let encrypted_len := usz (plaintext_len + AUTH_TAG_LEN) in
      in_mem (block_size_write encrypted encrypted_len);;
      ciphertext ← in_mem (buf_claim encrypted encrypted_len);
      '(src, plaintext) ← in_mem (pouch_bufview_read plaintext plaintext_len);
      match src with
      | None => ub
      | Some src =>
          input ← in_mem (load_bytes src plaintext_len);
          st ← get;
          match psa_aead_encrypt st.2 (s_key s) (s_algorithm s) nonce (block_ad s) input encrypted_len with
          | None => in_mem (buf_free encrypted);; mret (NULL, s)
          | Some out =>
              in_mem (store_bytes ciphertext out);;
              if negb (zlen out =? encrypted_len) then in_mem (buf_free encrypted);; mret (NULL, s) else
              ad ← in_mem (load_bytes (ciphertext.1, ciphertext.2 + plaintext_len) AUTH_TAG_LEN);
              mret (encrypted, s_set_block_index (u32 (s_block_index s + 1)) (s_set_ad ad s))
          end
      end
  end.

Definition session_decrypt_block s (block : ptr) : M (mem * psa_st) (ptr * session) :=
  decrypted ← in_mem (buf_alloc MAX_PLAINTEXT_BLOCK_SIZE);
  match decrypted with
  | None => mret (NULL, s)
  | Some _ =>
      let nonce := nonce_generate s POUCH_ROLE_SERVER in
      let ciphertext := pouch_bufview_init block in
      '(ciphertext_len, ciphertext) ← in_mem (pouch_bufview_read_be16 ciphertext);
      avail ← in_mem (pouch_bufview_available ciphertext);
      if (ciphertext_len <=? AUTH_TAG_LEN) || negb (ciphertext_len =? avail) then
        in_mem (buf_free decrypted);; mret (NULL, s)
      else
      let payload_len := usz (ciphertext_len - AUTH_TAG_LEN) in
      in_mem (block_size_write decrypted payload_len);;
      dst ← in_mem (buf_claim decrypted payload_len);
      '(src, ciphertext) ← in_mem (pouch_bufview_read ciphertext payload_len);
      match src with
      | None => ub
      | Some src =>
          input ← in_mem (load_bytes src ciphertext_len);
          st ← get;
          match psa_aead_decrypt st.2 (s_key s) (s_algorithm s) nonce (block_ad s) input payload_len with
          | None => in_mem (buf_free decrypted);; mret (NULL, s)
          | Some out =>
              in_mem (store_bytes dst out);;
              if negb (zlen out =? payload_len) then in_mem (buf_free decrypted);; mret (NULL, s) else
              '(d, ciphertext) ← in_mem (pouch_bufview_memcpy ciphertext AUTH_TAG_LEN);
              let s := s_set_block_index (u32 (s_block_index s + 1)) (s_set_ad (splice 0 d (s_ad s)) s) in
              mret (decrypted, s_set_bit SESSION_VALID s)
          end
      end
  end.
End session.

(** ** Specification *)

(** A build with SAEAD encryption. *)
Class SaeadBuild (Cfg : Config) : Prop := saead_build : CONFIG_POUCH_ENCRYPTION_SAEAD = true.

Section session_spec.
Context `{COk : ConfigOk} `{ZS : ZephyrSpec} `{Mal : Malloc} `{PS : PsaSpec} {SB : SaeadBuild Cfg}.
Implicit Types (s : session) (m : mem) (st : psa_st) (l : nat) (b : pouch_buf).

Lemma max_ciphertext : MAX_CIPHERTEXT_BLOCK_SIZE = MAX_PLAINTEXT_BLOCK_SIZE + AUTH_TAG_LEN.
Proof.
  unfold MAX_CIPHERTEXT_BLOCK_SIZE, CONFIG_POUCH_AUTH_TAG_LEN. by rewrite saead_build.
Qed.

(** The variables of a session are in their ranges. *)
Record session_ok s : Prop := {
  so_id : zlen (id_value (s_id s)) = SESSION_ID_LEN;
  so_pouch_id : 0 ≤ s_pouch_id s < 65536;
  so_index : 0 ≤ s_block_index s < 2 ^ 32;
  so_ad : zlen (s_ad s) = AD_LEN;
}.

(** The next block of the pouch, once [tag] is the tag of the last one. *)
Definition advance s (tag : list Z) : session :=
  s_set_block_index (u32 (s_block_index s + 1)) (s_set_ad tag s).

(** What [sender] makes of the plaintext [pt] at the position of the session [s]
    with the key [key]. *)
Definition seal_at s (sender : pouch_role) (key : psa_key) (pt : list Z) : list Z :=
  aead_seal (s_algorithm s) (key_material key) (nonce_generate s sender) (block_ad s) pt.

(** The tag at the end of a ciphertext. *)
Definition tag_of (ct : list Z) : list Z := slice (zlen ct - AUTH_TAG_LEN) AUTH_TAG_LEN ct.

(** A block: its size and its bytes. *)
Definition sized (x : list Z) : list Z := sys_put_be16 (zlen x) ++ x.

Lemma seal_at_len s r key pt : zlen (seal_at s r key pt) = zlen pt + AUTH_TAG_LEN.
Proof. apply seal_len. Qed.

Lemma tag_of_len ct : AUTH_TAG_LEN ≤ zlen ct → zlen (tag_of ct) = AUTH_TAG_LEN.
Proof. intros. unfold tag_of, AUTH_TAG_LEN in *. apply zlen_slice; lia. Qed.

Lemma advance_ok s tag : session_ok s → zlen tag = AD_LEN → session_ok (advance s tag).
Proof. intros [] Ht. split; try done. cbn. apply Z.mod_pos_bound. lia. Qed.

Lemma wp_in_mem {A} (p : M mem A) Q (t : mem * psa_st) :
  wp p (λ a m, Q a (m, t.2)) t.1 → wp (in_mem p) Q t.
Proof. intros H. apply wp_zoom. exact H. Qed.

(** A view does not depend on the other buffers. *)
Lemma view_rest_kept m m' v l r :
  view_buf v = Some l → heap m' !! l = heap m !! l → view_rest m v r → view_rest m' v r.
Proof.
  intros Hv Hm (k & b & Hv' & Hk & H). rewrite Hv in Hv'. injection Hv' as <-.
  exists l, b. by rewrite Hm.
Qed.

(** The buffer that takes the output: first empty, then with its size, then with
    room claimed, then filled. *)
Section output.
Context (junk : list Z) (n : Z).
Hypothesis Hjunk : Forall is_byte junk.
Hypothesis Hn : 0 ≤ n < 65536.
Hypothesis Hroom : 2 + n ≤ zlen junk < 2 ^ 32.

Definition out_sized : pouch_buf := buf_append (mk_buf 0 junk) (sys_put_be16 n).
Definition out_claimed : pouch_buf := mk_buf (2 + n) (buf_data out_sized).

Lemma out_empty_wf : wf_buf (mk_buf 0 junk).
Proof. split; cbn; try done; lia. Qed.

Lemma out_sized_appends : appends (mk_buf 0 junk) (sys_put_be16 n) out_sized.
Proof.
  apply buf_append_appends; [apply out_empty_wf| |by apply be16_bytes].
  rewrite be16_zlen by done. unfold capacity. cbn. lia.
Qed.

Lemma out_sized_bytes : buf_bytes out_sized = 2.
Proof. unfold out_sized. cbn. by rewrite be16_zlen by done. Qed.

Lemma out_capacity : zlen (buf_data out_sized) = zlen junk.
Proof. apply (app_cap _ _ _ out_sized_appends). Qed.

Lemma out_claimed_wf : wf_buf out_claimed.
Proof.
  pose proof out_capacity as Hc. destruct (app_wf _ _ _ out_sized_appends) as [? ? ?].
  split; cbn [out_claimed buf_bytes buf_data]; [lia|lia|done].
Qed.

Lemma out_filled d :
  zlen d = n → Forall is_byte d →
  mk_buf (buf_bytes out_claimed) (splice 2 d (buf_data out_claimed)) = buf_append out_sized d ∧
  wf_buf (buf_append out_sized d) ∧ contents (buf_append out_sized d) = sys_put_be16 n ++ d.
Proof.
  intros Hd Hb. pose proof out_capacity as Hc. pose proof out_sized_bytes as Hs.
  pose proof out_sized_appends as Hap.
  assert (appends out_sized d (buf_append out_sized d)) as Hap2.
  { apply buf_append_appends; [apply Hap| |done]. unfold capacity. lia. }
  split_and!; [|apply Hap2|].
  - unfold out_claimed, buf_append. cbn [buf_bytes buf_data]. rewrite Hs, Hd. done.
  - by rewrite (app_contents _ _ _ Hap2), (app_contents _ _ _ Hap).
Qed.
End output.

(** The outcome of handling the block in [l]: the heap keeps its other buffers, and
    a buffer that is returned is new. *)
Definition block_outcome m st l ls (r : ptr) (t : mem * psa_st) : Prop :=
  t.2 = st ∧ heap_owns t.1 (option_list r ++ l :: ls) ∧
  (∀ k, k ∈ l :: ls → heap t.1 !! k = heap m !! k).

Lemma owned_not_fresh m ls k : heap_owns m ls → k ∈ ls → k ≠ mallocs m.
Proof. intros H Hk%(owns_fresh _ _ H) ->. lia. Qed.

(** Giving up the output buffer. *)
Lemma wp_drop_output {A} m st l ls b1 (r : A) Q :
  heap_owns m (l :: ls) → wf_buf b1 →
  (∀ t, block_outcome m st l ls NULL t → Q r t) →
  wp (in_mem (buf_free (Some (mallocs m)));; mret r) Q (new_buf b1 m, st).
Proof.
  intros Hm Hwf HQ. wp_step. apply wp_in_mem. cbn [fst snd].
  eapply wp_free_owned; [by apply owns_new_buf|]. intros m' Hm' _ Hk. wp_step.
  apply HQ. split_and!; [done|done|]. intros k Hin. cbn [fst].
  pose proof (owned_not_fresh _ _ _ Hm Hin). rewrite Hk by done. by apply heap_new_buf_ne.
Qed.

(** Handing it out. *)
Lemma output_outcome m st l ls b1 :
  heap_owns m (l :: ls) → wf_buf b1 →
  block_outcome m st l ls (Some (mallocs m)) (new_buf b1 m, st).
Proof.
  intros Hm Hwf. split_and!; [done|by apply owns_new_buf|]. intros k Hin. cbn [fst].
  apply heap_new_buf_ne. by eapply owned_not_fresh.
Qed.

Lemma sized_view m l b pt :
  heap m !! l = Some b → wf_buf b → contents b = sized pt → zlen pt < 65536 →
  ∀ Q, (∀ v, view_buf v = Some l → view_rest m v pt → Q (zlen pt, v) m) →
  wp (pouch_bufview_read_be16 (pouch_bufview_init (Some l))) Q m.
Proof.
  intros Hl Hwf Hc Hlen Q HQ. pose proof (zlen_nonneg pt).
  eapply (wp_read_be16 _ _ (zlen pt) pt); [lia| |].
  { change (view_rest m (pouch_bufview_init (Some l)) (sized pt)). rewrite <- Hc.
    by apply view_rest_init. }
  intros v' Hv Hr. by apply HQ.
Qed.

Lemma contents_sized_bytes b pt : wf_buf b → contents b = sized pt → Forall is_byte pt.
Proof.
  intros Hwf Hc. pose proof (contents_bytes b Hwf) as Hb. rewrite Hc in Hb.
  by apply Forall_app in Hb as [_ ?].
Qed.

(** Writing the size and claiming the room for the output. *)
Lemma wp_size_output m st junk n Q :
  Forall is_byte junk → 0 ≤ n < 65536 → 2 + n ≤ zlen junk < 2 ^ 32 →
  Q tt (new_buf (out_sized junk n) m, st) →
  wp (in_mem (block_size_write (Some (mallocs m)) n)) Q (new_buf (mk_buf 0 junk) m, st).
Proof.
  intros Hj Hn Hroom HQ. apply wp_in_mem. cbn [fst snd]. unfold block_size_write.
  pose proof (out_empty_wf junk n Hj Hn Hroom) as Hwf.
  wp_step. eapply wp_buf_claim; [apply heap_new_buf_eq|done|lia|unfold capacity; cbn; lia|].
  rewrite u16_small by done. eapply wp_store; [apply heap_set_buf_eq|cbn; lia| |].
  { rewrite be16_zlen by done. unfold capacity. cbn. lia. }
  rewrite !set_buf_set_buf, set_new_buf. cbn [buf_bytes buf_data].
  unfold out_sized, buf_append in HQ. cbn [buf_bytes buf_data] in HQ.
  rewrite be16_zlen in HQ by done. exact HQ.
Qed.

Lemma wp_claim_output m st junk n Q :
  Forall is_byte junk → 0 ≤ n < 65536 → 2 + n ≤ zlen junk < 2 ^ 32 →
  Q (Some (mallocs m), 2) (new_buf (out_claimed junk n) m, st) →
  wp (in_mem (buf_claim (Some (mallocs m)) n)) Q (new_buf (out_sized junk n) m, st).
Proof.
  intros Hj Hn Hroom HQ. apply wp_in_mem. cbn [fst snd].
  pose proof (out_sized_appends junk n Hj Hn Hroom) as Hap.
  pose proof (out_sized_bytes junk n Hn) as Hb.
  eapply wp_buf_claim; [apply heap_new_buf_eq|apply Hap|lia| |].
  { rewrite (app_cap _ _ _ Hap), Hb. unfold capacity. cbn. lia. }
  rewrite set_new_buf, Hb. exact HQ.
Qed.

Lemma wp_store_output m st junk n d Q :
  Forall is_byte junk → 0 ≤ n < 65536 → 2 + n ≤ zlen junk < 2 ^ 32 →
  zlen d = n → Forall is_byte d →
  Q tt (new_buf (buf_append (out_sized junk n) d) m, st) →
  wp (in_mem (store_bytes (Some (mallocs m), 2) d)) Q (new_buf (out_claimed junk n) m, st).
Proof.
  intros Hj Hn Hroom Hd Hb HQ. apply wp_in_mem. cbn [fst snd].
  pose proof (out_capacity junk n Hj Hn Hroom) as Hc.
  destruct (out_filled junk n Hj Hn Hroom d Hd Hb) as (Heq & _ & _).
  eapply wp_store; [apply heap_new_buf_eq|lia|unfold capacity, out_claimed; cbn [buf_data]; lia|].
  rewrite set_new_buf, Heq. exact HQ.
Qed.

(** The session has a key that encrypts. *)
Definition can_encrypt st s (key : psa_key) : Prop :=
  psa_keys st (s_key s) = Some key ∧ key_algorithm key = Some (s_algorithm s) ∧
  PSA_KEY_USAGE_ENCRYPT ∈ key_usage key.

(** With such a key and memory for the result a block is sealed. *)
Lemma wp_session_encrypt m st s l ls b pt :
  heap_owns m (l :: ls) → heap m !! l = Some b → contents b = sized pt →
  zlen pt ≤ MAX_PLAINTEXT_BLOCK_SIZE - 2 → session_ok s →
  wp (session_encrypt_block s (Some l)) (λ r t, block_outcome m st l ls r.1 t ∧
    match r.1 with
    | None => r.2 = s
    | Some e => ∃ key b', psa_keys st (s_key s) = Some key ∧
        let ct := seal_at s POUCH_ROLE_DEVICE key pt in
        heap t.1 !! e = Some b' ∧ contents b' = sized ct ∧ r.2 = advance s (tag_of ct)
    end ∧
    ((∃ key, can_encrypt st s key) → malloc_bytes (mallocs m) MAX_CIPHERTEXT_BLOCK_SIZE ≠ None → is_Some r.1)) (m, st).
Proof.
  intros Hm Hl Hc Hpt Hok. pose proof max_ciphertext as Hmax. pose proof block_sizes_range as Hrange.
  pose proof (zlen_nonneg pt) as Hpos. pose proof (owns_wf _ _ Hm _ _ Hl) as Hwf.
  pose proof (contents_sized_bytes _ _ Hwf Hc) as Hbytes.
  assert (l ≠ mallocs m) as Hne by (eapply owned_not_fresh; [exact Hm|by left]).
  unfold session_encrypt_block, AUTH_TAG_LEN in *. wp_step. apply wp_in_mem. cbn [fst snd].
  apply wp_buf_alloc; [lia| |].
  2: { intros Hno. wp_step. split; [|by split]. split_and!; [done|by apply owns_no_buf|done]. }
  intros junk _ Hjunk Hjb. set (n := zlen pt + 16).
  assert (0 ≤ n < 65536 ∧ 2 + n ≤ zlen junk < 2 ^ 32) as [Hn Hroom] by lia.
  wp_step. apply wp_in_mem. cbn [fst snd].
  eapply (sized_view _ l b pt); [by rewrite heap_new_buf_ne|done|done|lia|]. intros v Hv Hr.
  wp_step. apply wp_in_mem. cbn [fst snd]. eapply wp_available; [exact Hr|].
  rewrite Z.eqb_refl. cbn [negb]. rewrite usz_small by lia. fold n.
  wp_step. apply wp_size_output; [done..|]. wp_step. apply wp_claim_output; [done..|].
  wp_step. apply wp_in_mem. cbn [fst snd].
  eapply (wp_view_read _ v pt []); [|done|].
  { rewrite app_nil_r. eapply view_rest_kept; [exact Hv| |exact Hr].
    by rewrite !heap_new_buf_ne. }
  intros a v' _ _ Hload. wp_step. apply wp_in_mem. cbn [fst snd]. apply Hload. do 2 wp_step. cbn [snd].
  destruct (psa_aead_encrypt _ _ _ _ _ _ _) as [out|] eqn:Henc.
  2: { apply (wp_drop_output m st l ls); [done|by apply out_claimed_wf|]. intros t Ht. split; [done|].
       split; [done|]. intros (key & Hkey & Halg & Hu) _.
       by rewrite (aead_encrypt_seal _ _ _ _ _ _ _ key) in Henc by (done || (unfold aead_tag_len; lia)). }
  apply aead_encrypt_ok in Henc as (key & Hkey & Hout). fold (seal_at s POUCH_ROLE_DEVICE key pt) in Hout.
  pose proof (seal_at_len s POUCH_ROLE_DEVICE key pt) as Hlen. unfold AUTH_TAG_LEN in Hlen.
  rewrite <- Hout in Hlen. fold n in Hlen.
  assert (Forall is_byte out) as Hob by (rewrite Hout; by apply seal_bytes).
  destruct (out_filled junk n Hjb Hn Hroom out Hlen Hob) as (_ & Hwf' & Hco).
  wp_step. apply wp_store_output; [done..|]. rewrite Hlen, Z.eqb_refl. cbn [negb].
  wp_step. apply wp_in_mem. cbn [fst snd].
  eapply (wp_load_ahead _ _ 0 (sys_put_be16 n ++ slice 0 (zlen pt) out) (tag_of out) []).
  - rewrite app_nil_r, <- app_assoc. replace (slice 0 (zlen pt) out ++ tag_of out) with out.
    + rewrite <- Hco. apply (view_rest_init _ _ _ (heap_new_buf_eq _ _) Hwf').
    + unfold tag_of, AUTH_TAG_LEN. rewrite <- (slice_0_all out) at 1. rewrite Hlen.
      replace n with (zlen pt + 16) by done. rewrite slice_split by lia. f_equal. f_equal; lia.
  - rewrite zlen_app, be16_zlen, zlen_slice by lia. cbn [snd]. lia.
  - unfold tag_of, AUTH_TAG_LEN. by rewrite zlen_slice by lia.
  - wp_step. cbn [fst snd]. split; [by apply (output_outcome m st l ls)|]. split; [|by eexists].
    exists key, (buf_append (out_sized junk n) out). split; [done|]. cbn zeta.
    rewrite <- Hout. split_and!; [apply heap_new_buf_eq| |done]. rewrite Hco. unfold sized. by rewrite Hlen.
Qed.
(** The session has a key that decrypts. *)
Definition can_decrypt st s (key : psa_key) : Prop :=
  psa_keys st (s_key s) = Some key ∧ key_algorithm key = Some (s_algorithm s) ∧
  PSA_KEY_USAGE_DECRYPT ∈ key_usage key.

(** A pointer to the bytes [d] that come next also reaches those behind them. *)
Lemma wp_view_read_all m v d r Q n :
  view_rest m v (d ++ r) → n = zlen d →
  (∀ a v', view_buf v' = view_buf v → view_rest m v' r →
     (∀ Q' k, k = zlen (d ++ r) → Q' (d ++ r) m → wp (load_bytes a k) Q' m) → Q (Some a, v') m) →
  wp (pouch_bufview_read v n) Q m.
Proof.
  intros Hr -> HQ. unfold pouch_bufview_read. wp_step. eapply wp_available; [exact Hr|].
  pose proof (zlen_nonneg r). pose proof (zlen_nonneg d). rewrite zlen_app.
  destruct (Z.ltb_spec (zlen d + zlen r) (zlen d)); [lia|]. wp_step.
  eapply wp_bufview_read; [exact Hr|done|]. intros l b Hv Hl Hwf ? ? Hd Hr'. wp_step.
  apply HQ; [by rewrite Hv|done|]. intros Q' k -> HQ'.
  destruct v as [p off]. cbn in Hv, Hr. subst p. cbn [view_offset] in *.
  eapply (wp_load_ahead m l off [] (d ++ r) []); [by rewrite app_nil_r|rewrite zlen_nil; lia|done|done].
Qed.

Lemma splice_whole (d l : list Z) : zlen d = zlen l → splice 0 d l = d.
Proof.
  unfold splice, zlen. intros. rewrite drop_ge by lia. by rewrite app_nil_r.
Qed.

(** What decryption makes of the block with the size field [size] and the bytes
    [body]: it gives back a plaintext that the server sealed at this position of the
    session, or nothing; and it does give back what was sealed, if there is memory. *)
Definition decrypt_result m st s size (body : list Z) (r : ptr * session) (t : mem * psa_st) : Prop :=
  match r.1 with
  | None => r.2 = s
  | Some e => ∃ key pt b', psa_keys st (s_key s) = Some key ∧ 0 < zlen pt ∧ Forall is_byte pt ∧
      let ct := seal_at s POUCH_ROLE_SERVER key pt in
      size = zlen body ∧ body = ct ∧ heap t.1 !! e = Some b' ∧ contents b' = sized pt ∧
      r.2 = s_set_bit SESSION_VALID (advance s (tag_of ct))
  end ∧
  ∀ key pt, can_decrypt st s key → Forall is_byte pt → 0 < zlen pt → size = zlen body →
    body = seal_at s POUCH_ROLE_SERVER key pt →
    malloc_bytes (mallocs m) MAX_PLAINTEXT_BLOCK_SIZE ≠ None →
    ∃ e b', r.1 = Some e ∧ heap t.1 !! e = Some b' ∧ contents b' = sized pt.

(** The call of PSA that decides. *)
Definition psa_opens st s (size : Z) (body : list Z) : option (list Z) :=
  psa_aead_decrypt st (s_key s) (s_algorithm s) (nonce_generate s POUCH_ROLE_SERVER) (block_ad s) body (size - 16).

Lemma psa_opens_sealed st s size body key pt :
  can_decrypt st s key → Forall is_byte pt → size = zlen body → body = seal_at s POUCH_ROLE_SERVER key pt →
  psa_opens st s size body = Some pt.
Proof.
  intros (Hkey & Halg & Hu) Hpb -> ->. rewrite seal_at_len. unfold psa_opens, seal_at, AUTH_TAG_LEN.
  rewrite (aead_decrypt_seal st); [done..|lia].
Qed.

Lemma decrypt_result_none m st s size body t :
  (size = zlen body → 16 < size → psa_opens st s size body = None) → decrypt_result m st s size body (NULL, s) t.
Proof.
  intros Hf. split; [done|]. intros key pt Hc Hpb Hpt Hs Hb _.
  rewrite (psa_opens_sealed st s size body key pt) in Hf by done.
  discriminate Hf; [done|]. rewrite Hs, Hb, seal_at_len. unfold AUTH_TAG_LEN. lia.
Qed.

Lemma decrypt_result_some m st s size body out e b' t :
  psa_opens st s size body = Some out → size = zlen body → 16 < size → heap t.1 !! e = Some b' → contents b' = sized out →
  decrypt_result m st s size body (Some e, s_set_bit SESSION_VALID (advance s (tag_of body))) t.
Proof.
  intros Ho Hs Hgt He Hc. pose proof Ho as (Hob & key & Hkey & Hct)%aead_decrypt_ok.
  fold (seal_at s POUCH_ROLE_SERVER key out) in Hct.
  pose proof (seal_at_len s POUCH_ROLE_SERVER key out) as Hlen. rewrite <- Hct in Hlen. unfold AUTH_TAG_LEN in Hlen. split.
  - exists key, out, b'. cbn zeta. rewrite <- Hct. split_and!; try done. lia.
  - intros key' pt Hcan Hpb _ _ Hb _. rewrite (psa_opens_sealed st s size body key' pt) in Ho by done.
    injection Ho as ->. by exists e, b'.
Qed.

Lemma wp_session_decrypt m st s l ls b size body :
  heap_owns m (l :: ls) → heap m !! l = Some b → contents b = sys_put_be16 size ++ body →
  0 ≤ size ≤ MAX_BLOCK_SIZE_FIELD_VALUE → session_ok s →
  wp (session_decrypt_block s (Some l)) (λ r t,
    block_outcome m st l ls r.1 t ∧ decrypt_result m st s size body r t) (m, st).
Proof.
  intros Hm Hl Hc Hsz Hok. pose proof max_ciphertext as Hmax. pose proof block_sizes_range as Hrange.
  unfold MAX_BLOCK_SIZE_FIELD_VALUE in Hsz. pose proof (owns_wf _ _ Hm _ _ Hl) as Hwf.
  assert (l ≠ mallocs m) as Hne by (eapply owned_not_fresh; [exact Hm|by left]).
  unfold session_decrypt_block, AUTH_TAG_LEN in *. wp_step. apply wp_in_mem. cbn [fst snd].
  apply wp_buf_alloc; [lia| |].
  2: { intros Hno. wp_step. split; [|split; [done|by intros]].
       split_and!; [done|by apply owns_no_buf|done]. }
  intros junk _ Hjunk Hjb.
  assert (wf_buf (mk_buf 0 junk)) as Hwf0 by (split; cbn; try done; lia).
  wp_step. apply wp_in_mem. cbn [fst snd].
  eapply (wp_read_be16 _ _ size body); [lia| |].
  { rewrite <- Hc. apply view_rest_init; [by rewrite heap_new_buf_ne|done]. }
  intros v Hv Hr. wp_step. apply wp_in_mem. cbn [fst snd]. eapply wp_available; [exact Hr|].
  destruct (Z.leb_spec size 16) as [Hle|Hgt].
  { cbn [orb]. apply (wp_drop_output m st l ls); [done|by apply Hwf0|].
    intros t Ht. split; [done|]. apply decrypt_result_none. lia. }
  destruct (Z.eqb_spec size (zlen body)) as [Hsb|Hsb]; cbn [orb negb].
  2: { apply (wp_drop_output m st l ls); [done|by apply Hwf0|]. intros t Ht.
       split; [done|]. by apply decrypt_result_none. }
  set (n := size - 16). assert (0 ≤ n < 65536 ∧ 2 + n ≤ zlen junk < 2 ^ 32) as [Hn Hroom] by lia.
  rewrite usz_small by lia. fold n.
  wp_step. apply wp_size_output; [done..|]. wp_step. apply wp_claim_output; [done..|].
  assert (body = slice 0 n body ++ slice n 16 body) as Hbody.
  { rewrite <- slice_split by lia. replace (n + 16) with (zlen body) by lia. by rewrite slice_0_all. }
  wp_step. apply wp_in_mem. cbn [fst snd].
  eapply (wp_view_read_all _ v (slice 0 n body) (slice n 16 body)).
  { rewrite <- Hbody. eapply view_rest_kept; [exact Hv| |exact Hr]. by rewrite !heap_new_buf_ne. }
  { by rewrite zlen_slice by lia. }
  rewrite <- Hbody. intros a v' Hv' Hr' Hload. wp_step. apply wp_in_mem. cbn [fst snd].
  apply Hload; [done|]. do 2 wp_step. cbn [snd].
  destruct (psa_aead_decrypt _ _ _ _ _ _ _) as [out|] eqn:Hdec; fold (psa_opens st s size body) in Hdec.
  2: { apply (wp_drop_output m st l ls); [done|by apply out_claimed_wf|]. intros t Ht.
       split; [done|]. by apply decrypt_result_none. }
  pose proof Hdec as (Hob & key & _ & Hct)%aead_decrypt_ok.
  pose proof (seal_at_len s POUCH_ROLE_SERVER key out) as Hlen. unfold seal_at, AUTH_TAG_LEN in Hlen.
  rewrite <- Hct in Hlen. assert (zlen out = n) as Hon by lia.
  destruct (out_filled junk n Hjb Hn Hroom out Hon Hob) as (_ & Hwf' & Hco).
  wp_step. apply wp_store_output; [done..|]. rewrite Hon, Z.eqb_refl. cbn [negb].
  wp_step. apply wp_in_mem. cbn [fst snd]. apply (wp_view_memcpy _ v' (slice n 16 body)); [|lia|].
  { eapply (view_rest_kept _ _ _ l); [by rewrite Hv', Hv| |exact Hr']. by rewrite !heap_new_buf_ne. }
  intros v2 _ _. rewrite take_ge.
  2: { pose proof (zlen_slice n 16 body). unfold zlen in *. lia. }
  wp_step. cbn [fst snd]. split; [by apply (output_outcome m st l ls)|].
  assert (slice n 16 body = tag_of body) as Htag by (unfold tag_of, AUTH_TAG_LEN; f_equal; lia).
  rewrite splice_whole by (rewrite (so_ad _ Hok), zlen_slice; unfold AD_LEN, AUTH_TAG_LEN; lia).
  rewrite Htag. eapply decrypt_result_some; [exact Hdec|done|lia|apply heap_new_buf_eq|].
  rewrite Hco. unfold sized. by rewrite Hon.
Qed.
End session_spec.

(** ** Key derivation *)

Section key_info.
Context `{Cfg : Config} {Zk : Zephyr} {Mal : Malloc} `{PS : PsaSpec} `{B64S : Base64Spec}.
Implicit Types (id : session_id) (alg : psa_algorithm) (st : psa_st).

Definition id_ok id : Prop := zlen (id_value id) = SESSION_ID_LEN ∧ Forall is_byte (id_value id).

Lemma hex_digit_inj x y : 0 ≤ x < 16 → 0 ≤ y < 16 → hex_digit x = hex_digit y → x = y.
Proof. unfold hex_digit. intros. destruct (Z.ltb_spec x 10), (Z.ltb_spec y 10); lia. Qed.

Lemma hex2_inj x y : is_byte x → is_byte y → hex2 x = hex2 y → x = y.
Proof.
  unfold is_byte, hex2. intros Hx Hy [= H1 H2].
  apply hex_digit_inj in H1, H2; Z.to_euclidean_division_equations; lia.
Qed.

(** The info string of a session whose id encodes to [sid]. *)
Definition info_string id alg (log : Z) (sid : list Z) : list Z :=
  [69; 48; 58; if decide (id_initiator id = POUCH_ROLE_DEVICE) then 68 else 83; 58] ++ sid ++
  [58; 67; if decide (alg = PSA_ALG_CHACHA20_POLY1305) then 67 else 65;
   if decide (id_type id = SESSION_ID_TYPE_SEQUENTIAL) then 83 else 82; 58] ++ hex2 log.

Lemma info_build_eq id alg log st :
  zlen (id_value id) = SESSION_ID_LEN → ∃ sid, base64_encode (BASE64_STRLEN SESSION_ID_LEN + 1) (id_value id) = Some sid ∧
    zlen sid = BASE64_STRLEN SESSION_ID_LEN ∧
    session_key_info_build id alg log st = Ret (inr (info_string id alg log sid)) st.
Proof.
  intros Hlen.
  destruct (base64_ok (BASE64_STRLEN SESSION_ID_LEN + 1) (id_value id)) as [sid Hsid].
  { rewrite Hlen. unfold BASE64_STRLEN. lia. }
  pose proof (base64_len _ _ _ Hsid) as Hs. pose proof (base64_chars _ _ _ Hsid) as Hc.
  rewrite Hlen in Hs. exists sid. split_and!; [done|exact Hs|].
  unfold session_key_info_build. rewrite Hsid, decide_True by (rewrite Hs; unfold BASE64_STRLEN; lia).
  rewrite c_string_id by (eapply Forall_impl; [|eassumption]; cbn; intros; lia). change (4 * ((SESSION_ID_LEN + 2) / 3)) with 24 in Hs.
  rewrite decide_True; [done|]. rewrite !zlen_app, Hs. done.
Qed.
End key_info.

Section key_info_theorems.
Context `{Cfg : Config} {Zk : Zephyr} {Mal : Malloc} `{PS : PsaSpec} `{B64S : Base64Spec}.
Implicit Types (id : session_id) (alg : psa_algorithm) (st : psa_st).

(** C15: the info string that the session key is derived with is always built, fits
    the array it is printed to with its terminator, leaving no byte free, and tells
    all parameters of the session apart: initiator, id type, id, algorithm and block
    size. Keys of sessions with different parameters are derived from different
    info. *)
Theorem key_info_injective id1 id2 alg1 alg2 log1 log2 st :
  id_ok id1 → id_ok id2 → is_byte log1 → is_byte log2 →
  ∃ i1 i2, session_key_info_build id1 alg1 log1 st = Ret (inr i1) st ∧
    session_key_info_build id2 alg2 log2 st = Ret (inr i2) st ∧
    zlen i1 + 1 = INFO_MAX_LEN ∧ zlen i2 + 1 = INFO_MAX_LEN ∧
    (i1 = i2 → session_id_is_equal id1 id2 = true ∧ alg1 = alg2 ∧ log1 = log2).
Proof.
  intros Hok1 Hok2 Hl1 Hl2.
  destruct (info_build_eq id1 alg1 log1 st (proj1 Hok1)) as (s1 & He1 & Hs1 & Hb1).
  destruct (info_build_eq id2 alg2 log2 st (proj1 Hok2)) as (s2 & He2 & Hs2 & Hb2).
  exists (info_string id1 alg1 log1 s1), (info_string id2 alg2 log2 s2).
  split_and!; [done|done|unfold info_string; rewrite !zlen_app, Hs1; done|
    unfold info_string; rewrite !zlen_app, Hs2; done|].
  intros Heq. unfold info_string in Heq.
  apply app_inj_1 in Heq as [[= Hi] Heq]; [|done].
  apply app_inj_1 in Heq as [-> Heq]; [|unfold zlen in *; lia].
  apply app_inj_1 in Heq as [[= Ha Ht] Hx]; [|done].
  apply hex2_inj in Hx; [|done|done].
  destruct Hok1 as [Hn1 Hv1], Hok2 as [Hn2 Hv2].
  pose proof (base64_inj _ _ _ _ Hv1 Hv2 ltac:(congruence) He1 He2) as Hv.
  split_and!; [|by destruct alg1, alg2|done].
  unfold session_id_is_equal. rewrite Hv, !bool_decide_true; [done|done| |].
  - by destruct (id_initiator id1), (id_initiator id2).
  - by destruct (id_type id1), (id_type id2).
Qed.
End key_info_theorems.

Section key_info_witnesses.
#[local] Existing Instances psa_toy psa_toy_spec base64_ref base64_ref_spec.

Definition sample_id (t : session_id_type) : session_id :=
  mk_id t POUCH_ROLE_SERVER [1; 2; 3; 4; 5; 6; 7; 8; 9; 10; 11; 12; 13; 14; 15; 16].

Definition sample_store : psa_st := (∅ : gmap Z psa_key, 0).

Lemma key_info_injective_witness :
  ∃ i1 i2, session_key_info_build (sample_id SESSION_ID_TYPE_RANDOM) PSA_ALG_GCM 9 sample_store = Ret (inr i1) sample_store ∧
    session_key_info_build (sample_id SESSION_ID_TYPE_SEQUENTIAL) PSA_ALG_GCM 9 sample_store = Ret (inr i2) sample_store ∧
    zlen i1 + 1 = INFO_MAX_LEN ∧ zlen i2 + 1 = INFO_MAX_LEN ∧
    (i1 = i2 → session_id_is_equal (sample_id SESSION_ID_TYPE_RANDOM) (sample_id SESSION_ID_TYPE_SEQUENTIAL) = true
      ∧ PSA_ALG_GCM = PSA_ALG_GCM ∧ 9 = 9).
Proof. apply key_info_injective; try done; (split; [done|solve_bytes]). Defined.

(** "E0:S:AQIDBAUGBwgJCgsMDQ4PEA==:CAR:09" *)
Example sample_info :
  session_key_info_build (sample_id SESSION_ID_TYPE_RANDOM) PSA_ALG_GCM 9 sample_store =
    Ret (inr [69; 48; 58; 83; 58; 65; 81; 73; 68; 66; 65; 85; 71; 66; 119; 103; 74; 67; 103; 115;
      77; 68; 81; 52; 80; 69; 65; 61; 61; 58; 67; 65; 82; 58; 48; 57]) sample_store.
Proof. vm_compute. reflexivity. Qed.
End key_info_witnesses.
