(* ===== verification/Saead.v ===== *)
(** The SAEAD crypto module: [src/saead/uplink.c], [src/saead/downlink.c] and
    [src/crypto_saead.c], which implements the interface of [src/crypto.h]. *)
From S2P Require Import Prelude Zephyr Config Platform Buf Block Header Node Cert SaeadSession.

(** [session_key_copy] and the downlink's own keys. *)
Definition DOWNLINK_KEY_USAGE : list psa_key_usage :=
  [PSA_KEY_USAGE_DECRYPT; PSA_KEY_USAGE_VERIFY_MESSAGE].

(** The static variables: [uplink] of [saead/uplink.c], [downlink] and [server] of
    [saead/downlink.c], [pkey] of [crypto_saead.c]; and the state of the certificate
    module and of PSA, which these modules call. *)
Record saead_st `{Ps : Psa} `{Tls : Mbedtls} := mk_saead {
  sa_uplink : session;
  sa_downlink : session;
  sa_server_seqnum : Z;
  sa_server_pouch_id : Z;
  sa_pkey : Z;
  sa_certs : certs;
  sa_psa : psa_st;
}.
Arguments mk_saead {_ _}.

Section saead.
Context `{Cfg : Config} `{Zk : Zephyr} `{Mal : Malloc} `{Ps : Psa} `{Tls : Mbedtls} `{B64 : Base64}.
Implicit Types (c : saead_st).

Definition sa_set_uplink (s : session) c : saead_st :=
  mk_saead s (sa_downlink c) (sa_server_seqnum c) (sa_server_pouch_id c) (sa_pkey c) (sa_certs c) (sa_psa c).
Definition sa_set_downlink (s : session) c : saead_st :=
  mk_saead (sa_uplink c) s (sa_server_seqnum c) (sa_server_pouch_id c) (sa_pkey c) (sa_certs c) (sa_psa c).
Definition sa_set_server (seqnum pouch_id : Z) c : saead_st :=
  mk_saead (sa_uplink c) (sa_downlink c) seqnum pouch_id (sa_pkey c) (sa_certs c) (sa_psa c).
Definition sa_set_pkey (k : Z) c : saead_st :=
  mk_saead (sa_uplink c) (sa_downlink c) (sa_server_seqnum c) (sa_server_pouch_id c) k (sa_certs c) (sa_psa c).
Definition sa_set_certs (x : certs) c : saead_st :=
  mk_saead (sa_uplink c) (sa_downlink c) (sa_server_seqnum c) (sa_server_pouch_id c) (sa_pkey c) x (sa_psa c).
Definition sa_set_psa (x : psa_st) c : saead_st :=
  mk_saead (sa_uplink c) (sa_downlink c) (sa_server_seqnum c) (sa_server_pouch_id c) (sa_pkey c) (sa_certs c) x.

Definition on_psa {A} (m : M psa_st A) : M saead_st A := zoom sa_psa sa_set_psa m.
Definition on_certs {A} (m : M certs A) : M saead_st A := zoom sa_certs sa_set_certs m.

Definition modify_up (f : session → session) : M saead_st unit :=
  modify (λ c, sa_set_uplink (f (sa_uplink c)) c).
Definition modify_down (f : session → session) : M saead_st unit :=
  modify (λ c, sa_set_downlink (f (sa_downlink c)) c).

(** *** [saead/uplink.c] *)

(** The error of the id generation is tested again after the key generation, where it
    is still 0; the key is not tested. *)
Definition saead_uplink_session_start (algorithm : psa_algorithm) (private_key : Z) : M saead_st rc :=
  modify_up (s_set_flags 0);;
  modify_up (λ s, s_set_id (mk_id SESSION_ID_TYPE_RANDOM (id_initiator (s_id s)) (id_value (s_id s))) s);;
  c ← get;
  '(err, id) ← on_psa (session_id_generate (s_id (sa_uplink c)));
  modify_up (s_set_id id);;
  match err with
  | Some _ => mret err
  | None =>
      key ← on_certs cert_server_key_get;
      k ← on_psa (session_key_generate id algorithm MAX_BLOCK_PAYLOAD_SIZE_LOG private_key key
             [PSA_KEY_USAGE_ENCRYPT]);
      modify_up (s_set_key k);;
      match err with
      | Some _ => mret err
      | None =>
          modify_up (s_set_algorithm algorithm);;
          modify_up (s_set_pouch_id 0);;
          modify_up (s_set_bit SESSION_VALID);;
          modify_up (s_set_bit SESSION_ACTIVE);;
          mret success
      end
  end.

Definition saead_uplink_pouch_start : M saead_st rc :=
  c ← get;
  let '(err, s) := session_pouch_start (sa_uplink c) (u16 (s_pouch_id (sa_uplink c) + 1)) in
  modify_up (λ _, s);;
  mret err.

(** The value returned with an error is not used. *)
Definition saead_uplink_header_get : M saead_st (rc * encryption_info) :=
  c ← get;
  let up := sa_uplink c in
  if negb (s_test_bit SESSION_ACTIVE up) then mret (Some ENOTCONN, plaintext_info []) else
  let id :=
    match id_type (s_id up) with
    | SESSION_ID_TYPE_SEQUENTIAL => session_id_sequential (id_tag (s_id up)) (id_seqnum (s_id up))
    | SESSION_ID_TYPE_RANDOM => session_id_random (id_value (s_id up))
    end in
  let algorithm :=
    if decide (s_algorithm up = PSA_ALG_CHACHA20_POLY1305) then chacha20_poly1305 else aes_gcm in
  cert_ref ← on_certs cert_ref_get;
  match cert_ref with
  | None => mret (Some EBUSY, plaintext_info [])
  | Some ref =>
      mret (success, saead_info (mk_session_info id device algorithm MAX_BLOCK_PAYLOAD_SIZE_LOG
                       (slice 0 CERT_REF_SHORT_LEN ref)) (s_pouch_id up))
  end.

(** The programs of [session.c] on blocks. *)
Definition on_heap {A} (m : M mem A) : M (mem * saead_st) A := zoom fst (λ m t, (m, t.2)) m.
Definition on_session {A} (m : M (mem * psa_st) A) : M (mem * saead_st) A :=
  zoom (λ t, (t.1, sa_psa t.2)) (λ u t, (u.1, sa_set_psa u.2 t.2)) m.
Definition on_saead {A} (m : M saead_st A) : M (mem * saead_st) A := zoom snd (λ c t, (t.1, c)) m.

Definition saead_uplink_encrypt_block (block : ptr) : M (mem * saead_st) ptr :=
  t ← get;
  if negb (s_test_bit SESSION_ACTIVE (sa_uplink t.2)) then
    on_heap (buf_free block);; mret NULL
  else
    '(encrypted, s) ← on_session (session_encrypt_block (sa_uplink t.2) block);
    on_saead (modify_up (λ _, s));;
    on_heap (buf_free block);;
    mret encrypted.

Definition saead_uplink_session_end : M saead_st unit :=
  c ← get;
  s ← on_psa (session_end (sa_uplink c));
  modify_up (λ _, s).

Definition saead_uplink_session_matches (id : session_id) (max_block_size_log : Z)
    (algorithm : psa_algorithm) c : bool :=
  s_test_bit SESSION_VALID (sa_uplink c) && session_id_is_equal id (s_id (sa_uplink c)) &&
  (max_block_size_log =? MAX_BLOCK_PAYLOAD_SIZE_LOG) &&
  bool_decide (s_algorithm (sa_uplink c) = algorithm).

Definition saead_uplink_session_key_copy (usage : list psa_key_usage) : M saead_st Z :=
  c ← get;
  if negb (s_test_bit SESSION_VALID (sa_uplink c)) then mret PSA_KEY_ID_NULL else
  let attrs := mk_attributes None 0 None usage in
  copy ← on_psa (psa (psa_copy_key (s_key (sa_uplink c)) attrs));
  mret (default PSA_KEY_ID_NULL copy).

(** *** [saead/downlink.c] *)

Definition is_valid_downlink (id : session_id) (algorithm : psa_algorithm) c : bool :=
  let down := sa_downlink c in
  if negb (s_test_bit SESSION_VALID down) then true else
  if session_id_is_equal (s_id down) id && negb (bool_decide (s_algorithm down = algorithm))
  then false else
  if decide (id_initiator id = POUCH_ROLE_SERVER) then
    negb (bool_decide (id_type id = SESSION_ID_TYPE_SEQUENTIAL) &&
          (id_seqnum id <=? sa_server_seqnum c))
  else true.

Definition saead_downlink_session_start (id : session_id) (algorithm : psa_algorithm)
    (max_block_size_log private_key : Z) : M saead_st rc :=
  c ← get;
  if negb (is_valid_downlink id algorithm c) then mret (Some EBADMSG) else
  let start (session_key : Z) : M saead_st rc :=
    if session_key =? PSA_KEY_ID_NULL then mret (Some EIO) else
    modify_down (s_set_flags 0);;
    modify_down (s_set_pouch_id 0);;
    modify_down (s_set_algorithm algorithm);;
    modify_down (s_set_key session_key);;
    modify_down (s_set_id id);;
    modify_down (s_set_bit SESSION_ACTIVE);;
    mret success in
  match id_initiator id with
  | POUCH_ROLE_DEVICE =>
      if decide (id_type id ≠ SESSION_ID_TYPE_SEQUENTIAL) then mret (Some EBADMSG) else
      if negb (saead_uplink_session_matches id max_block_size_log algorithm c)
      then mret (Some EBADMSG) else
      k ← saead_uplink_session_key_copy DOWNLINK_KEY_USAGE;
      start k
  | POUCH_ROLE_SERVER =>
      key ← on_certs cert_server_key_get;
      k ← on_psa (session_key_generate id algorithm max_block_size_log private_key key
             DOWNLINK_KEY_USAGE);
      start k
  end.

Definition saead_downlink_session_end : M saead_st unit :=
  c ← get;
  s ← on_psa (session_end (sa_downlink c));
  modify_down (λ _, s).

Definition saead_downlink_pouch_start (id : Z) : M saead_st rc :=
  c ← get;
  if s_test_bit SESSION_HAS_POUCH (sa_downlink c) && (id <=? sa_server_pouch_id c)
  then mret (Some EBADMSG) else
  let '(err, s) := session_pouch_start (sa_downlink c) id in
  modify_down (λ _, s);;
  mret err.

(** The replay protection after a block was decrypted. *)
Definition note_decrypted c : saead_st :=
  let down := s_set_bit SESSION_HAS_POUCH (s_set_bit SESSION_VALID (sa_downlink c)) in
  let c := sa_set_downlink down c in
  sa_set_server
    (if decide (id_initiator (s_id down) = POUCH_ROLE_SERVER ∧
                id_type (s_id down) = SESSION_ID_TYPE_SEQUENTIAL)
     then id_seqnum (s_id down) else sa_server_seqnum c)
    (s_pouch_id down) c.

Definition saead_downlink_block_decrypt (block : ptr) : M (mem * saead_st) ptr :=
  t ← get;
  '(decrypted, s) ← on_session (session_decrypt_block (sa_downlink t.2) block);
  on_saead (modify_down (λ _, s));;
  on_heap (buf_free block);;
  match decrypted with
  | None => mret NULL
  | Some _ => on_saead (modify note_decrypted);; mret decrypted
  end.

(** *** [crypto_saead.c] *)

Definition ENCRYPTION_ALGORITHM : psa_algorithm :=
  if CONFIG_POUCH_ENCRYPTION_CHACHA20_POLY1305 then PSA_ALG_CHACHA20_POLY1305 else PSA_ALG_GCM.

End saead.

Module CryptoSaead.
Section crypto_saead.
Context `{Cfg : Config} `{Zk : Zephyr} `{Mal : Malloc} `{Ps : Psa} `{Tls : Mbedtls} `{B64 : Base64}.

(** [config->private_key], [config->certificate] *)
Definition crypto_init (private_key : Z) (certificate : pouch_cert) : M saead_st rc :=
  if private_key =? PSA_KEY_ID_NULL then mret (Some EINVAL) else
  err ← on_certs (cert_device_set (Some certificate));
  match err with
  | Some _ => mret err
  | None => modify (sa_set_pkey private_key);; mret success
  end.

(** The session id a header names; [None] if its length is wrong. *)
Definition header_session_id (session : session_info) : option session_id :=
  let initiator :=
    if decide (si_initiator session = device) then POUCH_ROLE_DEVICE else POUCH_ROLE_SERVER in
  let value := replicate (Z.to_nat SESSION_ID_LEN) 0 in
  match si_id session with
  | session_id_random random =>
      if decide (zlen random = SESSION_ID_LEN)
      then Some (mk_id SESSION_ID_TYPE_RANDOM initiator (splice 0 random value)) else None
  | session_id_sequential tag seq =>
      if decide (zlen tag = SESSION_ID_TAG_LEN)
      then Some (id_set_seqnum seq
             (id_set_tag tag (mk_id SESSION_ID_TYPE_SEQUENTIAL initiator value))) else None
  end.

Definition crypto_downlink_start (info : encryption_info) : M saead_st rc :=
  match info with
  | plaintext_info _ => mret (Some ENOTSUP)
  | saead_info session pouch_id =>
      match header_session_id session with
      | None => mret (Some EINVAL)
      | Some id =>
          c ← get;
          err ← saead_downlink_session_start id
            (if decide (si_algorithm session = aes_gcm) then PSA_ALG_GCM
             else PSA_ALG_CHACHA20_POLY1305)
            (u8 (si_max_block_size_log session)) (sa_pkey c);
          match err with
          | Some _ => mret err
          | None => saead_downlink_pouch_start (u16 pouch_id)
          end
      end
  end.

Definition crypto_session_start : M saead_st rc :=
  c ← get; saead_uplink_session_start ENCRYPTION_ALGORITHM (sa_pkey c).

Definition crypto_session_end : M saead_st unit :=
  saead_uplink_session_end;; saead_downlink_session_end.

Definition crypto_pouch_start : M saead_st rc := saead_uplink_pouch_start.

Definition crypto_header_get : M saead_st (rc * encryption_info) := saead_uplink_header_get.

Definition crypto_decrypt_block (block : ptr) : M (mem * saead_st) ptr :=
  saead_downlink_block_decrypt block.

Definition crypto_encrypt_block (block : ptr) : M (mem * saead_st) ptr :=
  saead_uplink_encrypt_block block.
End crypto_saead.
End CryptoSaead.

(** The SAEAD module as an implementation of the interface. *)
Definition crypto_saead `{Cfg : Config} `{Zk : Zephyr} `{Mal : Malloc} `{Ps : Psa} `{Tls : Mbedtls}
    `{B64 : Base64} : Crypto := {|
  crypto_st := saead_st;
  crypto_session_start := CryptoSaead.crypto_session_start;
  crypto_session_end := CryptoSaead.crypto_session_end;
  crypto_downlink_start := CryptoSaead.crypto_downlink_start;
  crypto_pouch_start := CryptoSaead.crypto_pouch_start;
  crypto_header_get := CryptoSaead.crypto_header_get;
  crypto_decrypt_block := CryptoSaead.crypto_decrypt_block;
  crypto_encrypt_block := CryptoSaead.crypto_encrypt_block;
|}.
