(* ===== verification/Packetizer.v ===== *)
(** Packets on a GATT characteristic:
    [lib/pouch_ble_gatt_common/packetizer.c].

    A packetizer cuts a byte source, a buffer or a callback that fills the room it
    is given, into packets: a flag byte that marks the first and the last packet,
    and a payload. *)
From S2P Require Import Prelude Zephyr Config Buf Block Header Node.

Definition GOLIOTH_BLE_GATT_PACKET_FIRST : Z := Z.shiftl 1 0.
Definition GOLIOTH_BLE_GATT_PACKET_LAST : Z := Z.shiftl 1 1.

(** [sizeof(struct golioth_ble_gatt_packet)]: the flag byte. *)
Definition packet_size : Z := 1.

(** [enum golioth_ble_gatt_packetizer_result] *)
Inductive packetizer_result :=
  | GOLIOTH_BLE_GATT_PACKETIZER_MORE_DATA
  | GOLIOTH_BLE_GATT_PACKETIZER_NO_MORE_DATA
  | GOLIOTH_BLE_GATT_PACKETIZER_EMPTY_PAYLOAD
  | GOLIOTH_BLE_GATT_PACKETIZER_ERROR.

#[export] Instance packetizer_result_eq_dec : EqDecision packetizer_result.
Proof. solve_decision. Defined.

(** [golioth_ble_gatt_packetizer_fill_cb] with its user argument: called with the
    value of [*dst_len], it returns its result and the bytes it wrote to the
    destination, their number being the new [*dst_len]. *)
Definition fill_cb (S : Type) : Type := Z → M S (packetizer_result * list Z).

(** The tagged union of [struct golioth_ble_gatt_packetizer]. The source pointer
    is given by the bytes of the object from the pointer on. *)
Inductive packetizer_fill (S : Type) : Type :=
  | GOLIOTH_BLE_GATT_PACKETIZER_FILL_BUFFER (src : list Z) (len : Z)
  | GOLIOTH_BLE_GATT_PACKETIZER_FILL_CALLBACK (func : fill_cb S).
Arguments GOLIOTH_BLE_GATT_PACKETIZER_FILL_BUFFER {S} src len.
Arguments GOLIOTH_BLE_GATT_PACKETIZER_FILL_CALLBACK {S} func.

(** [struct golioth_ble_gatt_packetizer] *)
Record packetizer (S : Type) : Type := mk_packetizer {
  pk_fill : packetizer_fill S;
  pk_is_first : bool;
  pk_error : rc;
}.
Arguments mk_packetizer {S} pk_fill pk_is_first pk_error.
Arguments pk_fill {S} p.
Arguments pk_is_first {S} p.
Arguments pk_error {S} p.

Section packets.
Context `{Cfg : Config} `{Mal : Malloc} {S : Type}.
Implicit Types (p : packetizer S) (dst src d : list Z).

(** [malloc] of the packetizer. *)
Definition packetizer_alloc (p : packetizer S) : M mem (option (packetizer S)) :=
  m ← get;
  modify no_buf;;
  mret (if malloc_obj (mallocs m) then Some p else None).

Definition golioth_ble_gatt_packetizer_start_buffer (src : list Z) (src_len : Z)
    : M mem (option (packetizer S)) :=
  packetizer_alloc
    (mk_packetizer (GOLIOTH_BLE_GATT_PACKETIZER_FILL_BUFFER src src_len) true success).

Definition golioth_ble_gatt_packetizer_start_callback (func : fill_cb S)
    : M mem (option (packetizer S)) :=
  packetizer_alloc
    (mk_packetizer (GOLIOTH_BLE_GATT_PACKETIZER_FILL_CALLBACK func) true success).

(** Writing [d] to the object [dst] at [off]. *)
Definition write_at (off : Z) (d dst : list Z) : M S (list Z) :=
  if decide (0 ≤ off ∧ off + zlen d ≤ zlen dst) then mret (splice off d dst) else ub.

(** The packetizer may be null. [dst] is the object the packet is written to,
    [dst_len] is [*dst_len]; both are returned as the call leaves them. The flags
    are collected and written where the function returns; no callback reads the
    destination before that. *)
Definition golioth_ble_gatt_packetizer_get (self : option (packetizer S))
    (dst : list Z) (dst_len : Z) : M S (packetizer_result * list Z * Z * packetizer S) :=
  dst ← write_at 0 [0] dst;
  match self with
  | None => ub
  | Some p =>
      if dst_len <=? packet_size then
        mret (GOLIOTH_BLE_GATT_PACKETIZER_ERROR, dst, dst_len,
              mk_packetizer (pk_fill p) (pk_is_first p) (Some ENOMEM))
      else
        let flags := if pk_is_first p then GOLIOTH_BLE_GATT_PACKET_FIRST else 0 in
        match pk_fill p with
        | GOLIOTH_BLE_GATT_PACKETIZER_FILL_BUFFER src len =>
            let room := usz (dst_len - packet_size) in
            let last := len <=? room in
            let bytes_to_copy := if last then len else room in
            if decide (0 ≤ bytes_to_copy ≤ zlen src) then
              dst ← write_at packet_size (slice 0 bytes_to_copy src) dst;
              dst ← write_at 0
                [if last then Z.lor flags GOLIOTH_BLE_GATT_PACKET_LAST else flags] dst;
              mret (if last then GOLIOTH_BLE_GATT_PACKETIZER_NO_MORE_DATA
                    else GOLIOTH_BLE_GATT_PACKETIZER_MORE_DATA,
                    dst, usz (packet_size + bytes_to_copy),
                    mk_packetizer (GOLIOTH_BLE_GATT_PACKETIZER_FILL_BUFFER
                      (drop (Z.to_nat bytes_to_copy) src) (usz (len - bytes_to_copy)))
                      false (pk_error p))
            else ub
        | GOLIOTH_BLE_GATT_PACKETIZER_FILL_CALLBACK func =>
            '(cb_result, d) ← func (usz (dst_len - packet_size));
            if decide (cb_result = GOLIOTH_BLE_GATT_PACKETIZER_ERROR) then
              dst ← write_at 0 [flags] dst;
              mret (GOLIOTH_BLE_GATT_PACKETIZER_ERROR, dst, 0,
                    mk_packetizer (pk_fill p) false (Some ENODATA))
            else
              dst ← write_at packet_size d dst;
              let last := bool_decide (cb_result = GOLIOTH_BLE_GATT_PACKETIZER_NO_MORE_DATA) in
              dst ← write_at 0
                [if last then Z.lor flags GOLIOTH_BLE_GATT_PACKET_LAST else flags] dst;
              mret (if last then GOLIOTH_BLE_GATT_PACKETIZER_NO_MORE_DATA
                    else if zlen d =? 0 then GOLIOTH_BLE_GATT_PACKETIZER_EMPTY_PAYLOAD
                    else GOLIOTH_BLE_GATT_PACKETIZER_MORE_DATA,
                    dst, usz (packet_size + zlen d),
                    mk_packetizer (pk_fill p) false (pk_error p))
        end
  end.

Definition golioth_ble_gatt_packetizer_error (self : option (packetizer S)) : M S rc :=
  match self with Some p => mret (pk_error p) | None => ub end.

(** [free]: what is left to the caller is to forget the pointer. *)
Definition golioth_ble_gatt_packetizer_finish (self : option (packetizer S)) : M S unit :=
  mret tt.

(** What [golioth_ble_gatt_packetizer_decode] finds: the bytes from the payload
    pointer on, the length it returns, and the two marks. *)
Record packet_info := mk_packet_info {
  pi_payload : list Z;
  pi_len : Z;
  pi_is_first : bool;
  pi_is_last : bool;
}.

(** The callers pass the addresses of local variables for the results, so of the
    null tests the one of [buf] remains. *)
Definition golioth_ble_gatt_packetizer_decode (buf : option (list Z)) (buf_len : Z)
    : M S (errno + packet_info)%type :=
  match buf with
  | None => mret (inl EINVAL)
  | Some buf =>
      if buf_len <? packet_size then mret (inl EINVAL) else
      match buf with
      | [] => ub
      | flags :: data =>
          mret (inr (mk_packet_info data (buf_len - packet_size)
            (negb (Z.land flags GOLIOTH_BLE_GATT_PACKET_FIRST =? 0))
            (negb (Z.land flags GOLIOTH_BLE_GATT_PACKET_LAST =? 0))))
      end
  end.
End packets.

(** ** Specification *)

(** The flag byte of a packet, and a packet. *)
Definition packet_flags (first last : bool) : Z :=
  let flags := if first then GOLIOTH_BLE_GATT_PACKET_FIRST else 0 in
  if last then Z.lor flags GOLIOTH_BLE_GATT_PACKET_LAST else flags.

Definition packet (first last : bool) (payload : list Z) : list Z :=
  packet_flags first last :: payload.

(** The packets that carry [ds], of which the first is marked if [first] holds and
    the last if [fin] does. *)
Fixpoint packets (first fin : bool) (ds : list (list Z)) : list (list Z) :=
  match ds with
  | [] => []
  | d :: ds => packet first (fin && match ds with [] => true | _ => false end) d ::
               packets false fin ds
  end.

Section sources.
Context {S : Type}.
Implicit Types (R : list Z → S → Prop) (D : S → Prop) (full : Prop).

(** A fill callback that hands out, piece by piece, the bytes that [R] says the
    state holds, and leaves a state in [D] with the last. A callback that is
    [full] uses all the room it is given while it has more. *)
Definition serves (f : fill_cb S) R D full : Prop :=
  ∀ data k s, R data s → 0 < k < 2 ^ 32 → wp (f k) (λ r s', ∃ rest,
    data = r.2 ++ rest ∧ zlen r.2 ≤ k ∧
    match r.1 with
    | GOLIOTH_BLE_GATT_PACKETIZER_MORE_DATA => R rest s' ∧ (full → zlen r.2 = k)
    | GOLIOTH_BLE_GATT_PACKETIZER_NO_MORE_DATA => rest = [] ∧ D s'
    | _ => False
    end) s.

(** The packetizer [p] still has the bytes [data] to hand out in state [s]. *)
Definition packetizer_holds R D full (p : packetizer S) (data : list Z) (s : S) : Prop :=
  match pk_fill p with
  | GOLIOTH_BLE_GATT_PACKETIZER_FILL_BUFFER src len =>
      0 ≤ len ≤ zlen src ∧ len < 2 ^ 32 ∧ data = slice 0 len src ∧ D s
  | GOLIOTH_BLE_GATT_PACKETIZER_FILL_CALLBACK f => serves f R D full ∧ R data s
  end.
End sources.

(** A client that reads packet after packet, into the destinations it is given,
    until the last or an error: the packets, and whether the last was among them. *)
Fixpoint read_packets `{Cfg : Config} {S} (p : packetizer S) (dsts : list (list Z))
    : M S (list (list Z) * bool) :=
  match dsts with
  | [] => mret ([], false)
  | dst :: dsts =>
      '(r, dst, n, p) ← golioth_ble_gatt_packetizer_get (Some p) dst (zlen dst);
      match r with
      | GOLIOTH_BLE_GATT_PACKETIZER_ERROR => mret ([], false)
      | GOLIOTH_BLE_GATT_PACKETIZER_NO_MORE_DATA => mret ([slice 0 n dst], true)
      | _ => '(pkts, fin) ← read_packets p dsts; mret (slice 0 n dst :: pkts, fin)
      end
  end.

(** A receiver that takes packets apart, expecting the first mark on the first
    packet and the last mark on the last one. *)
Fixpoint reassemble {S} (first : bool) (pkts : list (list Z)) : M S (option (list Z)) :=
  match pkts with
  | [] => mret None
  | pkt :: pkts =>
      r ← golioth_ble_gatt_packetizer_decode (Some pkt) (zlen pkt);
      match r with
      | inl _ => mret None
      | inr i =>
          let d := slice 0 (pi_len i) (pi_payload i) in
          if decide (pi_is_first i = first) then
            match pkts with
            | [] => mret (if pi_is_last i then Some d else None)
            | _ =>
                if pi_is_last i then mret None else
                r ← reassemble false pkts; mret (app d <$> r)
            end
          else mret None
      end
  end.

(** The room that destinations have for payload. *)
Definition payload_room (dsts : list (list Z)) : Z :=
  foldr (λ dst n, zlen dst - packet_size + n) 0 dsts.

(** A destination the packetizer can use. *)
Definition packet_dst (dst : list Z) : Prop := 2 ≤ zlen dst < 2 ^ 32.

Section packet_facts.
Context `{COk : ConfigOk} {S : Type}.
Context (R : list Z → S → Prop) (D : S → Prop) (full : Prop).
Implicit Types (p : packetizer S) (dst src d : list Z).

Lemma wp_write_at off d dst Q (s : S) :
  0 ≤ off → off + zlen d ≤ zlen dst → Q (splice off d dst) s → wp (write_at off d dst) Q s.
Proof. intros. unfold write_at. by rewrite decide_True by done. Qed.

(** The packet in a destination into which payload and flags were written. *)
Lemma written_packet dst d f :
  1 + zlen d ≤ zlen dst →
  slice 0 (1 + zlen d) (splice 0 [f] (splice 1 d (splice 0 [0] dst))) = f :: d.
Proof.
  intros Hd. pose proof (zlen_nonneg d).
  assert (zlen (splice 0 [0] dst) = zlen dst) as Hl by (apply zlen_splice; rewrite ?zlen_singleton; lia).
  assert (zlen (splice 1 d (splice 0 [0] dst)) = zlen dst) as Hl2 by (rewrite zlen_splice; lia).
  rewrite slice_splice_0 by (rewrite Hl2, zlen_singleton; lia). rewrite zlen_singleton.
  cbn [app]. f_equal. replace (1 + zlen d - 1) with (zlen d) by lia.
  apply slice_splice_eq; lia.
Qed.

(** What a call of [_get] gives: the next packet. *)
Definition got p data dst (r : packetizer_result * list Z * Z * packetizer S) (s' : S) : Prop :=
  ∃ d rest (last : bool), data = d ++ rest ∧ zlen d ≤ zlen dst - packet_size ∧
    slice 0 r.1.2 r.1.1.2 = packet (pk_is_first p) last d ∧ pk_is_first r.2 = false ∧
    pk_error r.2 = pk_error p ∧ zlen r.1.1.2 = zlen dst ∧ r.1.2 = packet_size + zlen d ∧
    if last then r.1.1.1 = GOLIOTH_BLE_GATT_PACKETIZER_NO_MORE_DATA ∧ rest = [] ∧ D s'
    else (r.1.1.1 = GOLIOTH_BLE_GATT_PACKETIZER_MORE_DATA ∨
          r.1.1.1 = GOLIOTH_BLE_GATT_PACKETIZER_EMPTY_PAYLOAD) ∧
      packetizer_holds R D full r.2 rest s' ∧ (full → zlen d = zlen dst - packet_size) ∧
      ∀ f, pk_fill p = GOLIOTH_BLE_GATT_PACKETIZER_FILL_CALLBACK f → pk_fill r.2 = pk_fill p.

Lemma wp_packet_get p data dst s :
  packetizer_holds R D full p data s → packet_dst dst →
  wp (golioth_ble_gatt_packetizer_get (Some p) dst (zlen dst)) (got p data dst) s.
Proof.
  unfold packet_dst, got. intros Hp Hdst. unfold golioth_ble_gatt_packetizer_get, packet_size in *.
  set (dst0 := splice 0 [0] dst).
  assert (zlen dst0 = zlen dst) as Hl0 by (apply zlen_splice; rewrite ?zlen_singleton; lia).
  assert (∀ d, 1 + zlen d ≤ zlen dst → zlen (splice 1 d dst0) = zlen dst) as Hl1.
  { intros d Hd. rewrite zlen_splice; lia. }
  wp_step. apply wp_write_at; [lia|rewrite zlen_singleton; lia|]. fold dst0.
  rewrite (proj2 (Z.leb_gt (zlen dst) 1)) by lia.
  unfold packetizer_holds in Hp. destruct (pk_fill p) as [src len|f] eqn:Hf.
  - destruct Hp as (Hlen & Hmax & -> & HD).
    rewrite (usz_small (zlen dst - 1)) by lia. set (last := len <=? zlen dst - 1).
    set (n := if last then len else zlen dst - 1).
    assert (0 ≤ n ≤ len ∧ n ≤ zlen dst - 1) as Hn.
    { unfold n, last. destruct (Z.leb_spec len (zlen dst - 1)); lia. }
    assert (zlen (slice 0 n src) = n) as Hs by (apply zlen_slice; lia).
    rewrite decide_True by lia.
    wp_step. apply wp_write_at; [lia|lia|]. wp_step.
    apply wp_write_at; [lia|rewrite zlen_singleton, Hl1; lia|].
    rewrite (usz_small (1 + n)), (usz_small (len - n)) by lia. wp_step. cbn.
    exists (slice 0 n src), (slice n (len - n) src), last. rewrite Hs.
    split_and!; [|lia| |done|done| |done|].
    + replace len with (n + (len - n)) at 1 by lia. apply slice_split; lia.
    + rewrite <- Hs at 1. unfold dst0. rewrite written_packet by lia. done.
    + rewrite zlen_splice; rewrite ?zlen_singleton, ?Hl1; lia.
    + unfold last in *. destruct (Z.leb_spec len (zlen dst - 1)).
      * unfold n. rewrite Z.sub_diag. done.
      * split; [by left|]. split; [|by split]. unfold packetizer_holds. cbn.
        split_and!; [lia| |lia| |done].
        { unfold zlen in *. rewrite length_drop. lia. }
        unfold slice. rewrite drop_0. done.
  - destruct Hp as [Hserv HR]. rewrite (usz_small (zlen dst - 1)) by lia.
    wp_step. eapply wp_mono; [eapply Hserv; [exact HR|lia]|].
    intros [r d] s' (rest & -> & Hd & Hr). cbn in Hd, Hr. pose proof (zlen_nonneg d).
    rewrite decide_False by (by intros ->). wp_step. apply wp_write_at; [lia|lia|]. wp_step.
    apply wp_write_at; [lia|rewrite zlen_singleton, Hl1; lia|]. wp_step. cbn.
    rewrite (usz_small (1 + zlen d)) by lia.
    exists d, rest, (bool_decide (r = GOLIOTH_BLE_GATT_PACKETIZER_NO_MORE_DATA)).
    split_and!; [done|done| |done|done| |done|].
    + unfold dst0. by rewrite written_packet by lia.
    + rewrite zlen_splice; rewrite ?zlen_singleton, ?Hl1; lia.
    + destruct r; try done; cbn.
      destruct (zlen d =? 0); (split; [by auto|]); unfold packetizer_holds; cbn.
      all: destruct Hr as [? Hfull]; split_and!; try done.
Qed.

(** Reading packet after packet. *)
Lemma wp_read_packets dsts p data s :
  packetizer_holds R D full p data s → Forall packet_dst dsts →
  wp (read_packets p dsts) (λ r s', ∃ ds rest,
    data = concat ds ++ rest ∧ r.1 = packets (pk_is_first p) r.2 ds ∧
    (if r.2 then ds ≠ [] ∧ rest = [] ∧ D s'
     else ∃ p', packetizer_holds R D full p' rest s') ∧
    (full → zlen data < payload_room dsts → r.2 = true)) s.
Proof.
  revert p data s. induction dsts as [|dst dsts IH]; intros p data s Hp Hd; cbn [read_packets].
  { wp_step. exists [], data. split_and!; [done|done|by exists p|].
    cbn. pose proof (zlen_nonneg data). lia. }
  apply Forall_cons_iff in Hd as [Hdst Hd].
  wp_step. eapply wp_mono; [by apply wp_packet_get|].
  intros [[[r dst'] n] p'] s1 (d & rest & last & -> & Hlen & Hpkt & Hf & _ & _ & _ & Hl).
  cbn [fst snd] in *. destruct last.
  - destruct Hl as (-> & -> & HD). wp_step. exists [d], []. cbn. rewrite Hpkt, !app_nil_r.
    by split_and!.
  - destruct Hl as (Hr & Hp' & Hfull & _).
    assert (wp ('(pkts, fin) ← read_packets p' dsts; mret (slice 0 n dst' :: pkts, fin)) (λ r s', ∃ ds rest0,
      d ++ rest = concat ds ++ rest0 ∧ r.1 = packets (pk_is_first p) r.2 ds ∧
      (if r.2 then ds ≠ [] ∧ rest0 = [] ∧ D s'
       else ∃ p', packetizer_holds R D full p' rest0 s') ∧
      (full → zlen (d ++ rest) < payload_room (dst :: dsts) → r.2 = true)) s1) as Hgo.
    { wp_step. eapply wp_mono; [by apply IH|].
      intros [pkts fin] s2 (ds & rest' & -> & Hpk & Hfin & Hdone). cbn [fst snd] in *. wp_step.
      exists (d :: ds), rest'. cbn [fst snd concat packets]. rewrite Hpkt, Hpk, Hf.
      split_and!; [by rewrite app_assoc| | |].
      - f_equal. destruct fin; [|done]. destruct Hfin as (Hne & _). by destruct ds.
      - destruct fin; [|done]. by destruct Hfin as (_ & ? & ?).
      - intros Hfu Hroom. apply Hdone; [done|]. rewrite zlen_app in Hroom.
        cbn [payload_room foldr] in Hroom. fold (payload_room dsts) in Hroom.
        specialize (Hfull Hfu). lia. }
    by destruct Hr as [-> | ->].
Qed.

Lemma decode_packet first last d (Q : (errno + packet_info) → S → Prop) s :
  Q (inr (mk_packet_info d (zlen d) first last)) s →
  wp (golioth_ble_gatt_packetizer_decode (Some (packet first last d)) (zlen (packet first last d))) Q s.
Proof.
  intros HQ. unfold golioth_ble_gatt_packetizer_decode, packet. pose proof (zlen_nonneg d).
  rewrite (proj2 (Z.ltb_ge _ _)) by (rewrite zlen_cons; unfold packet_size; lia).
  wp_step. rewrite zlen_cons. replace (1 + zlen d - packet_size) with (zlen d) by (unfold packet_size; lia).
  by destruct first, last.
Qed.

Lemma wp_reassemble first fin ds (s : S) :
  (fin = true → ds ≠ []) →
  wp (reassemble first (packets first fin ds))
    (λ r s', r = (if fin then Some (concat ds) else None) ∧ s' = s) s.
Proof.
  revert first. induction ds as [|d ds IH]; intros first Hne; cbn [packets reassemble].
  { wp_step. destruct fin; [by destruct Hne|done]. }
  wp_step. apply decode_packet. cbn [pi_is_first pi_is_last pi_len pi_payload].
  rewrite decide_True by done. rewrite slice_0_all.
  destruct ds as [|d' ds]; cbn [packets andb].
  { rewrite andb_true_r. wp_step. destruct fin; [|done]. cbn. by rewrite app_nil_r. }
  rewrite andb_false_r. wp_step. eapply wp_mono; [by apply (IH false)|].
  intros r s' [-> ->]. wp_step. by destruct fin.
Qed.

(** A destination without room for payload is refused, and the packetizer keeps its
    place; so is a source that fails, but then the mark of the first packet is used
    up. *)
Lemma packet_no_room p dst s :
  zlen dst = 1 → golioth_ble_gatt_packetizer_get (Some p) dst 1 s =
    Ret (GOLIOTH_BLE_GATT_PACKETIZER_ERROR, [0], 1,
         mk_packetizer (pk_fill p) (pk_is_first p) (Some ENOMEM)) s.
Proof.
  destruct dst as [|x [|y dst]]; [done| |unfold zlen; cbn [length]; lia]. done.
Qed.

Lemma packet_source_failed p f dst s k d s' :
  pk_fill p = GOLIOTH_BLE_GATT_PACKETIZER_FILL_CALLBACK f → packet_dst dst →
  f (usz (zlen dst - 1)) s = Ret (GOLIOTH_BLE_GATT_PACKETIZER_ERROR, d) s' → k = zlen dst →
  wp (golioth_ble_gatt_packetizer_get (Some p) dst k) (λ r s'', s'' = s' ∧
    r.1.1.1 = GOLIOTH_BLE_GATT_PACKETIZER_ERROR ∧ r.1.2 = 0 ∧
    r.2 = mk_packetizer (pk_fill p) false (Some ENODATA)) s.
Proof.
  unfold packet_dst. intros Hf Hd Hrun ->. unfold golioth_ble_gatt_packetizer_get, packet_size.
  wp_step. apply wp_write_at; [lia|rewrite zlen_singleton; lia|].
  rewrite (proj2 (Z.leb_gt (zlen dst) 1)), Hf by lia.
  wp_step. eapply wp_eq; [exact Hrun|]. cbn beta iota. rewrite decide_True by done.
  wp_step. apply wp_write_at; [lia|rewrite zlen_singleton, zlen_splice; rewrite ?zlen_singleton; lia|].
  by wp_step.
Qed.
End packet_facts.

(** Callbacks that read a packetizer's bytes off the state, for the examples: they
    take what fits. *)
Definition take_bytes : fill_cb (list Z) := λ k s,
  Ret (if zlen s <=? k then GOLIOTH_BLE_GATT_PACKETIZER_NO_MORE_DATA
       else GOLIOTH_BLE_GATT_PACKETIZER_MORE_DATA, take (Z.to_nat k) s) (drop (Z.to_nat k) s).

Lemma take_bytes_serves : serves take_bytes (λ data s, s = data) (λ s, s = []) True.
Proof.
  intros data k s -> Hk. unfold take_bytes, wp. cbn. exists (drop (Z.to_nat k) data).
  pose proof (zlen_take_drop k data ltac:(lia)) as [Hle Heq].
  rewrite take_drop. split_and!; [done|done|].
  destruct (Z.leb_spec (zlen data) k).
  - rewrite drop_ge by (unfold zlen in *; lia). done.
  - split; [done|]. intros _. apply Heq. intros Hn%(f_equal length). revert Hn.
    rewrite length_drop. unfold zlen in *. cbn. lia.
Qed.

Section packet_theorems.
Context `{COk : ConfigOk} {S : Type}.

(** C8: whatever the source, a buffer or a callback, and whatever the sizes of the
    destinations, the packets read carry the bytes of the source: a receiver that
    decodes them finds the first mark on the first packet, the last mark on the
    last packet and nowhere else, and their payloads together are the bytes; without
    the last packet it finds no message. A source that fills the room it is given
    is read to its end by as many packets as have room for it. *)
Theorem packets_round_trip (R : list Z → S → Prop) (D : S → Prop) (full : Prop)
    (p : packetizer S) data dsts s :
  packetizer_holds R D full p data s → pk_is_first p = true → Forall packet_dst dsts →
  wp ('(pkts, fin) ← read_packets p dsts; msg ← reassemble true pkts; mret (fin, msg))
    (λ r s', (full → zlen data < payload_room dsts → r.1 = true) ∧
      (if r.1 then r.2 = Some data ∧ D s' else r.2 = None)) s.
Proof.
  intros Hp Hf Hd. wp_step. eapply wp_mono; [by eapply wp_read_packets|].
  intros [pkts fin] s1 (ds & rest & -> & Hpk & Hfin & Hdone). cbn [fst snd] in *. rewrite Hf in Hpk.
  subst pkts. wp_step. eapply wp_mono; [apply wp_reassemble|].
  { intros ->. by destruct Hfin. }
  intros msg s2 [-> ->]. wp_step. split; [done|]. cbn [fst snd]. destruct fin; [|done].
  destruct Hfin as (_ & -> & HD). by rewrite app_nil_r.
Qed.
End packet_theorems.

Section packet_witnesses.
#[local] Existing Instances default_config default_config_ok.

Definition sample_dsts : list (list Z) := [[0; 0; 0]; [9; 9]; [0; 0; 0; 0]; [1; 2; 3; 4]].

Lemma packets_round_trip_witness :
  wp ('(pkts, fin) ← read_packets (mk_packetizer (GOLIOTH_BLE_GATT_PACKETIZER_FILL_CALLBACK take_bytes)
        true success) sample_dsts; msg ← reassemble true pkts; mret (fin, msg))
    (λ r s', (True → zlen [1; 2; 3; 4; 5] < payload_room sample_dsts → r.1 = true) ∧
      (if r.1 then r.2 = Some [1; 2; 3; 4; 5] ∧ s' = [] else r.2 = None)) [1; 2; 3; 4; 5].
Proof.
  apply (packets_round_trip (λ data s, s = data) (λ s, s = []) True); [|done|].
  - split; [apply take_bytes_serves|done].
  - repeat (apply Forall_cons_2; [by split|]). apply Forall_nil_2.
Defined.

(** The packets of a buffer of five bytes. *)
Example buffer_packets :
  read_packets (S := unit) (mk_packetizer (GOLIOTH_BLE_GATT_PACKETIZER_FILL_BUFFER [1; 2; 3; 4; 5; 6] 5)
    true success) sample_dsts tt
  = Ret ([[1; 1; 2]; [0; 3]; [2; 4; 5]], true) tt.
Proof. vm_compute. reflexivity. Qed.
End packet_witnesses.
