(* ===== verification/CryptoNone.v ===== *)
(** The plaintext crypto module: [src/crypto_none.c]. *)
From S2P Require Import Prelude Zephyr Config Buf Block Header Node.

Definition POUCH_DEVICE_ID_MAX_LEN : Z := 32.

Module CryptoNone.
(** The static variable [device_id], null until [crypto_init]. *)
Definition st : Type := option (list Z).

Definition crypto_init (device_id : option (list Z)) : M st rc :=
  match device_id with
  | None => mret (Some EINVAL)
  | Some id =>
      if POUCH_DEVICE_ID_MAX_LEN <? zlen id then mret (Some EINVAL)
      else modify (λ _, Some id);; mret success
  end.

Definition crypto_session_start : M st rc := mret success.

Definition crypto_session_end : M st unit := mret tt.

Definition crypto_downlink_start (info : encryption_info) : M st rc :=
  match info with
  | plaintext_info _ => mret success
  | saead_info _ _ => mret (Some ENOTSUP)
  end.

Definition crypto_pouch_start : M st rc := mret success.

(** [strlen] of a null [device_id] is undefined. *)
Definition crypto_header_get : M st (rc * encryption_info) :=
  id ← get;
  match id with
  | Some id => mret (success, plaintext_info id)
  | None => ub
  end.

Definition crypto_decrypt_block (block : ptr) : M (mem * st) ptr := mret block.

Definition crypto_encrypt_block (block : ptr) : M (mem * st) ptr := mret block.
End CryptoNone.

(** The plaintext module as an implementation of the interface. *)
Definition crypto_none : Crypto := {|
  crypto_st := CryptoNone.st;
  crypto_session_start := CryptoNone.crypto_session_start;
  crypto_session_end := CryptoNone.crypto_session_end;
  crypto_downlink_start := CryptoNone.crypto_downlink_start;
  crypto_pouch_start := CryptoNone.crypto_pouch_start;
  crypto_header_get := CryptoNone.crypto_header_get;
  crypto_decrypt_block := CryptoNone.crypto_decrypt_block;
  crypto_encrypt_block := CryptoNone.crypto_encrypt_block;
|}.
