(* ===== verification/CryptoSpec.v ===== *)
(** What the uplink and the downlink rely on of a crypto module, as laws of the
    interface [Crypto], and the proof that the plaintext module obeys them. *)
From S2P Require Import Prelude Zephyr Config Buf Block Header Node CryptoNone.

Section laws.
Context `{COk : ConfigOk} `{ZS : ZephyrSpec}.

(** A block as the writers finish it. *)
Definition plain_block (x : list Z) : Prop :=
  ∃ id first last payload, 0 ≤ id < 32 ∧ zlen payload ≤ MAX_BLOCK_PAYLOAD_SIZE ∧
    x = block_bytes id first last payload.

(** A block as the downlink cuts it out of the stream: its size field is within
    the limit and covered by the bytes received. *)
Definition received_block (x : list Z) : Prop :=
  ∃ size body, 0 ≤ size ≤ MAX_BLOCK_SIZE_FIELD_VALUE ∧ size ≤ zlen body ∧
    x = sys_put_be16 size ++ body.

(** The contents of the buffer a pointer refers to. *)
Definition ptr_contents (m : mem) (p : ptr) : option (list Z) :=
  match p with Some l => contents <$> heap m !! l | None => None end.
End laws.

(** The buffers [ls] hold the byte strings [xs]. *)
Definition holds (m : mem) (ls : list nat) (xs : list (list Z)) : Prop :=
  Forall2 (λ l x, ptr_contents m (Some l) = Some x) ls xs.

Lemma holds_kept m m' ls xs :
  (∀ k, k ∈ ls → heap m' !! k = heap m !! k) → holds m ls xs → holds m' ls xs.
Proof.
  intros Hk Hh. eapply Forall2_impl_in; [exact Hh|]. intros l x Hl. cbn. by rewrite Hk.
Qed.

Lemma holds_app m ls ls' xs xs' : holds m ls xs → holds m ls' xs' → holds m (ls ++ ls') (xs ++ xs').
Proof. apply Forall2_app. Qed.

(** The laws. [crypto_ok] is the invariant of the module's state; [seals c x y c']:
    in state [c] a block with the bytes [x] becomes one with the bytes in [y], or
    is dropped if there are none, and the state becomes [c']; [opens] likewise.
    [session_ready c]: a session was just started; [fresh_pouch c]: a pouch was just
    started in it; [announces c info]: in state [c], with a fresh pouch, the header
    carries [info].
    Both operations take over the buffer they are given and hand out the one they
    return; the other buffers [ls] keep their contents. *)
Class CryptoSpec `{Cfg : Config} {COk : ConfigOk Cfg} `{Zk : Zephyr} {ZS : ZephyrSpec Zk}
    (Cr : Crypto) : Type := {
  crypto_ok : crypto_st → Prop;
  seals : crypto_st → list Z → option (list Z) → crypto_st → Prop;
  opens : crypto_st → list Z → option (list Z) → crypto_st → Prop;
  session_ready : crypto_st → Prop;
  fresh_pouch : crypto_st → Prop;
  announces : crypto_st → encryption_info → Prop;
  session_start_ok : ∀ c, crypto_ok c → wp crypto_session_start (λ r c',
    crypto_ok c' ∧ (r = success → session_ready c')) c;
  session_end_ok : ∀ c, crypto_ok c → wp crypto_session_end (λ _ c', crypto_ok c') c;
  downlink_start_ok : ∀ info c, crypto_ok c →
    wp (crypto_downlink_start info) (λ _ c', crypto_ok c') c;
  pouch_start_ok : ∀ c, crypto_ok c → session_ready c → wp crypto_pouch_start (λ r c',
    crypto_ok c' ∧ (r = success → fresh_pouch c')) c;
  header_get_ok : ∀ c, crypto_ok c → fresh_pouch c → wp crypto_header_get (λ r c',
    crypto_ok c' ∧ (r.1 = success → announces c' r.2)) c;
  encrypt_ok : ∀ m c l ls b, heap_owns m (l :: ls) → crypto_ok c →
    heap m !! l = Some b → plain_block (contents b) →
    wp (crypto_encrypt_block (Some l)) (λ r s,
      crypto_ok s.2 ∧ heap_owns s.1 (option_list r ++ ls) ∧
      (∀ k, k ∈ ls → heap s.1 !! k = heap m !! k) ∧
      seals c (contents b) (ptr_contents s.1 r) s.2) (m, c);
  decrypt_ok : ∀ m c l ls b, heap_owns m (l :: ls) → crypto_ok c →
    heap m !! l = Some b → received_block (contents b) →
    wp (crypto_decrypt_block (Some l)) (λ r s,
      crypto_ok s.2 ∧ heap_owns s.1 (option_list r ++ ls) ∧
      (∀ k, k ∈ ls → heap s.1 !! k = heap m !! k) ∧
      opens c (contents b) (ptr_contents s.1 r) s.2) (m, c);
}.

(** The plaintext module passes blocks through, and keeps the device id it was
    initialised with, of which [P] is known. *)
Definition crypto_none_spec_where `{Cfg : Config} {COk : ConfigOk Cfg} `{Zk : Zephyr} {ZS : ZephyrSpec Zk}
    (P : list Z → Prop) : CryptoSpec crypto_none.
Proof.
  refine {|
    crypto_ok := (λ c, ∃ id, c = Some id ∧ P id) : crypto_st (Crypto := crypto_none) → Prop;
    seals := (λ c x y c', y = Some x ∧ c' = c)
      : crypto_st (Crypto := crypto_none) → _ → _ → crypto_st (Crypto := crypto_none) → Prop;
    opens := (λ c x y c', y = Some x ∧ c' = c)
      : crypto_st (Crypto := crypto_none) → _ → _ → crypto_st (Crypto := crypto_none) → Prop;
    session_ready := λ _, True;
    fresh_pouch := λ _, True;
    announces := (λ c info, ∃ id, c = Some id ∧ info = plaintext_info id)
      : crypto_st (Crypto := crypto_none) → _ → Prop;
  |}; cbn; try done.
  - intros [id|v i] c Hc; done.
  - intros c (id & -> & HP) _. cbn. split; [by exists id|]. intros _. by exists id.
  - intros m c l ls b Hm Hc Hl _. unfold wp. cbn. split_and!; try done.
    unfold ptr_contents. cbn. by rewrite Hl.
  - intros m c l ls b Hm Hc Hl _. unfold wp. cbn. split_and!; try done.
    unfold ptr_contents. cbn. by rewrite Hl.
Defined.

Definition crypto_none_spec `{Cfg : Config} {COk : ConfigOk Cfg} `{Zk : Zephyr} {ZS : ZephyrSpec Zk} :
  CryptoSpec crypto_none := crypto_none_spec_where (λ _, True).
