(* ===== verification/SaeadSpec.v ===== *)
(** The SAEAD module obeys the laws of a crypto module, and what it promises:
    encryption as a chain of sealed blocks, authenticity of the downlink, and how far
    replay protection goes. *)
From S2P Require Import Prelude Zephyr Config Platform Buf Block Header Node CryptoNone CryptoSpec.
From S2P Require Import Cert SaeadSession Saead.

(** ** Flags *)

Section flags.
Context `{Zk : Zephyr} {ZS : ZephyrSpec Zk}.
Implicit Types (s : session).

Lemma s_test_set i j s : 0 ≤ i < 31 → 0 ≤ j < 31 →
  s_test_bit i (s_set_bit j s) = (i =? j) || s_test_bit i s.
Proof.
  intros. unfold s_test_bit, s_set_bit. cbn. rewrite atomic_set_bit_spec, !atomic_test_bit_spec by done.
  rewrite Z.setbit_eqb by lia. by rewrite Z.eqb_sym.
Qed.

Lemma s_test_clear i j s : 0 ≤ i < 31 → 0 ≤ j < 31 →
  s_test_bit i (s_clear_bit j s) = negb (i =? j) && s_test_bit i s.
Proof.
  intros. unfold s_test_bit, s_clear_bit. cbn. rewrite atomic_clear_bit_spec, !atomic_test_bit_spec by done.
  rewrite Z.clearbit_eqb by lia. rewrite (Z.eqb_sym j i). by destruct (i =? j), (Z.testbit _ _).
Qed.

Lemma s_test_0 i s : 0 ≤ i < 31 → s_test_bit i (s_set_flags 0 s) = false.
Proof. intros. unfold s_test_bit. cbn. rewrite atomic_test_bit_spec by done. apply Z.bits_0. Qed.
End flags.

(** ** Laws *)

Section saead_spec.
Context `{COk : ConfigOk} `{ZS : ZephyrSpec} `{Mal : Malloc} `{PS : PsaSpec} {SB : SaeadBuild Cfg}.
Context {Tls : Mbedtls} {TS : MbedtlsSpec Tls} `{B64S : Base64Spec}.
Implicit Types (c : saead_st) (s : session) (m : mem) (l : nat).

(** The invariant of the module. Only random ids are used for the uplink. *)
Record saead_ok c : Prop := {
  sk_up : session_ok (sa_uplink c);
  sk_down : session_ok (sa_downlink c);
  sk_certs : certs_ok (sa_certs c);
  sk_random : s_test_bit SESSION_VALID (sa_uplink c) = true →
    id_type (s_id (sa_uplink c)) = SESSION_ID_TYPE_RANDOM;
}.

(** Every other key is kept. *)
Definition keys_kept (k : Z) (st st' : psa_st) : Prop := ∀ j, j ≠ k → psa_keys st' j = psa_keys st j.

(** A key was made: its id is not null and was not in use. *)
Definition key_made (k : Z) (alg : psa_algorithm) (usage : list psa_key_usage) (st st' : psa_st) : Prop :=
  keys_kept k st st' ∧
  (k = PSA_KEY_ID_NULL ∧ psa_keys st' k = psa_keys st k ∨
   k ≠ PSA_KEY_ID_NULL ∧ psa_keys st k = None ∧
     ∃ mat, psa_keys st' k = Some (mk_key mat (Some alg) usage)).

Lemma key_made_none alg usage st : key_made PSA_KEY_ID_NULL alg usage st st.
Proof. split; [done|by left]. Qed.

Lemma le_bytes_len n v : zlen (le_bytes n v) = Z.of_nat n.
Proof. revert v. induction n as [|n IH]; intros v; [done|]. cbn [le_bytes]. rewrite zlen_cons, IH. lia. Qed.

Lemma u64_store_len v : zlen (u64_store v) = 8.
Proof.
  unfold u64_store. pose proof (le_bytes_len 8 (v mod 2 ^ 64)) as Hl.
  destruct CONFIG_BIG_ENDIAN; [|done]. unfold zlen in *. by rewrite length_rev.
Qed.

Lemma id_set_tag_len tag id : zlen tag = SESSION_ID_TAG_LEN → zlen (id_value id) = SESSION_ID_LEN →
  zlen (id_value (id_set_tag tag id)) = SESSION_ID_LEN.
Proof.
  intros Ht Hi. cbn. rewrite zlen_splice; [done|lia|]. rewrite Ht, Hi.
  unfold SESSION_ID_TAG_LEN, SESSION_ID_LEN. lia.
Qed.

Lemma id_set_seqnum_len n id : zlen (id_value id) = SESSION_ID_LEN →
  zlen (id_value (id_set_seqnum n id)) = SESSION_ID_LEN.
Proof.
  intros Hi. cbn. rewrite zlen_splice; [done|unfold SESSION_ID_TAG_LEN, SESSION_ID_LEN; lia|].
  rewrite u64_store_len, Hi. unfold SESSION_ID_TAG_LEN, SESSION_ID_LEN. lia.
Qed.

Lemma wp_psa {A} (f : psa_st → A * psa_st) Q st : Q (f st).1 (f st).2 → wp (psa f) Q st.
Proof. done. Qed.

Lemma wp_session_id_generate id st :
  zlen (id_value id) = SESSION_ID_LEN →
  wp (session_id_generate id) (λ r st', (∀ j, psa_keys st' j = psa_keys st j) ∧
    id_type r.2 = id_type id ∧ id_initiator r.2 = POUCH_ROLE_DEVICE ∧
    zlen (id_value r.2) = SESSION_ID_LEN) st.
Proof.
  intros Hid. unfold session_id_generate. cbn [id_type].
  destruct (id_type id) eqn:Ht; wp_step; apply wp_psa.
  - pose proof (random_len SESSION_ID_TAG_LEN st ltac:(done)) as Hl.
    pose proof (random_keys SESSION_ID_TAG_LEN st) as Hk.
    destruct (psa_generate_random SESSION_ID_TAG_LEN st) as [[ok tag] st']. cbn [fst snd] in *.
    pose proof (id_set_tag_len tag (mk_id (id_type id) POUCH_ROLE_DEVICE (id_value id)) Hl Hid) as Hz.
    rewrite Ht in Hz. destruct ok; cbn [negb]; wp_step; cbn [fst snd].
    + split_and!; [done|done|done|]. by apply id_set_seqnum_len.
    + by split_and!.
  - pose proof (random_len SESSION_ID_LEN st ltac:(done)) as Hl.
    pose proof (random_keys SESSION_ID_LEN st) as Hk.
    destruct (psa_generate_random SESSION_ID_LEN st) as [[ok tag] st']. cbn [fst snd] in *.
    wp_step. by split_and!.
Qed.

Lemma wp_session_key_generate id alg log priv key usage st :
  zlen (id_value id) = SESSION_ID_LEN → 0 ≤ pk_len key ≤ zlen (pk_data key) →
  wp (session_key_generate id alg log priv key usage) (λ k st', key_made k alg usage st st') st.
Proof.
  intros Hid Hkey. pose proof (key_made_none alg usage st) as Hnone. unfold session_key_generate.
  destruct (pk_len key =? 0); [by wp_step|]. do 2 wp_step.
  destruct (psa_key_derivation_setup _ st) as [[] op1]; cbn [negb]; [|by wp_step].
  rewrite decide_True by done.
  destruct (psa_key_derivation_key_agreement _ _ op1 st) as [[] op2]; cbn [negb]; [|by wp_step].
  destruct (info_build_eq id alg log st Hid) as (sid & _ & _ & Hinfo).
  wp_step. eapply wp_eq; [exact Hinfo|]. cbn beta iota.
  destruct (psa_key_derivation_input_info _ op2 st) as [[] op3]; cbn [negb]; [|by wp_step].
  wp_step. apply wp_psa.
  destruct (psa_key_derivation_output_key _ op3 st) as [[k|] st'] eqn:Hout; wp_step; cbn [fst snd default].
  - destruct (output_key_ok _ _ _ _ _ Hout) as (Hk & Hfree & (mat & Hmat) & Hoth).
    split; [done|]. right. split_and!; [done|done|]. exists mat. exact Hmat.
  - split; [intros j _|left; split; [done|]]; by eapply output_key_failed.
Qed.

Lemma wp_session_end s st :
  session_ok s → wp (session_end s) (λ s' st', session_ok s' ∧
    s_test_bit SESSION_ACTIVE s' = false ∧ s_id s' = s_id s ∧
    s_test_bit SESSION_VALID s' = s_test_bit SESSION_VALID s ∧
    (if s_test_bit SESSION_ACTIVE s
     then psa_keys st' (s_key s) = None ∧ keys_kept (s_key s) st st' else st' = st)) st.
Proof.
  intros Hok. unfold session_end.
  assert (s_test_bit SESSION_ACTIVE (s_clear_bit SESSION_ACTIVE s) = false) as Hc
    by by rewrite s_test_clear.
  assert (s_test_bit SESSION_VALID (s_clear_bit SESSION_ACTIVE s) = s_test_bit SESSION_VALID s) as Hv
    by by rewrite s_test_clear.
  destruct (s_test_bit SESSION_ACTIVE s) eqn:Ha; cbn [negb].
  - wp_step. apply wp_psa. wp_step. cbn [fst snd].
    split_and!; [by destruct Hok|done|done|done|apply destroy_key_gone|].
    intros j Hj. by apply destroy_key_others.
  - wp_step. split_and!; [by destruct Hok|done|done|done|done].
Qed.
(** *** The operations of the module *)

(** What an operation on one session leaves alone. *)
Record up_frame c c' : Prop := {
  uf_down : sa_downlink c' = sa_downlink c;
  uf_seqnum : sa_server_seqnum c' = sa_server_seqnum c;
  uf_pouch : sa_server_pouch_id c' = sa_server_pouch_id c;
  uf_pkey : sa_pkey c' = sa_pkey c;
  uf_certs : sa_certs c' = sa_certs c;
}.

Lemma wp_uplink_session_start alg priv c :
  saead_ok c →
  wp (saead_uplink_session_start alg priv) (λ err c', saead_ok c' ∧ up_frame c c' ∧
    (err = success →
      let up := sa_uplink c' in
      s_test_bit SESSION_ACTIVE up = true ∧ s_test_bit SESSION_VALID up = true ∧
      s_algorithm up = alg ∧ s_pouch_id up = 0 ∧ id_initiator (s_id up) = POUCH_ROLE_DEVICE ∧
      key_made (s_key up) alg [PSA_KEY_USAGE_ENCRYPT] (sa_psa c) (sa_psa c'))) c.
Proof.
  intros [Hup Hdown Hcerts Hrand]. pose proof Hup as [Hid Hpid Hidx Had].
  pose proof Hcerts as [_ _ _ Hpk Hpkl _].
  unfold saead_uplink_session_start, modify_up. wp_steps. apply wp_zoom.
  eapply wp_mono; [by apply wp_session_id_generate|].
  intros [err id] st1 (Hk1 & Ht & Hini & Hlen). cbn [fst snd id_type s_id s_set_id sa_uplink sa_set_uplink] in *.
  wp_steps. destruct err as [e|].
  { wp_step. split; [|by split]. split; [by split|done|done|].
    intros Hv. by rewrite <- Ht. }
  wp_steps. apply wp_zoom. unfold cert_server_key_get. wp_steps. apply wp_zoom.
  eapply wp_mono; [apply wp_session_key_generate; [done|]|].
  { cbn in Hpk |- *. rewrite Hpk. done. }
  intros k st2 [Hkept Hmade]. wp_steps. cbn. split; [|split; [by split|]].
  - split; [|done|done|].
    + split; cbn; try done.
    + intros _. exact Ht.
  - intros _. split_and!; try done.
    + apply s_test_set; done.
    + rewrite s_test_set by done. change (SESSION_VALID =? SESSION_ACTIVE) with false. by rewrite s_test_set.
    + split; [intros j Hj; cbn; by rewrite Hkept, Hk1|]. cbn. rewrite <- Hk1. exact Hmade.
Qed.

Lemma session_pouch_start_ok s i : session_ok s → 0 ≤ i < 65536 →
  session_ok (session_pouch_start s i).2.
Proof.
  intros [] Hi. unfold session_pouch_start. destruct (negb _); [by split|].
  by split.
Qed.

(** The key that was derived for the uplink session can be used; if none could be
    derived there is none. *)
Definition uplink_key_fits c : Prop :=
  ∀ key, psa_keys (sa_psa c) (s_key (sa_uplink c)) = Some key → can_encrypt (sa_psa c) (sa_uplink c) key.

(** The uplink session at the start of a pouch. *)
Definition fresh_saead c : Prop :=
  session_ok (sa_uplink c) ∧ s_test_bit SESSION_ACTIVE (sa_uplink c) = true ∧
  s_block_index (sa_uplink c) = 0 ∧ uplink_key_fits c.

Lemma key_made_fits st c :
  key_made (s_key (sa_uplink c)) (s_algorithm (sa_uplink c)) [PSA_KEY_USAGE_ENCRYPT] st (sa_psa c) →
  uplink_key_fits c.
Proof.
  intros [_ [[Hnull _]|(_ & _ & mat & Hk)]] key Hkey.
  - by rewrite Hnull, null_key in Hkey.
  - rewrite Hk in Hkey. injection Hkey as <-. split_and!; [done|done|by left].
Qed.

Lemma wp_uplink_pouch_start c :
  saead_ok c → wp saead_uplink_pouch_start (λ err c', saead_ok c' ∧ up_frame c c' ∧
    sa_psa c' = sa_psa c ∧ s_key (sa_uplink c') = s_key (sa_uplink c) ∧
    (err = success → (uplink_key_fits c → fresh_saead c') ∧ s_pouch_id (sa_uplink c') = u16 (s_pouch_id (sa_uplink c) + 1))) c.
Proof.
  intros [Hup Hdown Hcerts Hrand]. unfold saead_uplink_pouch_start, modify_up. do 2 wp_step.
  pose proof (session_pouch_start_ok (sa_uplink c) (u16 (s_pouch_id (sa_uplink c) + 1)) Hup
    (u16_range _)) as Hok.
  unfold session_pouch_start in *. destruct (s_test_bit SESSION_ACTIVE (sa_uplink c)) eqn:Ha; cbn [negb snd] in *;
    do 3 wp_step; (split; [by split|]); split_and!; try done.
Qed.

(** The header that announces an uplink session. *)
Definition uplink_info s (ref : list Z) : encryption_info :=
  saead_info (mk_session_info
    (match id_type (s_id s) with
     | SESSION_ID_TYPE_SEQUENTIAL => session_id_sequential (id_tag (s_id s)) (id_seqnum (s_id s))
     | SESSION_ID_TYPE_RANDOM => session_id_random (id_value (s_id s))
     end) device
    (if decide (s_algorithm s = PSA_ALG_CHACHA20_POLY1305) then chacha20_poly1305 else aes_gcm)
    MAX_BLOCK_PAYLOAD_SIZE_LOG (slice 0 CERT_REF_SHORT_LEN ref)) (s_pouch_id s).

Lemma wp_uplink_header_get c :
  wp saead_uplink_header_get (λ r c', c' = c ∧
    (r.1 = success → s_test_bit SESSION_ACTIVE (sa_uplink c) = true ∧
       cert_is_valid (Some (device_certificate (sa_certs c))) = true ∧
       r.2 = uplink_info (sa_uplink c) (device_ref (sa_certs c)))) c.
Proof.
  assert (sa_set_certs (sa_certs c) c = c) as Hid by by destruct c.
  unfold saead_uplink_header_get. do 2 wp_step.
  destruct (s_test_bit SESSION_ACTIVE (sa_uplink c)); cbn [negb]; [|by wp_step].
  wp_step. apply wp_zoom. unfold cert_ref_get. do 3 wp_step. rewrite Hid.
  destruct (cert_is_valid _); by wp_step.
Qed.

Lemma wp_saead_end c :
  saead_ok c → wp CryptoSaead.crypto_session_end (λ _ c', saead_ok c' ∧
    s_test_bit SESSION_ACTIVE (sa_uplink c') = false ∧
    s_test_bit SESSION_ACTIVE (sa_downlink c') = false ∧
    (s_test_bit SESSION_ACTIVE (sa_uplink c) = true → psa_keys (sa_psa c') (s_key (sa_uplink c)) = None) ∧
    (s_test_bit SESSION_ACTIVE (sa_downlink c) = true →
       psa_keys (sa_psa c') (s_key (sa_downlink c)) = None)) c.
Proof.
  intros [Hup Hdown Hcerts Hrand]. unfold CryptoSaead.crypto_session_end, saead_uplink_session_end,
    saead_downlink_session_end, modify_up, modify_down.
  wp_steps. apply wp_zoom. eapply wp_mono; [by apply wp_session_end|].
  intros s1 st1 (Hok1 & Ha1 & Hid1 & Hv1 & Hgone1). wp_steps. apply wp_zoom.
  eapply wp_mono; [by apply wp_session_end|]. cbn [sa_downlink sa_set_uplink sa_set_psa sa_psa].
  intros s2 st2 (Hok2 & Ha2 & Hid2 & Hv2 & Hgone2). wp_steps. cbn.
  split_and!; [|done|done| |].
  - split; cbn; try done. intros Hv. rewrite Hid1. apply Hrand. by rewrite <- Hv1.
  - intros Ha. rewrite Ha in Hgone1. destruct Hgone1 as [Hgone1 _].
    destruct (s_test_bit SESSION_ACTIVE (sa_downlink c)); [|by subst].
    destruct Hgone2 as [Hgone2 Hkept2].
    destruct (decide (s_key (sa_uplink c) = s_key (sa_downlink c))) as [He|Hne].
    + by rewrite He.
    + by rewrite Hkept2.
  - intros Ha. rewrite Ha in Hgone2. by destruct Hgone2.
Qed.
(** *** Blocks *)

(** What the module makes of an uplink block with the bytes [x], and of a downlink
    block. *)
Definition saead_seals c (x : list Z) (y : option (list Z)) c' : Prop :=
  match y with
  | None => c' = c
  | Some y => ∃ key pt, x = sized pt ∧
      psa_keys (sa_psa c) (s_key (sa_uplink c)) = Some key ∧
      let ct := seal_at (sa_uplink c) POUCH_ROLE_DEVICE key pt in
      y = sized ct ∧ c' = sa_set_uplink (advance (sa_uplink c) (tag_of ct)) c
  end.

(** The state after the next block of the downlink pouch was decrypted. *)
Definition downlink_next c (ct : list Z) : saead_st :=
  note_decrypted (sa_set_downlink
    (s_set_bit SESSION_VALID (advance (sa_downlink c) (tag_of ct))) c).

(** A plaintext that a server may send in a block. *)
Definition server_block (pt : list Z) : Prop :=
  0 < zlen pt ≤ MAX_PLAINTEXT_BLOCK_SIZE - 2 ∧ Forall is_byte pt.

(** A block of a session with a key is sealed, if there is memory. *)
Definition saead_seal_complete c (x : list Z) (y : option (list Z)) : Prop :=
  s_test_bit SESSION_ACTIVE (sa_uplink c) = true → (∃ key, can_encrypt (sa_psa c) (sa_uplink c) key) →
  (∀ n, malloc_bytes n MAX_CIPHERTEXT_BLOCK_SIZE ≠ None) → is_Some y.

Definition saead_opens c (x : list Z) (y : option (list Z)) c' : Prop :=
  match y with
  | None => c' = c
  | Some y => ∃ key pt, psa_keys (sa_psa c) (s_key (sa_downlink c)) = Some key ∧ server_block pt ∧
      let ct := seal_at (sa_downlink c) POUCH_ROLE_SERVER key pt in
      x = sized ct ∧ y = sized pt ∧ c' = downlink_next c ct
  end.

(** A block that the server made at this position opens, if there is memory. *)
Definition saead_complete c (x : list Z) (y : option (list Z)) : Prop :=
  ∀ key pt, can_decrypt (sa_psa c) (sa_downlink c) key → server_block pt →
    x = sized (seal_at (sa_downlink c) POUCH_ROLE_SERVER key pt) →
    (∀ n, malloc_bytes n MAX_PLAINTEXT_BLOCK_SIZE ≠ None) → y = Some (sized pt).

Lemma set_psa_id c : sa_set_psa (sa_psa c) c = c.
Proof. by destruct c. Qed.

Lemma set_uplink_id c : sa_set_uplink (sa_uplink c) c = c.
Proof. by destruct c. Qed.

Lemma set_downlink_id c : sa_set_downlink (sa_downlink c) c = c.
Proof. by destruct c. Qed.

(** Freeing the block that was handled. *)
Lemma wp_free_block m1 r l ls c Q :
  heap_owns m1 (option_list r ++ l :: ls) →
  (∀ m', heap_owns m' (option_list r ++ ls) →
     (∀ k, k ∈ option_list r ++ ls → heap m' !! k = heap m1 !! k) → Q tt (m', c)) →
  wp (on_heap (buf_free (Some l))) Q (m1, c).
Proof.
  intros Hm HQ. unfold on_heap. apply wp_zoom. cbn [fst].
  assert (heap_owns m1 (l :: option_list r ++ ls)) as Hm' by (by rewrite <- Permutation_middle in Hm).
  eapply wp_free_owned; [exact Hm'|]. intros m' Hown _ Hk. apply HQ; [done|]. intros k Hin. apply Hk.
  intros ->. apply owns_nodup in Hm'. by apply list.NoDup_cons in Hm' as [? _].
Qed.

Lemma wp_on_session {A} (p : M (mem * psa_st) A) Q m c :
  wp p (λ a t, Q a (t.1, sa_set_psa t.2 c)) (m, sa_psa c) → wp (on_session p) Q (m, c).
Proof. intros H. apply wp_zoom. exact H. Qed.

Lemma wp_on_saead {A} (p : M saead_st A) Q m c :
  wp p (λ a c', Q a (m, c')) c → wp (on_saead p) Q (m, c).
Proof. intros H. apply wp_zoom. exact H. Qed.

(** What handling a block does to the heap. *)
Definition block_handled m ls (r : ptr) (t : mem * saead_st) : Prop :=
  heap_owns t.1 (option_list r ++ ls) ∧ (∀ k, k ∈ ls → heap t.1 !! k = heap m !! k).

Lemma set_uplink_ok c s : saead_ok c → session_ok s →
  (s_test_bit SESSION_VALID s = true → id_type (s_id s) = SESSION_ID_TYPE_RANDOM) →
  saead_ok (sa_set_uplink s c).
Proof. intros [] Hs Hr. by split. Qed.

Lemma set_downlink_ok c s : saead_ok c → session_ok s → saead_ok (sa_set_downlink s c).
Proof. intros [] Hs. by split. Qed.

Lemma wp_saead_encrypt m c l ls b pt :
  heap_owns m (l :: ls) → saead_ok c → heap m !! l = Some b → contents b = sized pt →
  zlen pt ≤ MAX_PLAINTEXT_BLOCK_SIZE - 2 →
  wp (saead_uplink_encrypt_block (Some l)) (λ r t, saead_ok t.2 ∧ block_handled m ls r t ∧
    saead_seals c (contents b) (ptr_contents t.1 r) t.2 ∧
    saead_seal_complete c (contents b) (ptr_contents t.1 r)) (m, c).
Proof.
  intros Hm Hok Hl Hco Hpt. pose proof Hok as [Hup _ _ Hrand]. unfold saead_uplink_encrypt_block.
  do 2 wp_step. cbn [snd]. destruct (s_test_bit SESSION_ACTIVE (sa_uplink c)) eqn:Hact; cbn [negb].
  2: { wp_step. apply (wp_free_block m NULL l ls); [done|]. intros m' Hm' Hk. wp_step.
       split_and!; [done|by split|done|]. intros Ha. by rewrite Hact in Ha. }
  wp_step. apply wp_on_session. eapply wp_mono; [by apply (wp_session_encrypt m (sa_psa c) _ l ls b pt)|].
  intros [r s] [m1 st] [(Hst & Hm1 & Hk1) [Hr Hcomp]]. cbn [fst snd] in *. subst st. rewrite set_psa_id.
  wp_step. apply wp_on_saead. unfold modify_up. do 2 wp_step.
  apply (wp_free_block m1 r l ls); [done|]. intros m2 Hm2 Hk2. wp_step. cbn [fst snd].
  assert (block_handled m ls r (m2, sa_set_uplink s c)) as Hbh.
  { split; [done|]. intros k Hk. cbn [fst]. rewrite Hk2 by (apply elem_of_app; by right).
    apply Hk1. by right. }
  destruct r as [e|].
  - destruct Hr as (key & b' & Hkey & He & Hb' & ->).
    assert (ptr_contents m2 (Some e) = Some (contents b')) as Hpc.
    { cbn [ptr_contents]. rewrite Hk2 by (by left). by rewrite He. }
    split_and!; [|done| |by intros _ _ _; rewrite Hpc].
    + apply set_uplink_ok; [done|apply advance_ok; [done|]|exact Hrand].
      apply tag_of_len. rewrite seal_at_len. pose proof (zlen_nonneg pt). unfold AUTH_TAG_LEN. lia.
    + rewrite Hpc, Hb', Hco. exists key, pt. by split_and!.
  - subst s. rewrite set_uplink_id in *. split_and!; [done|done|done|]. intros _ Hkey Hma.
    by destruct (Hcomp Hkey (Hma _)).
Qed.

Lemma note_decrypted_ok c : saead_ok c → saead_ok (note_decrypted c).
Proof. intros [Hup [] Hcerts Hrand]. split; [done|by split|done|done]. Qed.

Lemma wp_saead_decrypt m c l ls b size body :
  heap_owns m (l :: ls) → saead_ok c → heap m !! l = Some b → contents b = sys_put_be16 size ++ body →
  0 ≤ size ≤ MAX_BLOCK_SIZE_FIELD_VALUE →
  wp (saead_downlink_block_decrypt (Some l)) (λ r t, saead_ok t.2 ∧ block_handled m ls r t ∧
    saead_opens c (contents b) (ptr_contents t.1 r) t.2 ∧
    ∀ key pt, can_decrypt (sa_psa c) (sa_downlink c) key → Forall is_byte pt → 0 < zlen pt →
      size = zlen body → body = seal_at (sa_downlink c) POUCH_ROLE_SERVER key pt →
      malloc_bytes (mallocs m) MAX_PLAINTEXT_BLOCK_SIZE ≠ None →
      ptr_contents t.1 r = Some (sized pt)) (m, c).
Proof.
  intros Hm Hok Hl Hco Hsz. pose proof Hok as [_ Hdown _ _]. unfold saead_downlink_block_decrypt.
  do 2 wp_step. cbn [snd]. wp_step. apply wp_on_session.
  eapply wp_mono; [by apply (wp_session_decrypt m (sa_psa c) _ l ls b size body)|].
  intros [r s] [m1 st] [(Hst & Hm1 & Hk1) [Hr Hcomp]]. cbn [fst snd] in *. subst st. rewrite set_psa_id.
  wp_step. apply wp_on_saead. unfold modify_down. do 2 wp_step.
  apply (wp_free_block m1 r l ls); [done|]. intros m2 Hm2 Hk2.
  assert (∀ c', block_handled m ls r (m2, c')) as Hbh.
  { intros c'. split; [done|]. intros k Hk. cbn [fst]. rewrite Hk2 by (apply elem_of_app; by right).
    apply Hk1. by right. }
  destruct r as [e|].
  - wp_step. apply wp_on_saead. do 2 wp_step. cbn [fst snd].
    destruct Hr as (key & pt & b' & Hkey & Hpos & Hpb & Hct & Hbody & He & Hb' & ->).
    assert (ptr_contents m2 (Some e) = Some (contents b')) as Hpc.
    { cbn [ptr_contents]. rewrite Hk2 by (by left). by rewrite He. }
    split_and!; [|done| |].
    + apply note_decrypted_ok, set_downlink_ok; [done|].
      assert (session_ok (advance (sa_downlink c) (tag_of (seal_at (sa_downlink c) POUCH_ROLE_SERVER key pt)))) as [].
      { apply advance_ok; [done|]. apply tag_of_len. rewrite seal_at_len.
        pose proof (zlen_nonneg pt). unfold AUTH_TAG_LEN. lia. }
      by split.
    + rewrite Hpc. exists key, pt. cbn zeta. split_and!; [done| | |by rewrite Hb'|done].
      * split; [|done]. pose proof max_ciphertext as Hmax.
        rewrite Hbody, seal_at_len in Hct. unfold MAX_BLOCK_SIZE_FIELD_VALUE in Hsz. lia.
      * rewrite Hco, Hct, Hbody. done.
    + intros key' pt' Hcan Hpb' Hpos' Hs' Hbd' Hma.
      destruct (Hcomp key' pt' Hcan Hpb' Hpos' Hs' Hbd' Hma) as (e' & b2 & [= <-] & He' & Hb2).
      rewrite Hpc. rewrite He in He'. injection He' as <-. by rewrite Hb2.
  - subst s. rewrite set_downlink_id. wp_step. cbn [fst snd ptr_contents]. split_and!; [done|done|done|].
    intros key' pt' Hcan Hpb' Hpos' Hs' Hbd' Hma.
    by destruct (Hcomp key' pt' Hcan Hpb' Hpos' Hs' Hbd' Hma) as (e' & b2 & [=] & _).
Qed.

Lemma be16_inj x y : 0 ≤ x < 65536 → 0 ≤ y < 65536 → sys_put_be16 x = sys_put_be16 y → x = y.
Proof. intros Hx Hy He. by rewrite <- (get_put_be16 x), He, get_put_be16. Qed.

Lemma sized_received x size body pt :
  x = sys_put_be16 size ++ body → 0 ≤ size < 65536 → x = sized pt → zlen pt < 65536 →
  size = zlen body ∧ body = pt.
Proof.
  intros -> Hs He Hpt. unfold sized in He. pose proof (zlen_nonneg pt).
  apply app_inj_1 in He as [He ->]; [|by rewrite !be16_length].
  by apply be16_inj in He.
Qed.

Lemma wp_saead_opens m c l ls b :
  heap_owns m (l :: ls) → saead_ok c → heap m !! l = Some b → received_block (contents b) →
  wp (saead_downlink_block_decrypt (Some l)) (λ r t, saead_ok t.2 ∧ block_handled m ls r t ∧
    saead_opens c (contents b) (ptr_contents t.1 r) t.2 ∧
    saead_complete c (contents b) (ptr_contents t.1 r)) (m, c).
Proof.
  intros Hm Hok Hl (size & body & Hsz & _ & Hx). pose proof block_sizes_range.
  pose proof max_ciphertext as Hmax. unfold AUTH_TAG_LEN in Hmax. pose proof Hsz as Hsz'.
  unfold MAX_BLOCK_SIZE_FIELD_VALUE in Hsz'.
  eapply wp_mono; [by apply (wp_saead_decrypt m c l ls b size body)|].
  intros r t (Hok' & Hbh & Hop & Hcomp). split_and!; [done|done|done|].
  intros key pt Hcan [Hpt Hpb] Heq Hmal.
  pose proof (seal_at_len (sa_downlink c) POUCH_ROLE_SERVER key pt) as Hct. unfold AUTH_TAG_LEN in Hct.
  rewrite Hx in Heq. destruct (sized_received _ size body _ eq_refl ltac:(lia) Heq) as [? ?]; [lia|].
  by apply (Hcomp key pt); try done; lia.
Qed.
(** *** Starting a downlink pouch *)

(** What a start that succeeded leaves: the session is active, and nothing is known
    any more of the sessions before it. *)
Record downlink_restarted (id : session_id) (alg : psa_algorithm) c c' : Prop := {
  dr_id : s_id (sa_downlink c') = id;
  dr_algorithm : s_algorithm (sa_downlink c') = alg;
  dr_active : s_test_bit SESSION_ACTIVE (sa_downlink c') = true;
  dr_valid : s_test_bit SESSION_VALID (sa_downlink c') = false;
  dr_has_pouch : s_test_bit SESSION_HAS_POUCH (sa_downlink c') = false;
  dr_key : key_made (s_key (sa_downlink c')) alg DOWNLINK_KEY_USAGE (sa_psa c) (sa_psa c');
  dr_key_set : s_key (sa_downlink c') ≠ PSA_KEY_ID_NULL;
}.

Definition downlink_started (id : session_id) (alg : psa_algorithm) (pouch_id : Z) c c' : Prop :=
  downlink_restarted id alg c c' ∧
  s_pouch_id (sa_downlink c') = pouch_id ∧ s_block_index (sa_downlink c') = 0.

Lemma restarted_flags i s : 0 ≤ i < 31 →
  s_test_bit i (s_set_bit SESSION_ACTIVE (s_set_flags 0 s)) = (i =? SESSION_ACTIVE).
Proof. intros. rewrite s_test_set, s_test_0 by done. apply orb_false_r. Qed.

Record down_frame c c' : Prop := {
  df_up : sa_uplink c' = sa_uplink c;
  df_seqnum : sa_server_seqnum c' = sa_server_seqnum c;
  df_pouch : sa_server_pouch_id c' = sa_server_pouch_id c;
  df_pkey : sa_pkey c' = sa_pkey c;
  df_certs : sa_certs c' = sa_certs c;
}.

(** A device's session is never reused: sequential ids are not used for the uplink. *)
Lemma no_session_match c id log alg :
  saead_ok c → id_type id = SESSION_ID_TYPE_SEQUENTIAL →
  saead_uplink_session_matches id log alg c = false.
Proof.
  intros [_ _ _ Hrand] Ht. unfold saead_uplink_session_matches, session_id_is_equal.
  destruct (s_test_bit SESSION_VALID (sa_uplink c)); [|done]. rewrite Hrand, Ht by done. done.
Qed.

Lemma wp_downlink_session_start id alg log priv c :
  saead_ok c → zlen (id_value id) = SESSION_ID_LEN →
  wp (saead_downlink_session_start id alg log priv) (λ err c', saead_ok c' ∧ down_frame c c' ∧
    match err with
    | None => is_valid_downlink id alg c = true ∧ id_initiator id = POUCH_ROLE_SERVER ∧
        downlink_restarted id alg c c'
    | Some e => sa_downlink c' = sa_downlink c ∧
        if decide (id_initiator id = POUCH_ROLE_DEVICE ∨ is_valid_downlink id alg c = false)
        then e = EBADMSG ∧ c' = c else e = EIO
    end) c.
Proof.
  intros Hok Hid. pose proof Hok as [Hup Hdown Hcerts Hrand]. pose proof Hcerts as [_ _ _ Hpk Hpkl _].
  unfold saead_downlink_session_start, modify_down. do 2 wp_step.
  destruct (is_valid_downlink id alg c) eqn:Hvalid; cbn [negb].
  2: { wp_step. split; [done|]. split; [by split|]. split; [done|]. rewrite decide_True; [done|by right]. }
  destruct (id_initiator id) eqn:Hini.
  - assert (∀ e, e = EBADMSG → saead_ok c ∧ down_frame c c ∧ sa_downlink c = sa_downlink c ∧
      if decide (POUCH_ROLE_DEVICE = POUCH_ROLE_DEVICE ∨ true = false)
      then e = EBADMSG ∧ c = c else e = EIO) as Hbad.
    { intros e ->. split_and!; [done|by split|done|]. rewrite decide_True; [done|by left]. }
    destruct (decide (id_type id ≠ SESSION_ID_TYPE_SEQUENTIAL)) as [Ht|Ht]; [wp_step; by apply Hbad|].
    rewrite no_session_match by (done || by apply dec_stable). cbn [negb]. wp_step.
    by apply Hbad.
  - wp_step. apply wp_zoom. unfold cert_server_key_get. wp_steps. apply wp_zoom.
    eapply wp_mono; [apply wp_session_key_generate; [done|rewrite Hpk; done]|].
    intros k st Hmade. assert (sa_set_certs (sa_certs c) c = c) as -> by by destruct c.
    destruct (Z.eqb_spec k PSA_KEY_ID_NULL) as [->|Hk].
    + wp_step. split_and!; [by split|by split|done|].
      rewrite decide_False; [done|by intros [?|?]].
    + wp_steps. split_and!; [|by split|done|done|].
      * split; cbn; try done. destruct Hdown. by split.
      * split; try done; by apply restarted_flags.
Qed.

Lemma header_id_len info id :
  CryptoSaead.header_session_id info = Some id → zlen (id_value id) = SESSION_ID_LEN.
Proof.
  unfold CryptoSaead.header_session_id. destruct (si_id info) as [random|tag seq].
  - case_decide as Hr; [|done]. intros [= <-]. cbn [id_value].
    rewrite zlen_splice; [done|lia|]. rewrite Hr. done.
  - case_decide as Ht; [|done]. intros [= <-]. by apply id_set_seqnum_len, id_set_tag_len.
Qed.

(** The algorithm a header names. *)
Definition header_algorithm (info : session_info) : psa_algorithm :=
  if decide (si_algorithm info = aes_gcm) then PSA_ALG_GCM else PSA_ALG_CHACHA20_POLY1305.

(** Every outcome of [crypto_downlink_start]. *)
Definition downlink_start_result (info : encryption_info) (err : rc) c c' : Prop :=
  match err with
  | None => ∃ session id pouch_id, info = saead_info session pouch_id ∧
      CryptoSaead.header_session_id session = Some id ∧ id_initiator id = POUCH_ROLE_SERVER ∧
      is_valid_downlink id (header_algorithm session) c = true ∧
      downlink_started id (header_algorithm session) (u16 pouch_id) c c'
  | Some e => sa_downlink c' = sa_downlink c ∧
      ∀ session id pouch_id, info = saead_info session pouch_id →
        CryptoSaead.header_session_id session = Some id →
        if decide (id_initiator id = POUCH_ROLE_DEVICE ∨
                   is_valid_downlink id (header_algorithm session) c = false)
        then e = EBADMSG ∧ c' = c else e = EIO
  end.

Lemma wp_saead_downlink_start info c :
  saead_ok c → wp (CryptoSaead.crypto_downlink_start info) (λ err c', saead_ok c' ∧ down_frame c c' ∧
    downlink_start_result info err c c') c.
Proof.
  intros Hok. unfold CryptoSaead.crypto_downlink_start. destruct info as [pid|session pouch_id].
  { wp_step. split_and!; [done|by split|]. by split; [|intros]. }
  destruct (CryptoSaead.header_session_id session) as [id|] eqn:Hid.
  2: { wp_step. split_and!; [done|by split|]. split; [done|]. intros ??? [= <- <-]. congruence. }
  do 3 wp_step. eapply wp_mono.
  { apply (wp_downlink_session_start id (header_algorithm session)); [done|by eapply header_id_len]. }
  intros [e|] c1 (Hok1 & Hfr & Hr).
  { wp_step. destruct Hr as [Hd Hbad]. split_and!; [done|done|]. split; [done|].
    intros session' id' pid' [= <- <-] Hid'. rewrite Hid in Hid'. injection Hid' as <-. exact Hbad. }
  destruct Hr as (Hvalid & Hini & [Hi Ha Hact Hv Hp' Hm Hk]).
  unfold saead_downlink_pouch_start, modify_down. do 2 wp_step. rewrite Hp'. cbn [andb].
  unfold session_pouch_start. rewrite Hact. cbn [negb]. wp_steps.
  split_and!; [|by destruct Hfr|].
  - destruct Hok1 as [? [] ? ?]. split; cbn; try done. split; cbn; try done. apply u16_range.
  - exists session, id, pouch_id. by split_and!.
Qed.

(** ** The module implements the interface *)

#[local] Existing Instance crypto_saead.

Lemma plain_block_sized x : plain_block x →
  ∃ pt, x = sized pt ∧ zlen pt ≤ MAX_PLAINTEXT_BLOCK_SIZE - 2.
Proof.
  intros (id & first & last & payload & _ & Hlen & ->). exists (block_id_byte id first last :: payload).
  unfold MAX_PLAINTEXT_BLOCK_SIZE, BLOCK_HEADER_SIZE. rewrite zlen_cons. split; [|lia].
  unfold sized, block_bytes. by rewrite zlen_cons.
Qed.

Definition crypto_saead_spec : CryptoSpec crypto_saead.
Proof.
  refine {|
    crypto_ok := saead_ok : crypto_st (Crypto := crypto_saead) → Prop;
    seals := (λ c x y c', saead_seals c x y c' ∧ saead_seal_complete c x y)
      : crypto_st (Crypto := crypto_saead) → _ → _ → crypto_st (Crypto := crypto_saead) → Prop;
    opens := (λ c x y c', saead_opens c x y c' ∧ saead_complete c x y)
      : crypto_st (Crypto := crypto_saead) → _ → _ → crypto_st (Crypto := crypto_saead) → Prop;
    session_ready := uplink_key_fits : crypto_st (Crypto := crypto_saead) → Prop;
    fresh_pouch := fresh_saead : crypto_st (Crypto := crypto_saead) → Prop;
    announces := (λ c info, fresh_saead c ∧
      cert_is_valid (Some (device_certificate (sa_certs c))) = true ∧
      info = uplink_info (sa_uplink c) (device_ref (sa_certs c)))
      : crypto_st (Crypto := crypto_saead) → _ → Prop;
  |}; cbn.
  - intros c Hok. unfold CryptoSaead.crypto_session_start. do 2 wp_step.
    eapply wp_mono; [by apply wp_uplink_session_start|]. intros err c' (? & _ & Hs). split; [done|].
    intros Herr. destruct (Hs Herr) as (_ & _ & Halg & _ & _ & Hk). rewrite <- Halg in Hk. by eapply key_made_fits.
  - intros c Hok. eapply wp_mono; [by apply wp_saead_end|]. by intros [] c' [? _].
  - intros info c Hok. eapply wp_mono; [by apply wp_saead_downlink_start|]. by intros err c' [? _].
  - intros c Hok Hready. eapply wp_mono; [by apply wp_uplink_pouch_start|].
    intros err c' (? & _ & _ & _ & Hf). split; [done|]. intros Herr. destruct (Hf Herr) as [Hfresh _]. auto.
  - intros c Hok Hfresh. eapply wp_mono; [apply wp_uplink_header_get|].
    intros [err info] c' [-> Hr]. split; [done|]. intros Herr. cbn in Herr.
    destruct (Hr Herr) as (_ & ? & ?). by split_and!.
  - intros m c l ls b Hm Hok Hl (pt & Hx & Hpt)%plain_block_sized.
    eapply wp_mono; [by eapply wp_saead_encrypt|]. intros r t (? & [? ?] & ? & ?). by split_and!.
  - intros m c l ls b Hm Hok Hl Hx. eapply wp_mono; [by apply (wp_saead_opens m c l ls b)|].
    intros r t (? & [? ?] & ? & ?). by split_and!.
Defined.
End saead_spec.
