(* ===== verification/Reference.v ===== *)
(** A concrete node: reference implementations of the interfaces, on which the
    witnesses of the theorems run. *)
From S2P Require Import Prelude Zephyr Config Buf Block Header Node CryptoNone.

(** Every call of [malloc] whose number satisfies [ok] succeeds, with zeroed
    memory. *)
Definition malloc_when (ok : nat → bool) : Malloc.
Proof.
  refine {|
    malloc_bytes n sz := if ok n then Some (replicate (Z.to_nat sz) 0) else None;
    malloc_obj := ok;
  |}.
  - intros n sz l Hsz. destruct (ok n); [|done]. intros [= <-].
    unfold zlen. rewrite length_replicate. lia.
  - intros n sz l. destruct (ok n); [|done]. intros [= <-].
    apply Forall_replicate. unfold is_byte. lia.
Defined.

Definition malloc_always : Malloc := malloc_when (λ _, true).

(** One downlink handler and one event handler are registered. *)
Definition one_handler : Handlers := {|
  pouch_downlink_handlers := [0%nat];
  pouch_event_handlers := [0%nat];
|}.

(** A small build: blocks of at most 32 bytes of payload. *)
Definition small_config : Config := {|
  CONFIG_POUCH_BLOCK_SIZE := 32;
  CONFIG_POUCH_ENCRYPTION_SAEAD := false;
  CONFIG_POUCH_EVENT_QUEUE_DEPTH := 4;
  CONFIG_POUCH_SERVER_CERT_MAX_LEN := 64;
  CONFIG_POUCH_VALIDATE_SERVER_CERT := true;
  CONFIG_POUCH_SERVER_CERT_CN := [112];
  CONFIG_POUCH_ENCRYPTION_CHACHA20_POLY1305 := true;
  CONFIG_BIG_ENDIAN := false;
  size_bits := 32;
|}.

Definition small_config_ok : ConfigOk small_config.
Proof. by split. Qed.

Section reference.
Context `{Cfg : Config} `{Zk : Zephyr} `{Cr : Crypto}.

(** The state after power-up and initialisation. *)
Definition init_uplink : pouch_uplink :=
  mk_uplink NULL 0 0 0 sys_slist_init sys_slist_init (mk_view NULL 0).

Definition init_downlink : downlink := mk_downlink NULL false sys_slist_init sys_slist_init.

Definition init_streams : streams := mk_streams ∅ 1 0.

Definition init_node (c : crypto_st) : node :=
  mk_node init_mem init_uplink NULL init_streams init_downlink c []
    (k_msgq_define CONFIG_POUCH_EVENT_QUEUE_DEPTH) [].
End reference.

Section reference_facts.
Context `{COk : ConfigOk} `{ZS : ZephyrSpec} `{Cr : Crypto}.

Lemma init_node_inv c : node_inv (init_node c) [].
Proof.
  unfold node_inv, owned, uplink_owned, downlink_owned. cbn.
  rewrite !slist_items_init. apply owns_init.
Qed.
End reference_facts.

(** A heap that holds the given buffers, at the first locations. *)
Definition list_mem (bs : list pouch_buf) : mem :=
  mk_mem (map_seq 0 bs) (zlen bs) (length bs).

Lemma list_mem_owns `{ZS : ZephyrSpec} bs :
  Forall wf_buf bs → zlen bs < 2 ^ 31 → heap_owns (list_mem bs) (seq 0 (length bs)).
Proof.
  intros Hwf Hlen. pose proof (zlen_nonneg bs). split; cbn.
  - apply NoDup_seq.
  - intros l. rewrite elem_of_seq, lookup_map_seq_0, lookup_lt_is_Some. lia.
  - intros l b. rewrite lookup_map_seq_0. intros Hl. by eapply Forall_lookup_1.
  - intros l. rewrite elem_of_seq. lia.
  - unfold zlen. rewrite length_seq. rewrite atomic_wrap_id; [done|]. fold (zlen bs). lia.
Qed.

(** The plaintext node of the witnesses. *)
Definition node_0 : node (Zk:=zephyr_ref) (Cr:=crypto_none) :=
  init_node (Cfg:=small_config) (Zk:=zephyr_ref) (Cr:=crypto_none) (Some [1; 2; 3]).

(** ** A header codec

    Canonical CBOR for plaintext headers, as the format of [src/header.cddl]
    prescribes it; other headers are refused. *)
Definition byteb (x : Z) : bool := (0 <=? x) && (x <? 256).

Definition plain_encoding (v : Z) (id : list Z) : list Z :=
  130 :: v :: 130 :: 0 :: (if zlen id <? 24 then [96 + zlen id] else [120; zlen id]) ++ id.

(** A byte string of [n] bytes at the front of [r], [k] bytes of the header being
    in front of it. *)
Definition plain_id (v k n : Z) (r : list Z) : option (pouch_header * Z) :=
  if n <=? zlen r then Some (mk_header v (plaintext_info (slice 0 n r)), k + n) else None.

Definition plain_codec : HeaderCodec := {|
  cbor_encode_pouch_header room h :=
    match hd_encryption_info h with
    | plaintext_info id =>
        if (0 <=? hd_version h) && (hd_version h <? 24) && (zlen id <? 256) && forallb byteb id &&
           (zlen (plain_encoding (hd_version h) id) <=? room)
        then Some (plain_encoding (hd_version h) id) else None
    | saead_info _ _ => None
    end;
  cbor_decode_pouch_header l :=
    match l with
    | a :: v :: b :: c :: t :: r =>
        if negb ((a =? 130) && (b =? 130) && (c =? 0)) then None else
        if (96 <=? t) && (t <? 120) then plain_id v 5 (t - 96) r else
        if t =? 120 then
          match r with
          | n :: r => if 0 <=? n then plain_id v 6 n r else None
          | [] => None
          end
        else None
    | _ => None
    end;
|}.

Lemma plain_id_mono v k n r h j r' :
  0 ≤ n → plain_id v k n r = Some (h, j) → plain_id v k n (r ++ r') = Some (h, j).
Proof.
  unfold plain_id. intros Hn. destruct (Z.leb_spec n (zlen r)); [|done].
  pose proof (zlen_nonneg r'). destruct (Z.leb_spec n (zlen (r ++ r'))) as [_|Hlt].
  - by rewrite slice_app_l by lia.
  - rewrite zlen_app in Hlt. lia.
Qed.

Lemma plain_encoding_len v id :
  zlen (plain_encoding v id) = 4 + (if zlen id <? 24 then 1 else 2) + zlen id.
Proof. unfold plain_encoding. rewrite !zlen_cons, zlen_app. destruct (_ <? _); rewrite ?zlen_cons; change (zlen []) with 0; lia. Qed.

Lemma plain_encode_inv room h l :
  cbor_encode_pouch_header (HeaderCodec := plain_codec) room h = Some l →
  ∃ id, hd_encryption_info h = plaintext_info id ∧ 0 ≤ hd_version h < 24 ∧ zlen id < 256 ∧
    Forall is_byte id ∧ zlen l ≤ room ∧ l = plain_encoding (hd_version h) id.
Proof.
  cbn -[plain_encoding]. destruct (hd_encryption_info h) as [id|]; [|done].
  destruct (_ && _) eqn:E; [|done]. intros [= <-]. exists id.
  rewrite !andb_true_iff, forallb_forall in E. destruct E as [[[[E1 E2] E3] E4] E5].
  split_and!; try done; try lia. apply Forall_forall. intros x Hx.
  apply E4 in Hx. unfold byteb in Hx. unfold is_byte.
  apply andb_true_iff in Hx as [?%Z.leb_le ?%Z.ltb_lt]. by split.
Qed.

Definition plain_codec_spec : HeaderCodecSpec plain_codec.
Proof.
  split.
  - intros room h l (id & _ & Hv & Hn & Hid & _ & ->)%plain_encode_inv.
    pose proof (zlen_nonneg id). unfold plain_encoding, is_byte in *.
    repeat constructor; try lia. apply Forall_app. split; [|done].
    destruct (Z.ltb_spec (zlen id) 24); repeat constructor; lia.
  - intros room h l (id & _ & Hv & Hn & _ & Hl & ->)%plain_encode_inv. split; [|done].
    rewrite plain_encoding_len. pose proof (zlen_nonneg id). destruct (_ <? _); lia.
  - intros room [v info] l r (id & Hi & Hv & Hn & _ & _ & ->)%plain_encode_inv.
    cbn in Hi, Hv. subst info. pose proof (zlen_nonneg id). pose proof (zlen_nonneg r).
    rewrite plain_encoding_len. unfold plain_encoding. cbn [hd_version].
    destruct (Z.ltb_spec (zlen id) 24) as [Hs|Hs]; cbn -[Z.leb Z.ltb Z.eqb plain_id Z.add zlen].
    + change ((130 =? 130) && (130 =? 130) && (0 =? 0)) with true. cbn [negb].
      destruct (Z.leb_spec 96 (96 + zlen id)); [|lia].
      destruct (Z.ltb_spec (96 + zlen id) 120); [|lia]. cbn [andb].
      replace (96 + zlen id - 96) with (zlen id) by lia. unfold plain_id.
      rewrite zlen_app. destruct (Z.leb_spec (zlen id) (zlen id + zlen r)); [|lia].
      by rewrite slice_prefix.
    + change ((130 =? 130) && (130 =? 130) && (0 =? 0)) with true.
      change ((96 <=? 120) && (120 <? 120)) with false. change (120 =? 120) with true. cbn [negb].
      destruct (Z.leb_spec 0 (zlen id)); [|lia]. unfold plain_id.
      rewrite zlen_app. destruct (Z.leb_spec (zlen id) (zlen id + zlen r)); [|lia].
      by rewrite slice_prefix.
  - intros l h n. do 5 (destruct l as [|? l]; [done|]).
    cbn -[Z.leb Z.ltb Z.eqb Z.add zlen]. unfold plain_id. rewrite !zlen_cons.
    pose proof (zlen_nonneg l).
    destruct (negb _); [done|]. destruct ((96 <=? _) && _) eqn:E.
    + destruct (Z.leb_spec (z3 - 96) (zlen l)); [|done]. intros [= _ <-]. lia.
    + destruct (z3 =? 120); [|done]. destruct l as [|m l]; [done|].
      rewrite zlen_cons in *. pose proof (zlen_nonneg l).
      destruct (Z.leb_spec 0 m); [|done].
      destruct (Z.leb_spec m (zlen l)); [|done]. intros [= _ <-]. lia.
  - intros l h n r. do 5 (destruct l as [|? l]; [done|]).
    cbn -[Z.leb Z.ltb Z.eqb Z.add zlen plain_id].
    destruct (negb _); [done|]. destruct ((96 <=? _) && _) eqn:E.
    + apply plain_id_mono. lia.
    + destruct (z3 =? 120); [|done]. destruct l as [|m l]; [done|]. cbn [app].
      destruct (Z.leb_spec 0 m); [|done]. by apply plain_id_mono.
Qed.

Definition plain_codec_canonical : CanonicalCodec plain_codec.
Proof.
  split. intros room v id l Hv Hid (id' & Hi & _ & _ & _ & _ & ->)%plain_encode_inv.
  injection Hi as <-. apply plain_encoding_len.
Qed.
