(* ===== verification/SaeadReference.v ===== *)
(** A concrete SAEAD build for the witnesses: its configuration, a header codec for
    SAEAD headers with random session ids, and a provisioned device. *)
From S2P Require Import Prelude Zephyr Config Platform Buf Block Header Node.
From S2P Require Import Cert SaeadSession Saead SaeadSpec Reference.

Definition saead_config : Config := {|
  CONFIG_POUCH_BLOCK_SIZE := 32;
  CONFIG_POUCH_ENCRYPTION_SAEAD := true;
  CONFIG_POUCH_EVENT_QUEUE_DEPTH := 4;
  CONFIG_POUCH_SERVER_CERT_MAX_LEN := 64;
  CONFIG_POUCH_VALIDATE_SERVER_CERT := true;
  CONFIG_POUCH_SERVER_CERT_CN := [112];
  CONFIG_POUCH_ENCRYPTION_CHACHA20_POLY1305 := true;
  CONFIG_BIG_ENDIAN := false;
  size_bits := 32;
|}.

Definition saead_config_ok : ConfigOk saead_config.
Proof. by split. Qed.

Definition saead_config_build : SaeadBuild saead_config := eq_refl.

(** ** A header codec *)

Definition role_code (r : role) : Z := match r with device => 0 | server => 1 end.
Definition algorithm_code (a : algorithm) : Z := match a with chacha20_poly1305 => 1 | aes_gcm => 2 end.

Definition code_role (x : Z) : option role :=
  if x =? 0 then Some device else if x =? 1 then Some server else None.
Definition code_algorithm (x : Z) : option algorithm :=
  if x =? 1 then Some chacha20_poly1305 else if x =? 2 then Some aes_gcm else None.

Definition saead_bytes (v r a log : Z) (random ref pid : list Z) : list Z :=
  [v; r; a; log] ++ random ++ ref ++ pid.

Definition saead_parse (l : list Z) : option (pouch_header * Z) :=
  match l with
  | v :: r :: a :: log :: rest =>
      match code_role r, code_algorithm a, slice 22 2 rest with
      | Some r, Some a, [hi; lo] =>
          Some (mk_header v (saead_info (mk_session_info (session_id_random (slice 0 16 rest)) r a log
                  (slice 16 6 rest)) (hi * 256 + lo)), 28)
      | _, _, _ => None
      end
  | _ => None
  end.

Definition saead_codec : HeaderCodec := {|
  cbor_encode_pouch_header room h :=
    match hd_encryption_info h with
    | saead_info (mk_session_info (session_id_random random) r a log ref) pid =>
        if bool_decide (Forall is_byte ([hd_version h; log] ++ random ++ ref) ∧ zlen random = 16 ∧
             zlen ref = 6 ∧ 0 ≤ pid < 65536 ∧ 28 ≤ room)
        then Some (saead_bytes (hd_version h) (role_code r) (algorithm_code a) log random ref
               [pid / 256; pid mod 256])
        else None
    | _ => None
    end;
  cbor_decode_pouch_header := saead_parse;
|}.

Lemma saead_encode_inv room h l :
  cbor_encode_pouch_header (HeaderCodec := saead_codec) room h = Some l →
  ∃ random r a log ref pid,
    h = mk_header (hd_version h) (saead_info (mk_session_info (session_id_random random) r a log ref) pid) ∧
    l = saead_bytes (hd_version h) (role_code r) (algorithm_code a) log random ref
          [pid / 256; pid mod 256] ∧
    Forall is_byte ([hd_version h; log] ++ random ++ ref) ∧ zlen random = 16 ∧ zlen ref = 6 ∧
    0 ≤ pid < 65536 ∧ 28 ≤ room.
Proof.
  destruct h as [v [id|[[random|tag seq] r a log ref] pid]]; try done.
  cbn [cbor_encode_pouch_header saead_codec hd_encryption_info hd_version].
  case_bool_decide as Hd; [|done]. intros [= <-].
  exists random, r, a, log, ref, pid. destruct Hd as (?&?&?&?&?). split_and!; done || lia.
Qed.

Lemma saead_bytes_len v r a log random ref pid :
  zlen random = 16 → zlen ref = 6 → zlen pid = 2 → zlen (saead_bytes v r a log random ref pid) = 28.
Proof. intros. unfold saead_bytes. rewrite !zlen_app, !zlen_cons, zlen_nil. lia. Qed.

Lemma saead_parse_more l h n x : saead_parse l = Some (h, n) → saead_parse (l ++ x) = Some (h, n).
Proof.
  do 4 (destruct l as [|? l]; [done|]). cbn [saead_parse app].
  destruct (code_role _); [|done]. destruct (code_algorithm _); [|done].
  destruct (slice 22 2 l) as [|hi [|lo [|? ?]]] eqn:Hs; try done. intros [= <- <-].
  assert (24 ≤ zlen l) as Hl.
  { pose proof (f_equal length Hs) as Hlen. unfold slice in Hlen. rewrite length_take, length_drop in Hlen.
    cbn in Hlen. unfold zlen. lia. }
  by rewrite !slice_app_l, Hs by lia.
Qed.

Definition saead_codec_spec : HeaderCodecSpec saead_codec.
Proof.
  split.
  - intros room h l (random & r & a & log & ref & pid & _ & -> & Hb & _ & _ & Hp & _)%saead_encode_inv.
    rewrite !Forall_app, !Forall_cons_iff in Hb. destruct Hb as ((? & ? & _) & ? & ?).
    unfold saead_bytes. rewrite !Forall_app, !Forall_cons_iff. unfold is_byte in *.
    assert (0 ≤ pid / 256 < 256 ∧ 0 ≤ pid mod 256 < 256) as [? ?].
    { split; [split; [apply Z.div_pos|apply Z.div_lt_upper_bound]|apply Z.mod_pos_bound]; lia. }
    destruct r, a; cbn; split_and!; done || lia.
  - intros room h l (random & r & a & log & ref & pid & _ & -> & _ & Hr & Hf & _ & Hroom)%saead_encode_inv.
    rewrite saead_bytes_len by done. lia.
  - intros room h l x (random & r & a & log & ref & pid & Hh & -> & _ & Hr & Hf & Hp & _)%saead_encode_inv.
    apply saead_parse_more. rewrite saead_bytes_len by done. rewrite Hh at 2.
    unfold saead_bytes. cbn [app saead_parse cbor_decode_pouch_header].
    assert (code_role (role_code r) = Some r) as -> by by destruct r.
    assert (code_algorithm (algorithm_code a) = Some a) as -> by by destruct a.
    assert (slice 0 16 (random ++ ref ++ [pid / 256; pid mod 256]) = random) as ->.
    { rewrite <- Hr. apply slice_prefix. }
    assert (slice 16 6 (random ++ ref ++ [pid / 256; pid mod 256]) = ref) as ->.
    { rewrite <- Hr, <- Hf, slice_shift by lia. apply slice_prefix. }
    assert (slice 22 2 (random ++ ref ++ [pid / 256; pid mod 256]) = [pid / 256; pid mod 256]) as ->.
    { rewrite slice_app_r, slice_app_r by lia. rewrite Hr, Hf. done. }
    pose proof (Z.div_mod pid 256). do 4 f_equal. lia.
  - intros l h n. cbn [cbor_decode_pouch_header saead_codec].
    do 4 (destruct l as [|? l]; [done|]). cbn [saead_parse].
    destruct (code_role _); [|done]. destruct (code_algorithm _); [|done].
    destruct (slice 22 2 l) as [|hi [|lo [|? ?]]] eqn:Hs; try done. intros [= _ <-].
    pose proof (f_equal length Hs) as Hlen. unfold slice in Hlen. rewrite length_take, length_drop in Hlen.
    rewrite !zlen_cons. cbn in Hlen. unfold zlen. lia.
  - intros l h n x. apply saead_parse_more.
Qed.

(** ** A provisioned device *)

Section device.
#[local] Existing Instances saead_config saead_config_ok zephyr_ref zephyr_ref_spec malloc_always
  psa_toy psa_toy_spec mbedtls_toy mbedtls_toy_spec base64_ref base64_ref_spec saead_config_build.

Definition zero_session : session :=
  mk_session (mk_id SESSION_ID_TYPE_SEQUENTIAL POUCH_ROLE_DEVICE (replicate 16 0)) 0 PSA_ALG_GCM 0 0 0
    (replicate 16 0).

Definition sample_certs : certs :=
  mk_certs (mk_cert (Some [1; 2]) 2) (replicate 32 9) (mk_pubkey ([4; 5] ++ replicate 95 0) 2)
    (replicate 20 0) 0 None.

(** The device certificate, a server key and the private key 5 are known; no session
    was started yet. *)
Definition saead_0 : saead_st :=
  mk_saead zero_session zero_session 0 0 5 sample_certs (∅ : gmap Z psa_key, 7).

Lemma saead_0_ok : saead_ok saead_0.
Proof. by repeat split. Qed.
End device.
