(* ===== verification/Entry.v ===== *)
(** Entries: [src/entry.c].

    The uplink half packs entries (path, content type, data) into a shared entry
    block; the downlink half takes a received block apart and calls the
    application's handlers. *)
From S2P Require Import Prelude Zephyr Config Buf Block Header Node CryptoNone Reference.

Definition ENTRY_HEADER_OVERHEAD : Z := 5.

(** [struct pouch_entry]. A C string is modelled by its bytes before the
    terminator; [pe_data] is the caller's memory, of which [pe_data_len] bytes
    are the data. *)
Record pouch_entry := mk_entry {
  pe_path : list Z;
  pe_content_type : Z;
  pe_data_len : Z;
  pe_data : list Z;
}.

Definition strlen (s : list Z) : Z := zlen s.

Section entry.
Context `{Cfg : Config} `{Zk : Zephyr} `{Mal : Malloc} `{Cr : Crypto} `{Hnd : Handlers}.

(** *** Downlink *)

Definition downlink_start (stream_id : Z) (path : list Z) (content_type : Z) : M node unit :=
  for_each pouch_downlink_handlers (λ h, call (start_cb h stream_id path content_type)).

Definition downlink_data (stream_id : Z) (data : option dptr) (len : Z) (is_last : bool)
    : M node unit :=
  for_each pouch_downlink_handlers (λ h,
    match data with
    | Some a =>
        d ← on_mem (load_bytes a len); call (data_cb h stream_id (Some d) len is_last)
    | None => call (data_cb h stream_id None len is_last)
    end).

(** [memcpy] of the path into a local array of 256 bytes: [path_len] is a
    byte, so it fits; a null source is undefined behaviour. *)
Definition copy_path (path : option dptr) (path_len : Z) : M node (list Z) :=
  match path with
  | Some a => on_mem (load_bytes a path_len)
  | None => ub
  end.

Fixpoint pouch_downlink_entries_push (fuel : nat) (v : pouch_bufview) : M node unit :=
  match fuel with
  | O => nofuel
  | S fuel =>
      avail ← on_mem (pouch_bufview_available v);
      if avail =? 0 then mret tt else
      '(data_len, v) ← on_mem (pouch_bufview_read_be16 v);
      '(content_type, v) ← on_mem (pouch_bufview_read_be16 v);
      '(path_len, v) ← on_mem (pouch_bufview_read_byte v);
      '(path, v) ← on_mem (pouch_bufview_read v path_len);
      '(data, v) ← on_mem (pouch_bufview_read v data_len);
      path_null_term ← copy_path path path_len;
      downlink_start 0 path_null_term content_type;;
      downlink_data 0 data data_len true;;
      pouch_downlink_entries_push fuel v
  end.

Definition pouch_downlink_stream_push (v : pouch_bufview) (stream_id : Z)
    (is_first is_last : bool) : M node unit :=
  v ← (if is_first then
         '(content_type, v) ← on_mem (pouch_bufview_read_be16 v);
         '(path_len, v) ← on_mem (pouch_bufview_read_byte v);
         '(path, v) ← on_mem (pouch_bufview_read v path_len);
         path_null_term ← copy_path path path_len;
         downlink_start stream_id path_null_term content_type;;
         mret v
       else mret v);
  avail ← on_mem (pouch_bufview_available v);
  let data_len := u16 avail in
  '(data, v) ← on_mem (pouch_bufview_read v data_len);
  downlink_data stream_id data data_len is_last.

(** The storage of the block bounds the number of entries read from it. *)
Definition pouch_downlink_block_push (pouch_buf : ptr) : M node unit :=
  let v := pouch_bufview_init pouch_buf in
  '(h, v) ← on_mem (block_decode_hdr v);
  if hdr_is_stream h
  then pouch_downlink_stream_push v (hdr_stream_id h) (hdr_is_first h) (hdr_is_last h)
  else
    b ← on_mem (deref pouch_buf);
    pouch_downlink_entries_push (S (length (buf_data b))) v.

(** *** Uplink *)

Definition write_entry (block : ptr) (entry : pouch_entry) : M mem rc :=
  let pathlen := strlen (pe_path entry) in
  space ← block_space_get block;
  if space <? usz (ENTRY_HEADER_OVERHEAD + pathlen + pe_data_len entry)
  then mret (Some ENOMEM)
  else
    a ← buf_claim block 2; store_bytes a (sys_put_be16 (u16 (pe_data_len entry)));;
    a ← buf_claim block 2; store_bytes a (sys_put_be16 (u16 (pe_content_type entry)));;
    a ← buf_claim block 1; store_bytes a [u8 pathlen];;
    buf_write block (pe_path entry) pathlen;;
    buf_write block (pe_data entry) (pe_data_len entry);;
    mret success.

(** [lock] is what [k_mutex_lock(&mut, timeout)] returns. *)
Definition pouch_uplink_entry_write (lock : rc) (path : option (list Z)) (content_type : Z)
    (data : option (list Z)) (len : Z) : M node rc :=
  match path, data with
  | Some path, Some data =>
      if len =? 0 then mret (Some EINVAL) else
      match lock with
      | Some err => mret (Some err)
      | None =>
          n ← get;
          block_is_new ←
            (match n_entry n with
             | None => b ← on_mem block_alloc; modify (set_entry b);; mret true
             | Some _ => mret false
             end);
          n ← get;
          match n_entry n with
          | None => mret (Some ENOMEM)
          | Some _ =>
              let entry := mk_entry path content_type len data in
              err ← on_mem (write_entry (n_entry n) entry);
              match err with
              | Some _ =>
                  if block_is_new : bool then mret err else
                  on_mem (block_finish (n_entry n));;
                  uplink_enqueue (n_entry n);;
                  b ← on_mem block_alloc;
                  modify (set_entry b);;
                  match b with
                  | None => mret (Some ENOMEM)
                  | Some _ => on_mem (write_entry b entry)
                  end
              | None => mret err
              end
          end
      end
  | _, _ => mret (Some EINVAL)
  end.

Definition entry_block_close (lock : rc) : M node rc :=
  match lock with
  | Some err => mret (Some err)
  | None =>
      n ← get;
      match n_entry n with
      | None => mret success
      | Some _ =>
          size ← on_mem (block_size_get (n_entry n));
          if 0 <? size then
            on_mem (block_finish (n_entry n));;
            uplink_enqueue (n_entry n);;
            modify (set_entry NULL);;
            mret success
          else mret success
      end
  end.
End entry.

(** ** Specification *)

(** An entry as the application sees it. *)
Record entry := mk_app_entry {
  e_path : list Z;
  e_content_type : Z;
  e_data : list Z;
}.

Record wf_entry (e : entry) : Prop := {
  wfe_path : Forall is_byte (e_path e) ∧ zlen (e_path e) < 256;
  wfe_type : 0 ≤ e_content_type e < 65536;
  wfe_data : Forall is_byte (e_data e) ∧ zlen (e_data e) < 65536;
}.

(** The entry that a [struct pouch_entry] describes. *)
Definition app_entry (pe : pouch_entry) : entry :=
  mk_app_entry (pe_path pe) (pe_content_type pe) (slice 0 (pe_data_len pe) (pe_data pe)).

Section entry_spec.
Context `{Cfg : Config} `{Zk : Zephyr} `{Hnd : Handlers}.

(** The encoding of an entry; see the comment "Entry format" of the source. *)
Definition entry_bytes (e : entry) : list Z :=
  sys_put_be16 (zlen (e_data e)) ++ sys_put_be16 (e_content_type e) ++
  u8 (zlen (e_path e)) :: e_path e ++ e_data e.

Definition entries_bytes (es : list entry) : list Z := concat (map entry_bytes es).

(** The callbacks that deliver an entry. *)
Definition entry_calls (e : entry) : list callback :=
  map (λ h, start_cb h 0 (e_path e) (e_content_type e)) pouch_downlink_handlers ++
  map (λ h, data_cb h 0 (Some (e_data e)) (zlen (e_data e)) true) pouch_downlink_handlers.

(** The callbacks that deliver one block of a stream: its start information
    when it is the first block, and its data. *)
Definition stream_calls (id : Z) (start : option (list Z * Z)) (d : list Z) (last : bool)
    : list callback :=
  match start with
  | Some (path, ct) => map (λ h, start_cb h id path ct) pouch_downlink_handlers
  | None => []
  end ++
  map (λ h, data_cb h id (Some d) (zlen d) last) pouch_downlink_handlers.
End entry_spec.

Section entry_facts.
Context `{COk : ConfigOk} `{ZS : ZephyrSpec} `{Mal : Malloc} `{Cr : Crypto} `{Hnd : Handlers}.
Implicit Types (n : node) (m : mem) (e : entry).

Lemma entry_bytes_zlen e :
  0 ≤ e_content_type e < 65536 → zlen (e_data e) < 65536 →
  zlen (entry_bytes e) = 5 + zlen (e_path e) + zlen (e_data e).
Proof.
  intros Hct Hd'. pose proof (zlen_nonneg (e_data e)). unfold entry_bytes.
  rewrite !zlen_app, zlen_cons, zlen_app, !be16_zlen by lia. lia.
Qed.

(** *** Writing an entry *)

Lemma wp_write_entry_fits m l b idb payload pe Q :
  heap m !! l = Some b → open_block b idb payload →
  0 ≤ pe_data_len pe ≤ zlen (pe_data pe) → 0 ≤ pe_content_type pe < 65536 →
  Forall is_byte (pe_path pe) → Forall is_byte (pe_data pe) →
  zlen payload + 5 + zlen (pe_path pe) + pe_data_len pe ≤ MAX_BLOCK_PAYLOAD_SIZE →
  (∀ b', open_block b' idb (payload ++ entry_bytes (app_entry pe)) →
     Q success (set_buf l b' m)) →
  wp (write_entry (Some l) pe) Q m.
Proof.
  intros Hl Hob Hlen Hct Hp Hd' Hfit HQ. pose proof Hob as [Hwf Hcap Hco].
  pose proof (zlen_nonneg (pe_path pe)). pose proof (zlen_nonneg payload).
  pose proof max_payload_range. pose proof (contents_zlen b Hwf) as Hn.
  rewrite Hco, zlen_app, be16_zlen, zlen_cons in Hn by lia.
  assert (zlen (slice 0 (pe_data_len pe) (pe_data pe)) = pe_data_len pe) as Hdl
    by (apply zlen_slice; lia).
  unfold write_entry, block_space_get, block_size_get, strlen. do 2 wp_step.
  eapply wp_buf_size_get; [done|]. wp_step.
  unfold MAX_PLAINTEXT_BLOCK_SIZE, BLOCK_HEADER_SIZE, ENTRY_HEADER_OVERHEAD in *.
  rewrite !usz_small by lia.
  destruct (Z.ltb_spec (3 + MAX_BLOCK_PAYLOAD_SIZE - buf_bytes b)
    (5 + zlen (pe_path pe) + pe_data_len pe)); [lia|].
  rewrite !u16_small by lia.
  eapply wp_put; [done|done|by rewrite be16_zlen by lia|lia|apply be16_bytes; lia|].
  intros b1 Ha1. pose proof (appends_bytes _ _ _ Hwf Ha1) as Hn1.
  pose proof Ha1 as [Hw1 Hc1 _]. rewrite be16_zlen in Hn1 by lia.
  eapply wp_put; [apply heap_set_buf_eq|done|by rewrite be16_zlen by lia|lia|apply be16_bytes; lia|].
  intros b2 Ha2. pose proof (appends_bytes _ _ _ Hw1 Ha2) as Hn2.
  pose proof Ha2 as [Hw2 Hc2 _]. rewrite be16_zlen in Hn2 by lia. rewrite set_buf_set_buf.
  eapply wp_put; [apply heap_set_buf_eq|done|done|lia|apply Forall_singleton, u8_range|].
  intros b3 Ha3. pose proof (appends_bytes _ _ _ Hw2 Ha3) as Hn3.
  pose proof Ha3 as [Hw3 Hc3 _]. rewrite zlen_singleton in Hn3. rewrite set_buf_set_buf.
  wp_step. eapply wp_buf_write; [apply heap_set_buf_eq|done|lia|lia|done|].
  rewrite slice_0_all. intros b4 Ha4. pose proof (appends_bytes _ _ _ Hw3 Ha4) as Hn4.
  pose proof Ha4 as [Hw4 Hc4 _]. rewrite set_buf_set_buf.
  wp_step. eapply wp_buf_write; [apply heap_set_buf_eq|done|lia|lia|done|].
  intros b5 Ha5. rewrite set_buf_set_buf. wp_step. apply HQ.
  pose proof (appends_trans _ _ _ _ _ Ha1 (appends_trans _ _ _ _ _ Ha2
    (appends_trans _ _ _ _ _ Ha3 (appends_trans _ _ _ _ _ Ha4 Ha5)))) as [Hw Hc Hfin].
  split; [done|unfold MAX_PLAINTEXT_BLOCK_SIZE, BLOCK_HEADER_SIZE; congruence|].
  rewrite Hfin, Hco. unfold entry_bytes, app_entry; cbn. rewrite Hdl.
  by rewrite <- !app_assoc.
Qed.

(** An entry that does not fit is refused and leaves everything as it was. *)
Lemma wp_write_entry_full m l b idb payload pe Q :
  heap m !! l = Some b → open_block b idb payload →
  0 ≤ pe_data_len pe → 5 + zlen (pe_path pe) + pe_data_len pe < 2 ^ 32 →
  zlen payload ≤ MAX_BLOCK_PAYLOAD_SIZE →
  MAX_BLOCK_PAYLOAD_SIZE < zlen payload + 5 + zlen (pe_path pe) + pe_data_len pe →
  Q (Some ENOMEM) m →
  wp (write_entry (Some l) pe) Q m.
Proof.
  intros Hl [Hwf Hcap Hco] Hlen Hov Hpay Hfull HQ. pose proof (zlen_nonneg (pe_path pe)).
  pose proof (zlen_nonneg payload). pose proof max_payload_range.
  pose proof (contents_zlen b Hwf) as Hn.
  rewrite Hco, zlen_app, be16_zlen, zlen_cons in Hn by lia.
  unfold write_entry, block_space_get, block_size_get, strlen. do 2 wp_step.
  eapply wp_buf_size_get; [done|]. wp_step.
  unfold MAX_PLAINTEXT_BLOCK_SIZE, BLOCK_HEADER_SIZE, ENTRY_HEADER_OVERHEAD in *.
  rewrite !usz_small by lia.
  destruct (Z.ltb_spec (3 + MAX_BLOCK_PAYLOAD_SIZE - buf_bytes b)
    (5 + zlen (pe_path pe) + pe_data_len pe)); [by wp_step|lia].
Qed.

(** *** Delivering a block *)

Lemma wp_downlink_start sid path ct Q n :
  Q tt (set_calls (n_calls n ++
    map (λ h, start_cb h sid path ct) pouch_downlink_handlers) n) →
  wp (downlink_start sid path ct) Q n.
Proof. apply wp_for_each_call. Qed.

Lemma wp_downlink_data sid a d len last Q n :
  (∀ Q', Q' d (n_mem n) → wp (load_bytes a len) Q' (n_mem n)) →
  Q tt (set_calls (n_calls n ++
    map (λ h, data_cb h sid (Some d) len last) pouch_downlink_handlers) n) →
  wp (downlink_data sid (Some a) len last) Q n.
Proof.
  unfold downlink_data. generalize pouch_downlink_handlers as hs. intros hs. revert n.
  induction hs as [|h hs IH]; intros n Hload HQ; cbn [for_each foldr].
  - wp_step. cbn [map] in HQ. by rewrite app_nil_r, set_calls_id in HQ.
  - wp_step. wp_step. apply wp_on_mem, Hload. rewrite set_mem_id. unfold call at 1. wp_step.
    apply IH; [done|]. cbn. by rewrite <- app_assoc.
Qed.

Lemma wp_copy_path a d len Q n :
  (∀ Q', Q' d (n_mem n) → wp (load_bytes a len) Q' (n_mem n)) →
  Q d n → wp (copy_path (Some a) len) Q n.
Proof. intros Hload HQ. apply wp_on_mem, Hload. by rewrite set_mem_id. Qed.

(** Reading the entries off a view delivers each of them in order, and
    nothing else changes. *)
Lemma wp_entries_push es fuel v Q n :
  Forall wf_entry es → (length es < fuel)%nat →
  view_rest (n_mem n) v (entries_bytes es) →
  Q tt (set_calls (n_calls n ++ concat (map entry_calls es)) n) →
  wp (pouch_downlink_entries_push fuel v) Q n.
Proof.
  intros Hwf. revert fuel v n. induction Hwf as [|e es He Hes IH];
    intros fuel v n Hfuel Hr HQ; (destruct fuel as [|fuel]; [cbn in Hfuel; lia|]);
    cbn [pouch_downlink_entries_push]; wp_step; apply wp_on_mem;
    (eapply wp_available; [done|]); rewrite set_mem_id.
  { change (zlen (entries_bytes []) =? 0) with true. cbv iota. wp_step. cbn in HQ. by rewrite app_nil_r, set_calls_id in HQ. }
  destruct He as [[Hpb Hpl] Hct [Hdb Hdl]].
  pose proof (zlen_nonneg (e_data e)). pose proof (zlen_nonneg (e_path e)).
  assert (entries_bytes (e :: es) = sys_put_be16 (zlen (e_data e)) ++
    sys_put_be16 (e_content_type e) ++ zlen (e_path e) :: e_path e ++ e_data e ++
    entries_bytes es) as Heq.
  { unfold entries_bytes, entry_bytes. cbn [map concat]. rewrite u8_small by lia.
    rewrite <- !app_assoc. cbn [app]. by rewrite <- app_assoc. }
  rewrite Heq in Hr |- *. rewrite zlen_app, be16_zlen by lia.
  destruct (Z.eqb_spec (2 + zlen (sys_put_be16 (e_content_type e) ++
    zlen (e_path e) :: e_path e ++ e_data e ++ entries_bytes es)) 0) as [E|_].
  { pose proof (zlen_nonneg (sys_put_be16 (e_content_type e) ++
      zlen (e_path e) :: e_path e ++ e_data e ++ entries_bytes es)). lia. }
  wp_step. apply wp_on_mem. eapply wp_read_be16; [|done|]; [lia|]. intros v1 _ Hr1.
  rewrite set_mem_id. wp_step. apply wp_on_mem. eapply wp_read_be16; [|done|]; [lia|].
  intros v2 _ Hr2. rewrite set_mem_id.
  wp_step. apply wp_on_mem. eapply wp_read_byte; [done|]. intros v3 _ Hr3. rewrite set_mem_id.
  wp_step. apply wp_on_mem. eapply wp_view_read; [done|done|]. intros a1 v4 _ Hr4 Hload1.
  rewrite set_mem_id. wp_step. apply wp_on_mem. eapply wp_view_read; [done|done|].
  intros a2 v5 _ Hr5 Hload2. rewrite set_mem_id.
  wp_step. eapply wp_copy_path; [done|]. wp_step. apply wp_downlink_start.
  wp_step. eapply wp_downlink_data; [done|].
  apply IH; [cbn in Hfuel; lia|done|]. revert HQ. cbn [map concat]. unfold entry_calls at 1.
  cbn [n_calls set_calls]. by rewrite <- !app_assoc.
Qed.

(** A block of a stream: the payload of the first one starts with the content
    type and the path. *)
Definition stream_payload (start : option (list Z * Z)) (d : list Z) : list Z :=
  match start with
  | Some (path, ct) => sys_put_be16 ct ++ u8 (zlen path) :: path ++ d
  | None => d
  end.

Definition wf_start (start : option (list Z * Z)) : Prop :=
  match start with
  | Some (path, ct) => zlen path < 256 ∧ 0 ≤ ct < 65536
  | None => True
  end.

Lemma wp_stream_push v id start d last Q n :
  wf_start start → zlen d < 65536 →
  view_rest (n_mem n) v (stream_payload start d) →
  Q tt (set_calls (n_calls n ++ stream_calls id start d last) n) →
  wp (pouch_downlink_stream_push v id (bool_decide (is_Some start)) last) Q n.
Proof.
  intros Hwf Hd' Hr HQ. unfold pouch_downlink_stream_push.
  pose proof (zlen_nonneg d).
  assert (∀ v n, view_rest (n_mem n) v d →
    Q tt (set_calls (n_calls n ++
      map (λ h, data_cb h id (Some d) (zlen d) last) pouch_downlink_handlers) n) →
    wp (avail ← on_mem (pouch_bufview_available v);
        '(data, v) ← on_mem (pouch_bufview_read v (u16 avail));
        downlink_data id data (u16 avail) last) Q n) as Htail.
  { clear v n Hr HQ. intros v n Hr HQ. wp_step. apply wp_on_mem.
    eapply wp_available; [done|]. rewrite set_mem_id, u16_small by lia.
    wp_step. apply wp_on_mem. eapply (wp_view_read _ _ d []); [by rewrite app_nil_r|done|].
    intros a v' _ _ Hload. rewrite set_mem_id. by eapply wp_downlink_data. }
  wp_step. destruct start as [[path ct]|].
  - rewrite bool_decide_true by eauto. destruct Hwf as [Hpl Hct]. cbn in Hr.
    pose proof (zlen_nonneg path). rewrite u8_small in Hr by lia.
    wp_step. apply wp_on_mem. eapply wp_read_be16; [|done|]; [lia|]. intros v1 _ Hr1.
    rewrite set_mem_id. wp_step. apply wp_on_mem. eapply wp_read_byte; [done|].
    intros v2 _ Hr2. rewrite set_mem_id. wp_step. apply wp_on_mem.
    eapply wp_view_read; [done|done|]. intros a v3 _ Hr3 Hload. rewrite set_mem_id.
    wp_step. eapply wp_copy_path; [done|]. wp_step. apply wp_downlink_start. wp_step.
    apply Htail; [done|]. revert HQ. cbn. by rewrite <- app_assoc.
  - rewrite bool_decide_false by (by intros [? ?]). wp_step. by apply Htail.
Qed.
End entry_facts.

(** ** Entry blocks, abstractly

    The abstract state of the uplink half is the list of entries of the open
    block, if there is one. Writing an entry may emit the open block. *)
Section entry_refinement.
Context `{COk : ConfigOk} `{ZS : ZephyrSpec} `{Mal : Malloc} `{Cr : Crypto} `{Hnd : Handlers}.
Implicit Types (n : node) (e : entry) (es : list entry).

Definition entry_size e : Z := ENTRY_HEADER_OVERHEAD + zlen (e_path e) + zlen (e_data e).

Definition fits es e : bool :=
  zlen (entries_bytes es) + entry_size e <=? MAX_BLOCK_PAYLOAD_SIZE.

(** What is returned, the open block after the write, and the block emitted;
    [alloc] tells whether a block can be allocated. *)
Definition spec_entry_write (alloc : bool) (open : option (list entry)) e
    : rc * option (list entry) * option (list entry) :=
  match open with
  | Some es =>
      if fits es e then (success, Some (es ++ [e]), None)
      else if alloc then
        if fits [] e then (success, Some [e], Some es) else (Some ENOMEM, Some [], Some es)
      else (Some ENOMEM, None, Some es)
  | None =>
      if alloc then
        if fits [] e then (success, Some [e], None) else (Some ENOMEM, Some [], None)
      else (Some ENOMEM, None, None)
  end.

Definition entry_idb : Z := block_id_byte BLOCK_ID_ENTRY true true.

(** The open block of the state holds the entries [open]. *)
Definition entry_rep n (open : option (list entry)) : Prop :=
  match open with
  | None => n_entry n = NULL
  | Some es =>
      zlen (entries_bytes es) ≤ MAX_BLOCK_PAYLOAD_SIZE ∧
      ∃ l b, n_entry n = Some l ∧ heap (n_mem n) !! l = Some b ∧
        open_block b entry_idb (entries_bytes es)
  end.

(** Buffer [l] is a finished block with the entries [es]. *)
Definition finished_entries (m : mem) (l : nat) (es : list entry) : Prop :=
  zlen (entries_bytes es) ≤ MAX_BLOCK_PAYLOAD_SIZE ∧
  ∃ b, heap m !! l = Some b ∧ contents b = block_bytes BLOCK_ID_ENTRY true true (entries_bytes es).

(** What the operations on the entry block may change: the heap, the entry
    block, the queue of blocks to process and the submitted work; buffers that
    are not the open block keep their contents. *)
Record entry_frame n n' : Prop := {
  ef_streams : n_streams n' = n_streams n;
  ef_downlink : n_downlink n' = n_downlink n;
  ef_crypto : n_crypto n' = n_crypto n;
  ef_events : n_events n' = n_events n;
  ef_calls : n_calls n' = n_calls n;
  ef_uplink : ∃ q, n_uplink n' = up_set_processing q (n_uplink n);
  ef_heap : ∀ l b, heap (n_mem n) !! l = Some b → n_entry n ≠ Some l →
    heap (n_mem n') !! l = Some b;
}.

(** The emitted block, if any, is the last one of the queue. *)
Definition entry_emits n n' (emitted : option (list entry)) : Prop :=
  match emitted with
  | None => slist_items (up_processing (n_uplink n')) = slist_items (up_processing (n_uplink n))
  | Some es => ∃ l,
      slist_items (up_processing (n_uplink n')) = slist_items (up_processing (n_uplink n)) ++ [l] ∧
      finished_entries (n_mem n') l es ∧ work_process ∈ n_work n'
  end.

Lemma entries_bytes_snoc es e : entries_bytes (es ++ [e]) = entries_bytes es ++ entry_bytes e.
Proof. unfold entries_bytes. rewrite map_app, concat_app. cbn. by rewrite app_nil_r. Qed.

(** Closing the open block and sending it off. *)
Lemma wp_flush {A} n lk es (l : nat) b (k : M node A) Q :
  node_inv n lk → n_entry n = Some l → heap (n_mem n) !! l = Some b →
  open_block b entry_idb (entries_bytes es) → zlen (entries_bytes es) ≤ MAX_BLOCK_PAYLOAD_SIZE →
  (∀ b' q, wf_buf b' →
     contents b' = block_bytes BLOCK_ID_ENTRY true true (entries_bytes es) →
     slist_items q = slist_items (up_processing (n_uplink n)) ++ [l] →
     wp k Q (set_work (add_work work_process (n_work n))
             (set_uplink (up_set_processing q (n_uplink n))
               (set_mem (set_buf l b' (n_mem n)) n)))) →
  wp (on_mem (block_finish (Some l));; uplink_enqueue (Some l);; k) Q n.
Proof.
  intros Hinv He Hl Hob Hsz HQ.
  eapply (wp_finish_enqueue n lk (stream_bufs (n_streams n) ++ downlink_owned (n_downlink n) ++ lk)
    l b); [done| |done|done|done|by vm_compute|done].
  unfold owned. rewrite He. cbn. solve_Permutation.
Qed.

Lemma uplink_eta (u : pouch_uplink) : u = up_set_processing (up_processing u) u.
Proof. by destruct u. Qed.

Lemma entries_size_nonneg es : 0 ≤ zlen (entries_bytes es).
Proof. apply zlen_nonneg. Qed.

(** Writing to the open block. *)
Lemma wp_write_open n l b es pe Q :
  heap (n_mem n) !! l = Some b →
  open_block b entry_idb (entries_bytes es) → zlen (entries_bytes es) ≤ MAX_BLOCK_PAYLOAD_SIZE →
  0 ≤ pe_data_len pe ≤ zlen (pe_data pe) → 0 ≤ pe_content_type pe < 65536 →
  Forall is_byte (pe_path pe) → Forall is_byte (pe_data pe) →
  5 + zlen (pe_path pe) + pe_data_len pe < 2 ^ 32 →
  (fits es (app_entry pe) = true → ∀ b',
     open_block b' entry_idb (entries_bytes (es ++ [app_entry pe])) →
     zlen (entries_bytes (es ++ [app_entry pe])) ≤ MAX_BLOCK_PAYLOAD_SIZE →
     Q success (set_mem (set_buf l b' (n_mem n)) n)) →
  (fits es (app_entry pe) = false → Q (Some ENOMEM) n) →
  wp (on_mem (write_entry (Some l) pe)) Q n.
Proof.
  intros Hl Hob Hsz Hlen Hct Hp Hd' Hov HS HF. apply wp_on_mem.
  pose proof max_payload_range.
  assert (zlen (e_data (app_entry pe)) = pe_data_len pe) as Hdl by (apply zlen_slice; lia).
  destruct (fits es (app_entry pe)) eqn:E; unfold fits, entry_size in E;
    rewrite Hdl in E; unfold ENTRY_HEADER_OVERHEAD in E; cbn [e_path app_entry] in E.
  - apply Z.leb_le in E. pose proof (zlen_nonneg (entries_bytes es)).
    pose proof (zlen_nonneg (pe_path pe)).
    eapply wp_write_entry_fits; [done|done|done|done|done|done|lia|].
    intros b' Hb'. rewrite <- entries_bytes_snoc in Hb'. apply HS; [done|done|].
    rewrite entries_bytes_snoc, zlen_app, entry_bytes_zlen, Hdl
      by (rewrite ?Hdl; cbn [e_content_type app_entry]; lia). cbn [e_path app_entry]. lia.
  - apply Z.leb_gt in E.
    eapply wp_write_entry_full; [done|done|lia|lia|lia|lia|]. rewrite set_mem_id. by apply HF.
Qed.

Definition can_alloc n : bool :=
  bool_decide (is_Some (malloc_bytes (mallocs (n_mem n)) MAX_PLAINTEXT_BLOCK_SIZE)).

(** A new entry block, or none; the old one has been given away. *)
Lemma wp_new_entry_block {A} n lk (k : ptr → M node A) Q :
  node_inv (set_entry NULL n) lk →
  (can_alloc n = true → ∀ b, open_block b entry_idb [] →
     let n' := set_entry (Some (mallocs (n_mem n))) (set_mem (new_buf b (n_mem n)) n) in
     node_inv n' lk → wp (k (Some (mallocs (n_mem n)))) Q n') →
  (can_alloc n = false →
     let n' := set_entry NULL (set_mem (no_buf (n_mem n)) n) in
     node_inv n' lk → wp (k NULL) Q n') →
  wp (b ← on_mem block_alloc; modify (set_entry b);; k b) Q n.
Proof.
  intros Hinv HS HF. wp_step. apply wp_on_mem. apply wp_block_alloc.
  - intros b Halloc Hb. do 2 wp_step. apply HS; [by apply bool_decide_true|done|].
    unfold node_inv in *. cbn [n_mem set_entry set_mem].
    eapply heap_owns_proper; [|apply (owns_new_buf _ _ b Hinv), Hb].
    unfold owned. cbn. solve_Permutation.
  - intros Halloc. do 2 wp_step.
    apply HF; [apply bool_decide_false; rewrite Halloc; by intros [? ?]|].
    by apply owns_no_buf.
Qed.

(** Locations in use are not the next fresh one. *)
Lemma live_not_fresh n lk l b :
  node_inv n lk → heap (n_mem n) !! l = Some b → l ≠ mallocs (n_mem n).
Proof.
  intros [_ Hd _ Hf _] Hl ->. assert (mallocs (n_mem n) < mallocs (n_mem n))%nat; [|lia].
  apply Hf, Hd. eauto.
Qed.

Lemma owned_entry_live n lk l :
  node_inv n lk → n_entry n = Some l → l ∈ owned n ++ lk.
Proof. intros _ He. unfold owned. rewrite He. set_solver. Qed.

Lemma node_inv_set_buf n lk l b b' :
  node_inv n lk → heap (n_mem n) !! l = Some b → wf_buf b' →
  node_inv (set_mem (set_buf l b' (n_mem n)) n) lk.
Proof.
  intros Hinv Hl Hb. apply owns_set_buf; [done| |done].
  apply (owns_dom _ _ Hinv). eauto.
Qed.

(** The implementation refines [spec_entry_write] on every branch. *)
Lemma entry_write_new n lk pe Q :
  node_inv (set_entry NULL n) lk →
  0 ≤ pe_data_len pe ≤ zlen (pe_data pe) → 0 ≤ pe_content_type pe < 65536 →
  Forall is_byte (pe_path pe) → Forall is_byte (pe_data pe) →
  5 + zlen (pe_path pe) + pe_data_len pe < 2 ^ 32 →
  (∀ n' r open', spec_entry_write (can_alloc n) None (app_entry pe) = (r, open', None) →
     entry_rep n' open' → entry_frame n n' →
     (∀ l b, heap (n_mem n) !! l = Some b → heap (n_mem n') !! l = Some b) →
     n_uplink n' = n_uplink n → n_work n' = n_work n → node_inv n' lk → Q r n') →
  wp (b ← on_mem block_alloc; modify (set_entry b);;
      match b with
      | None => mret (Some ENOMEM)
      | Some _ => on_mem (write_entry b pe)
      end) Q n.
Proof.
  intros Hinv Hlen Hct Hp Hd' Hov HQ. pose proof max_payload_range.
  assert (∀ l b, heap (n_mem n) !! l = Some b → l ≠ mallocs (n_mem n)) as Hfresh
    by (intros l b; apply (live_not_fresh (set_entry NULL n) lk); done).
  apply (wp_new_entry_block n lk); [done| |].
  - intros Ha b Hb n1 Hinv1.
    assert (heap (n_mem n1) !! mallocs (n_mem n) = Some b) as Hl1 by apply heap_new_buf_eq.
    assert (∀ l c, heap (n_mem n) !! l = Some c → heap (n_mem n1) !! l = Some c) as Hh1.
    { intros l c Hl. unfold n1; cbn [n_mem set_entry set_mem].
      rewrite heap_new_buf_ne; [done|by eapply Hfresh]. }
    eapply (wp_write_open n1 (mallocs (n_mem n)) b []); try done; [change (0 ≤ MAX_BLOCK_PAYLOAD_SIZE); lia| |].
    + intros Hf b' Hb' Hsz'.
      assert (∀ l c, heap (n_mem n) !! l = Some c →
        heap (set_buf (mallocs (n_mem n)) b' (n_mem n1)) !! l = Some c) as Hh2.
      { intros l c Hl. rewrite heap_set_buf_ne; [by apply Hh1|].
        intros Heq. by apply (Hfresh l c Hl). }
      eapply HQ; try done.
      * unfold spec_entry_write. by rewrite Ha, Hf.
      * split; [exact Hsz'|]. do 2 eexists. split_and!; [done|apply heap_set_buf_eq|done].
      * split; try done; [exists (up_processing (n_uplink n)); apply uplink_eta|..]; auto.
      * by eapply node_inv_set_buf; [| |apply ob_wf in Hb'].
    + intros Hf. eapply HQ; try done.
      * unfold spec_entry_write. by rewrite Ha, Hf.
      * split; [change (0 ≤ MAX_BLOCK_PAYLOAD_SIZE); lia|]. by do 2 eexists.
      * split; try done; [exists (up_processing (n_uplink n)); apply uplink_eta|..]; auto.
  - intros Ha n1 Hinv1. wp_step. eapply HQ; try done.
    + unfold spec_entry_write. by rewrite Ha.
    + done.
    + split; try done; exists (up_processing (n_uplink n)); apply uplink_eta.
Qed.

Lemma entry_frame_trans n1 n2 n3 :
  entry_frame n1 n2 → entry_frame n2 n3 →
  (∀ l b, heap (n_mem n1) !! l = Some b → n_entry n1 ≠ Some l → n_entry n2 ≠ Some l) →
  entry_frame n1 n3.
Proof.
  intros [? ? ? ? ? [q1 Hq1] ?] [? ? ? ? ? [q2 Hq2] ?] Hne.
  split; try congruence; [|eauto]. exists q2. rewrite Hq2, Hq1. done.
Qed.

(** Writing an entry refines [spec_entry_write], on every branch. *)
Lemma wp_entry_write n lk open path ct data len :
  node_inv n lk → entry_rep n open →
  0 < len ≤ zlen data → 0 ≤ ct < 65536 → Forall is_byte path → Forall is_byte data →
  5 + zlen path + len < 2 ^ 32 →
  wp (pouch_uplink_entry_write success (Some path) ct (Some data) len)
    (λ r n', ∃ open' emitted,
       spec_entry_write (can_alloc n) open (mk_app_entry path ct (slice 0 len data))
         = (r, open', emitted) ∧
       entry_rep n' open' ∧ entry_emits n n' emitted ∧ entry_frame n n' ∧ node_inv n' lk) n.
Proof.
  intros Hinv Hrep Hlen Hct Hp Hd Hov. unfold pouch_uplink_entry_write.
  destruct (Z.eqb_spec len 0) as [|_]; [lia|].
  set (pe := mk_entry path ct len data).
  change (mk_app_entry path ct (slice 0 len data)) with (app_entry pe).
  destruct open as [es|]; cbn [entry_rep] in Hrep.
  - destruct Hrep as (Hsz & l & b & He & Hl & Hob).
    wp_step. wp_step. wp_step. rewrite He. do 3 wp_step. rewrite He.
    wp_step. eapply (wp_write_open n l b es pe); try done; [cbn; lia| |].
    + intros Hf b' Hb' Hsz'. wp_step. exists (Some (es ++ [app_entry pe])), None.
      unfold spec_entry_write. rewrite Hf. split_and!; [done| |done| |].
      * split; [done|]. exists l, b'. split_and!; [done|apply heap_set_buf_eq|done].
      * split; try done; [exists (up_processing (n_uplink n)); apply uplink_eta|].
        intros k c Hk Hne. cbn. rewrite lookup_insert_ne by congruence. done.
      * by eapply node_inv_set_buf; [| |apply ob_wf in Hb'].
    + intros Hf. cbv iota. eapply (wp_flush n lk es l b); try done. intros b' q Hwf' Hco Hq.
      eapply (entry_write_new _ lk pe); try done; [|cbn; lia|].
      * unfold node_inv. eapply heap_owns_proper; [|by apply (node_inv_set_buf n lk l b b')].
        unfold owned, uplink_owned. cbn. rewrite Hq, He. cbn. solve_Permutation.
      * intros n' r open' Hspec Hrep' Hfr Hheap Hup Hwork Hinv'.
        exists open', (Some es). unfold spec_entry_write in Hspec |- *. rewrite Hf.
        split_and!; [|done| | |done].
        -- unfold can_alloc in *. cbn in Hspec. by repeat case_match; simplify_eq.
        -- exists l. rewrite Hup, Hwork. split_and!; [done| |apply add_work_in].
           split; [done|]. exists b'. split; [|done]. apply Hheap, heap_set_buf_eq.
        -- destruct Hfr as [? ? ? ? ? _ _]. split; try done; [by exists q|].
           intros k c Hk Hne. apply Hheap. cbn. rewrite lookup_insert_ne by congruence. done.
  - apply (wp_same _ (b ← on_mem block_alloc; modify (set_entry b);;
      match b with
      | None => mret (Some ENOMEM)
      | Some _ => on_mem (write_entry b pe)
      end)).
    { cbv [mbind M_bind mret M_ret get modify]. rewrite Hrep.
      destruct (on_mem block_alloc n) as [[k|] n1| |]; cbn; try done.
      by destruct (on_mem _ _) as [[?|] ?| |]. }
    eapply (entry_write_new _ lk pe); try done; [|cbn; lia|].
    + unfold node_inv in *. destruct n; cbn in *. by subst.
    + intros n' r open' Hspec Hrep' Hfr Hheap Hup Hwork Hinv'. exists open', None.
      split_and!; [done|done| |done|done]. unfold entry_emits. by rewrite Hup.
Qed.
End entry_refinement.

(** ** Delivery, whatever the block contains *)
Section entry_delivery.
Context `{COk : ConfigOk} `{ZS : ZephyrSpec} `{Mal : Malloc} `{Cr : Crypto} `{Hnd : Handlers}.
Implicit Types (n : node) (b : pouch_buf).

(** Deliveries change nothing but the callbacks made. *)
Definition same_but_calls n n' : Prop := ∃ cs, n' = set_calls cs n.

Lemma wlp_for_each hs (f : nat → M node unit) n :
  (∀ h cs, wlp (f h) (λ _, same_but_calls n) (set_calls cs n)) →
  wlp (for_each hs f) (λ _, same_but_calls n) n.
Proof.
  intros Hf. assert (∀ cs, wlp (for_each hs f) (λ _, same_but_calls n) (set_calls cs n)) as Hg.
  { induction hs as [|h hs IH]; intros cs; cbn [for_each foldr]; wlp_step; [by exists cs|].
    eapply wlp_mono; [apply Hf|]. intros [] n' [cs' ->]. apply IH. }
  specialize (Hg (n_calls n)). by rewrite set_calls_id in Hg.
Qed.

Lemma wlp_downlink_start sid path ct n :
  wlp (downlink_start sid path ct) (λ _, same_but_calls n) n.
Proof. apply wlp_for_each. intros h cs. by eexists. Qed.

Lemma wlp_downlink_data sid r len last n l b off :
  heap (n_mem n) !! l = Some b → r = None ∨ r = Some (Some l, off) →
  wlp (downlink_data sid r len last) (λ _, same_but_calls n) n.
Proof.
  intros Hl Hr. apply wlp_for_each. intros h cs. destruct Hr as [->| ->].
  - by eexists.
  - wlp_step. apply wlp_on_mem. eapply wlp_load; [done|]. intros d. by eexists.
Qed.

Lemma wlp_copy_path r len n l b off Q :
  heap (n_mem n) !! l = Some b → r = None ∨ r = Some (Some l, off) →
  (∀ d, Q d n) → wlp (copy_path r len) Q n.
Proof.
  intros Hl [->| ->] HQ; [done|]. apply wlp_on_mem. eapply wlp_load; [done|].
  intros d. rewrite set_mem_id. apply HQ.
Qed.

Lemma wlp_entries_push fuel off n l b :
  heap (n_mem n) !! l = Some b → wf_buf b → zlen (buf_data b) < 2 ^ 31 → 0 ≤ off →
  (0 < fuel)%nat → zlen (buf_data b) - off < Z.of_nat fuel →
  wlp (pouch_downlink_entries_push fuel (mk_view (Some l) off)) (λ _, same_but_calls n) n.
Proof.
  revert off n. induction fuel as [|fuel IH]; intros off n Hl Hwf Hc Ho Hp Hf; [lia|].
  cbn [pouch_downlink_entries_push]. wlp_step. apply wlp_on_mem.
  eapply wlp_available; [done|]. intros avail. rewrite set_mem_id.
  destruct (avail =? 0). { wlp_step. exists (n_calls n). by rewrite set_calls_id. }
  wlp_step. apply wlp_on_mem. eapply wlp_read_be16; [done..|]. intros dl Hdl H2.
  rewrite set_mem_id. wlp_step. apply wlp_on_mem. eapply wlp_read_be16; [done|done|done|lia|].
  intros ct Hct H4. rewrite set_mem_id. wlp_step. apply wlp_on_mem.
  eapply wlp_read_byte; [done|done|done|lia|]. intros pl Hpl H5. rewrite set_mem_id.
  wlp_step. apply wlp_on_mem. eapply wlp_view_read; [done|done|lia|lia|].
  intros r1 off1 Ho1 Hr1. rewrite set_mem_id. wlp_step. apply wlp_on_mem.
  eapply wlp_view_read; [done|done|lia|lia|]. intros r2 off2 Ho2 Hr2. rewrite set_mem_id.
  wlp_step. eapply wlp_copy_path; [done|done|]. intros path.
  wlp_step. eapply wlp_mono; [apply wlp_downlink_start|]. intros [] n1 [cs1 ->].
  wlp_step. eapply wlp_mono; [by eapply (wlp_downlink_data _ _ _ _ (set_calls cs1 n))|].
  intros [] n2 [cs2 ->]. cbn [Nat.add].
  eapply wlp_mono; [apply IH; cbn; done || lia|]. intros [] n3 [cs3 ->]. by exists cs3.
Qed.

Lemma wlp_stream_push id first last off n l b :
  heap (n_mem n) !! l = Some b → wf_buf b → zlen (buf_data b) < 2 ^ 31 →
  0 ≤ off ≤ zlen (buf_data b) →
  wlp (pouch_downlink_stream_push (mk_view (Some l) off) id first last)
    (λ _, same_but_calls n) n.
Proof.
  intros Hl Hwf Hc Ho. unfold pouch_downlink_stream_push.
  assert (∀ off cs, 0 ≤ off ≤ zlen (buf_data b) + 256 →
    wlp (avail ← on_mem (pouch_bufview_available (mk_view (Some l) off));
         '(data, v) ← on_mem (pouch_bufview_read (mk_view (Some l) off) (u16 avail));
         downlink_data id data (u16 avail) last)
      (λ _, same_but_calls n) (set_calls cs n)) as Htail.
  { intros off' cs Ho'. wlp_step. apply wlp_on_mem. eapply wlp_available; [done|].
    intros avail. rewrite set_mem_id. wlp_step. apply wlp_on_mem.
    eapply wlp_view_read; [done|done|lia|apply u16_range|]. intros r off1 _ Hr.
    rewrite set_mem_id. eapply wlp_mono; [by eapply wlp_downlink_data|].
    intros [] n1 [cs1 ->]. by exists cs1. }
  wlp_step. destruct first.
  - wlp_step. apply wlp_on_mem. eapply wlp_read_be16; [done|done|done|lia|].
    intros ct Hct H2. rewrite set_mem_id. wlp_step. apply wlp_on_mem.
    eapply wlp_read_byte; [done|done|done|lia|]. intros pl Hpl H3. rewrite set_mem_id.
    wlp_step. apply wlp_on_mem. eapply wlp_view_read; [done|done|lia|lia|].
    intros r off1 Ho1 Hr. rewrite set_mem_id. wlp_step. eapply wlp_copy_path; [done|done|].
    intros path. wlp_step. eapply wlp_mono; [apply wlp_downlink_start|].
    intros [] n1 [cs1 ->]. wlp_step. apply Htail. lia.
  - wlp_step. specialize (Htail off (n_calls n)). rewrite set_calls_id in Htail. apply Htail. lia.
Qed.
(** *** What a block says

    Read off the bytes alone: the callbacks for the block, and nothing where a header or a
    path claims more than is left of it. *)
Definition calls_start (id : Z) (path : list Z) (ct : Z) : list callback :=
  map (λ h, start_cb h id path ct) pouch_downlink_handlers.
Definition calls_data (id : Z) (data : option (list Z)) (len : Z) (last : bool) : list callback :=
  map (λ h, data_cb h id data len last) pouch_downlink_handlers.

(** An entry whose data are not all there is delivered without data, and what is there is
    read as the next entry. *)
Fixpoint read_entries (fuel : nat) (l : list Z) : option (list callback) :=
  match fuel, l with
  | _, [] => Some []
  | S fuel, d1 :: d2 :: c1 :: c2 :: pl :: rest =>
      let len := 256 * d1 + d2 in
      if decide (zlen rest < pl) then None else
      let path := take (Z.to_nat pl) rest in
      let rest := drop (Z.to_nat pl) rest in
      let short := bool_decide (zlen rest < len) in
      cs ← read_entries fuel (if short then rest else drop (Z.to_nat len) rest);
      Some (calls_start 0 path (256 * c1 + c2) ++
            calls_data 0 (if short then None else Some (take (Z.to_nat len) rest)) len true ++ cs)
  | _, _ => None
  end.

Definition read_stream (id : Z) (first last : bool) (l : list Z) : option (list callback) :=
  if first then
    match l with
    | c1 :: c2 :: pl :: rest =>
        if decide (zlen rest < pl) then None else
        let d := drop (Z.to_nat pl) rest in
        Some (calls_start id (take (Z.to_nat pl) rest) (256 * c1 + c2) ++ calls_data id (Some d) (zlen d) last)
    | _ => None
    end
  else Some (calls_data id (Some l) (zlen l) last).

(** The size field is not looked at; of the third byte five bits are the id, bit 6 marks
    the first block of a stream and bit 7 the last. *)
Definition read_block (l : list Z) : option (list callback) :=
  match l with
  | _ :: _ :: x :: rest =>
      if decide (x mod 32 = 0) then read_entries (length rest) rest
      else read_stream (x mod 32) (Z.testbit x 6) (Z.testbit x 7) rest
  | _ => None
  end.

Lemma be16_pair (a b : Z) : is_byte a → is_byte b →
  [a; b] = sys_put_be16 (256 * a + b) ∧ 0 ≤ 256 * a + b < 65536.
Proof.
  intros Ha Hb. pose proof (get_be16_range a b Ha Hb). rewrite <- (put_get_be16 a b) at 1 by done.
  rewrite sys_get_be16_spec in * by done. rewrite (Z.mul_comm 256). by split.
Qed.

Lemma wp_read_pair m v (a b : Z) r Q :
  view_rest m v (a :: b :: r) → (∀ v', view_rest m v' r → Q (256 * a + b, v') m) →
  wp (pouch_bufview_read_be16 v) Q m.
Proof.
  intros Hr HQ. pose proof (view_rest_bytes _ _ _ Hr) as Hb.
  apply Forall_cons_iff in Hb as [Ha [Hb _]%Forall_cons_iff]. destruct (be16_pair a b Ha Hb) as [He Hrange].
  change (a :: b :: r) with ([a; b] ++ r) in Hr. rewrite He in Hr.
  eapply wp_read_be16; [exact Hrange|exact Hr|]. intros v' _ Hr'. by apply HQ.
Qed.

Lemma wp_read_part m v (k : Z) l Q :
  view_rest m v l → 0 ≤ k ≤ zlen l →
  (∀ a v', view_rest m v' (drop (Z.to_nat k) l) →
     (∀ Q', Q' (take (Z.to_nat k) l) m → wp (load_bytes a k) Q' m) → Q (Some a, v') m) →
  wp (pouch_bufview_read v k) Q m.
Proof.
  intros Hr Hn HQ. rewrite <- (take_drop (Z.to_nat k) l) in Hr.
  eapply wp_view_read; [exact Hr| |].
  - unfold zlen in *. rewrite length_take. lia.
  - intros a v' _ Hr' Hload. by apply HQ.
Qed.

Lemma wp_downlink_no_data sid len last Q n :
  Q tt (set_calls (n_calls n ++ calls_data sid None len last) n) → wp (downlink_data sid None len last) Q n.
Proof. apply wp_for_each_call. Qed.

Lemma wp_read_entries fuel fuel' v l cs Q n :
  read_entries fuel' l = Some cs → (length l < fuel)%nat → view_rest (n_mem n) v l →
  Q tt (set_calls (n_calls n ++ cs) n) → wp (pouch_downlink_entries_push fuel v) Q n.
Proof.
  revert fuel' v l cs n. induction fuel as [|fuel IH]; intros fuel' v l cs n Hcs Hf Hr HQ; [lia|].
  cbn [pouch_downlink_entries_push]. wp_step. apply wp_on_mem. eapply wp_available; [exact Hr|]. rewrite set_mem_id.
  destruct l as [|d1 l].
  { assert (cs = []) as -> by (destruct fuel'; by injection Hcs).
    change (zlen [] =? 0) with true. cbv iota. wp_step. by rewrite app_nil_r, set_calls_id in HQ. }
  destruct fuel' as [|fuel']; [done|]. destruct l as [|d2 [|c1 [|c2 [|pl rest]]]]; try done.
  rewrite zlen_cons. pose proof (zlen_nonneg (d2 :: c1 :: c2 :: pl :: rest)).
  rewrite (proj2 (Z.eqb_neq _ _)) by lia.
  wp_step. apply wp_on_mem. eapply wp_read_pair; [exact Hr|]. intros v1 Hr1. rewrite set_mem_id.
  wp_step. apply wp_on_mem. eapply wp_read_pair; [exact Hr1|]. intros v2 Hr2. rewrite set_mem_id.
  pose proof (view_rest_bytes _ _ _ Hr2) as [Hpl _]%Forall_cons_iff. unfold is_byte in Hpl.
  wp_step. apply wp_on_mem. eapply wp_read_byte; [exact Hr2|]. intros v3 _ Hr3. rewrite set_mem_id.
  cbn [read_entries] in Hcs. case_decide as Hshort; [done|].
  pose proof (view_rest_bytes _ _ _ Hr) as Hby. apply Forall_cons_iff in Hby as [Hd1 [Hd2 _]%Forall_cons_iff].
  destruct (be16_pair d1 d2 Hd1 Hd2) as [_ Hlen]. set (len := 256 * d1 + d2) in *.
  wp_step. apply wp_on_mem. eapply wp_read_part; [exact Hr3|lia|]. intros a1 v4 Hr4 Hload1. rewrite set_mem_id.
  set (path := take _ rest) in *. set (rest' := drop _ rest) in *.
  assert (length rest' ≤ length rest)%nat as Hl by (unfold rest'; rewrite length_drop; lia).
  wp_step. apply wp_on_mem. cbn [length] in Hf. case_bool_decide as Hd.
  - destruct (read_entries fuel' rest') as [cs'|] eqn:Hcs'; [|done]. injection Hcs as <-.
    eapply wp_view_read_short; [exact Hr4|done|]. rewrite set_mem_id.
    wp_step. eapply wp_copy_path; [exact Hload1|]. wp_step. apply wp_downlink_start.
    wp_step. apply wp_downlink_no_data. eapply IH; [exact Hcs'|lia|exact Hr4|].
    cbn [n_calls set_calls]. by rewrite <- !app_assoc.
  - destruct (read_entries fuel' (drop _ rest')) as [cs'|] eqn:Hcs'; [|done]. injection Hcs as <-.
    eapply wp_read_part; [exact Hr4|lia|]. intros a2 v5 Hr5 Hload2. rewrite set_mem_id.
    wp_step. eapply wp_copy_path; [exact Hload1|]. wp_step. apply wp_downlink_start.
    wp_step. eapply wp_downlink_data; [exact Hload2|].
    eapply IH; [exact Hcs'|rewrite length_drop; lia|exact Hr5|].
    cbn [n_calls set_calls]. by rewrite <- !app_assoc.
Qed.

Lemma wp_read_stream id first last v l cs Q n :
  read_stream id first last l = Some cs → zlen l < 65536 → view_rest (n_mem n) v l →
  Q tt (set_calls (n_calls n ++ cs) n) → wp (pouch_downlink_stream_push v id first last) Q n.
Proof.
  intros Hcs Hsz Hr HQ. unfold read_stream in Hcs. destruct first.
  - destruct l as [|c1 [|c2 [|pl rest]]]; try done. case_decide as Hs; [done|]. injection Hcs as <-.
    pose proof (view_rest_bytes _ _ _ Hr) as Hby.
    apply Forall_cons_iff in Hby as [Hc1 [Hc2 [Hpl _]%Forall_cons_iff]%Forall_cons_iff]. unfold is_byte in Hpl.
    destruct (be16_pair c1 c2 Hc1 Hc2) as [He Hct].
    set (path := take (Z.to_nat pl) rest) in *. set (d := drop (Z.to_nat pl) rest) in *.
    assert (zlen path = pl) as Hp by (unfold path, zlen in *; rewrite length_take; lia).
    assert (zlen d < 65536) as Hd.
    { unfold d, zlen in *. rewrite length_drop. cbn [length] in Hsz. lia. }
    apply (wp_stream_push v id (Some (path, 256 * c1 + c2)) d last); [split; [lia|done]|done| |].
    + cbn [stream_payload]. rewrite <- He, u8_small, Hp by lia. unfold path, d. by rewrite take_drop.
    + exact HQ.
  - injection Hcs as <-. by apply (wp_stream_push v id None l last).
Qed.

Lemma id_bits x : is_byte x →
  Z.land x BLOCK_ID_MASK = x mod 32 ∧ negb (Z.land x FIRST_DATA_MASK =? 0) = Z.testbit x 6 ∧
  negb (Z.land x LAST_DATA_MASK =? 0) = Z.testbit x 7.
Proof.
  intros Hx. set (ok := λ x, (Z.land x BLOCK_ID_MASK =? x mod 32) &&
    Bool.eqb (negb (Z.land x FIRST_DATA_MASK =? 0)) (Z.testbit x 6) &&
    Bool.eqb (negb (Z.land x LAST_DATA_MASK =? 0)) (Z.testbit x 7)).
  assert (forallb ok (map Z.of_nat (seq 0 256)) = true) as Hall by by vm_compute.
  rewrite forallb_forall in Hall. specialize (Hall x). unfold ok in Hall.
  rewrite !andb_true_iff, Z.eqb_eq, !Bool.eqb_true_iff in Hall. destruct Hall as [[? ?] ?]; [|by split_and!].
  apply in_map_iff. exists (Z.to_nat x). unfold is_byte in Hx. split; [lia|]. apply in_seq. lia.
Qed.

(** A block that can be read is delivered as it reads. *)
Lemma wp_read_block n l b cs :
  heap (n_mem n) !! l = Some b → wf_buf b → zlen (contents b) < 65536 →
  read_block (contents b) = Some cs →
  pouch_downlink_block_push (Some l) n = Ret tt (set_calls (n_calls n ++ cs) n).
Proof.
  intros Hl Hwf Hsz Hcs.
  enough (wp (pouch_downlink_block_push (Some l)) (λ _ n', n' = set_calls (n_calls n ++ cs) n) n) as Hw.
  { apply wp_inv in Hw as ([] & n' & -> & ->). done. }
  pose proof (view_rest_init _ _ _ Hl Hwf) as Hr. unfold read_block in Hcs.
  destruct (contents b) as [|s1 [|s2 [|x rest]]] eqn:Hco; try done.
  rewrite !zlen_cons in Hsz. pose proof (zlen_nonneg rest).
  unfold pouch_downlink_block_push, block_decode_hdr. cbn [view_offset pouch_bufview_init].
  rewrite decide_True by done. wp_step. apply wp_on_mem.
  wp_step. eapply wp_read_pair; [exact Hr|]. intros v1 Hr1.
  wp_step. eapply wp_read_byte; [exact Hr1|]. intros v2 _ Hr2. wp_step. rewrite set_mem_id.
  pose proof (view_rest_bytes _ _ _ Hr1) as [Hx _]%Forall_cons_iff.
  destruct (id_bits x Hx) as (-> & -> & ->). cbn [hdr_is_stream hdr_stream_id hdr_is_first hdr_is_last].
  change BLOCK_ID_ENTRY with 0. destruct (decide (x mod 32 = 0)) as [Hz|Hz].
  - rewrite (proj2 (Z.eqb_eq _ _)) by done. cbn [negb]. wp_step. apply wp_on_mem. eapply wp_deref; [done|].
    rewrite set_mem_id. eapply wp_read_entries; [exact Hcs| |exact Hr2|done].
    pose proof (contents_zlen b Hwf) as Hn. rewrite Hco, !zlen_cons in Hn. destruct Hwf as [? _ _].
    unfold zlen in *. lia.
  - rewrite (proj2 (Z.eqb_neq _ _)) by done. cbn [negb].
    eapply wp_read_stream; [exact Hcs|lia|exact Hr2|done].
Qed.
End entry_delivery.

Section entry_theorems.
Context `{COk : ConfigOk} `{ZS : ZephyrSpec} `{Mal : Malloc} `{Cr : Crypto} `{Hnd : Handlers}.
Implicit Types (n : node) (e : entry) (es : list entry).

(** Closing the entry block. *)
Lemma wp_entry_close n lk open :
  node_inv n lk → entry_rep n open →
  wp (entry_block_close success)
    (λ r n', r = success ∧ entry_rep n' None ∧ entry_emits n n' open ∧
       entry_frame n n' ∧ node_inv n' lk) n.
Proof.
  intros Hinv Hrep. pose proof max_payload_range. unfold entry_block_close. do 2 wp_step.
  destruct open as [es|]; cbn [entry_rep] in Hrep.
  - destruct Hrep as (Hsz & l & b & He & Hl & Hob). rewrite He. wp_step. apply wp_on_mem.
    eapply wp_buf_size_get; [done|]. rewrite set_mem_id. pose proof Hob as [Hwf Hcap Hco].
    pose proof (contents_zlen b Hwf) as Hn. pose proof (entries_size_nonneg es).
    rewrite Hco, zlen_app, be16_zlen, zlen_cons in Hn by lia.
    destruct (Z.ltb_spec 0 (buf_bytes b)); [|lia].
    eapply (wp_flush n lk es l b); try done. intros b' q Hwf' Hco' Hq.
    do 3 wp_step. split_and!; [done|done| | |].
    + exists l. split_and!; [done| |apply add_work_in].
      split; [done|]. exists b'. split; [apply heap_set_buf_eq|done].
    + split; try done; [by exists q|].
      intros k c Hk Hne. cbn. rewrite lookup_insert_ne by congruence. done.
    + unfold node_inv. eapply heap_owns_proper; [|by apply (node_inv_set_buf n lk l b b')].
      unfold owned, uplink_owned. cbn. rewrite Hq, He. cbn. solve_Permutation.
  - rewrite Hrep. wp_step. split_and!; try done.
    split; try done. exists (up_processing (n_uplink n)). apply uplink_eta.
Qed.

(** *** Sequences of writes *)

(** An argument list that the C types allow. *)
Definition valid_entry (pe : pouch_entry) : Prop :=
  0 < pe_data_len pe ≤ zlen (pe_data pe) ∧ 0 ≤ pe_content_type pe < 65536 ∧
  Forall is_byte (pe_path pe) ∧ Forall is_byte (pe_data pe) ∧
  5 + zlen (pe_path pe) + pe_data_len pe < 2 ^ 32.

(** The calls an application makes, with their results. *)
Fixpoint write_all (pes : list pouch_entry) : M node (list rc) :=
  match pes with
  | [] => mret []
  | pe :: pes =>
      r ← pouch_uplink_entry_write success (Some (pe_path pe)) (pe_content_type pe)
            (Some (pe_data pe)) (pe_data_len pe);
      rs ← write_all pes;
      mret (r :: rs)
  end.

(** The entries whose write returned 0. *)
Fixpoint accepted (pes : list pouch_entry) (rs : list rc) : list entry :=
  match pes, rs with
  | pe :: pes, r :: rs =>
      if decide (r = success) then app_entry pe :: accepted pes rs else accepted pes rs
  | _, _ => []
  end.

Definition open_entries (open : option (list entry)) : list entry := default [] open.

(** A write adds the entry it accepts to those of the emitted and open
    blocks, and nothing else. *)
Lemma spec_entry_write_accepted alloc open e r open' emitted :
  spec_entry_write alloc open e = (r, open', emitted) →
  open_entries emitted ++ open_entries open' =
    open_entries open ++ (if decide (r = success) then [e] else []).
Proof.
  unfold spec_entry_write. destruct open as [es|], alloc; repeat case_match;
    intros [= <- <- <-]; cbn; by rewrite ?app_nil_r.
Qed.

Lemma finished_entries_frame n n' lk l es :
  node_inv n lk → entry_frame n n' → l ∈ slist_items (up_processing (n_uplink n)) →
  finished_entries (n_mem n) l es → finished_entries (n_mem n') l es.
Proof.
  intros Hinv Hfr Hl (Hsz & b & Hb & Hco). split; [done|]. exists b. split; [|done].
  apply (ef_heap _ _ Hfr); [done|]. intros He.
  eapply (owned_split _ _ l (uplink_owned (n_uplink n) ++ stream_bufs (n_streams n) ++
    downlink_owned (n_downlink n) ++ lk)); [done| |].
  - unfold owned. rewrite He. cbn. solve_Permutation.
  - unfold uplink_owned. rewrite !elem_of_app. auto.
Qed.

(** What a sequence of writes leaves alone. *)
Record writes_frame n n' : Prop := {
  wf_streams : n_streams n' = n_streams n;
  wf_downlink : n_downlink n' = n_downlink n;
  wf_crypto : n_crypto n' = n_crypto n;
  wf_events : n_events n' = n_events n;
  wf_calls : n_calls n' = n_calls n;
  wf_uplink : ∃ q, n_uplink n' = up_set_processing q (n_uplink n);
}.

Lemma writes_frame_refl n : writes_frame n n.
Proof. split; try done. exists (up_processing (n_uplink n)). apply uplink_eta. Qed.

Lemma writes_frame_step n1 n2 n3 : entry_frame n1 n2 → writes_frame n2 n3 → writes_frame n1 n3.
Proof.
  intros [? ? ? ? ? [q1 Hq1] _] [? ? ? ? ? [q2 Hq2]]. split; try congruence.
  exists q2. by rewrite Hq2, Hq1.
Qed.

(** For any sequence of entry writes, the blocks queued meanwhile and the open
    block hold the entries accepted; blocks queued before keep theirs. *)
Lemma wp_write_all n lk open pes :
  node_inv n lk → entry_rep n open → Forall valid_entry pes →
  wp (write_all pes) (λ rs n', ∃ ls ess open',
    length rs = length pes ∧
    slist_items (up_processing (n_uplink n')) = slist_items (up_processing (n_uplink n)) ++ ls ∧
    Forall2 (finished_entries (n_mem n')) ls ess ∧
    entry_rep n' open' ∧ node_inv n' lk ∧
    concat ess ++ open_entries open' = open_entries open ++ accepted pes rs ∧
    writes_frame n n' ∧
    ∀ l es, l ∈ slist_items (up_processing (n_uplink n)) →
      finished_entries (n_mem n) l es → finished_entries (n_mem n') l es) n.
Proof.
  intros Hinv Hrep Hv. revert n open Hinv Hrep.
  induction Hv as [|pe pes (Hlen & Hct & Hp & Hd & Hov) _ IH]; intros n open Hinv Hrep;
    cbn [write_all].
  { wp_step. exists [], [], open. cbn. rewrite !app_nil_r. split_and!; try done. apply writes_frame_refl. }
  wp_step. eapply wp_mono; [by eapply wp_entry_write|].
  intros r n1 (open1 & em & Hspec & Hrep1 & Hem & Hfr1 & Hinv1).
  change (mk_app_entry _ _ _) with (app_entry pe) in Hspec.
  apply spec_entry_write_accepted in Hspec.
  wp_step. eapply wp_mono; [by eapply IH|].
  intros rs n2 (ls & ess & open2 & Hrs & Hq2 & Hfin2 & Hrep2 & Hinv2 & Hacc & Hfr2 & Hkeep). wp_step.
  pose proof (writes_frame_step _ _ _ Hfr1 Hfr2) as Hfr.
  assert (open_entries open ++ accepted (pe :: pes) (r :: rs)
    = open_entries em ++ concat ess ++ open_entries open2) as Hall.
  { rewrite Hacc, (app_assoc (open_entries em)), Hspec. cbn [accepted].
    destruct (decide (r = success)); cbn; by rewrite <- app_assoc. }
  rewrite Hall. destruct em as [es|]; cbn [entry_emits open_entries default] in *.
  - destruct Hem as (l & Hq1 & Hfin1 & _). exists (l :: ls), (es :: ess), open2.
    rewrite Hq2, Hq1. split_and!; try done.
    + cbn. by rewrite Hrs.
    + by rewrite <- app_assoc.
    + constructor; [|done]. apply Hkeep; [|done]. rewrite Hq1. set_solver.
    + cbn. by rewrite <- app_assoc.
    + intros k es' Hk Hfin. apply Hkeep; [rewrite Hq1; set_solver|].
      by apply (finished_entries_frame n n1 lk).
  - exists ls, ess, open2. rewrite Hq2, Hem. split_and!; try done; [cbn; by rewrite Hrs|].
    intros k es' Hk Hfin. apply Hkeep; [by rewrite Hem|]. by apply (finished_entries_frame n n1 lk).
Qed.

(** *** Whole entry blocks *)

Lemma entries_bytes_length es :
  Forall wf_entry es → 5 * zlen es ≤ zlen (entries_bytes es).
Proof.
  induction 1 as [|e es He Hes IH]; [done|]. unfold entries_bytes; cbn [map concat].
  rewrite zlen_app, zlen_cons, entry_bytes_zlen by apply He.
  pose proof (zlen_nonneg (e_path e)). pose proof (zlen_nonneg (e_data e)).
  unfold entries_bytes in IH. lia.
Qed.

(** Delivering a finished block of entries calls the handlers for each of them
    in order, and changes nothing else. *)
Lemma wp_entry_block_push n l b es Q :
  heap (n_mem n) !! l = Some b → wf_buf b → Forall wf_entry es →
  zlen (entries_bytes es) < 65535 →
  contents b = block_bytes BLOCK_ID_ENTRY true true (entries_bytes es) →
  Q tt (set_calls (n_calls n ++ concat (map entry_calls es)) n) →
  wp (pouch_downlink_block_push (Some l)) Q n.
Proof.
  intros Hl Hwf Hes Hlen Hco HQ. unfold pouch_downlink_block_push.
  pose proof (view_rest_init _ _ _ Hl Hwf) as Hr. rewrite Hco in Hr.
  wp_step. apply wp_on_mem.
  eapply wp_block_decode_hdr; [|exact Hlen|done|exact Hr|]; [done|]. intros v' _ Hr'.
  rewrite set_mem_id. cbn [hdr_is_stream Z.eqb negb BLOCK_ID_ENTRY]. wp_step. apply wp_on_mem. eapply wp_deref; [done|]. rewrite set_mem_id.
  eapply wp_entries_push; [done| |done|done].
  pose proof (entries_bytes_length es Hes). pose proof (contents_zlen b Hwf) as Hn.
  rewrite Hco, block_bytes_zlen in Hn by done. destruct Hwf as [? _ _].
  unfold zlen in *. lia.
Qed.

(** Delivering the blocks of a queue in order. *)
Definition push_all (ls : list nat) : M node unit :=
  foldr (λ l k, pouch_downlink_block_push (Some l);; k) (mret tt) ls.

Lemma wp_push_all n lk ls ess Q :
  node_inv n lk → Forall2 (finished_entries (n_mem n)) ls ess → Forall wf_entry (concat ess) →
  Q tt (set_calls (n_calls n ++ concat (map entry_calls (concat ess))) n) →
  wp (push_all ls) Q n.
Proof.
  intros Hinv Hf Hwf. pose proof max_payload_range.
  assert (∀ cs Q, Q tt (set_calls (cs ++ concat (map entry_calls (concat ess))) n) →
    wp (push_all ls) Q (set_calls cs n)) as Hg.
  { induction Hf as [|l es ls ess (Hlen & b & Hb & Hco) _ IH];
      intros cs Q' HQ; cbn [push_all foldr concat] in *.
    - wp_step. cbn in HQ. by rewrite app_nil_r in HQ.
    - apply Forall_app in Hwf as [Hwf1 Hwf2]. wp_step.
      eapply (wp_entry_block_push _ _ _ es); [done|by apply (owns_wf _ _ Hinv l)|done|lia|done|].
      apply IH; [done|]. cbn. by rewrite map_app, concat_app, app_assoc in HQ. }
  intros HQ. specialize (Hg (n_calls n) Q HQ). by rewrite set_calls_id in Hg.
Qed.

(** Accepted entries of valid calls are well formed. *)
Lemma accepted_wf pes rs :
  Forall valid_entry pes → Forall (λ pe, zlen (pe_path pe) < 256 ∧ pe_data_len pe < 65536) pes →
  Forall wf_entry (accepted pes rs).
Proof.
  intros Hv. revert rs. induction Hv as [|pe pes (Hl0 & ? & ? & ? & ?) _ IH]; intros rs Hs; [done|].
  apply Forall_cons_iff in Hs as [[Hp Hl] Hs].
  destruct rs as [|r rs]; cbn [accepted]; [done|].
  assert (wf_entry (app_entry pe)).
  { split; cbn; [done|done|]. split; [by apply Forall_slice|]. rewrite zlen_slice by lia. lia. }
  destruct (decide (r = success)); auto.
Qed.

(** ** Properties *)

(** C21: whatever allocations fail, writing entries and closing the entry block
    never goes wrong, and delivering the blocks that were queued calls the
    handlers for exactly the entries whose write returned 0, each once, in the
    order of the writes, with the path, content type and data written. *)
Theorem entries_round_trip n lk pes :
  node_inv n lk → n_entry n = NULL → slist_items (up_processing (n_uplink n)) = [] →
  Forall valid_entry pes →
  Forall (λ pe, zlen (pe_path pe) < 256 ∧ pe_data_len pe < 65536) pes →
  wp (rs ← write_all pes;
      entry_block_close success;;
      n' ← get;
      push_all (slist_items (up_processing (n_uplink n')));;
      mret rs)
    (λ rs n', length rs = length pes ∧ node_inv n' lk ∧
       n_calls n' = n_calls n ++ concat (map entry_calls (accepted pes rs))) n.
Proof.
  intros Hinv He Hq Hv Hsz. wp_step. eapply wp_mono; [by apply (wp_write_all n lk None)|].
  intros rs n1 (ls & ess & open & Hrs & Hq1 & Hfin & Hrep & Hinv1 & Hacc & Hfr1 & _).
  pose proof (wf_calls _ _ Hfr1) as Hcalls.
  wp_step. eapply wp_mono; [by eapply wp_entry_close|].
  intros r n2 (_ & _ & Hem & Hfr & Hinv2). pose proof (ef_calls _ _ Hfr) as Hcalls2.
  pose proof (accepted_wf pes rs Hv Hsz) as Hwf. cbn [open_entries default] in Hacc.
  rewrite Hq in Hq1. cbn [app] in Hq1, Hacc.
  assert (∃ ess', Forall2 (finished_entries (n_mem n2)) (slist_items (up_processing (n_uplink n2))) ess'
    ∧ concat ess' = accepted pes rs) as (ess' & Hfin' & Hacc').
  { assert (Forall2 (finished_entries (n_mem n2)) ls ess) as Hfin2.
    { eapply Forall2_impl_in; [exact Hfin|]. intros l es Hl.
      apply (finished_entries_frame n1 n2 lk); [done|done|]. by rewrite Hq1. }
    destruct open as [es|]; cbn [entry_emits open_entries default] in *.
    - destruct Hem as (l & -> & Hl & _). exists (ess ++ [es]). rewrite Hq1.
      split; [by apply Forall2_app; [|constructor]|].
      rewrite <- Hacc, concat_app. cbn. by rewrite app_nil_r.
    - exists ess. rewrite Hem, Hq1, <- Hacc, app_nil_r. done. }
  do 3 wp_step. eapply wp_push_all; [done|done|by rewrite Hacc'|]. wp_step.
  rewrite Hacc'. split_and!; [done|done|]. cbn. congruence.
Qed.

(** C23: each call of [pouch_uplink_entry_write] behaves as [spec_entry_write]
    says on every branch: it appends to the open block when the entry fits;
    otherwise it queues the open block and starts a new one, and reports
    [-ENOMEM] when memory runs out or the entry is too long for any block.
    Everything else in the node keeps its value and no buffer is lost. *)
Theorem entry_write_refines n lk open path ct data len :
  node_inv n lk → entry_rep n open →
  0 < len ≤ zlen data → 0 ≤ ct < 65536 → Forall is_byte path → Forall is_byte data →
  5 + zlen path + len < 2 ^ 32 →
  wp (pouch_uplink_entry_write success (Some path) ct (Some data) len)
    (λ r n', ∃ open' emitted,
       spec_entry_write (can_alloc n) open (mk_app_entry path ct (slice 0 len data))
         = (r, open', emitted) ∧
       entry_rep n' open' ∧ entry_emits n n' emitted ∧ entry_frame n n' ∧ node_inv n' lk) n.
Proof. apply wp_entry_write. Qed.

(** A write with a null path or data pointer, an empty entry, or whose
    lock times out returns the error and changes nothing; closing under a
    failed lock does the same. *)
Lemma entry_write_errors n lock path ct data len :
  path = None ∨ data = None ∨ len = 0 ∨ (∃ err, lock = Some err) →
  (∃ err, pouch_uplink_entry_write lock path ct data len n = Ret (Some err) n ∧
     (path = None ∨ data = None ∨ len = 0 → err = EINVAL)) ∧
  (∀ err, lock = Some err → entry_block_close lock n = Ret (Some err) n).
Proof.
  intros Hbad. split; [|by intros err ->]. unfold pouch_uplink_entry_write.
  destruct path as [path|]; [|by exists EINVAL]. destruct data as [data|]; [|by exists EINVAL].
  destruct (Z.eqb_spec len 0) as [|Hlen]; [by exists EINVAL|].
  destruct Hbad as [[=]|[[=]|[|[err ->]]]]; [done|]. exists err. split; [done|].
  by intros [[=]|[[=]|]].
Qed.

(** C26: delivering any received block, whatever its bytes, is never stuck in a loop, and
    when it returns nothing of the node has changed but the callbacks made. A block
    whose headers and paths lie within it (as [read_block] checks) is delivered, with
    exactly the callbacks that its bytes say: for an entry the start with its path and
    content type and then the data, without data if they are not all there. (A block that
    claims more than it has can be undefined: [short_path_is_undefined].) *)
Theorem block_push_terminates n l b :
  heap (n_mem n) !! l = Some b → wf_buf b → zlen (buf_data b) < 2 ^ 31 →
  pouch_downlink_block_push (Some l) n ≠ NoFuel ∧
  (∀ r n', pouch_downlink_block_push (Some l) n = Ret r n' → same_but_calls n n') ∧
  (∀ cs, zlen (contents b) < 65536 → read_block (contents b) = Some cs →
     pouch_downlink_block_push (Some l) n = Ret tt (set_calls (n_calls n ++ cs) n)).
Proof.
  intros Hl Hwf Hc.
  assert (wlp (pouch_downlink_block_push (Some l)) (λ _, same_but_calls n) n) as Hw.
  { unfold pouch_downlink_block_push, block_decode_hdr, pouch_bufview_init. cbn [view_offset].
    rewrite decide_True by done. wlp_step. apply wlp_on_mem.
    wlp_step. eapply wlp_read_be16; [done..|]. intros size Hs H2.
    wlp_step. eapply wlp_read_byte; [done|done|done|lia|]. intros id Hid H3. wlp_step.
    rewrite set_mem_id. cbn [hdr_is_stream hdr_stream_id hdr_is_first hdr_is_last].
    destruct (negb _); [by eapply wlp_stream_push|]. wlp_step. apply wlp_on_mem, wp_wlp.
    eapply wp_deref; [done|]. rewrite set_mem_id.
    eapply wlp_entries_push; [done|done|done|done|lia|]. unfold zlen. lia. }
  split; [by eapply wlp_fuel|]. split; [|intros cs; by apply wp_read_block].
  intros r n' Hr. unfold wlp in Hw. by rewrite Hr in Hw.
Qed.

(** C30: an entry block whose entry claims a path longer than what is left of
    the block makes the node copy from a null pointer: the length is not
    checked. *)
Theorem short_path_is_undefined n l b dl ct pl rest :
  heap (n_mem n) !! l = Some b → wf_buf b →
  contents b = block_bytes BLOCK_ID_ENTRY true true
    (sys_put_be16 dl ++ sys_put_be16 ct ++ pl :: rest) →
  zlen rest < 65000 → 0 ≤ dl < 65536 → 0 ≤ ct < 65536 → zlen rest < pl →
  pouch_downlink_block_push (Some l) n = UB.
Proof.
  intros Hl Hwf Hco Hsz Hdl Hct Hpl. pose proof (zlen_nonneg rest).
  pose proof (view_rest_init _ _ _ Hl Hwf) as Hr. rewrite Hco in Hr.
  unfold pouch_downlink_block_push. apply ub_bind, wp_on_mem.
  eapply wp_block_decode_hdr; [| |done|exact Hr|]; [done| |].
  { rewrite !zlen_app, zlen_cons, !be16_zlen by done. lia. }
  intros v _ Hv. rewrite set_mem_id. cbn [hdr_is_stream Z.eqb negb BLOCK_ID_ENTRY].
  apply ub_bind, wp_on_mem. eapply wp_deref; [done|]. rewrite set_mem_id.
  cbn [pouch_downlink_entries_push]. apply ub_bind, wp_on_mem.
  eapply wp_available; [done|]. rewrite set_mem_id.
  destruct (Z.eqb_spec (zlen (sys_put_be16 dl ++ sys_put_be16 ct ++ pl :: rest)) 0) as [E|_].
  { rewrite !zlen_app, zlen_cons, !be16_zlen in E by done. lia. }
  apply ub_bind, wp_on_mem. eapply wp_read_be16; [|done|]; [done|]. intros v1 _ Hv1.
  rewrite set_mem_id. apply ub_bind, wp_on_mem. eapply wp_read_be16; [|done|]; [done|].
  intros v2 _ Hv2. rewrite set_mem_id. apply ub_bind, wp_on_mem.
  eapply wp_read_byte; [done|]. intros v3 _ Hv3. rewrite set_mem_id. apply ub_bind, wp_on_mem.
  eapply wp_view_read_short; [done|done|]. rewrite set_mem_id. apply ub_bind, wp_on_mem.
  destruct (Z.ltb_spec (zlen rest) dl) as [Hlt|Hge].
  - eapply wp_view_read_short; [done|done|]. rewrite set_mem_id. done.
  - rewrite <- (take_drop (Z.to_nat dl) rest) in Hv3. eapply wp_view_read; [done| |].
    + unfold zlen in *. rewrite length_take. lia.
    + intros a v4 _ _ _. rewrite set_mem_id. done.
Qed.
End entry_theorems.

(** ** Witnesses *)
Section entry_witnesses.
#[local] Existing Instances small_config small_config_ok zephyr_ref zephyr_ref_spec
  malloc_always crypto_none one_handler.

(** Two entries that share a block, and one that needs a second block. *)
Definition sample_entries : list pouch_entry := [
  mk_entry [46; 115] 50 3 [1; 2; 3];
  mk_entry [46; 116] 50 4 [9; 8; 7; 6];
  mk_entry [46; 117] 60 22 (replicate 22 5)
].

Lemma sample_entries_valid :
  Forall valid_entry sample_entries ∧
  Forall (λ pe, zlen (pe_path pe) < 256 ∧ pe_data_len pe < 65536) sample_entries.
Proof.
  split; repeat constructor; cbn; try done; solve_bytes.
Qed.

Lemma entries_round_trip_witness :
  wp (rs ← write_all sample_entries;
      entry_block_close success;;
      n' ← get;
      push_all (slist_items (up_processing (n_uplink n')));;
      mret rs)
    (λ rs n', length rs = 3%nat ∧ node_inv n' [] ∧
       n_calls n' = concat (map entry_calls (accepted sample_entries rs))) node_0.
Proof.
  apply (entries_round_trip node_0 [] sample_entries);
    [apply init_node_inv|done|done|apply sample_entries_valid..].
Defined.

(** What that run delivers. *)
Lemma entries_round_trip_example :
  wp (rs ← write_all sample_entries;
      entry_block_close success;;
      n' ← get;
      push_all (slist_items (up_processing (n_uplink n')));;
      mret rs)
    (λ rs n', rs = [success; success; success] ∧
       length (slist_items (up_processing (n_uplink n'))) = 2%nat ∧
       n_calls n' = concat (map entry_calls (map app_entry sample_entries))) node_0.
Proof. vm_compute. by split_and!. Qed.

Lemma entry_write_refines_witness :
  wp (pouch_uplink_entry_write success (Some [46; 115]) 50 (Some [1; 2; 3]) 3)
    (λ r n', ∃ open' emitted,
       spec_entry_write (can_alloc node_0) None (mk_app_entry [46; 115] 50 (slice 0 3 [1; 2; 3]))
         = (r, open', emitted) ∧
       entry_rep n' open' ∧ entry_emits node_0 n' emitted ∧ entry_frame node_0 n' ∧
       node_inv n' []) node_0.
Proof.
  apply (entry_write_refines node_0 [] None [46; 115] 50 [1; 2; 3] 3);
    [apply init_node_inv|done|done|done|solve_bytes|solve_bytes|done].
Defined.

Lemma entry_write_errors_witness :
  (∃ err, pouch_uplink_entry_write success None 50 (Some [1]) 1 node_0 = Ret (Some err) node_0 ∧
     (None = @None (list Z) ∨ Some [1] = None ∨ 1 = 0 → err = EINVAL)) ∧
  (∀ err, success = Some err → entry_block_close success node_0 = Ret (Some err) node_0).
Proof. apply (entry_write_errors node_0 success None 50 (Some [1]) 1). by left. Defined.

(** A node that holds one block with the given bytes. *)
Definition node_with (bytes : list Z) : node :=
  set_mem (mk_mem {[ 0%nat := mk_buf (zlen bytes) bytes ]} 1 1) node_0.

Lemma block_push_terminates_witness :
  pouch_downlink_block_push (Some 0%nat) (node_with [0; 4; 192; 1; 2; 3]) ≠ NoFuel ∧
  (∀ r n', pouch_downlink_block_push (Some 0%nat) (node_with [0; 4; 192; 1; 2; 3]) = Ret r n' →
    same_but_calls (node_with [0; 4; 192; 1; 2; 3]) n') ∧
  (∀ cs, zlen [0; 4; 192; 1; 2; 3] < 65536 → read_block [0; 4; 192; 1; 2; 3] = Some cs →
    pouch_downlink_block_push (Some 0%nat) (node_with [0; 4; 192; 1; 2; 3]) =
    Ret tt (set_calls (n_calls (node_with [0; 4; 192; 1; 2; 3]) ++ cs) (node_with [0; 4; 192; 1; 2; 3]))).
Proof.
  apply (block_push_terminates (node_with [0; 4; 192; 1; 2; 3]) 0
    (mk_buf 6 [0; 4; 192; 1; 2; 3])); [done| |done].
  split; cbn; [done|done|solve_bytes].
Defined.

(** An entry with its data, and one that claims two bytes and has none; the first block of a
    stream; and two blocks that cannot be read. *)
Example blocks_read :
  read_block [0; 14; 192; 0; 1; 0; 50; 1; 46; 7; 0; 2; 0; 50; 1; 47] =
    Some [start_cb 0 0 [46] 50; data_cb 0 0 (Some [7]) 1 true; start_cb 0 0 [47] 50; data_cb 0 0 None 2 true] ∧
  read_block [0; 6; 65; 0; 42; 1; 46; 9] = Some [start_cb 0 1 [46] 42; data_cb 0 1 (Some [9]) 1 false] ∧
  read_block [0; 7; 192; 0; 1; 0; 50; 9; 46] = None ∧ read_block [0; 4; 192; 1; 2; 3] = None.
Proof. by vm_compute. Qed.

Lemma short_path_is_undefined_witness :
  pouch_downlink_block_push (Some 0%nat) (node_with [0; 7; 192; 0; 1; 0; 50; 9; 46]) = UB.
Proof.
  apply (short_path_is_undefined (node_with [0; 7; 192; 0; 1; 0; 50; 9; 46]) 0
    (mk_buf 9 [0; 7; 192; 0; 1; 0; 50; 9; 46]) 1 50 9 [46]); try done.
  split; cbn; [done|done|solve_bytes].
Defined.
End entry_witnesses.
