(* ===== verification/Stream.v ===== *)
(** Streams: [src/stream.c].

    A stream writes data of any length under one path: the first block starts
    with the content type and the path, full blocks are queued as they fill up,
    and closing the stream marks its last block. *)
From S2P Require Import Prelude Zephyr Config Buf Block Header Node CryptoNone Reference Entry.

Definition POUCH_STREAMS_MAX : Z := 126.

Section stream.
Context `{Cfg : Config} `{Zk : Zephyr} `{Mal : Malloc} `{Cr : Crypto}.

(** *** Stream objects *)

Definition set_stream_objs (f : gmap nat pouch_stream → gmap nat pouch_stream) : M node unit :=
  modify (λ n, set_streams (mk_streams (f (stream_objs (n_streams n)))
    (stream_id (n_streams n)) (open_streams (n_streams n))) n).

(** [malloc(sizeof(struct pouch_stream))]: every member of the new object is
    set before it is read, so their first values do not matter. *)
Definition stream_malloc : M node ptr :=
  n ← get;
  let m := n_mem n in
  modify (set_mem (mk_mem (heap m) (bufs m) (S (mallocs m))));;
  if malloc_obj (mallocs m) then
    let i := fresh (dom (stream_objs (n_streams n))) in
    set_stream_objs (insert i (mk_stream 0 NULL 0 0));;
    mret (Some i)
  else mret NULL.

Definition stream_get (s : ptr) : M node pouch_stream := λ n,
  match s with
  | Some i => match stream_objs (n_streams n) !! i with Some o => Ret o n | None => UB end
  | None => UB
  end.

Definition stream_put (s : ptr) (o : pouch_stream) : M node unit :=
  match s with Some i => set_stream_objs (insert i o) | None => ub end.

Definition stream_free (s : ptr) : M node unit :=
  match s with Some i => stream_get s;; set_stream_objs (delete i) | None => mret tt end.

(** The counters; [atomic_inc] of the kernel returns the value before. *)
Definition open_streams_inc : M node Z :=
  n ← get;
  let s := n_streams n in
  modify (set_streams (mk_streams (stream_objs s) (stream_id s) (atomic_inc (open_streams s))));;
  mret (open_streams s).

Definition open_streams_dec : M node unit :=
  n ← get;
  let s := n_streams n in
  modify (set_streams (mk_streams (stream_objs s) (stream_id s) (atomic_dec (open_streams s)))).

Definition stream_id_inc : M node Z :=
  n ← get;
  let s := n_streams n in
  modify (set_streams (mk_streams (stream_objs s) (atomic_inc (stream_id s)) (open_streams s)));;
  mret (stream_id s).

(** *** Operations *)

Definition write_stream_header (block : ptr) (content_type : Z) (path : list Z) : M mem unit :=
  let path_len := strlen path in
  a ← buf_claim block 2; store_bytes a (sys_put_be16 (u16 content_type));;
  a ← buf_claim block 1; store_bytes a [u8 path_len];;
  buf_write block path path_len.

Fixpoint new_stream_id_loop (fuel : nat) : M node Z :=
  match fuel with
  | O => nofuel
  | S fuel =>
      v ← stream_id_inc;
      let id := u8 (Z.land v BLOCK_ID_MASK) in
      if id =? 0 then new_stream_id_loop fuel else mret id
  end.

(** Two turns are enough. *)
Definition new_stream_id : M node Z := new_stream_id_loop 2.

Definition pouch_stream_is_valid (s : ptr) : M node bool :=
  match s with
  | None => mret false
  | Some _ => o ← stream_get s; id ← uplink_session_id; mret (st_session_id o =? id)
  end.

Definition pouch_uplink_stream_open (path : list Z) (content_type : Z) : M node ptr :=
  opened ← open_streams_inc;
  if POUCH_STREAMS_MAX <=? opened then open_streams_dec;; mret NULL else
  s ← stream_malloc;
  match s with
  | None => open_streams_dec;; mret NULL
  | Some _ =>
      id ← new_stream_id;
      session ← uplink_session_id;
      block ← on_mem (block_alloc_stream id true);
      match block with
      | None => stream_free s;; open_streams_dec;; mret NULL
      | Some _ =>
          stream_put s (mk_stream id block 0 session);;
          on_mem (write_stream_header block content_type path);;
          mret s
      end
  end.

Definition st_set_buf (p : ptr) (o : pouch_stream) : pouch_stream :=
  mk_stream (st_id o) p (st_bytes o) (st_session_id o).
Definition st_set_bytes (b : Z) (o : pouch_stream) : pouch_stream :=
  mk_stream (st_id o) (st_buf o) b (st_session_id o).

(** The loop of [pouch_stream_write]; returns [written]. *)
Fixpoint stream_write_loop (fuel : nat) (s : ptr) (data : list Z) (len written : Z)
    : M node Z :=
  match fuel with
  | O => nofuel
  | S fuel =>
      if len <=? written then mret written else
      o ← stream_get s;
      space ← on_mem (block_space_get (st_buf o));
      space ←
        (if space =? 0 then
           buf ← on_mem (block_alloc_stream (st_id o) false);
           match buf with
           | None => mret None
           | Some _ =>
               on_mem (block_finish_stream (st_buf o) (st_id o) false);;
               uplink_enqueue (st_buf o);;
               stream_put s (st_set_buf buf o);;
               space ← on_mem (block_space_get buf);
               mret (Some space)
           end
         else mret (Some space));
      match space with
      | None => mret written
      | Some space =>
          o ← stream_get s;
          let write_len := Z.min space (len - written) in
          on_mem (buf_write (st_buf o) (drop (Z.to_nat written) data) write_len);;
          stream_write_loop fuel s data len (written + write_len)
      end
  end.

(** Every turn writes a byte or more, so [len] turns are enough. *)
Definition pouch_stream_write (s : ptr) (data : list Z) (len : Z) : M node Z :=
  valid ← pouch_stream_is_valid s;
  if negb valid then mret 0 else
  written ← stream_write_loop (S (Z.to_nat len)) s data len 0;
  o ← stream_get s;
  stream_put s (st_set_bytes (usz (st_bytes o + written)) o);;
  mret written.

Definition pouch_stream_close (s : ptr) : M node rc :=
  match s with
  | None => mret (Some EINVAL)
  | Some _ =>
      valid ← pouch_stream_is_valid s;
      o ← stream_get s;
      (if valid && (0 <? st_bytes o) then
         on_mem (block_finish_stream (st_buf o) (st_id o) true);;
         uplink_enqueue (st_buf o)
       else on_mem (block_free (st_buf o)));;
      open_streams_dec;;
      stream_free s;;
      mret success
  end.
End stream.

(** ** Specification *)

Section stream_spec.
Context `{COk : ConfigOk} `{ZS : ZephyrSpec} `{Mal : Malloc} `{Cr : Crypto}.
Implicit Types (n : node) (o : pouch_stream) (i l : nat).

(** Buffer [l] is a finished block of the stream [id]. *)
Definition finished_block (m : mem) (id : Z) (first last : bool) (l : nat) (payload : list Z)
    : Prop :=
  zlen payload ≤ MAX_BLOCK_PAYLOAD_SIZE ∧
  ∃ b, heap m !! l = Some b ∧ contents b = block_bytes id first last payload.

(** The blocks [ls] hold the consecutive pieces [cs] of the stream [id]; the
    first of them carries the first mark if [first]. *)
Fixpoint stream_blocks (m : mem) (id : Z) (first : bool) (ls : list nat) (cs : list (list Z))
    : Prop :=
  match ls, cs with
  | [], [] => True
  | l :: ls, c :: cs => finished_block m id first false l c ∧ stream_blocks m id false ls cs
  | _, _ => False
  end.

(** Stream [i] is open, and its current block holds [cur]. *)
Record stream_rep n i o (first : bool) (cur : list Z) : Prop := {
  sr_obj : stream_objs (n_streams n) !! i = Some o;
  sr_id : 0 < st_id o < 32;
  sr_size : zlen cur ≤ MAX_BLOCK_PAYLOAD_SIZE;
  sr_buf : ∃ l b, st_buf o = Some l ∧ heap (n_mem n) !! l = Some b ∧
    open_block b (block_id_byte (st_id o) first false) cur;
}.

(** What an operation on stream [i] that queues the blocks [ls] may change. *)
Record stream_frame (i : nat) n n' (ls : list nat) : Prop := {
  sf_entry : n_entry n' = n_entry n;
  sf_downlink : n_downlink n' = n_downlink n;
  sf_crypto : n_crypto n' = n_crypto n;
  sf_events : n_events n' = n_events n;
  sf_calls : n_calls n' = n_calls n;
  sf_others : ∀ j, j ≠ i → stream_objs (n_streams n') !! j = stream_objs (n_streams n) !! j;
  sf_uplink : ∃ q, n_uplink n' = up_set_processing q (n_uplink n);
  sf_queue : slist_items (up_processing (n_uplink n')) =
    slist_items (up_processing (n_uplink n)) ++ ls;
  sf_kept : ∀ l b, l ∈ slist_items (up_processing (n_uplink n)) →
    heap (n_mem n) !! l = Some b → heap (n_mem n') !! l = Some b;
}.

Lemma stream_frame_refl i n : stream_frame i n n [].
Proof.
  split; try done; [|by rewrite app_nil_r].
  exists (up_processing (n_uplink n)). apply uplink_eta.
Qed.

Lemma stream_frame_trans i n1 n2 n3 ls ls' :
  stream_frame i n1 n2 ls → stream_frame i n2 n3 ls' → stream_frame i n1 n3 (ls ++ ls').
Proof.
  intros [? ? ? ? ? Ho1 [q1 Hu1] Hq1 Hk1] [? ? ? ? ? Ho2 [q2 Hu2] Hq2 Hk2].
  split; try congruence.
  - intros j Hj. by rewrite Ho2, Ho1.
  - exists q2. by rewrite Hu2, Hu1.
  - by rewrite Hq2, Hq1, app_assoc.
  - intros l b Hl Hb. apply Hk2; [|by apply Hk1]. rewrite Hq1, elem_of_app. by left.
Qed.

Lemma stream_frame_session i n n' ls :
  stream_frame i n n' ls → up_id (n_uplink n') = up_id (n_uplink n).
Proof. by intros [_ _ _ _ _ _ [q ->] _ _]. Qed.

Lemma stream_blocks_app m id first ls cs ls' cs' :
  stream_blocks m id first ls cs →
  stream_blocks m id (first && bool_decide (cs = [])) ls' cs' →
  stream_blocks m id first (ls ++ ls') (cs ++ cs').
Proof.
  revert first cs. induction ls as [|l ls IH]; intros first [|c cs]; cbn; try done.
  - intros _. by rewrite andb_true_r.
  - rewrite andb_false_r. intros [? ?] ?. split; [done|]. by apply IH.
Qed.

(** Finished blocks that are queued stay so. *)
Lemma stream_blocks_kept i n n' ls' id first ls cs :
  stream_frame i n n' ls' → (∀ l, l ∈ ls → l ∈ slist_items (up_processing (n_uplink n))) →
  stream_blocks (n_mem n) id first ls cs → stream_blocks (n_mem n') id first ls cs.
Proof.
  intros Hfr. revert first cs. induction ls as [|l ls IH]; intros first [|c cs] Hin; cbn; try done.
  intros [(Hsz & b & Hb & Hco) Hrest]. split.
  - split; [done|]. exists b. split; [|done]. eapply sf_kept; [done| |done].
    apply Hin, elem_of_cons. by left.
  - apply IH; [|done]. intros k Hk. apply Hin, elem_of_cons. by right.
Qed.
End stream_spec.

Section stream_facts.
Context `{COk : ConfigOk} `{ZS : ZephyrSpec} `{Mal : Malloc} `{Cr : Crypto} `{Hnd : Handlers}.
Implicit Types (n : node) (o : pouch_stream) (i l : nat).

Definition with_obj i o n : node :=
  set_streams (mk_streams (<[i := o]> (stream_objs (n_streams n)))
    (stream_id (n_streams n)) (open_streams (n_streams n))) n.

Lemma wp_stream_get n i o Q :
  stream_objs (n_streams n) !! i = Some o → Q o n → wp (stream_get (Some i)) Q n.
Proof. intros Hi HQ. unfold wp, stream_get. by rewrite Hi. Qed.

Lemma wp_stream_put n i o Q : Q tt (with_obj i o n) → wp (stream_put (Some i) o) Q n.
Proof. done. Qed.

Lemma owned_stream n lk i o l :
  stream_objs (n_streams n) !! i = Some o → st_buf o = Some l →
  owned n ++ lk ≡ₚ l :: uplink_owned (n_uplink n) ++ option_list (n_entry n) ++
    stream_bufs (mk_streams (delete i (stream_objs (n_streams n))) 0 0) ++
    downlink_owned (n_downlink n) ++ lk.
Proof.
  intros Hi Hl. unfold owned. rewrite (stream_bufs_delete _ _ _ 0 0 Hi), Hl. cbn.
  solve_Permutation.
Qed.

Lemma owned_with_obj n lk i o o' l l' :
  stream_objs (n_streams n) !! i = Some o → st_buf o = Some l → st_buf o' = Some l' →
  l' :: owned n ++ lk ≡ₚ l :: owned (with_obj i o' n) ++ lk.
Proof.
  intros Hi Hl Hl'. rewrite (owned_stream _ _ _ _ _ Hi Hl).
  unfold owned. cbn [n_streams n_uplink n_entry n_downlink with_obj set_streams].
  rewrite (stream_bufs_update _ _ _ o' 0 0 Hi), Hl'. cbn. solve_Permutation.
Qed.

(** The space left in the current block. *)
Lemma wp_space m l b idb cur Q :
  heap m !! l = Some b → open_block b idb cur → zlen cur ≤ MAX_BLOCK_PAYLOAD_SIZE →
  Q (MAX_BLOCK_PAYLOAD_SIZE - zlen cur) m → wp (block_space_get (Some l)) Q m.
Proof.
  intros Hl [Hwf Hcap Hco] Hsz HQ. pose proof max_payload_range. pose proof (zlen_nonneg cur).
  pose proof (contents_zlen b Hwf) as Hn. rewrite Hco, zlen_app, be16_zlen, zlen_cons in Hn by lia.
  unfold block_space_get, block_size_get. wp_step. eapply wp_buf_size_get; [done|]. wp_step.
  unfold MAX_PLAINTEXT_BLOCK_SIZE, BLOCK_HEADER_SIZE. rewrite usz_small by lia.
  by replace (3 + MAX_BLOCK_PAYLOAD_SIZE - buf_bytes b) with (MAX_BLOCK_PAYLOAD_SIZE - zlen cur) by lia.
Qed.

(** Appending to the current block. *)
Lemma wp_block_append m l b idb cur d len Q :
  heap m !! l = Some b → open_block b idb cur → 0 ≤ len ≤ zlen d →
  zlen cur + len ≤ MAX_BLOCK_PAYLOAD_SIZE → Forall is_byte d →
  (∀ b', open_block b' idb (cur ++ slice 0 len d) → Q tt (set_buf l b' m)) →
  wp (buf_write (Some l) d len) Q m.
Proof.
  intros Hl [Hwf Hcap Hco] Hn Hsz Hd HQ. pose proof max_payload_range. pose proof (zlen_nonneg cur).
  pose proof (contents_zlen b Hwf) as Hb. rewrite Hco, zlen_app, be16_zlen, zlen_cons in Hb by lia.
  unfold MAX_PLAINTEXT_BLOCK_SIZE, BLOCK_HEADER_SIZE in *.
  eapply wp_buf_write; [done|done|done|lia|done|].
  intros b' [Hwf' Hcap' Hco']. apply HQ. split; [done|unfold MAX_PLAINTEXT_BLOCK_SIZE, BLOCK_HEADER_SIZE; lia|].
  rewrite Hco', Hco. by rewrite <- app_assoc.
Qed.

(** Writing the path and content type into the new block. *)
Lemma wp_write_stream_header m l b idb path ct Q :
  heap m !! l = Some b → open_block b idb [] → 3 + zlen path ≤ MAX_BLOCK_PAYLOAD_SIZE →
  0 ≤ ct < 65536 → Forall is_byte path →
  (∀ b', open_block b' idb (stream_payload (Some (path, ct)) []) → Q tt (set_buf l b' m)) →
  wp (write_stream_header (Some l) ct path) Q m.
Proof.
  intros Hl [Hwf Hcap Hco] Hsz Hct Hp HQ. pose proof max_payload_range. pose proof (zlen_nonneg path).
  pose proof (contents_zlen b Hwf) as Hb. rewrite Hco, zlen_app, be16_zlen, zlen_singleton in Hb by lia.
  unfold write_stream_header, strlen. unfold MAX_PLAINTEXT_BLOCK_SIZE, BLOCK_HEADER_SIZE in *.
  rewrite u16_small by lia.
  eapply wp_put; [done|done|by rewrite be16_zlen by lia|lia|apply be16_bytes; lia|].
  intros b1 Ha1. pose proof (appends_bytes _ _ _ Hwf Ha1) as Hn1.
  pose proof Ha1 as [Hw1 Hc1 _]. rewrite be16_zlen in Hn1 by lia.
  eapply wp_put; [apply heap_set_buf_eq|done|done|lia|apply Forall_singleton, u8_range|].
  intros b2 Ha2. pose proof (appends_bytes _ _ _ Hw1 Ha2) as Hn2.
  pose proof Ha2 as [Hw2 Hc2 _]. rewrite zlen_singleton in Hn2. rewrite set_buf_set_buf.
  eapply wp_buf_write; [apply heap_set_buf_eq|done|lia|lia|done|]. rewrite slice_0_all.
  intros b3 Ha3. rewrite set_buf_set_buf. apply HQ.
  destruct (appends_trans _ _ _ _ _ Ha1 (appends_trans _ _ _ _ _ Ha2 Ha3)) as [Hw Hc Hfin].
  split; [done|unfold MAX_PLAINTEXT_BLOCK_SIZE, BLOCK_HEADER_SIZE; lia|].
  rewrite Hfin, Hco. cbn [stream_payload]. rewrite app_nil_r. by rewrite <- !app_assoc.
Qed.

(** One step of the writer: pieces moved out of the current block, which all
    were full. *)
Record stream_step i o first n n' o' (cur' : list Z) (cs : list (list Z)) : Prop := {
  ss_rep : stream_rep n' i o' (first && bool_decide (cs = [])) cur';
  ss_id : st_id o' = st_id o;
  ss_session : st_session_id o' = st_session_id o;
  ss_full : Forall (λ c, zlen c = MAX_BLOCK_PAYLOAD_SIZE) cs;
  ss_blocks : ∃ ls, stream_frame i n n' ls ∧ stream_blocks (n_mem n') (st_id o) first ls cs;
}.

Lemma stream_step_refl i o first n cur :
  stream_rep n i o first cur → stream_step i o first n n o cur [].
Proof.
  intros Hrep. split; try done; [cbn; by rewrite andb_true_r|].
  exists []. split; [apply stream_frame_refl|done].
Qed.

Definition alloc_failed (m : mem) : Prop :=
  ∃ k, malloc_bytes k MAX_PLAINTEXT_BLOCK_SIZE = None ∧ mallocs m = S k.

Lemma live_not_next m ls l b : heap_owns m ls → heap m !! l = Some b → mallocs m ≠ l.
Proof.
  intros [_ Hd _ Hf _] Hl <-. assert (mallocs m < mallocs m)%nat; [|lia]. apply Hf, Hd. eauto.
Qed.

(** The part of a turn of the loop that makes room in the block of the stream. *)
Definition stream_room (i : nat) o : M node (option Z) :=
  space ← on_mem (block_space_get (st_buf o));
  if space =? 0 then
    buf ← on_mem (block_alloc_stream (st_id o) false);
    match buf with
    | None => mret None
    | Some _ =>
        on_mem (block_finish_stream (st_buf o) (st_id o) false);;
        uplink_enqueue (st_buf o);;
        stream_put (Some i) (st_set_buf buf o);;
        space ← on_mem (block_space_get buf);
        mret (Some space)
    end
  else mret (Some space).

Lemma stream_write_turn fuel i data len written n : written < len →
  stream_write_loop (S fuel) (Some i) data len written n =
  (o ← stream_get (Some i);
   sp ← stream_room i o;
   match sp with
   | None => mret written
   | Some space =>
       o ← stream_get (Some i);
       let write_len := Z.min space (len - written) in
       on_mem (buf_write (st_buf o) (drop (Z.to_nat written) data) write_len);;
       stream_write_loop fuel (Some i) data len (written + write_len)
   end) n.
Proof.
  intros Hw. cbn [stream_write_loop]. rewrite (proj2 (Z.leb_gt _ _)) by done. unfold stream_room.
  cbv [mbind M_bind]. destruct (stream_get (Some i) n) as [o n1| |]; [|done|done].
  by destruct (on_mem (block_space_get (st_buf o)) n1).
Qed.

(** Making room: nothing to do, or a new block takes the place of the full
    one, or there is no memory for it. *)
Lemma wp_stream_room n lk i o first cur Q :
  node_inv n lk → stream_rep n i o first cur →
  (∀ n' o' cur' cs, stream_step i o first n n' o' cur' cs → st_bytes o' = st_bytes o → concat cs ++ cur' = cur →
     zlen cur' < MAX_BLOCK_PAYLOAD_SIZE → node_inv n' lk →
     Q (Some (MAX_BLOCK_PAYLOAD_SIZE - zlen cur')) n') →
  (∀ n', stream_step i o first n n' o cur [] → alloc_failed (n_mem n') → node_inv n' lk →
     Q None n') →
  wp (stream_room i o) Q n.
Proof.
  intros Hinv [Hobj Hid Hsz (l & b & Hbuf & Hl & Hob)] HS HN. unfold stream_room. rewrite Hbuf.
  pose proof max_payload_range. destruct (block_id_byte_fields (st_id o) first false) as [Hidb _]; [lia|].
  wp_step. apply wp_on_mem. eapply wp_space; [done|done|done|]. rewrite set_mem_id.
  destruct (Z.eqb_spec (MAX_BLOCK_PAYLOAD_SIZE - zlen cur) 0) as [Hz|Hz].
  2: { wp_step. apply (HS _ o cur []); [|done|done|lia|done]. split; try done.
    - cbn. rewrite andb_true_r. split; [done..|]. by exists l, b.
    - exists []. split; [apply stream_frame_refl|done]. }
  wp_step. apply wp_on_mem. apply wp_block_alloc_stream; [lia| |].
  2: { intros Hnone. wp_step. apply HN; [|by exists (mallocs (n_mem n))|by apply owns_no_buf].
    split; try done.
    - cbn. rewrite andb_true_r. split; [done..|]. by exists l, b.
    - exists []. split; [|done]. split; try done; [|by rewrite app_nil_r].
      exists (up_processing (n_uplink n)). apply uplink_eta. }
  intros b1 _ Hb1. set (k := mallocs (n_mem n)).
  pose proof (live_not_next _ _ _ _ Hinv Hl) as Hkl. fold k in Hkl.
  pose proof (owns_new_buf _ _ b1 Hinv (ob_wf _ _ _ Hb1)) as Hinv1. fold k in Hinv1.
  set (n1 := set_mem (new_buf b1 (n_mem n)) n).
  assert (node_inv n1 (k :: lk)) as Hinv1'.
  { unfold node_inv. eapply heap_owns_proper; [|exact Hinv1]. unfold n1, owned. cbn. solve_Permutation. }
  eapply (wp_finish_enqueue n1 (k :: lk) _ l b); [done| | |done|done|by rewrite Z.lor_0_r|].
  { by apply owned_stream with (o := o). }
  { change (heap (new_buf b1 (n_mem n)) !! l = Some b). rewrite heap_new_buf_ne by done. done. }
  intros b' q Hwf' Hco' Hq. rewrite Z.lor_0_r in Hco'. wp_step. apply wp_stream_put.
  wp_step. apply wp_on_mem. cbn.
  assert (∀ m, m = set_buf l b' (new_buf b1 (n_mem n)) → heap m !! k = Some b1) as Hk.
  { intros m ->. rewrite heap_set_buf_ne by done. apply heap_new_buf_eq. }
  eapply wp_space; [by apply Hk|done|change (zlen []) with 0; lia|]. wp_step.
  apply (HS _ (st_set_buf (Some k) o) [] [cur]); [|done|cbn; by rewrite !app_nil_r|change (zlen []) with 0; lia|].
  - split; try done.
    + cbn. rewrite andb_false_r. split; try done; [cbn; by rewrite lookup_insert_eq|change (zlen []) with 0; lia|].
      exists k, b1. split_and!; [done|by apply Hk|done].
    + by constructor; [lia|].
    + exists [l]. split.
      * split; try done; [intros j Hj; cbn; by rewrite lookup_insert_ne|by exists q|].
        intros l' c Hl' Hc. cbn. rewrite lookup_insert_ne.
        -- rewrite lookup_insert_ne; [done|]. eapply live_not_next; done.
        -- intros ->. eapply (owned_split n lk l' _ Hinv); [by apply owned_stream with (o := o)|].
           unfold uplink_owned. rewrite !elem_of_app. auto.
      * split; [|done]. split; [done|]. exists b'. split; [apply heap_set_buf_eq|].
        unfold block_bytes. by rewrite Hco'.
  - unfold node_inv. eapply heap_owns_proper.
    2: { apply owns_set_buf; [exact Hinv1| |done].
      apply (owns_dom _ _ Hinv1). rewrite heap_new_buf_ne by done. eauto. }
    rewrite (owned_with_obj n lk i o (st_set_buf (Some k) o) l k) by done.
    unfold owned, uplink_owned. cbn. rewrite Hq. cbn. solve_Permutation.
Qed.

Lemma stream_step_trans i o first n n1 n2 o1 o2 cur1 cur2 cs1 cs2 :
  stream_step i o first n n1 o1 cur1 cs1 →
  stream_step i o1 (first && bool_decide (cs1 = [])) n1 n2 o2 cur2 cs2 →
  stream_step i o first n n2 o2 cur2 (cs1 ++ cs2).
Proof.
  intros [Hr1 Hi1 Hs1 Hf1 (ls1 & Hfr1 & Hbl1)] [Hr2 Hi2 Hs2 Hf2 (ls2 & Hfr2 & Hbl2)].
  split; try congruence.
  - replace (first && bool_decide (cs1 ++ cs2 = [])) with
      (first && bool_decide (cs1 = []) && bool_decide (cs2 = [])); [done|].
    rewrite <- andb_assoc. f_equal. by destruct cs1.
  - by apply Forall_app.
  - exists (ls1 ++ ls2). split; [by eapply stream_frame_trans|].
    apply stream_blocks_app; [|by rewrite <- Hi1].
    eapply stream_blocks_kept; [exact Hfr2| |done].
    intros l Hl. rewrite (sf_queue _ _ _ _ Hfr1), elem_of_app. by right.
Qed.

(** Appending to the current block leaves the rest alone. *)
Lemma stream_step_append n lk i o first cur cur' l b b' :
  node_inv n lk → stream_rep n i o first cur → st_buf o = Some l →
  heap (n_mem n) !! l = Some b → zlen cur' ≤ MAX_BLOCK_PAYLOAD_SIZE →
  open_block b' (block_id_byte (st_id o) first false) cur' →
  stream_step i o first n (set_mem (set_buf l b' (n_mem n)) n) o cur' [].
Proof.
  intros Hinv [Hobj Hid _ _] Hbuf Hl Hsz Hob. split; try done.
  - cbn. rewrite andb_true_r. split; [done..|]. exists l, b'.
    split_and!; [done|apply heap_set_buf_eq|done].
  - exists []. split; [|done]. split; try done; [|by rewrite app_nil_r|].
    + exists (up_processing (n_uplink n)). apply uplink_eta.
    + intros l' c Hl' Hc. cbn. rewrite lookup_insert_ne; [done|]. intros ->.
      eapply (owned_split n lk l' _ Hinv); [by apply owned_stream with (o := o)|].
      unfold uplink_owned. rewrite !elem_of_app. auto.
Qed.

Lemma wp_stream_loop fuel i data len lk n o first cur written :
  node_inv n lk → stream_rep n i o first cur → Forall is_byte data →
  0 ≤ written ≤ len → len ≤ zlen data → len - written < Z.of_nat fuel →
  wp (stream_write_loop fuel (Some i) data len written) (λ w n', ∃ o' cur' cs,
    written ≤ w ≤ len ∧ stream_step i o first n n' o' cur' cs ∧ st_bytes o' = st_bytes o ∧
    concat cs ++ cur' = cur ++ slice written (w - written) data ∧ (w = written → cs = []) ∧
    (w < len → alloc_failed (n_mem n')) ∧ node_inv n' lk) n.
Proof.
  intros Hinv Hrep Hd. revert n o first cur written Hinv Hrep.
  induction fuel as [|fuel IH]; intros n o first cur written Hinv Hrep Hw Hlen Hfuel; [lia|].
  pose proof max_payload_range. destruct (Z.leb_spec len written) as [Hle|Hlt].
  { cbn [stream_write_loop]. rewrite (proj2 (Z.leb_le _ _)) by done.
    wp_step. exists o, cur, []. replace (written - written) with 0 by lia.
    unfold slice at 1. cbn. rewrite app_nil_r. split_and!; [lia|lia| |done|done|done|lia|done].
    by apply stream_step_refl. }
  eapply wp_same; [by apply stream_write_turn|]. wp_step. eapply wp_stream_get; [apply Hrep|]. cbv beta.
  wp_step. eapply wp_stream_room; [done|done| |].
  2: { intros n' Hst Hfail Hinv'. wp_step. exists o, cur, []. split_and!; [lia|lia|done|done| |done|done|done].
    replace (written - written) with 0 by lia. unfold slice. cbn. by rewrite app_nil_r. }
  intros n1 o1 cur1 cs1 Hst1 Hby1 Hcur1 Hsz1 Hinv1. pose proof (ss_rep _ _ _ _ _ _ _ _ Hst1) as Hrep1.
  pose proof Hrep1 as [Hobj1 _ _ (l & b & Hbuf & Hl & Hob)].
  wp_step. eapply wp_stream_get; [done|]. cbv zeta. rewrite Hbuf.
  set (k := Z.min _ _). assert (0 < k ≤ len - written ∧ zlen cur1 + k ≤ MAX_BLOCK_PAYLOAD_SIZE) as Hk by lia.
  assert (zlen (drop (Z.to_nat written) data) = zlen data - written) as Hdrop.
  { unfold zlen in *. rewrite length_drop. lia. }
  wp_step. apply wp_on_mem. eapply wp_block_append; [done|done|lia|lia|by apply Forall_drop|].
  intros b' Hob'. assert (slice 0 k (drop (Z.to_nat written) data) = slice written k data) as Hsl.
  { unfold slice. rewrite drop_drop. do 2 f_equal. lia. }
  rewrite Hsl in Hob'.
  assert (zlen (cur1 ++ slice written k data) ≤ MAX_BLOCK_PAYLOAD_SIZE) as Hsz'.
  { rewrite zlen_app, zlen_slice by lia. lia. }
  pose proof (stream_step_append _ _ _ _ _ _ _ _ _ _ Hinv1 Hrep1 Hbuf Hl Hsz' Hob') as Hst2.
  eapply wp_mono.
  { apply IH; [|apply (ss_rep _ _ _ _ _ _ _ _ Hst2)|lia..].
    by eapply node_inv_set_buf; [| |apply ob_wf in Hob']. }
  intros w n3 (o3 & cur3 & cs3 & Hw3 & Hst3 & Hby3 & Hcat & _ & Hfail & Hinv3).
  exists o3, cur3, (cs1 ++ cs3). split_and!; [lia|lia| |congruence| |lia|done|done].
  - eapply stream_step_trans; [done|].
    by apply (stream_step_trans _ _ _ _ _ _ _ _ _ _ [] _ Hst2).
  - rewrite concat_app, <- app_assoc, Hcat, !app_assoc, Hcur1, <- app_assoc. f_equal.
    replace (w - written) with (k + (w - (written + k))) by lia.
    rewrite slice_add by lia. done.
Qed.

(** *** Writing to a stream *)

Definition session_valid o n : Prop := st_session_id o = u32 (up_id (n_uplink n)).

#[export] Instance session_valid_dec o n : Decision (session_valid o n).
Proof. unfold session_valid. apply _. Defined.

Lemma wp_stream_is_valid n i o Q :
  stream_objs (n_streams n) !! i = Some o →
  Q (bool_decide (session_valid o n)) n → wp (pouch_stream_is_valid (Some i)) Q n.
Proof.
  intros Hi HQ. unfold pouch_stream_is_valid. wp_step. eapply wp_stream_get; [done|].
  unfold uplink_session_id. do 5 wp_step.
  destruct (Z.eqb_spec (st_session_id o) (u32 (up_id (n_uplink n)))).
  - rewrite bool_decide_true in HQ by done. exact HQ.
  - rewrite bool_decide_false in HQ by done. exact HQ.
Qed.

Lemma wp_stream_write n lk i o first cur data len :
  node_inv n lk → stream_rep n i o first cur → session_valid o n → Forall is_byte data →
  0 ≤ len ≤ zlen data →
  wp (pouch_stream_write (Some i) data len) (λ w n', ∃ o' cur' cs,
    0 ≤ w ≤ len ∧ stream_step i o first n n' o' cur' cs ∧
    st_bytes o' = usz (st_bytes o + w) ∧ concat cs ++ cur' = cur ++ slice 0 w data ∧
    (w = 0 → cs = []) ∧
    (w < len → alloc_failed (n_mem n')) ∧ node_inv n' lk) n.
Proof.
  intros Hinv Hrep Hval Hd Hlen. unfold pouch_stream_write.
  wp_step. eapply wp_stream_is_valid; [apply Hrep|]. rewrite bool_decide_true by done. cbn [negb].
  wp_step. eapply wp_mono; [eapply (wp_stream_loop _ _ _ _ _ _ _ _ _ 0); [done|done|done|lia..]|].
  intros w n' (o' & cur' & cs & Hw & Hst & Hby & Hcat & Hnone & Hfail & Hinv').
  pose proof (ss_rep _ _ _ _ _ _ _ _ Hst) as [Hobj Hid Hsz Hb].
  wp_step. eapply wp_stream_get; [done|]. wp_step. apply wp_stream_put. wp_step.
  exists (st_set_bytes (usz (st_bytes o' + w)) o'), cur', cs. rewrite Z.sub_0_r in Hcat.
  destruct Hst as [_ Hi Hs Hf (ls & Hfr & Hbl)].
  split_and!; [lia|lia| |by rewrite <- Hby|done|done|done|].
  - split; try done.
    + split; try done. apply lookup_insert_eq.
    + exists ls. split; [|done]. destruct Hfr as [? ? ? ? ? Ho ? ? ?]. split; try done.
      intros j Hj. cbn. rewrite lookup_insert_ne by done. by apply Ho.
  - unfold node_inv in *. eapply heap_owns_proper; [|exact Hinv'].
    destruct Hb as (l & b & Hbuf & _).
    pose proof (owned_with_obj n' lk i o' (st_set_bytes (usz (st_bytes o' + w)) o') l l Hobj Hbuf Hbuf)
      as Hp. by apply Permutation_cons_inv in Hp.
Qed.

(** *** Closing a stream *)

Definition closed_stream i n : node :=
  set_streams (mk_streams (delete i (stream_objs (n_streams n)))
    (stream_id (n_streams n)) (atomic_dec (open_streams (n_streams n)))) n.

Lemma wp_stream_close_tail n i o Q :
  stream_objs (n_streams n) !! i = Some o → Q success (closed_stream i n) →
  wp (open_streams_dec;; stream_free (Some i);; mret success) Q n.
Proof.
  intros Hi HQ. unfold open_streams_dec, stream_free, set_stream_objs. do 6 wp_step.
  eapply wp_stream_get; [done|]. do 2 wp_step. exact HQ.
Qed.

Lemma owned_closed n lk i o l :
  stream_objs (n_streams n) !! i = Some o → st_buf o = Some l →
  owned n ++ lk ≡ₚ l :: owned (closed_stream i n) ++ lk.
Proof.
  intros Hi Hl. rewrite (owned_stream _ _ _ _ _ Hi Hl).
  unfold owned, stream_bufs. cbn. solve_Permutation.
Qed.

(** A stream with data ends in a block with the last mark. *)
Lemma wp_stream_close_data n lk i o first cur :
  node_inv n lk → stream_rep n i o first cur → session_valid o n → 0 < st_bytes o →
  wp (pouch_stream_close (Some i)) (λ r n', r = success ∧ node_inv n' lk ∧
    stream_objs (n_streams n') = delete i (stream_objs (n_streams n)) ∧
    ∃ l, stream_frame i n n' [l] ∧ finished_block (n_mem n') (st_id o) first true l cur) n.
Proof.
  intros Hinv [Hobj Hid Hsz (l & b & Hbuf & Hl & Hob)] Hval Hby. unfold pouch_stream_close.
  destruct (block_id_byte_fields (st_id o) first true) as [Hidb _]; [lia|].
  wp_step. eapply wp_stream_is_valid; [done|]. rewrite bool_decide_true by done.
  wp_step. eapply wp_stream_get; [done|]. rewrite (proj2 (Z.ltb_lt _ _) Hby), Hbuf. cbn [andb].
  apply (wp_same _ (on_mem (finish (Some l) (st_id o) LAST_DATA_MASK);; uplink_enqueue (Some l);;
    (open_streams_dec;; stream_free (Some i);; mret success))).
  { unfold block_finish_stream. cbv [mbind M_bind]. by destruct (on_mem _ n). }
  unfold block_id_byte in Hidb. cbn [andb] in Hidb. rewrite Z.lor_0_r in Hidb || idtac.
  eapply (wp_finish_enqueue n lk _ l b); [done|by apply owned_stream with (o := o)|done|done|done| |].
  { unfold block_id_byte. rewrite Z.lor_0_r. exact Hidb. }
  intros b' q Hwf' Hco' Hq. eapply wp_stream_close_tail; [done|]. split_and!; [done| |done|].
  - unfold node_inv. eapply heap_owns_proper; [|eapply owns_set_buf; [exact Hinv| |done]].
    + rewrite (owned_closed n lk i o l) by done.
      unfold owned, uplink_owned. cbn. rewrite Hq. unfold stream_bufs. cbn. solve_Permutation.
    + apply (owns_dom _ _ Hinv). eauto.
  - exists l. split.
    + split; try done; [|by exists q|].
      * intros j Hj. cbn. by rewrite lookup_delete_ne.
      * intros l' c Hl' Hc. cbn. rewrite lookup_insert_ne; [done|]. intros ->.
        eapply (owned_split n lk l' _ Hinv); [by apply owned_stream with (o := o)|].
        unfold uplink_owned. rewrite !elem_of_app. auto.
    + split; [done|]. exists b'. split; [apply heap_set_buf_eq|].
      rewrite Hco'. unfold block_bytes, block_id_byte. by rewrite Z.lor_0_r.
Qed.

(** An invalid stream, or one without data, is dropped with its block. *)
Lemma wp_stream_close_drop n lk i o first cur :
  node_inv n lk → stream_rep n i o first cur → ¬ session_valid o n ∨ st_bytes o ≤ 0 →
  wp (pouch_stream_close (Some i)) (λ r n', r = success ∧ node_inv n' lk ∧
    stream_objs (n_streams n') = delete i (stream_objs (n_streams n)) ∧
    stream_frame i n n' []) n.
Proof.
  intros Hinv [Hobj Hid Hsz (l & b & Hbuf & Hl & Hob)] Hval. unfold pouch_stream_close.
  wp_step. eapply wp_stream_is_valid; [done|].
  wp_step. eapply wp_stream_get; [done|].
  assert (bool_decide (session_valid o n) && (0 <? st_bytes o) = false) as ->.
  { apply andb_false_iff. destruct Hval; [left; by apply bool_decide_false|right; lia]. }
  rewrite Hbuf. wp_step. apply wp_on_mem. unfold block_free.
  eapply wp_free_owned.
  { eapply heap_owns_proper; [symmetry; by apply (owned_closed n lk i o l)|exact Hinv]. }
  intros m' Hm' _ Hkept. eapply wp_stream_close_tail; [done|]. split_and!; [done|exact Hm'|done|].
  split; try done.
  - intros j Hj. cbn. by rewrite lookup_delete_ne.
  - exists (up_processing (n_uplink n)). apply uplink_eta.
  - by rewrite app_nil_r.
  - intros l' c Hl' Hc. cbn. rewrite Hkept; [done|]. intros ->.
    eapply (owned_split n lk l _ Hinv); [by apply owned_stream with (o := o)|].
    unfold uplink_owned. rewrite !elem_of_app. auto.
Qed.

(** *** Opening a stream *)

(** The counters of the module: the id counter has counted to some number, and
    the other one counts the open streams, of which there are at most 126. *)
Definition streams_ok (s : streams) : Prop :=
  (∃ v, stream_id s = atomic_wrap v) ∧
  open_streams s = Z.of_nat (size (stream_objs s)) ∧
  Z.of_nat (size (stream_objs s)) ≤ POUCH_STREAMS_MAX.

Lemma masked_counter v : Z.land (atomic_wrap v) BLOCK_ID_MASK = v mod 32.
Proof.
  change BLOCK_ID_MASK with (Z.ones 5). rewrite Z.land_ones by lia. change (2 ^ 5) with 32.
  assert (32 | 2 ^ 32) as Hdiv by (by exists (2 ^ 27)).
  by rewrite <- (Z.mod_mod_divide (atomic_wrap v) _ _ Hdiv), atomic_wrap_mod, Z.mod_mod_divide.
Qed.

Lemma wp_stream_id_inc n Q :
  Q (stream_id (n_streams n)) (set_streams (mk_streams (stream_objs (n_streams n))
    (atomic_inc (stream_id (n_streams n))) (open_streams (n_streams n))) n) →
  wp stream_id_inc Q n.
Proof. done. Qed.

(** The id that the counter gives, never 0, and the counter behind it: a value that would
    give 0 is passed over. *)
Definition next_id (counter : Z) : Z := if decide (counter mod 32 = 0) then 1 else counter mod 32.
Definition after_id (counter : Z) : Z :=
  if decide (counter mod 32 = 0) then atomic_inc (atomic_inc counter) else atomic_inc counter.

Lemma next_id_range counter : 0 < next_id counter < 32.
Proof. unfold next_id. pose proof (Z.mod_pos_bound counter 32). case_decide; lia. Qed.

Lemma after_id_wrap v : ∃ v', after_id (atomic_wrap v) = atomic_wrap v'.
Proof. unfold after_id. rewrite !atomic_inc_spec. case_decide; by eexists. Qed.

Lemma wp_new_stream_id n v Q :
  stream_id (n_streams n) = atomic_wrap v →
  Q (next_id (stream_id (n_streams n))) (set_streams (mk_streams (stream_objs (n_streams n))
    (after_id (stream_id (n_streams n))) (open_streams (n_streams n))) n) →
  wp new_stream_id Q n.
Proof.
  intros Hv HQ. pose proof (masked_counter v) as Hm.
  assert (atomic_wrap v mod 32 = v mod 32) as Hw.
  { rewrite <- Hm. change BLOCK_ID_MASK with (Z.ones 5). by rewrite Z.land_ones. }
  pose proof (Z.mod_pos_bound v 32). rewrite Hv in HQ. unfold next_id, after_id in HQ. rewrite Hw in HQ.
  unfold new_stream_id. cbn [new_stream_id_loop]. wp_step. apply wp_stream_id_inc. cbv zeta.
  rewrite Hv, masked_counter, u8_small by lia. destruct (decide (v mod 32 = 0)) as [Hz|Hz].
  - rewrite Hz. cbn [Z.eqb]. wp_step. apply wp_stream_id_inc. cbn [stream_id n_streams set_streams].
    rewrite atomic_inc_spec, masked_counter.
    replace ((v + 1) mod 32) with 1 by (rewrite Z.add_mod, Hz by lia; done).
    change (u8 1) with 1. cbn [Z.eqb]. wp_step. by rewrite atomic_inc_spec in HQ.
  - destruct (Z.eqb_spec (v mod 32) 0) as [|_]; [done|]. by wp_step.
Qed.

(** What opening a stream leaves as it was. *)
Record open_frame n n' : Prop := {
  of_entry : n_entry n' = n_entry n;
  of_downlink : n_downlink n' = n_downlink n;
  of_crypto : n_crypto n' = n_crypto n;
  of_events : n_events n' = n_events n;
  of_calls : n_calls n' = n_calls n;
  of_uplink : n_uplink n' = n_uplink n;
  of_work : n_work n' = n_work n;
  of_kept : ∀ l b, heap (n_mem n) !! l = Some b → heap (n_mem n') !! l = Some b;
}.

(** The state that [open] leaves when it fails: the counter of the ids is left at [counter]. *)
Record open_failed n n' (counter : Z) : Prop := {
  fo_frame : open_frame n n';
  fo_objs : stream_objs (n_streams n') = stream_objs (n_streams n);
  fo_open : open_streams (n_streams n') = open_streams (n_streams n);
  fo_counter : stream_id (n_streams n') = counter;
}.

(** Opening fails before an id is taken, or after. *)
Definition open_refused n n' : Prop :=
  open_failed n n' (stream_id (n_streams n)) ∧
    (zlen (map_to_list (stream_objs (n_streams n))) = POUCH_STREAMS_MAX ∨
     malloc_obj (mallocs (n_mem n)) = false) ∨
  open_failed n n' (after_id (stream_id (n_streams n))) ∧ alloc_failed (n_mem n').

Lemma open_refused_frame n n' : open_refused n n' → open_frame n n'.
Proof. by intros [[[? _ _ _] _]|[[? _ _ _] _]]. Qed.

Lemma open_streams_small n :
  streams_ok (n_streams n) →
  - 2 ^ 31 ≤ open_streams (n_streams n) < 2 ^ 31 - 2 ∧
  atomic_dec (open_streams (n_streams n) + 1) = open_streams (n_streams n).
Proof.
  intros (_ & Hc & Hle). unfold POUCH_STREAMS_MAX in Hle. split; [lia|].
  rewrite <- (atomic_wrap_id (open_streams (n_streams n) + 1)), atomic_dec_spec by lia.
  rewrite atomic_wrap_id; lia.
Qed.

Lemma wp_open_inc n Q :
  Q (open_streams (n_streams n)) (set_streams (mk_streams (stream_objs (n_streams n))
    (stream_id (n_streams n)) (atomic_inc (open_streams (n_streams n)))) n) →
  wp open_streams_inc Q n.
Proof. done. Qed.

Lemma wp_open_dec n Q :
  Q tt (set_streams (mk_streams (stream_objs (n_streams n))
    (stream_id (n_streams n)) (atomic_dec (open_streams (n_streams n)))) n) →
  wp open_streams_dec Q n.
Proof. done. Qed.

Lemma wp_session_id n Q : Q (u32 (up_id (n_uplink n))) n → wp uplink_session_id Q n.
Proof. done. Qed.

Lemma wp_stream_malloc n Q :
  (malloc_obj (mallocs (n_mem n)) = true → ∀ i, stream_objs (n_streams n) !! i = None →
     Q (Some i) (with_obj i (mk_stream 0 NULL 0 0) (set_mem (no_buf (n_mem n)) n))) →
  (malloc_obj (mallocs (n_mem n)) = false → Q NULL (set_mem (no_buf (n_mem n)) n)) →
  wp stream_malloc Q n.
Proof.
  intros HS HN. unfold stream_malloc. do 4 wp_step.
  destruct (malloc_obj (mallocs (n_mem n))); [|by wp_step; apply HN].
  unfold set_stream_objs. do 3 wp_step. apply HS; [done|]. apply not_elem_of_dom, is_fresh.
Qed.

(** The second part: the object that was allocated gets an id, the session
    and a block with the stream header, or is freed again. *)
Lemma wp_open_block n i junk v path ct Q :
  stream_objs (n_streams n) !! i = Some junk → stream_id (n_streams n) = atomic_wrap v →
  3 + zlen path ≤ MAX_BLOCK_PAYLOAD_SIZE → 0 ≤ ct < 65536 → Forall is_byte path →
  (∀ b, let id := next_id (stream_id (n_streams n)) in
     open_block b (block_id_byte id true false) (stream_payload (Some (path, ct)) []) →
     Q (Some i) (set_mem (new_buf b (n_mem n)) (set_streams (mk_streams
       (<[i := mk_stream id (Some (mallocs (n_mem n))) 0 (u32 (up_id (n_uplink n)))]>
          (stream_objs (n_streams n)))
       (after_id (stream_id (n_streams n))) (open_streams (n_streams n))) n))) →
  (malloc_bytes (mallocs (n_mem n)) MAX_PLAINTEXT_BLOCK_SIZE = None →
     Q NULL (set_mem (no_buf (n_mem n)) (set_streams (mk_streams
       (delete i (stream_objs (n_streams n))) (after_id (stream_id (n_streams n)))
       (atomic_dec (open_streams (n_streams n)))) n))) →
  wp (id ← new_stream_id;
      session ← uplink_session_id;
      block ← on_mem (block_alloc_stream id true);
      match block with
      | None => stream_free (Some i);; open_streams_dec;; mret NULL
      | Some _ =>
          stream_put (Some i) (mk_stream id block 0 session);;
          on_mem (write_stream_header block ct path);;
          mret (Some i)
      end) Q n.
Proof.
  intros Hi Hv Hsz Hct Hp HS HN.
  pose proof (next_id_range (stream_id (n_streams n))) as Hid.
  wp_step. eapply (wp_new_stream_id _ v); [exact Hv|]. set (id := next_id _) in *. clearbody id.
  wp_step. apply wp_session_id. wp_step. apply wp_on_mem.
  apply wp_block_alloc_stream; [lia|intros b _ Hb|intros Hnone].
  - wp_step. apply wp_stream_put. wp_step. apply wp_on_mem.
    eapply wp_write_stream_header; [apply heap_new_buf_eq|exact Hb|done|done|done|].
    intros b' Hb'. wp_step. cbn [n_mem with_obj set_streams set_mem]. rewrite set_new_buf.
    by apply HS.
  - unfold stream_free, set_stream_objs. do 2 wp_step. eapply wp_stream_get; [exact Hi|].
    do 2 wp_step. apply wp_open_dec. wp_step. by apply HN.
Qed.

Lemma wp_stream_open n lk path ct :
  node_inv n lk → streams_ok (n_streams n) →
  3 + zlen path ≤ MAX_BLOCK_PAYLOAD_SIZE → 0 ≤ ct < 65536 → Forall is_byte path →
  wp (pouch_uplink_stream_open path ct) (λ s n',
    node_inv n' lk ∧ streams_ok (n_streams n') ∧
    match s with
    | None => open_refused n n'
    | Some i => open_frame n n' ∧ stream_objs (n_streams n) !! i = None ∧
        (∀ j, j ≠ i → stream_objs (n_streams n') !! j = stream_objs (n_streams n) !! j) ∧
        stream_id (n_streams n') = after_id (stream_id (n_streams n)) ∧
        ∃ o, stream_rep n' i o true (stream_payload (Some (path, ct)) []) ∧
          st_id o = next_id (stream_id (n_streams n)) ∧ session_valid o n' ∧ st_bytes o = 0
    end) n.
Proof.
  intros Hinv Hok Hsz Hct Hp. pose proof Hok as ((v & Hv) & Hcount & Hmax).
  destruct (open_streams_small n Hok) as [Hsmall Hdec]. set (s := n_streams n) in *.
  unfold pouch_uplink_stream_open. wp_step. apply wp_open_inc. fold s.
  rewrite atomic_inc_small by lia.
  destruct (Z.leb_spec POUCH_STREAMS_MAX (open_streams s)) as [Hfull|Hroom].
  { wp_step. apply wp_open_dec. cbn [n_streams set_streams stream_objs stream_id open_streams].
    rewrite Hdec. wp_step. split_and!; [exact Hinv|by split; [exists v|]|].
    left. split; [done|left]. fold s. unfold zlen. rewrite length_map_to_list. lia. }
  wp_step. apply wp_stream_malloc.
  2: { intros Hobj. wp_step. apply wp_open_dec.
    cbn [n_streams set_streams set_mem stream_objs stream_id open_streams]. rewrite Hdec. wp_step.
    split_and!; [by apply owns_no_buf|by split; [exists v|]|]. left. split; [done|by right]. }
  intros _ i Hi. cbn [n_streams set_streams stream_objs] in Hi.
  set (S1 := mk_streams (<[i := mk_stream 0 NULL 0 0]> (stream_objs s)) (stream_id s) (open_streams s + 1)).
  change (with_obj _ _ _) with (set_streams S1 (set_mem (no_buf (n_mem n)) n)).
  pose proof (owns_no_buf _ _ Hinv) as Hinv1. cbv iota.
  assert (∃ v', after_id (stream_id s) = atomic_wrap v') as Hwrap by (rewrite Hv; apply after_id_wrap).
  eapply (wp_open_block _ i _ v); [apply lookup_insert_eq|exact Hv|done|done|done|..];
    unfold S1; cbn [n_mem n_uplink n_streams set_streams set_mem stream_objs open_streams stream_id].
  2: { intros Hnone. rewrite delete_insert_id, Hdec by done.
    split_and!; [by apply owns_no_buf|by split|].
    right. split; [done|]. by exists (mallocs (no_buf (n_mem n))). }
  intros b' Hb'. set (o := mk_stream _ _ 0 _). rewrite insert_insert_eq.
  pose proof (owns_new_buf _ _ b' Hinv1 (ob_wf _ _ _ Hb')) as Hinv2.
  split_and!; [| | |done|..].
  - unfold node_inv. eapply heap_owns_proper; [|exact Hinv2].
    unfold owned. cbn [n_streams set_streams set_mem n_uplink n_entry n_downlink].
    rewrite stream_bufs_insert by done. cbn. solve_Permutation.
  - split; [done|]. cbn [stream_objs open_streams n_streams set_streams set_mem].
    rewrite map_size_insert_None by done. unfold POUCH_STREAMS_MAX in *. lia.
  - split; try done. intros k c Hk. cbn. rewrite lookup_insert_ne; [done|].
    eapply (live_not_next (no_buf (n_mem n))); done.
  - intros j Hj. cbn. by rewrite lookup_insert_ne.
  - done.
  - exists o. split_and!; [|done|done|done]. split; [apply lookup_insert_eq|apply next_id_range| |].
    + cbn [stream_payload]. rewrite zlen_app, be16_zlen, app_nil_r, zlen_cons by done. lia.
    + eexists _, b'. split_and!; [done|apply heap_new_buf_eq|done].
Qed.

(** *** A whole stream *)

(** The calls an application makes, with the number of bytes each took. *)
Fixpoint stream_write_all (s : ptr) (ds : list (list Z)) : M node (list Z) :=
  match ds with
  | [] => mret []
  | d :: ds =>
      w ← pouch_stream_write s d (zlen d);
      ws ← stream_write_all s ds;
      mret (w :: ws)
  end.

(** The bytes taken. *)
Definition taken (ds : list (list Z)) (ws : list Z) : list Z :=
  concat (zip_with (λ d w, slice 0 w d) ds ws).

Lemma wp_stream_write_all ds n lk i o first cur :
  node_inv n lk → stream_rep n i o first cur → session_valid o n →
  Forall (Forall is_byte) ds → 0 ≤ st_bytes o → st_bytes o + zlen (concat ds) < 2 ^ 32 →
  wp (stream_write_all (Some i) ds) (λ ws n', ∃ o' cur' cs,
    length ws = length ds ∧ stream_step i o first n n' o' cur' cs ∧
    st_bytes o' = st_bytes o + zlen (taken ds ws) ∧
    concat cs ++ cur' = cur ++ taken ds ws ∧ (taken ds ws = [] → cs = []) ∧ node_inv n' lk) n.
Proof.
  intros Hinv Hrep Hval Hds. revert n o first cur Hinv Hrep Hval.
  induction Hds as [|d ds Hd _ IH]; intros n o first cur Hinv Hrep Hval Hnn Htot;
    cbn [stream_write_all].
  { wp_step. exists o, cur, []. unfold taken. cbn. rewrite app_nil_r.
    split_and!; [done|by apply stream_step_refl|change (zlen []) with 0; lia|done|done|done]. }
  cbn [concat] in Htot. rewrite zlen_app in Htot. pose proof (zlen_nonneg (concat ds)).
  pose proof (zlen_nonneg d). wp_step.
  eapply wp_mono; [apply (wp_stream_write n lk i o first cur d (zlen d)); [done..|lia]|].
  intros w n1 (o1 & cur1 & cs1 & Hw & Hst1 & Hby1 & Hcat1 & Hnone1 & _ & Hinv1).
  rewrite usz_small in Hby1 by lia.
  assert (session_valid o1 n1) as Hval1.
  { unfold session_valid. destruct Hst1 as [_ _ -> _ (ls & Hfr & _)].
    by rewrite (stream_frame_session _ _ _ _ Hfr). }
  wp_step. eapply wp_mono; [apply (IH n1 o1 (first && bool_decide (cs1 = [])) cur1); [done|apply Hst1|done|lia|lia]|].
  intros ws n2 (o2 & cur2 & cs2 & Hlen & Hst2 & Hby2 & Hcat2 & Hnone2 & Hinv2). wp_step.
  exists o2, cur2, (cs1 ++ cs2). change (taken (d :: ds) (w :: ws)) with (slice 0 w d ++ taken ds ws).
  split_and!; [cbn; by rewrite Hlen|by eapply stream_step_trans| | | |done].
  - rewrite Hby2, Hby1, zlen_app, zlen_slice by lia. lia.
  - by rewrite concat_app, <- app_assoc, Hcat2, app_assoc, Hcat1, <- app_assoc.
  - intros [Hw0 Ht]%app_eq_nil. rewrite Hnone1, Hnone2; [done|done|].
    apply (f_equal zlen) in Hw0. rewrite zlen_slice in Hw0 by lia. exact Hw0.
Qed.

(** *** Delivering a stream *)

Fixpoint stream_data_calls (id : Z) (ds : list (list Z)) : list callback :=
  match ds with
  | [] => []
  | d :: ds =>
      map (λ h, data_cb h id (Some d) (zlen d) (bool_decide (ds = []))) pouch_downlink_handlers ++
      stream_data_calls id ds
  end.

Lemma wp_finished_push n l b id start d last Q :
  heap (n_mem n) !! l = Some b → wf_buf b → 0 < id < 32 → wf_start start →
  zlen (stream_payload start d) ≤ MAX_BLOCK_PAYLOAD_SIZE →
  contents b = block_bytes id (bool_decide (is_Some start)) last (stream_payload start d) →
  Q tt (set_calls (n_calls n ++ stream_calls id start d last) n) →
  wp (pouch_downlink_block_push (Some l)) Q n.
Proof.
  intros Hb Hwf Hid Hst Hsz Hco HQ. pose proof max_payload_range.
  pose proof (view_rest_init _ _ _ Hb Hwf) as Hr. rewrite Hco in Hr.
  assert (zlen d ≤ zlen (stream_payload start d)) as Hd.
  { destruct start as [[path ct]|]; cbn; [|lia]. rewrite zlen_app, zlen_cons, zlen_app.
    pose proof (zlen_nonneg (sys_put_be16 ct)). pose proof (zlen_nonneg path). lia. }
  unfold pouch_downlink_block_push. wp_step. apply wp_on_mem.
  eapply wp_block_decode_hdr; [|  |done|exact Hr|]; [lia|lia|]. intros v' _ Hr'.
  rewrite set_mem_id. cbn [hdr_is_stream hdr_stream_id hdr_is_first hdr_is_last].
  unfold BLOCK_ID_ENTRY. destruct (Z.eqb_spec id 0); [lia|]. cbn [negb].
  by eapply (wp_stream_push _ _ start d); [|lia| |].
Qed.

Lemma wp_stream_block_push n lk l id start d last Q :
  node_inv n lk → 0 < id < 32 → wf_start start →
  finished_block (n_mem n) id (bool_decide (is_Some start)) last l (stream_payload start d) →
  Q tt (set_calls (n_calls n ++ stream_calls id start d last) n) →
  wp (pouch_downlink_block_push (Some l)) Q n.
Proof.
  intros Hinv ?? (Hsz & b & Hb & Hco). apply (wp_finished_push n l b); try done. by apply (owns_wf _ _ Hinv l).
Qed.

Lemma wp_push_rest n lk id ls cs l cur cb Q :
  node_inv n lk → 0 < id < 32 →
  stream_blocks (n_mem n) id false ls cs → finished_block (n_mem n) id false true l cur →
  Q tt (set_calls (cb ++ stream_data_calls id (cs ++ [cur])) n) →
  wp (push_all (ls ++ [l])) Q (set_calls cb n).
Proof.
  intros Hinv Hid. revert cs cb. induction ls as [|l' ls IH]; intros [|c cs] cb;
    cbn [stream_blocks app push_all foldr]; try done.
  - intros _ Hfin HQ. wp_step. eapply (wp_stream_block_push _ lk l id None cur); [done..|].
    wp_step. revert HQ. cbn. by rewrite app_nil_r.
  - intros [Hc Hcs] Hfin HQ. wp_step.
    eapply (wp_stream_block_push _ lk l' id None c); [done..|].
    apply (IH cs); [done|done|]. revert HQ. cbn. rewrite bool_decide_false by by destruct cs.
    by rewrite <- app_assoc.
Qed.

Lemma wp_push_stream n lk id path ct ls cs l cur d ds Q :
  node_inv n lk → 0 < id < 32 → wf_start (Some (path, ct)) →
  stream_blocks (n_mem n) id true ls cs →
  finished_block (n_mem n) id (bool_decide (cs = [])) true l cur →
  cs ++ [cur] = stream_payload (Some (path, ct)) d :: ds →
  Q tt (set_calls (n_calls n ++ map (λ h, start_cb h id path ct) pouch_downlink_handlers ++
          stream_data_calls id (d :: ds)) n) →
  wp (push_all (ls ++ [l])) Q n.
Proof.
  intros Hinv Hid Hst Hbl Hfin Hps HQ. destruct ls as [|l0 ls], cs as [|c cs]; try done;
    cbn [app push_all foldr] in *; injection Hps as Hpay Hds; subst ds.
  - wp_step. eapply (wp_stream_block_push _ lk l id (Some (path, ct)) d true); [done..|by subst|].
    wp_step. revert HQ. cbn. by rewrite app_nil_r.
  - destruct Hbl as [Hc Hcs]. wp_step.
    eapply (wp_stream_block_push _ lk l0 id (Some (path, ct)) d false); [done..|by subst|].
    apply (wp_push_rest _ lk id ls cs l cur); [done..|]. revert HQ. cbn.
    rewrite bool_decide_false by by destruct cs. by rewrite <- !app_assoc.
Qed.

(** The pieces of a stream start with the header, then comes the data. *)
Lemma stream_pieces start cs cur data :
  zlen (stream_payload start []) ≤ MAX_BLOCK_PAYLOAD_SIZE →
  Forall (λ c, zlen c = MAX_BLOCK_PAYLOAD_SIZE) cs →
  concat cs ++ cur = stream_payload start [] ++ data →
  ∃ d ds, concat (d :: ds) = data ∧ cs ++ [cur] = stream_payload start d :: ds.
Proof.
  intros Hh Hfull Hcat.
  assert (∀ d, stream_payload start d = stream_payload start [] ++ d) as Hpay.
  { intros d. destruct start as [[path ct]|]; cbn; [|done]. rewrite app_nil_r.
    by rewrite <- app_assoc. }
  destruct Hfull as [|c cs Hc Hcs].
  - exists data, []. cbn in *. rewrite app_nil_r, Hcat. by rewrite (Hpay data).
  - cbn [concat] in Hcat. rewrite <- app_assoc in Hcat.
    apply app_eq_inv in Hcat as [(k & Hk & Hcat)|(k & Hk & Hcat)].
    + exists k, (cs ++ [cur]). split; [|by rewrite Hpay, Hk].
      cbn. rewrite concat_app. cbn. by rewrite app_nil_r, Hcat.
    + exists [], (cs ++ [cur]). rewrite Hk, zlen_app in Hh.
      assert (k = []) as ->.
      { destruct k; [done|]. rewrite zlen_cons in Hh. pose proof (zlen_nonneg k). lia. }
      cbn. rewrite app_nil_r in *. rewrite concat_app. cbn. rewrite app_nil_r. by rewrite Hcat, Hk.
Qed.

(** ** Properties *)

(** C22: a stream opened, written in any number of calls and closed, is
    delivered as one start callback with its path and content type followed by
    data callbacks whose data put together are exactly the bytes the writes
    took, in order, the last callback alone marked last; a stream that took no
    byte, or could not be opened, delivers nothing. *)
Theorem stream_round_trip n lk path ct ds :
  node_inv n lk → streams_ok (n_streams n) → slist_items (up_processing (n_uplink n)) = [] →
  3 + zlen path ≤ MAX_BLOCK_PAYLOAD_SIZE → zlen path < 256 → 0 ≤ ct < 65536 →
  Forall is_byte path → Forall (Forall is_byte) ds → zlen (concat ds) < 2 ^ 32 →
  wp (s ← pouch_uplink_stream_open path ct;
      match s with
      | None => mret None
      | Some _ =>
          ws ← stream_write_all s ds;
          pouch_stream_close s;;
          n' ← get;
          push_all (slist_items (up_processing (n_uplink n')));;
          mret (Some ws)
      end)
    (λ r n', node_inv n' lk ∧
       match r with
       | Some ws => length ws = length ds ∧
           if decide (taken ds ws = []) then n_calls n' = n_calls n
           else ∃ id chunks, 0 < id < 32 ∧ concat chunks = taken ds ws ∧
             n_calls n' = n_calls n ++
               map (λ h, start_cb h id path ct) pouch_downlink_handlers ++
               stream_data_calls id chunks
       | None => n_calls n' = n_calls n
       end) n.
Proof.
  intros Hinv Hok Hq Hsz Hpl Hct Hp Hds Htot. wp_step.
  eapply wp_mono; [by apply (wp_stream_open n lk path ct)|].
  intros [i|] n1 (Hinv1 & Hok1 & Hopen).
  2: { wp_step. split; [done|]. apply (of_calls _ _ (open_refused_frame _ _ Hopen)). }
  destruct Hopen as (Hfr1 & _ & _ & _ & o & Hrep1 & _ & Hval1 & Hby1).
  wp_step. eapply wp_mono; [apply (wp_stream_write_all ds n1 lk i o true); [done..|lia|lia]|].
  intros ws n2 (o2 & cur2 & cs2 & Hlen & [Hrep2 Hid2 Hses2 Hfull2 (ls & Hfr2 & Hbl2)] & Hby2 &
    Hcat2 & Hnone2 & Hinv2).
  assert (session_valid o2 n2) as Hval2.
  { unfold session_valid. by rewrite (stream_frame_session _ _ _ _ Hfr2), Hses2. }
  pose proof (sf_queue _ _ _ _ Hfr2) as Hq2. rewrite (of_uplink _ _ Hfr1), Hq in Hq2.
  pose proof (sf_calls _ _ _ _ Hfr2) as Hcalls2. rewrite (of_calls _ _ Hfr1) in Hcalls2.
  rewrite Hby1 in Hby2. wp_step. destruct (decide (taken ds ws = [])) as [Htaken|Htaken].
  - rewrite (Hnone2 Htaken) in Hbl2. destruct ls; [|done].
    assert (st_bytes o2 = 0) as Hz by (rewrite Hby2, Htaken; done).
    eapply wp_mono; [eapply (wp_stream_close_drop n2 lk i o2); [done|done|right; lia]|].
    intros r n3 (_ & Hinv3 & _ & Hfr3). do 3 wp_step.
    rewrite (sf_queue _ _ _ _ Hfr3), Hq2. cbn [app push_all foldr]. do 2 wp_step.
    rewrite decide_True by done. split_and!; [done|done|]. by rewrite (sf_calls _ _ _ _ Hfr3).
  - assert (0 < zlen (taken ds ws)) as Hpos.
    { destruct (taken ds ws) as [|x t]; [done|]. rewrite zlen_cons. pose proof (zlen_nonneg t). lia. }
    eapply wp_mono; [eapply (wp_stream_close_data n2 lk i o2); [done..|lia]|].
    intros r n3 (_ & Hinv3 & _ & l & Hfr3 & Hfin). do 3 wp_step.
    rewrite (sf_queue _ _ _ _ Hfr3), Hq2. cbn [app].
    assert (stream_blocks (n_mem n3) (st_id o) true ls cs2) as Hbl3.
    { eapply stream_blocks_kept; [exact Hfr3| |done]. intros k Hk. by rewrite Hq2. }
    rewrite Hid2 in Hfin. pose proof (sr_id _ _ _ _ _ Hrep1) as Hido.
    destruct (stream_pieces (Some (path, ct)) cs2 cur2 (taken ds ws)) as (d & ds' & Hcat & Hps);
      [apply Hrep1|done|done|].
    eapply (wp_push_stream _ lk (st_id o) path ct); [done|done|by split|exact Hbl3|exact Hfin|done|].
    wp_step. rewrite decide_False by done. split_and!; [done|done|].
    exists (st_id o), (d :: ds'). split_and!; [lia|lia|done|].
    cbn [n_calls set_calls]. by rewrite (sf_calls _ _ _ _ Hfr3), Hcalls2.
Qed.

(** C24: a write to a valid stream takes a prefix of the data. The bytes taken
    follow those already in the current block; what filled up was queued in
    full blocks, the first block of the stream alone marked first; a write that
    took less than it was given ran out of memory; no buffer is lost. *)
Theorem stream_write_refines n lk i o first cur data len :
  node_inv n lk → stream_rep n i o first cur → session_valid o n → Forall is_byte data →
  0 ≤ len ≤ zlen data →
  wp (pouch_stream_write (Some i) data len) (λ w n', ∃ o' cur' cs,
    0 ≤ w ≤ len ∧ stream_step i o first n n' o' cur' cs ∧
    st_bytes o' = usz (st_bytes o + w) ∧ concat cs ++ cur' = cur ++ slice 0 w data ∧
    (w = 0 → cs = []) ∧
    (w < len → alloc_failed (n_mem n')) ∧ node_inv n' lk) n.
Proof. apply wp_stream_write. Qed.

(** C25: opening a stream never goes wrong for a path that fits in a block. It gives a
    valid stream, with the next id (of 1 to 31), whose first block holds the content
    type and path. Or it is refused: because 126 streams are open, or there is no memory
    for the stream, and then nothing changes; or because there is no memory for its
    block, and then nothing but the counter of the ids changes, which has moved on by
    the id that was taken. *)
Theorem stream_open_refines n lk path ct :
  node_inv n lk → streams_ok (n_streams n) →
  3 + zlen path ≤ MAX_BLOCK_PAYLOAD_SIZE → 0 ≤ ct < 65536 → Forall is_byte path →
  wp (pouch_uplink_stream_open path ct) (λ s n',
    node_inv n' lk ∧ streams_ok (n_streams n') ∧
    match s with
    | None => open_refused n n'
    | Some i => open_frame n n' ∧ stream_objs (n_streams n) !! i = None ∧
        (∀ j, j ≠ i → stream_objs (n_streams n') !! j = stream_objs (n_streams n) !! j) ∧
        stream_id (n_streams n') = after_id (stream_id (n_streams n)) ∧
        ∃ o, stream_rep n' i o true (stream_payload (Some (path, ct)) []) ∧
          st_id o = next_id (stream_id (n_streams n)) ∧ session_valid o n' ∧ st_bytes o = 0
    end) n.
Proof. apply wp_stream_open. Qed.

(** C29: a stream of a past session, or a null stream, takes no bytes and
    changes nothing; closing a null stream is refused, and closing a stream of
    a past session frees its block and sends nothing. *)
Theorem stale_stream n lk i o first cur data len :
  node_inv n lk → stream_rep n i o first cur → ¬ session_valid o n →
  pouch_stream_write (Some i) data len n = Ret 0 n ∧
  pouch_stream_write NULL data len n = Ret 0 n ∧
  pouch_stream_close NULL n = Ret (Some EINVAL) n ∧
  wp (pouch_stream_close (Some i)) (λ r n', r = success ∧ node_inv n' lk ∧
    stream_objs (n_streams n') = delete i (stream_objs (n_streams n)) ∧
    stream_frame i n n' []) n.
Proof.
  intros Hinv Hrep Hval. split_and!; [|done|done|].
  - apply wp_run. unfold pouch_stream_write. wp_step.
    eapply wp_stream_is_valid; [apply Hrep|]. rewrite bool_decide_false by done. cbn [negb]. by wp_step.
  - eapply wp_stream_close_drop; [done|done|by left].
Qed.
End stream_facts.

(** ** Witnesses *)
Section stream_witnesses.
#[local] Existing Instances small_config small_config_ok zephyr_ref zephyr_ref_spec
  malloc_always crypto_none one_handler.

Lemma node_0_streams_ok : streams_ok (n_streams node_0).
Proof. split; [by exists 1|done]. Qed.

Definition sample_data : list (list Z) := [replicate 40 7; [1; 2; 3]; replicate 30 9].

Lemma stream_round_trip_witness :
  wp (s ← pouch_uplink_stream_open [46; 97] 42;
      match s with
      | None => mret None
      | Some _ =>
          ws ← stream_write_all s sample_data;
          pouch_stream_close s;;
          n' ← get;
          push_all (slist_items (up_processing (n_uplink n')));;
          mret (Some ws)
      end)
    (λ r n', node_inv n' [] ∧
       match r with
       | Some ws => length ws = length sample_data ∧
           if decide (taken sample_data ws = []) then n_calls n' = n_calls node_0
           else ∃ id chunks, 0 < id < 32 ∧ concat chunks = taken sample_data ws ∧
             n_calls n' = n_calls node_0 ++
               map (λ h, start_cb h id [46; 97] 42) pouch_downlink_handlers ++
               stream_data_calls id chunks
       | None => n_calls n' = n_calls node_0
       end) node_0.
Proof.
  apply (stream_round_trip node_0 [] [46; 97] 42 sample_data);
    [apply init_node_inv|apply node_0_streams_ok|done|done|done|done|solve_bytes|solve_bytes|done].
Defined.

(** The node after a stream was opened. *)
Definition opened : option (ptr * node) :=
  match pouch_uplink_stream_open [46; 97] 42 node_0 with Ret s n => Some (s, n) | _ => None end.

Definition node_1 : node := match opened with Some (_, n) => n | None => node_0 end.

Definition stream_1 : pouch_stream := mk_stream 1 (Some 1%nat) 0 0.

Lemma node_1_inv : node_inv node_1 [].
Proof.
  unfold node_1, opened.
  pose proof (wp_stream_open node_0 [] [46; 97] 42 (init_node_inv _) node_0_streams_ok) as Hw.
  apply wp_inv in Hw as (s & n & -> & Hn & _); [done|done|done|solve_bytes].
Qed.

Lemma node_1_rep : stream_rep node_1 0 stream_1 true (stream_payload (Some ([46; 97], 42)) []).
Proof.
  split; [by vm_compute|done|by vm_compute|]. exists 1%nat.
  eexists. split_and!; [done|by vm_compute|]. split; [|by vm_compute|by vm_compute].
  split; [by vm_compute|by vm_compute|solve_bytes].
Qed.

Lemma stream_write_refines_witness :
  wp (pouch_stream_write (Some 0%nat) (replicate 40 7) 40) (λ w n', ∃ o' cur' cs,
    0 ≤ w ≤ 40 ∧ stream_step 0 stream_1 true node_1 n' o' cur' cs ∧
    st_bytes o' = usz (st_bytes stream_1 + w) ∧
    concat cs ++ cur' = stream_payload (Some ([46; 97], 42)) [] ++ slice 0 w (replicate 40 7) ∧
    (w = 0 → cs = []) ∧
    (w < 40 → alloc_failed (n_mem n')) ∧ node_inv n' []) node_1.
Proof.
  apply (stream_write_refines node_1 [] 0 stream_1 true (stream_payload (Some ([46; 97], 42)) []));
    [apply node_1_inv|apply node_1_rep|by vm_compute|solve_bytes|done].
Defined.

Lemma stream_open_refines_witness :
  wp (pouch_uplink_stream_open [46; 97] 42) (λ s n',
    node_inv n' [] ∧ streams_ok (n_streams n') ∧
    match s with
    | None => open_refused node_0 n'
    | Some i => open_frame node_0 n' ∧ stream_objs (n_streams node_0) !! i = None ∧
        (∀ j, j ≠ i → stream_objs (n_streams n') !! j = stream_objs (n_streams node_0) !! j) ∧
        stream_id (n_streams n') = after_id (stream_id (n_streams node_0)) ∧
        ∃ o, stream_rep n' i o true (stream_payload (Some ([46; 97], 42)) []) ∧
          st_id o = next_id (stream_id (n_streams node_0)) ∧ session_valid o n' ∧ st_bytes o = 0
    end) node_0.
Proof.
  apply (stream_open_refines node_0 [] [46; 97] 42);
    [apply init_node_inv|apply node_0_streams_ok|done|done|solve_bytes].
Defined.

(** [node_1] in the next session. *)
Definition node_2 : node := set_uplink (up_set_id 1 (n_uplink node_1)) node_1.

Lemma stale_stream_witness :
  pouch_stream_write (Some 0%nat) [1] 1 node_2 = Ret 0 node_2 ∧
  pouch_stream_write NULL [1] 1 node_2 = Ret 0 node_2 ∧
  pouch_stream_close NULL node_2 = Ret (Some EINVAL) node_2 ∧
  wp (pouch_stream_close (Some 0%nat)) (λ r n', r = success ∧ node_inv n' [] ∧
    stream_objs (n_streams n') = delete 0%nat (stream_objs (n_streams node_2)) ∧
    stream_frame 0 node_2 n' []) node_2.
Proof.
  apply (stale_stream node_2 [] 0 stream_1 true (stream_payload (Some ([46; 97], 42)) []) [1] 1).
  - apply node_1_inv.
  - destruct node_1_rep as [? ? ? ?]. by split.
  - by vm_compute.
Defined.

(** *** What goes wrong *)

(** Opening [k] streams, keeping them open. *)
Fixpoint open_streams_n (k : nat) : M node (list ptr) :=
  match k with
  | O => mret []
  | S k => s ← pouch_uplink_stream_open [46; 97] 42; l ← open_streams_n k; mret (s :: l)
  end.

Definition ids_of (n : node) (l : list ptr) : list (option Z) :=
  map (λ s, s ≫= λ i, st_id <$> (stream_objs (n_streams n) !! i)) l.

(** Ids are reused while their stream is open: of 32 streams that are open
    together the first and the last have the same id, so the receiver cannot
    tell their blocks apart. *)
Lemma stream_ids_collide :
  wp (open_streams_n 32) (λ l n',
    NoDup l ∧ ids_of n' l !! 0%nat = Some (Some 1) ∧ ids_of n' l !! 31%nat = Some (Some 1)) node_0.
Proof.
  eapply (wp_mono _ (λ l n', bool_decide (NoDup l ∧ ids_of n' l !! 0%nat = Some (Some 1) ∧
    ids_of n' l !! 31%nat = Some (Some 1)) = true)); [by vm_compute|].
  intros l n' H. by apply bool_decide_eq_true in H.
Qed.

(** A path that does not fit in a block is written past the end of the
    block's storage: the length of the path is not checked. *)
Lemma long_stream_path_overruns :
  pouch_uplink_stream_open (replicate 30 47) 42 node_0 = UB.
Proof. by vm_compute. Qed.
End stream_witnesses.
