(* ===== verification/Uplink.v ===== *)
(** The uplink: [src/uplink.c] and the creation of the pouch header
    ([src/header.c]).

    Writers queue finished blocks; the processing work item encrypts them and
    moves them, behind the pouch header, to the transport queue; the transport
    drains that queue in pieces of its own size. *)
From S2P Require Import Prelude Zephyr Config Buf Block Header Node CryptoNone CryptoSpec.
From S2P Require Import Reference Entry Stream.

(** [enum flags]: bit numbers in [uplink.flags]. *)
Definition SESSION_ACTIVE : Z := 0.
Definition POUCH_CLOSING : Z := 1.
Definition POUCH_CLOSED : Z := 2.

(** [src/header.c] *)
Definition POUCH_HEADER_VERSION : Z := 1.
Definition POUCH_HEADER_OVERHEAD : Z := 2.
Definition POUCH_HEADER_OVERHEAD_ENCRYPTION_NONE : Z := 3.

(** [enum pouch_result] *)
Inductive pouch_result := POUCH_NO_MORE_DATA | POUCH_MORE_DATA | POUCH_ERROR.

#[export] Instance pouch_result_eq_dec : EqDecision pouch_result.
Proof. solve_decision. Defined.

Section uplink.
Context `{Cfg : Config} `{Zk : Zephyr} `{Mal : Malloc} `{Cr : Crypto} `{Co : HeaderCodec}.

(** *** The pouch header *)

Definition POUCH_HEADER_MAX_LEN : Z :=
  if CONFIG_POUCH_ENCRYPTION_SAEAD then 16 + SESSION_ID_LEN + CERT_REF_SHORT_LEN
  else POUCH_HEADER_OVERHEAD + POUCH_HEADER_OVERHEAD_ENCRYPTION_NONE + POUCH_DEVICE_ID_MAX_LEN.

(** The encoder writes at most [maxlen] bytes at the write position; on failure
    what it may have written is in a buffer that is freed. *)
Definition write_header (buf : ptr) (maxlen : Z) : M node rc :=
  '(err, info) ← on_crypto_st crypto_header_get;
  match err with
  | Some _ => mret err
  | None =>
      dst ← on_mem (buf_next buf);
      match cbor_encode_pouch_header maxlen (mk_header POUCH_HEADER_VERSION info) with
      | None => mret (Some EZCBOR)
      | Some enc =>
          on_mem (store_bytes dst enc);;
          on_mem (buf_claim buf (zlen enc));;
          mret success
      end
  end.

Definition pouch_header_create : M node ptr :=
  header ← on_mem (buf_alloc POUCH_HEADER_MAX_LEN);
  match header with
  | None => mret NULL
  | Some _ =>
      err ← write_header header POUCH_HEADER_MAX_LEN;
      match err with
      | Some _ => on_mem (buf_free header);; mret NULL
      | None => mret header
      end
  end.

(** *** The state of the session *)

Definition session_is_active (u : pouch_uplink) : bool :=
  negb (Z.land (up_flags u) (BIT SESSION_ACTIVE) =? 0).

Definition pouch_is_open (u : pouch_uplink) : bool :=
  negb (negb (Z.land (up_flags u) (BIT POUCH_CLOSED) =? 0)).

Definition pouch_is_closing (u : pouch_uplink) : bool :=
  negb (Z.land (up_flags u) (BIT POUCH_CLOSING) =? 0).

Definition uplink_set_bit (i : Z) : M node unit :=
  modify_uplink (λ u, up_set_flags (atomic_set_bit (up_flags u) i) u).

Definition uplink_clear_bit (i : Z) : M node unit :=
  modify_uplink (λ u, up_set_flags (atomic_clear_bit (up_flags u) i) u).

(** [atomic_test_and_set_bit]: whether the bit was set before. *)
Definition uplink_test_and_set_bit (i : Z) : M node bool :=
  n ← get; uplink_set_bit i;; mret (atomic_test_bit (up_flags (n_uplink n)) i).

(** *** Processing *)

Definition transport_submit (p : ptr) : M node unit :=
  n ← get;
  q ← on_mem (buf_queue_submit (up_transport (n_uplink n)) p);
  modify_uplink (up_set_transport q).

Fixpoint process_loop (fuel : nat) : M node unit :=
  match fuel with
  | O => nofuel
  | S fuel =>
      n ← get;
      if session_is_active (n_uplink n) && pouch_is_open (n_uplink n) &&
         negb (buf_queue_is_empty (up_processing (n_uplink n)))
      then
        '(block, q) ← on_mem (buf_queue_get (up_processing (n_uplink n)));
        modify_uplink (up_set_processing q);;
        encrypted ← on_crypto (crypto_encrypt_block block);
        match encrypted with
        | None => process_loop fuel
        | Some _ =>
            n ← get;
            match up_header (n_uplink n) with
            | Some _ =>
                transport_submit (up_header (n_uplink n));;
                modify_uplink (up_set_header NULL)
            | None => mret tt
            end;;
            transport_submit encrypted;;
            process_loop fuel
        end
      else mret tt
  end.

(** A queue holds live buffers, so it is not longer than the heap is large. *)
Definition heap_fuel (n : node) : nat := S (size (heap (n_mem n))).

Definition process_blocks : M node unit :=
  n ← get;
  process_loop (heap_fuel n);;
  n ← get;
  if pouch_is_closing (n_uplink n) then uplink_set_bit POUCH_CLOSED else mret tt.

Definition end_session : M node unit :=
  on_crypto_st crypto_session_end;;
  uplink_clear_bit SESSION_ACTIVE;;
  pouch_event_emit POUCH_EVENT_SESSION_END.

(** *** Application interface *)

(** [lock] is the outcome of the lock that [entry_block_close] takes. The work queue may
    run between the calls; it matters in [Preemption]. *)
Definition close_thread (lock : rc) : thread node rc :=
  call_then (uplink_test_and_set_bit POUCH_CLOSING) (λ closing : bool,
  if closing then returns (Some EALREADY) else
  call_then (entry_block_close lock) (λ err,
  call_then (k_work_submit work_process) (λ _,
  returns err))).

Definition pouch_uplink_close (lock : rc) : M node rc := run_thread (close_thread lock).

Lemma pouch_uplink_close_run lock n :
  pouch_uplink_close lock n =
  (closing ← uplink_test_and_set_bit POUCH_CLOSING;
   if closing : bool then mret (Some EALREADY) else
   err ← entry_block_close lock;
   k_work_submit work_process;;
   mret err) n.
Proof.
  unfold pouch_uplink_close. cbn [run_thread close_thread]. cbv [mbind M_bind].
  by destruct (uplink_test_and_set_bit POUCH_CLOSING n) as [[]| |].
Qed.

Definition uplink_init : M node unit :=
  modify_uplink (up_set_processing buf_queue_init);;
  modify_uplink (up_set_transport buf_queue_init).

(** *** Transport interface *)

(** [true] is the pointer to the session, [false] the null pointer. *)
Definition pouch_uplink_start : M node bool :=
  active ← uplink_test_and_set_bit SESSION_ACTIVE;
  if active : bool then mret false else
  err ← on_crypto_st crypto_session_start;
  match err with
  | Some _ => uplink_clear_bit SESSION_ACTIVE;; mret false
  | None =>
      err ← on_crypto_st crypto_pouch_start;
      match err with
      | Some _ => uplink_clear_bit SESSION_ACTIVE;; mret false
      | None =>
          header ← pouch_header_create;
          modify_uplink (up_set_header header);;
          match header with
          | None => uplink_clear_bit SESSION_ACTIVE;; mret false
          | Some _ =>
              pouch_event_emit POUCH_EVENT_SESSION_START;;
              n ← get;
              (if negb (buf_queue_is_empty (up_processing (n_uplink n)))
               then k_work_submit work_process else mret tt);;
              mret true
          end
      end
  end.

(** The loop of [pouch_uplink_fill]: [dst] is what was written to the
    destination so far, its length being [*len]. *)
Fixpoint fill_loop (fuel : nat) (maxlen : Z) (dst : list Z) : M node (list Z) :=
  match fuel with
  | O => nofuel
  | S fuel =>
      if zlen dst <? maxlen then
        n ← get;
        ready ← on_mem (pouch_bufview_is_ready (up_reader (n_uplink n)));
        got ←
          (if ready : bool then mret true else
             '(buf, q) ← on_mem (buf_queue_get (up_transport (n_uplink n)));
             modify_uplink (up_set_transport q);;
             match buf with
             | None => mret false
             | Some _ => modify_uplink (up_set_reader (pouch_bufview_init buf));; mret true
             end);
        if negb got then mret dst else
        n ← get;
        '(d, v) ← on_mem (pouch_bufview_memcpy (up_reader (n_uplink n)) (usz (maxlen - zlen dst)));
        modify_uplink (up_set_reader v);;
        avail ← on_mem (pouch_bufview_available v);
        (if avail =? 0 then
           v ← on_mem (pouch_bufview_free v); modify_uplink (up_set_reader v)
         else mret tt);;
        fill_loop fuel maxlen (dst ++ d)
      else mret dst
  end.

(** The result, [*len], and the bytes written to the destination. *)
Definition pouch_uplink_fill (maxlen : Z) : M node (pouch_result * Z * list Z) :=
  n ← get;
  if negb (session_is_active (n_uplink n)) then mret (POUCH_ERROR, maxlen, []) else
  dst ← fill_loop (S (heap_fuel n)) maxlen [];
  n ← get;
  more ←
    (if pouch_is_open (n_uplink n) then mret true else
       avail ← on_mem (pouch_bufview_available (up_reader (n_uplink n)));
       if negb (avail =? 0) then mret true
       else mret (negb (buf_queue_is_empty (up_transport (n_uplink n)))));
  if more : bool then mret (POUCH_MORE_DATA, zlen dst, dst) else
  end_session;;
  mret (POUCH_NO_MORE_DATA, zlen dst, dst).

Definition pouch_uplink_error : M node Z := n ← get; mret (up_error (n_uplink n)).

(** The loop of [pouch_uplink_finish]. *)
Fixpoint finish_loop (fuel : nat) : M node unit :=
  match fuel with
  | O => nofuel
  | S fuel =>
      n ← get;
      '(buf, q) ← on_mem (buf_queue_get (up_transport (n_uplink n)));
      modify_uplink (up_set_transport q);;
      match buf with
      | None => mret tt
      | Some _ => on_mem (buf_free buf);; finish_loop fuel
      end
  end.

Definition pouch_uplink_finish : M node unit :=
  n ← get;
  finish_loop (heap_fuel n);;
  n ← get;
  v ← on_mem (pouch_bufview_free (up_reader (n_uplink n)));
  modify_uplink (up_set_reader v);;
  n ← get;
  match up_header (n_uplink n) with
  | Some _ => on_mem (buf_free (up_header (n_uplink n)));; modify_uplink (up_set_header NULL)
  | None => mret tt
  end;;
  modify_uplink (λ u, up_set_id (atomic_inc (up_id u)) u);;
  n ← get;
  modify_uplink (up_set_flags 0);;
  if negb (Z.land (up_flags (n_uplink n)) (BIT SESSION_ACTIVE) =? 0) then end_session else mret tt.
End uplink.

(** ** Specification *)

Section uplink_spec.
Context `{COk : ConfigOk} `{ZS : ZephyrSpec} `{Mal : Malloc} `{Cr : Crypto}.
Context {CS : CryptoSpec Cr}.
Implicit Types (n : node) (l k : nat).

(** What a run of the crypto module makes of a sequence of blocks. *)
Inductive seal_all : crypto_st → list (list Z) → list (list Z) → crypto_st → Prop :=
  | seal_nil c : seal_all c [] [] c
  | seal_drop c x c1 xs ys c2 :
      seals c x None c1 → seal_all c1 xs ys c2 → seal_all c (x :: xs) ys c2
  | seal_keep c x y c1 xs ys c2 :
      seals c x (Some y) c1 → seal_all c1 xs ys c2 → seal_all c (x :: xs) (y :: ys) c2.

(** The buffers the node owns, those waiting for processing apart. *)
Definition owned_rest n : list nat :=
  slist_items (up_transport (n_uplink n)) ++ option_list (up_header (n_uplink n)) ++
  option_list (view_buf (up_reader (n_uplink n))) ++ option_list (n_entry n) ++
  stream_bufs (n_streams n) ++ downlink_owned (n_downlink n).

(** The invariant of the uplink: memory, crypto state, and only finished blocks
    in the processing queue. *)
Record uplink_ok n (lk : list nat) : Prop := {
  uo_inv : node_inv n lk;
  uo_crypto : crypto_ok (n_crypto n);
  uo_blocks : ∀ l x, l ∈ slist_items (up_processing (n_uplink n)) →
    ptr_contents (n_mem n) (Some l) = Some x → plain_block x;
}.

(** The parts of the node that processing leaves alone. *)
Record process_frame n n' : Prop := {
  pf_entry : n_entry n' = n_entry n;
  pf_streams : n_streams n' = n_streams n;
  pf_downlink : n_downlink n' = n_downlink n;
  pf_events : n_events n' = n_events n;
  pf_calls : n_calls n' = n_calls n;
  pf_work : n_work n' = n_work n;
  pf_id : up_id (n_uplink n') = up_id (n_uplink n);
  pf_error : up_error (n_uplink n') = up_error (n_uplink n);
  pf_reader : up_reader (n_uplink n') = up_reader (n_uplink n);
}.

Lemma process_frame_refl n : process_frame n n.
Proof. done. Qed.

Lemma process_frame_trans n1 n2 n3 :
  process_frame n1 n2 → process_frame n2 n3 → process_frame n1 n3.
Proof. intros [] []. split; congruence. Qed.

Lemma owned_processing n lk :
  owned n ++ lk ≡ₚ slist_items (up_processing (n_uplink n)) ++ owned_rest n ++ lk.
Proof. unfold owned, uplink_owned, owned_rest. solve_Permutation. Qed.

Lemma owns_length m ls : heap_owns m ls → (length ls ≤ size (heap m))%nat.
Proof.
  intros [Hn Hd _ _ _]. rewrite <- (size_list_to_set (C := gset nat) ls Hn), <- size_dom.
  apply subseteq_size. intros l Hl. apply elem_of_list_to_set, Hd in Hl. by apply elem_of_dom.
Qed.

Lemma processing_length n lk :
  node_inv n lk → (length (slist_items (up_processing (n_uplink n))) < heap_fuel n)%nat.
Proof.
  intros Hinv. apply owns_length in Hinv. rewrite owned_processing, length_app in Hinv.
  unfold heap_fuel. lia.
Qed.

Lemma wp_transport_submit n l b Q :
  heap (n_mem n) !! l = Some b → l ∉ slist_items (up_transport (n_uplink n)) →
  (∀ q, slist_items q = slist_items (up_transport (n_uplink n)) ++ [l] →
     Q tt (set_uplink (up_set_transport q (n_uplink n)) n)) →
  wp (transport_submit (Some l)) Q n.
Proof.
  intros Hl Hq HQ. unfold transport_submit. do 3 wp_step. apply wp_on_mem.
  eapply wp_queue_submit; [done|done|]. intros q Hitems. rewrite set_mem_id.
  unfold modify_uplink. wp_step. by apply HQ.
Qed.

(** Taking the next block and encrypting it. *)
Lemma wp_encrypt_next {A} n lk l ls x (k : ptr → M node A) Q :
  uplink_ok n lk → slist_items (up_processing (n_uplink n)) = l :: ls →
  ptr_contents (n_mem n) (Some l) = Some x →
  (∀ r n', process_frame n n' → crypto_ok (n_crypto n') →
     slist_items (up_processing (n_uplink n')) = ls →
     up_transport (n_uplink n') = up_transport (n_uplink n) →
     up_header (n_uplink n') = up_header (n_uplink n) →
     up_flags (n_uplink n') = up_flags (n_uplink n) →
     heap_owns (n_mem n') (option_list r ++ ls ++ owned_rest n ++ lk) →
     (∀ k, k ∈ ls ++ owned_rest n ++ lk → heap (n_mem n') !! k = heap (n_mem n) !! k) →
     seals (n_crypto n) x (ptr_contents (n_mem n') r) (n_crypto n') →
     wp (k r) Q n') →
  wp ('(block, q) ← on_mem (buf_queue_get (up_processing (n_uplink n)));
      modify_uplink (up_set_processing q);;
      encrypted ← on_crypto (crypto_encrypt_block block);
      k encrypted) Q n.
Proof.
  intros [Hinv Hc Hbl] Hq Hx HQ.
  assert (heap_owns (n_mem n) (l :: ls ++ owned_rest n ++ lk)) as Hown.
  { unfold node_inv in Hinv. by rewrite owned_processing, Hq in Hinv. }
  assert (∃ b, heap (n_mem n) !! l = Some b ∧ contents b = x) as (b & Hl & Hb).
  { cbn in Hx. destruct (heap (n_mem n) !! l) as [b|]; [|done]. exists b. by injection Hx. }
  assert (plain_block x) as Hpl by (apply (Hbl l); [rewrite Hq; apply elem_of_cons; by left|done]).
  wp_step. apply wp_on_mem. eapply wp_queue_get_cons; [done|done|]. intros q Hls.
  rewrite set_mem_id. unfold modify_uplink. do 3 wp_step. apply wp_zoom.
  eapply wp_mono; [eapply (encrypt_ok (n_mem n) (n_crypto n) l (ls ++ owned_rest n ++ lk) b);
    [done|done|done|by rewrite Hb]|].
  intros r [m c] (Hc' & Hm & Hk & Hs). cbn in Hc', Hm, Hk, Hs. rewrite Hb in Hs.
  by apply HQ.
Qed.

(** Sending an encrypted block off, behind the header if that has not gone yet. *)
Lemma wp_ship {A} n lk (e : nat) (k : M node A) Q :
  heap_owns (n_mem n) (e :: slist_items (up_processing (n_uplink n)) ++ owned_rest n ++ lk) →
  (∀ n', process_frame n n' → n_mem n' = n_mem n → n_crypto n' = n_crypto n →
     up_processing (n_uplink n') = up_processing (n_uplink n) →
     slist_items (up_transport (n_uplink n')) =
       slist_items (up_transport (n_uplink n)) ++ option_list (up_header (n_uplink n)) ++ [e] →
     up_header (n_uplink n') = NULL → up_flags (n_uplink n') = up_flags (n_uplink n) →
     node_inv n' lk → wp k Q n') →
  wp (match up_header (n_uplink n) with
      | Some _ => transport_submit (up_header (n_uplink n));; modify_uplink (up_set_header NULL)
      | None => mret tt
      end;;
      transport_submit (Some e);; k) Q n.
Proof.
  intros Hown HQ. destruct (owns_lookup _ _ e Hown) as (be & He & _); [by apply elem_of_cons; left|].
  pose proof (owns_nodup _ _ Hown) as Hnd. unfold owned_rest in Hown, Hnd.
  apply list.NoDup_cons in Hnd as [Hnotin Hnd]. rewrite !elem_of_app in Hnotin.
  apply list.NoDup_app in Hnd as (_ & _ & Hnd). apply list.NoDup_app in Hnd as (Hnd & _ & _).
  apply list.NoDup_app in Hnd as (_ & Hdis & _).
  wp_step. destruct (up_header (n_uplink n)) as [h|] eqn:Hh.
  - destruct (owns_lookup _ _ h Hown) as (bh & Hbh & _); [set_solver|].
    wp_step. eapply wp_transport_submit; [done| |].
    { intros Hin. apply (Hdis h Hin). set_solver. }
    intros q1 Hq1. unfold modify_uplink. do 2 wp_step.
    eapply wp_transport_submit; [done| |].
    { cbn. rewrite Hq1, elem_of_app, list_elem_of_singleton. intros [Hin| ->]; set_solver. }
    intros q2 Hq2. cbn in Hq2. rewrite Hq1, <- app_assoc in Hq2. apply HQ; try done.
    unfold node_inv. eapply heap_owns_proper; [|exact Hown].
    rewrite owned_processing. unfold owned_rest. cbn. rewrite Hq2. cbn. solve_Permutation.
  - wp_step. wp_step. eapply wp_transport_submit; [done|set_solver|].
    intros q2 Hq2. apply HQ; try done.
    unfold node_inv. eapply heap_owns_proper; [|exact Hown].
    rewrite owned_processing. unfold owned_rest. cbn. rewrite Hq2, Hh. cbn. solve_Permutation.
Qed.

(** What processing does with the blocks [xs] that wait. *)
Record processed n lk (xs : list (list Z)) n' (ys : list (list Z)) : Prop := {
  pr_frame : process_frame n n';
  pr_sealed : seal_all (n_crypto n) xs ys (n_crypto n');
  pr_empty : slist_items (up_processing (n_uplink n')) = [];
  pr_flags : up_flags (n_uplink n') = up_flags (n_uplink n);
  pr_header : up_header (n_uplink n') = if decide (ys = []) then up_header (n_uplink n) else NULL;
  pr_transport : ∃ es, slist_items (up_transport (n_uplink n')) =
      slist_items (up_transport (n_uplink n)) ++
      (if decide (ys = []) then [] else option_list (up_header (n_uplink n))) ++ es ∧
    holds (n_mem n') es ys;
  pr_kept : ∀ k, k ∈ owned_rest n ++ lk → heap (n_mem n') !! k = heap (n_mem n) !! k;
  pr_inv : node_inv n' lk;
  pr_crypto : crypto_ok (n_crypto n');
}.

Definition can_process (u : pouch_uplink) : bool := session_is_active u && pouch_is_open u.

Lemma can_process_flags u u' : up_flags u' = up_flags u → can_process u' = can_process u.
Proof. unfold can_process, session_is_active, pouch_is_open. by intros ->. Qed.

Lemma owned_rest_frame n n' :
  process_frame n n' → up_transport (n_uplink n') = up_transport (n_uplink n) →
  up_header (n_uplink n') = up_header (n_uplink n) → owned_rest n' = owned_rest n.
Proof. intros [He Hs Hd _ _ _ _ _ Hr] Ht Hh. unfold owned_rest. by rewrite He, Hs, Hd, Hr, Ht, Hh. Qed.

Lemma processed_nil n lk :
  uplink_ok n lk → slist_items (up_processing (n_uplink n)) = [] → processed n lk [] n [].
Proof.
  intros [? ? ?] Hq. split; try done; [constructor|]. exists []. split; [|constructor].
  cbn. by rewrite !app_nil_r.
Qed.

Lemma processed_drop n lk x xs n1 n' ys :
  process_frame n n1 → seals (n_crypto n) x None (n_crypto n1) →
  up_transport (n_uplink n1) = up_transport (n_uplink n) →
  up_header (n_uplink n1) = up_header (n_uplink n) →
  up_flags (n_uplink n1) = up_flags (n_uplink n) →
  (∀ k, k ∈ owned_rest n ++ lk → heap (n_mem n1) !! k = heap (n_mem n) !! k) →
  processed n1 lk xs n' ys → processed n lk (x :: xs) n' ys.
Proof.
  intros Hfr Hs Ht Hh Hfl Hk [Hfr' Hs' Hq' Hfl' Hh' Ht' Hk' Hinv' Hc'].
  rewrite Ht, Hh in Ht'. rewrite Hh in Hh'. split; try done.
  - by eapply process_frame_trans.
  - by eapply seal_drop.
  - congruence.
  - intros k Hin. rewrite Hk', Hk; [done|done|]. by rewrite (owned_rest_frame n n1).
Qed.

Lemma processed_keep n lk x xs n2 n' e y ys :
  process_frame n n2 → seals (n_crypto n) x (Some y) (n_crypto n2) →
  ptr_contents (n_mem n2) (Some e) = Some y →
  slist_items (up_transport (n_uplink n2)) =
    slist_items (up_transport (n_uplink n)) ++ option_list (up_header (n_uplink n)) ++ [e] →
  up_header (n_uplink n2) = NULL → up_flags (n_uplink n2) = up_flags (n_uplink n) →
  (∀ k, k ∈ owned_rest n ++ lk → heap (n_mem n2) !! k = heap (n_mem n) !! k) →
  processed n2 lk xs n' ys → processed n lk (x :: xs) n' (y :: ys).
Proof.
  intros Hfr Hs He Ht Hh Hfl Hk [Hfr' Hs' Hq' Hfl' Hh' (es & Ht' & Hes) Hk' Hinv' Hc'].
  assert (∀ k, k ∈ owned_rest n ++ lk → k ∈ owned_rest n2 ++ lk) as Hsub.
  { intros k. unfold owned_rest. destruct Hfr as [-> -> -> _ _ _ _ _ ->].
    rewrite Ht, !elem_of_app. tauto. }
  split; try done.
  - by eapply process_frame_trans.
  - by eapply seal_keep.
  - congruence.
  - rewrite Hh', Hh. by case_decide.
  - exists (e :: es). split.
    + rewrite Ht', Ht, Hh. cbn [option_list]. case_decide; by rewrite <- !app_assoc.
    + constructor; [|done]. cbn. rewrite Hk'; [done|]. unfold owned_rest. rewrite Ht. set_solver.
  - intros k Hin. rewrite Hk', Hk; auto.
Qed.

Lemma wp_process_loop fuel n lk ls xs :
  uplink_ok n lk → can_process (n_uplink n) = true →
  slist_items (up_processing (n_uplink n)) = ls → holds (n_mem n) ls xs →
  (length ls < fuel)%nat →
  wp (process_loop fuel) (λ _ n', ∃ ys, processed n lk xs n' ys) n.
Proof.
  revert fuel n xs. induction ls as [|l ls IH]; intros fuel n xs Hok Hcan Hq Hh Hfuel;
    (destruct fuel as [|fuel]; [cbn in Hfuel; lia|]); cbn [process_loop]; do 2 wp_step;
    unfold can_process in Hcan; rewrite Hcan, queue_is_empty_spec, Hq.
  { rewrite bool_decide_true by done. cbn [andb negb]. wp_step. exists [].
    inversion Hh; subst. by apply processed_nil. }
  inversion Hh as [|? x ? xs' Hx Hxs]; subst.
  rewrite bool_decide_false by done. cbn [andb negb].
  eapply (wp_encrypt_next n lk l ls x); [done..|].
  intros r n1 Hfr1 Hc1 Hq1 Ht1 Hhd1 Hfl1 Hown1 Hk1 Hs1.
  pose proof (owned_rest_frame _ _ Hfr1 Ht1 Hhd1) as Hrest1.
  assert (holds (n_mem n1) ls xs') as Hxs1.
  { eapply holds_kept; [|exact Hxs]. intros k Hk. apply Hk1, elem_of_app. by left. }
  assert (∀ k y, k ∈ ls → ptr_contents (n_mem n1) (Some k) = Some y → plain_block y) as Hbl1.
  { intros k y Hk Hy. apply (uo_blocks _ _ Hok k); [rewrite Hq; by apply elem_of_cons; right|].
    revert Hy. cbn. rewrite Hk1; [done|]. apply elem_of_app. by left. }
  destruct r as [e|].
  - do 2 wp_step. eapply (wp_ship n1 lk e); [by rewrite Hq1, Hrest1|].
    intros n2 Hfr2 Hm2 Hc2 Hq2 Ht2 Hhd2 Hfl2 Hinv2. rewrite Ht1, Hhd1 in Ht2.
    eapply wp_mono; [apply (IH fuel n2 xs')|].
    + split; [done|by rewrite Hc2|]. rewrite Hm2, Hq2, Hq1. exact Hbl1.
    + rewrite <- Hcan. apply can_process_flags. congruence.
    + by rewrite Hq2.
    + by rewrite Hm2.
    + cbn in Hfuel. lia.
    + intros [] n3 (ys & Hpr). cbn in Hs1.
      destruct (heap (n_mem n1) !! e) as [be|] eqn:Hbe.
      2: { destruct (owns_lookup _ _ e Hown1) as (? & ? & _); [by apply elem_of_cons; left|congruence]. }
      exists (contents be :: ys).
      eapply (processed_keep n lk x xs' n2 n3 e); try done.
      * by eapply process_frame_trans.
      * by rewrite Hc2.
      * cbn. by rewrite Hm2, Hbe.
      * congruence.
      * intros k Hk. rewrite Hm2. apply Hk1, elem_of_app. by right.
  - eapply wp_mono; [apply (IH fuel n1 xs')|].
    + split; [|done|by rewrite Hq1]. unfold node_inv.
      eapply heap_owns_proper; [apply owned_processing|]. by rewrite Hq1, Hrest1.
    + rewrite <- Hcan. by apply can_process_flags.
    + done.
    + done.
    + cbn in Hfuel. lia.
    + intros [] n3 (ys & Hpr). exists ys.
      eapply (processed_drop n lk x xs' n1); try done.
      intros k Hk. apply Hk1, elem_of_app. by right.
Qed.

(** *** Draining the transport queue *)

(** What is left to read of the buffer being sent: a buffer that was read to its
    end has been freed. *)
Definition reader_bytes n (rb : list Z) : Prop :=
  match view_buf (up_reader (n_uplink n)) with
  | None => rb = []
  | Some _ => rb ≠ [] ∧ view_rest (n_mem n) (up_reader (n_uplink n)) rb
  end.

(** The parts of the node that the transport leaves alone. *)
Record fill_frame n n' : Prop := {
  ff_entry : n_entry n' = n_entry n;
  ff_streams : n_streams n' = n_streams n;
  ff_downlink : n_downlink n' = n_downlink n;
  ff_crypto : n_crypto n' = n_crypto n;
  ff_events : n_events n' = n_events n;
  ff_calls : n_calls n' = n_calls n;
  ff_work : n_work n' = n_work n;
  ff_flags : up_flags (n_uplink n') = up_flags (n_uplink n);
  ff_id : up_id (n_uplink n') = up_id (n_uplink n);
  ff_header : up_header (n_uplink n') = up_header (n_uplink n);
  ff_processing : up_processing (n_uplink n') = up_processing (n_uplink n);
}.

Lemma fill_frame_trans n1 n2 n3 : fill_frame n1 n2 → fill_frame n2 n3 → fill_frame n1 n3.
Proof. intros [] []. split; congruence. Qed.

Lemma owned_reader n lk :
  owned n ++ lk ≡ₚ option_list (view_buf (up_reader (n_uplink n))) ++
    slist_items (up_transport (n_uplink n)) ++ slist_items (up_processing (n_uplink n)) ++
    option_list (up_header (n_uplink n)) ++ option_list (n_entry n) ++
    stream_bufs (n_streams n) ++ downlink_owned (n_downlink n) ++ lk.
Proof. unfold owned, uplink_owned. solve_Permutation. Qed.

Lemma wp_fill_step {A} n lk l rb len (k : list Z → M node A) Q :
  node_inv n lk → view_buf (up_reader (n_uplink n)) = Some l →
  view_rest (n_mem n) (up_reader (n_uplink n)) rb → 0 ≤ len →
  (∀ n', fill_frame n n' → up_transport (n_uplink n') = up_transport (n_uplink n) →
     reader_bytes n' (drop (Z.to_nat len) rb) →
     view_buf (up_reader (n_uplink n')) =
       (if decide (drop (Z.to_nat len) rb = []) then NULL else Some l) →
     (∀ j, j ≠ l → heap (n_mem n') !! j = heap (n_mem n) !! j) → node_inv n' lk →
     wp (k (take (Z.to_nat len) rb)) Q n') →
  wp ('(d, v) ← on_mem (pouch_bufview_memcpy (up_reader (n_uplink n)) len);
      modify_uplink (up_set_reader v);;
      avail ← on_mem (pouch_bufview_available v);
      (if avail =? 0 then
         v ← on_mem (pouch_bufview_free v); modify_uplink (up_set_reader v)
       else mret tt);;
      k d) Q n.
Proof.
  intros Hinv Hv Hr Hlen HQ. wp_step. apply wp_on_mem. eapply wp_view_memcpy; [done|done|].
  intros v' Hv' Hr'. rewrite set_mem_id. unfold modify_uplink. do 3 wp_step. apply wp_on_mem.
  eapply wp_available; [exact Hr'|]. rewrite set_mem_id. wp_step.
  destruct (Z.eqb_spec (zlen (drop (Z.to_nat len) rb)) 0) as [Hz|Hz].
  - wp_step. apply wp_on_mem. unfold pouch_bufview_free. rewrite Hv', Hv. wp_step.
    eapply wp_free_owned.
    { eapply heap_owns_proper; [|exact Hinv]. rewrite owned_reader, Hv. cbn. reflexivity. }
    intros m' Hm' _ Hk. do 2 wp_step. apply zlen_zero_nil in Hz. apply HQ; try done.
    + by rewrite decide_True.
    + unfold node_inv. eapply heap_owns_proper; [|exact Hm'].
      rewrite owned_reader. cbn. solve_Permutation.
  - wp_step. apply HQ; try done.
    + unfold reader_bytes. cbn. rewrite Hv', Hv. split; [|done]. intros E. by rewrite E in Hz.
    + rewrite decide_False; [cbn; by rewrite Hv'|]. intros E. by rewrite E in Hz.
    + unfold node_inv. eapply heap_owns_proper; [|exact Hinv].
      rewrite !owned_reader. cbn. by rewrite Hv'.
Qed.

Lemma wp_fill_full fuel n maxlen dst Q :
  maxlen ≤ zlen dst → (0 < fuel)%nat → Q dst n → wp (fill_loop fuel maxlen dst) Q n.
Proof.
  intros Hfull Hf HQ. destruct fuel; [lia|]. cbn [fill_loop].
  destruct (Z.ltb_spec (zlen dst) maxlen); [lia|]. by wp_step.
Qed.

(** What a run of the loop achieves: [out] is appended to [dst], taken off the
    front of the bytes to send. *)
Definition filled n lk rb (ls : list nat) ts maxlen dst (dst' : list Z) n' : Prop :=
  ∃ out rb' ls' ts',
    dst' = dst ++ out ∧ rb ++ concat ts = out ++ rb' ++ concat ts' ∧
    reader_bytes n' rb' ∧ slist_items (up_transport (n_uplink n')) = ls' ∧
    holds (n_mem n') ls' ts' ∧ zlen dst' ≤ maxlen ∧
    (zlen dst' < maxlen → rb' = [] ∧ ls' = []) ∧ fill_frame n n' ∧ node_inv n' lk ∧
    (∀ k, k ∉ ls → Some k ≠ view_buf (up_reader (n_uplink n)) →
       heap (n_mem n') !! k = heap (n_mem n) !! k).

(** The rest of a turn, once there is a buffer to read from. *)
Lemma wp_fill_turn fuel n lk l rb ls ts maxlen dst :
  (∀ n rb ls ts dst, node_inv n lk → reader_bytes n rb →
     slist_items (up_transport (n_uplink n)) = ls → holds (n_mem n) ls ts →
     zlen dst ≤ maxlen →
     (length ls + length (option_list (view_buf (up_reader (n_uplink n)))) + 1 < fuel)%nat →
     wp (fill_loop fuel maxlen dst) (filled n lk rb ls ts maxlen dst) n) →
  node_inv n lk → view_buf (up_reader (n_uplink n)) = Some l →
  view_rest (n_mem n) (up_reader (n_uplink n)) rb →
  slist_items (up_transport (n_uplink n)) = ls → holds (n_mem n) ls ts →
  zlen dst < maxlen < 2 ^ 32 → (length ls + 1 < fuel)%nat →
  wp (n ← get;
      '(d, v) ← on_mem (pouch_bufview_memcpy (up_reader (n_uplink n)) (usz (maxlen - zlen dst)));
      modify_uplink (up_set_reader v);;
      avail ← on_mem (pouch_bufview_available v);
      (if avail =? 0 then
         v ← on_mem (pouch_bufview_free v); modify_uplink (up_set_reader v)
       else mret tt);;
      fill_loop fuel maxlen (dst ++ d)) (filled n lk rb ls ts maxlen dst) n.
Proof.
  intros IH Hinv Hv Hr Hls Hts Hlen Hfuel. pose proof (zlen_nonneg dst). do 2 wp_step.
  rewrite usz_small by lia. set (room := maxlen - zlen dst).
  eapply (wp_fill_step n lk l rb room); [done|done|done|lia|]. intros n1 Hfr1 Ht1 Hr1 Hv1 Hk1 Hinv1.
  set (d := take _ rb). set (rb1 := drop _ rb) in *.
  assert (l ∉ ls) as Hl.
  { intros Hin. apply (owned_split n lk l (ls ++ slist_items (up_processing (n_uplink n)) ++
      option_list (up_header (n_uplink n)) ++ option_list (n_entry n) ++
      stream_bufs (n_streams n) ++ downlink_owned (n_downlink n) ++ lk) Hinv); [|set_solver].
    rewrite owned_reader, Hv, Hls. done. }
  assert (holds (n_mem n1) ls ts) as Hts1.
  { eapply holds_kept; [|exact Hts]. intros k Hk. apply Hk1. by intros ->. }
  assert (rb = d ++ rb1) as Hrb by (symmetry; apply take_drop).
  assert (zlen d ≤ room ∧ (rb1 ≠ [] → zlen d = room)) as [Hd Hd1].
  { apply zlen_take_drop. lia. }
  assert (zlen (dst ++ d) ≤ maxlen) as Hle by (rewrite zlen_app; lia).
  assert (∀ dst' n', filled n1 lk rb1 ls ts maxlen (dst ++ d) dst' n' →
    filled n lk rb ls ts maxlen dst dst' n') as Hstep.
  { intros dst' n' (out & rb' & ls' & ts' & -> & Hcat & Hr' & Hls' & Hts' & Hle' & Hend & Hfr & Hi & Hk).
    exists (d ++ out), rb', ls', ts'. rewrite Hrb, <- !app_assoc, Hcat.
    rewrite <- app_assoc in Hle', Hend. split_and!; try done; [by eapply fill_frame_trans|].
    intros k Hkl Hkv. rewrite Hv in Hkv. rewrite Hk; [apply Hk1; congruence|done|].
    rewrite Hv1. case_decide; [done|congruence]. }
  destruct (decide (rb1 = [])) as [Hnil|Hne].
  - eapply wp_mono; [|exact Hstep]. apply IH; try done; [by rewrite Ht1|].
    rewrite Hv1. cbn. lia.
  - eapply wp_fill_full; [rewrite zlen_app; specialize (Hd1 Hne); lia|lia|].
    apply Hstep. exists [], rb1, ls, ts. rewrite app_nil_r.
    split_and!; try done; [by rewrite Ht1|].
    intros Hlt. rewrite zlen_app in Hlt. specialize (Hd1 Hne). lia.
Qed.

Lemma wp_fill_loop fuel n lk rb ls ts maxlen dst :
  maxlen < 2 ^ 32 → node_inv n lk → reader_bytes n rb →
  slist_items (up_transport (n_uplink n)) = ls → holds (n_mem n) ls ts → zlen dst ≤ maxlen →
  (length ls + length (option_list (view_buf (up_reader (n_uplink n)))) + 1 < fuel)%nat →
  wp (fill_loop fuel maxlen dst) (filled n lk rb ls ts maxlen dst) n.
Proof.
  intros Hmax. revert n rb ls ts dst. induction fuel as [|fuel IH];
    intros n rb ls ts dst Hinv Hr Hls Hts Hlen Hfuel; [lia|]. cbn [fill_loop].
  destruct (Z.ltb_spec (zlen dst) maxlen) as [Hroom|Hfull].
  2: { wp_step. exists [], rb, ls, ts. rewrite app_nil_r. split_and!; try done; lia. }
  do 3 wp_step. apply wp_on_mem. unfold pouch_bufview_is_ready.
  unfold reader_bytes in Hr. destruct (view_buf (up_reader (n_uplink n))) as [l|] eqn:Hv.
  - destruct Hr as [Hne Hr]. wp_step. eapply wp_available; [exact Hr|]. do 2 wp_step.
    rewrite set_mem_id. destruct (Z.ltb_spec 0 (zlen rb)) as [_|Hz].
    2: { destruct rb; [done|]. rewrite zlen_cons in Hz. pose proof (zlen_nonneg rb). lia. }
    wp_step. cbn in Hfuel. eapply (wp_fill_turn fuel n lk l rb ls ts); try done. lia.
  - wp_step. rewrite set_mem_id. do 2 wp_step. apply wp_on_mem. destruct ls as [|l ls].
    + eapply wp_queue_get_empty; [done|]. intros q Hq. rewrite set_mem_id.
      unfold modify_uplink. wp_step. wp_step. wp_step. cbn [negb]. wp_step. inversion Hts; subst.
      exists [], [], [], []. cbn. rewrite app_nil_r. split_and!; try done.
      * unfold reader_bytes. cbn. by rewrite Hv.
      * unfold node_inv. eapply heap_owns_proper; [|exact Hinv].
        rewrite !owned_reader. cbn. by rewrite Hq, Hls.
    + inversion Hts as [|? x ? ts' Hx Hts']; subst.
      destruct (heap (n_mem n) !! l) as [b|] eqn:Hb; [|by cbn in Hx; rewrite Hb in Hx].
      cbn in Hx. rewrite Hb in Hx. injection Hx as <-.
      eapply wp_queue_get_cons; [done|done|]. intros q Hq. rewrite set_mem_id.
      unfold modify_uplink. wp_step. wp_step. wp_step. wp_step. wp_step. cbn [negb].
      eapply wp_mono.
      { eapply (wp_fill_turn fuel _ lk l (contents b) ls ts'); try done.
        - unfold node_inv. eapply heap_owns_proper; [|exact Hinv].
          rewrite !owned_reader. cbn. rewrite Hq, Hv, Hls. cbn. solve_Permutation.
        - apply view_rest_init; [done|]. by apply (owns_wf _ _ Hinv l).
        - cbn in Hfuel. lia. }
      intros dst' n' (out & rb' & ls' & ts'' & -> & Hcat & Hr' & Hls' & Hts'' & Hle' & Hend & Hfr & Hi & Hk).
      exists out, rb', ls', ts''. cbn. split_and!; try done.
      * destruct Hfr. by split.
      * intros k Hkl Hkv. rewrite not_elem_of_cons in Hkl. apply Hk; [set_solver|]. cbn. intros [= ->]. set_solver.
Qed.

(** *** Flags *)

Lemma session_is_active_bit (u : pouch_uplink) : session_is_active u = Z.testbit (up_flags u) SESSION_ACTIVE.
Proof. unfold session_is_active. by rewrite BIT_test by done. Qed.

Lemma pouch_is_open_bit (u : pouch_uplink) : pouch_is_open u = negb (Z.testbit (up_flags u) POUCH_CLOSED).
Proof. unfold pouch_is_open. by rewrite BIT_test by done. Qed.

Lemma pouch_is_closing_bit (u : pouch_uplink) : pouch_is_closing u = Z.testbit (up_flags u) POUCH_CLOSING.
Proof. unfold pouch_is_closing. by rewrite BIT_test by done. Qed.

(** *** One call of [pouch_uplink_fill] *)

(** The bytes the transport has yet to send. *)
Definition tx n (bs : list Z) : Prop :=
  ∃ rb ts, reader_bytes n rb ∧ holds (n_mem n) (slist_items (up_transport (n_uplink n))) ts ∧
    bs = rb ++ concat ts.

(** The transport has sent all it was given. *)
Definition tx_empty n : Prop :=
  view_buf (up_reader (n_uplink n)) = NULL ∧ slist_items (up_transport (n_uplink n)) = [].

(** The state at the end of a session: the session bit is cleared, and the end
    event emitted. *)
Definition event_emitted e n n' : Prop :=
  n_events n' = (k_msgq_put (n_events n) e).2 ∧ work_event ∈ n_work n'.

Lemma reader_length n lk :
  node_inv n lk →
  (length (slist_items (up_transport (n_uplink n))) +
   length (option_list (view_buf (up_reader (n_uplink n)))) + 1 < S (heap_fuel n))%nat.
Proof.
  intros Hinv. apply owns_length in Hinv. rewrite owned_reader, !length_app in Hinv.
  unfold heap_fuel. lia.
Qed.

Lemma wp_fill_bytes n lk bs maxlen :
  node_inv n lk → tx n bs → 0 ≤ maxlen < 2 ^ 32 →
  wp (fill_loop (S (heap_fuel n)) maxlen []) (λ out n', ∃ bs',
    bs = out ++ bs' ∧ tx n' bs' ∧ zlen out ≤ maxlen ∧
    (zlen out < maxlen → bs' = [] ∧ tx_empty n') ∧ fill_frame n n' ∧ node_inv n' lk ∧
    (∀ k, k ∈ slist_items (up_processing (n_uplink n)) →
       heap (n_mem n') !! k = heap (n_mem n) !! k)) n.
Proof.
  intros Hinv (rb & ts & Hr & Hts & ->) Hmax.
  eapply wp_mono.
  { apply (wp_fill_loop _ n lk rb (slist_items (up_transport (n_uplink n))) ts maxlen []); try done;
      [lia|change (zlen []) with 0; lia|by eapply reader_length]. }
  intros out n' (out' & rb' & ls' & ts' & Hout & Hcat & Hr' & Hls' & Hts' & Hle & Hend & Hfr & Hi & Hk).
  cbn in Hout. subst out'. exists (rb' ++ concat ts'). split_and!; try done.
  - exists rb', ts'. by rewrite Hls'.
  - intros Hlt. destruct (Hend Hlt) as [-> ->]. inversion Hts'; subst. split; [done|].
    split; [|done]. unfold reader_bytes in Hr'. by destruct (view_buf _) as [?|]; [destruct Hr'|].
  - intros k Hin. pose proof (owns_nodup _ _ Hinv) as Hnd. rewrite owned_processing in Hnd.
    apply list.NoDup_app in Hnd as (_ & Hdis & _). specialize (Hdis k Hin).
    unfold owned_rest in Hdis. apply Hk; [set_solver|].
    intros Hv. apply Hdis. rewrite <- Hv. set_solver.
Qed.

(** What the end of the session leaves alone, and what it does. *)
Record session_ended n n' : Prop := {
  se_entry : n_entry n' = n_entry n;
  se_streams : n_streams n' = n_streams n;
  se_downlink : n_downlink n' = n_downlink n;
  se_calls : n_calls n' = n_calls n;
  se_id : up_id (n_uplink n') = up_id (n_uplink n);
  se_header : up_header (n_uplink n') = up_header (n_uplink n);
  se_processing : up_processing (n_uplink n') = up_processing (n_uplink n);
  se_flags : up_flags (n_uplink n') = Z.clearbit (up_flags (n_uplink n)) SESSION_ACTIVE;
  se_event : event_emitted POUCH_EVENT_SESSION_END n n';
}.

Lemma session_ended_after n n1 n2 : fill_frame n n1 → session_ended n1 n2 → session_ended n n2.
Proof.
  intros [? ? ? ? He ? Hw ? ? ? ?] [? ? ? ? ? ? ? ? [Hev Hwk]]. split; try congruence.
  split; [by rewrite Hev, He|done].
Qed.

Lemma wp_end_session n lk bs :
  node_inv n lk → crypto_ok (n_crypto n) → tx n bs →
  wp end_session (λ _ n', session_ended n n' ∧ n_mem n' = n_mem n ∧ tx n' bs ∧
    up_reader (n_uplink n') = up_reader (n_uplink n) ∧
    up_transport (n_uplink n') = up_transport (n_uplink n) ∧
    node_inv n' lk ∧ crypto_ok (n_crypto n')) n.
Proof.
  intros Hinv Hc Htx. unfold end_session. wp_step. apply wp_zoom.
  eapply wp_mono; [by apply session_end_ok|]. intros [] c Hc'.
  unfold uplink_clear_bit, modify_uplink, pouch_event_emit, k_work_submit. do 5 wp_step.
  split_and!; try done. split; try done; [cbn; by rewrite atomic_clear_bit_spec by done|].
  split; [done|apply add_work_in].
Qed.

Lemma wp_tx_more n bs Q :
  tx n bs →
  (¬ tx_empty n → Q true n) → (tx_empty n → Q false n) →
  wp (avail ← on_mem (pouch_bufview_available (up_reader (n_uplink n)));
      if negb (avail =? 0) then mret true
      else mret (negb (buf_queue_is_empty (up_transport (n_uplink n))))) Q n.
Proof.
  intros (rb & ts & Hr & _ & _) HT HF. unfold reader_bytes in Hr. unfold tx_empty in *.
  wp_step. apply wp_on_mem. destruct (view_buf (up_reader (n_uplink n))) as [l|] eqn:Hv.
  - destruct Hr as [Hne Hr]. eapply wp_available; [exact Hr|]. rewrite set_mem_id.
    destruct (Z.eqb_spec (zlen rb) 0) as [Hz|Hz].
    { apply zlen_zero_nil in Hz. done. }
    cbn [negb]. wp_step. apply HT. by intros [? _].
  - unfold pouch_bufview_available. rewrite Hv. wp_step. rewrite set_mem_id. cbn [Z.eqb negb].
    wp_step. rewrite queue_is_empty_spec. case_bool_decide as Hq; [by apply HF|].
    apply HT. by intros [_ ?].
Qed.

Lemma wp_uplink_fill n lk bs maxlen :
  node_inv n lk → crypto_ok (n_crypto n) → session_is_active (n_uplink n) = true →
  tx n bs → 0 ≤ maxlen < 2 ^ 32 →
  wp (pouch_uplink_fill maxlen) (λ r n', ∃ out bs',
    r.1.2 = zlen out ∧ r.2 = out ∧ bs = out ++ bs' ∧ zlen out ≤ maxlen ∧ tx n' bs' ∧
    node_inv n' lk ∧ crypto_ok (n_crypto n') ∧
    (∀ k, k ∈ slist_items (up_processing (n_uplink n)) →
       heap (n_mem n') !! k = heap (n_mem n) !! k) ∧
    if pouch_is_open (n_uplink n) then r.1.1 = POUCH_MORE_DATA ∧ fill_frame n n' else
    if decide (r.1.1 = POUCH_MORE_DATA)
    then fill_frame n n' ∧ zlen out = maxlen ∧ ¬ tx_empty n'
    else r.1.1 = POUCH_NO_MORE_DATA ∧ bs' = [] ∧ tx_empty n' ∧ session_ended n n') n.
Proof.
  intros Hinv Hc Hact Htx Hmax. unfold pouch_uplink_fill. do 2 wp_step. rewrite Hact. cbn [negb].
  wp_step. eapply wp_mono; [by apply (wp_fill_bytes n lk bs)|].
  intros out n1 (bs' & Hbs & Htx1 & Hle & Hend & Hfr1 & Hinv1 & Hk1). do 2 wp_step.
  assert (pouch_is_open (n_uplink n1) = pouch_is_open (n_uplink n)) as ->.
  { unfold pouch_is_open. by rewrite (ff_flags _ _ Hfr1). }
  assert (crypto_ok (n_crypto n1)) as Hc1 by by rewrite (ff_crypto _ _ Hfr1).
  wp_step. destruct (pouch_is_open (n_uplink n)) eqn:Hopen.
  { do 2 wp_step. exists out, bs'. by split_and!. }
  eapply wp_tx_more; [done| |].
  - intros Hne. wp_step. exists out, bs'. cbn. split_and!; try done.
    rewrite decide_True by done. split_and!; [done| |done].
    destruct (Z.lt_ge_cases (zlen out) maxlen) as [Hlt|]; [|lia]. by destruct (Hend Hlt).
  - intros Hemp. wp_step. eapply wp_mono; [by apply (wp_end_session n1 lk bs')|].
    intros [] n2 (Hse & Hm2 & Htx2 & Hrd & Htr & Hinv2 & Hc2). wp_step.
    assert (bs' = []) as ->.
    { destruct Htx1 as (rb & ts & Hr & Hts & ->). destruct Hemp as [Hv Hq].
      rewrite Hq in Hts. inversion Hts; subst. unfold reader_bytes in Hr. rewrite Hv in Hr. by subst. }
    exists out, []. cbn. split_and!; try done.
    + intros k Hk. rewrite Hm2. by apply Hk1.
    + rewrite decide_False by done. split_and!; [done|done| |by eapply session_ended_after].
      unfold tx_empty in *. by rewrite Hrd, Htr.
Qed.

(** *** Draining to the end *)

(** The transport calls [pouch_uplink_fill] with a buffer of [maxlen] bytes until
    there is no more data. *)
Fixpoint drain (fuel : nat) (maxlen : Z) : M node (list Z) :=
  match fuel with
  | O => nofuel
  | S fuel =>
      '(r, _, out) ← pouch_uplink_fill maxlen;
      match r with
      | POUCH_MORE_DATA => rest ← drain fuel maxlen; mret (out ++ rest)
      | _ => mret out
      end
  end.

Lemma wp_drain fuel n lk bs maxlen :
  node_inv n lk → crypto_ok (n_crypto n) → session_is_active (n_uplink n) = true →
  pouch_is_open (n_uplink n) = false → tx n bs → 0 < maxlen < 2 ^ 32 → zlen bs < Z.of_nat fuel →
  wp (drain fuel maxlen) (λ out n',
    out = bs ∧ tx_empty n' ∧ session_ended n n' ∧ node_inv n' lk ∧ crypto_ok (n_crypto n')) n.
Proof.
  revert n bs. induction fuel as [|fuel IH]; intros n bs Hinv Hc Hact Hopen Htx Hmax Hfuel.
  { pose proof (zlen_nonneg bs). lia. }
  cbn [drain]. wp_step. eapply wp_mono; [eapply (wp_uplink_fill n lk bs maxlen); try done; lia|].
  intros [[r k] out'] n1 (out & bs' & _ & Hout & Hbs & Hle & Htx1 & Hinv1 & Hc1 & _ & Hres).
  cbn in Hout, Hres. subst out'. rewrite Hopen in Hres. subst bs. rewrite zlen_app in Hfuel.
  destruct (decide (r = POUCH_MORE_DATA)) as [->|Hr].
  - destruct Hres as (Hfr & Hfull & _). wp_step.
    eapply wp_mono; [apply (IH n1 bs'); try done|].
    + unfold session_is_active. by rewrite (ff_flags _ _ Hfr).
    + unfold pouch_is_open. by rewrite (ff_flags _ _ Hfr).
    + lia.
    + intros rest n2 (-> & He & Hse & Hinv2 & Hc2). wp_step. split_and!; try done.
      by eapply session_ended_after.
  - destruct Hres as (-> & -> & He & Hse). wp_step. rewrite app_nil_r. by split_and!.
Qed.

(** *** The processing work item *)

Lemma wp_process_blocks n lk xs :
  uplink_ok n lk → can_process (n_uplink n) = true →
  holds (n_mem n) (slist_items (up_processing (n_uplink n))) xs →
  wp process_blocks (λ _ n', ∃ n1 ys, processed n lk xs n1 ys ∧
    n' = if pouch_is_closing (n_uplink n)
         then set_uplink (up_set_flags (Z.setbit (up_flags (n_uplink n)) POUCH_CLOSED) (n_uplink n1)) n1
         else n1) n.
Proof.
  intros Hok Hcan Hxs. unfold process_blocks. do 3 wp_step.
  eapply wp_mono.
  { by apply (wp_process_loop _ n lk _ xs Hok Hcan eq_refl Hxs), (processing_length n lk), Hok. }
  intros [] n1 (ys & Hpr). do 2 wp_step.
  assert (pouch_is_closing (n_uplink n1) = pouch_is_closing (n_uplink n)) as ->.
  { unfold pouch_is_closing. by rewrite (pr_flags _ _ _ _ _ Hpr). }
  destruct (pouch_is_closing (n_uplink n)).
  - unfold uplink_set_bit, modify_uplink. wp_step. exists n1, ys. split; [done|].
    by rewrite atomic_set_bit_spec, (pr_flags _ _ _ _ _ Hpr) by done.
  - wp_step. by exists n1, ys.
Qed.

(** Without a session, or once the pouch is closed, blocks stay where they are. *)
Lemma wp_process_idle n Q :
  can_process (n_uplink n) = false →
  Q tt (if pouch_is_closing (n_uplink n)
        then set_uplink (up_set_flags (Z.setbit (up_flags (n_uplink n)) POUCH_CLOSED) (n_uplink n)) n
        else n) →
  wp process_blocks Q n.
Proof.
  intros Hcan HQ. unfold process_blocks, heap_fuel. do 3 wp_step. cbn [process_loop]. do 2 wp_step.
  unfold can_process in Hcan. rewrite Hcan. cbn [andb]. wp_step. do 2 wp_step.
  destruct (pouch_is_closing (n_uplink n)); [|by wp_step].
  unfold uplink_set_bit, modify_uplink. wp_step. by rewrite atomic_set_bit_spec by done.
Qed.
End uplink_spec.

(** ** Properties *)

Section uplink_theorems.
Context `{COk : ConfigOk} `{ZS : ZephyrSpec} `{Mal : Malloc} `{Cr : Crypto}.
Context {CS : CryptoSpec Cr}.
Implicit Types (n : node) (l k : nat).

(** C35: the processing work item takes the blocks off its queue in order while a
    session is active and its pouch not closed; each is encrypted or dropped, and
    the encrypted ones are put behind what the transport queue holds, the first
    behind the pouch header if that is still to go; nothing is lost, overtaken or
    sent twice. Otherwise blocks stay where they are. A pouch that is closing is
    closed afterwards. *)
Theorem process_refines n lk xs :
  uplink_ok n lk → holds (n_mem n) (slist_items (up_processing (n_uplink n))) xs →
  wp process_blocks (λ _ n', ∃ n1 ys,
    (if can_process (n_uplink n) then processed n lk xs n1 ys else n1 = n) ∧
    n' = if pouch_is_closing (n_uplink n)
         then set_uplink (up_set_flags (Z.setbit (up_flags (n_uplink n)) POUCH_CLOSED) (n_uplink n1)) n1
         else n1) n.
Proof.
  intros Hok Hxs. destruct (can_process (n_uplink n)) eqn:Hcan.
  - by apply wp_process_blocks.
  - apply wp_process_idle; [done|]. by exists n, [].
Qed.

(** One call of [pouch_uplink_fill] hands out the next bytes to send, at
    most as many as fit; it says there is more while the pouch is open, and then
    until everything was handed out; with the last byte of a closed pouch it ends
    the session. *)
Lemma fill_refines n lk bs maxlen :
  node_inv n lk → crypto_ok (n_crypto n) → session_is_active (n_uplink n) = true →
  tx n bs → 0 ≤ maxlen < 2 ^ 32 →
  wp (pouch_uplink_fill maxlen) (λ r n', ∃ out bs',
    r.1.2 = zlen out ∧ r.2 = out ∧ bs = out ++ bs' ∧ zlen out ≤ maxlen ∧ tx n' bs' ∧
    node_inv n' lk ∧ crypto_ok (n_crypto n') ∧
    (∀ k, k ∈ slist_items (up_processing (n_uplink n)) →
       heap (n_mem n') !! k = heap (n_mem n) !! k) ∧
    if pouch_is_open (n_uplink n) then r.1.1 = POUCH_MORE_DATA ∧ fill_frame n n' else
    if decide (r.1.1 = POUCH_MORE_DATA)
    then fill_frame n n' ∧ zlen out = maxlen ∧ ¬ tx_empty n'
    else r.1.1 = POUCH_NO_MORE_DATA ∧ bs' = [] ∧ tx_empty n' ∧ session_ended n n') n.
Proof. apply wp_uplink_fill. Qed.

(** Whatever room the transport offers in each call, a closed pouch is sent
    to its last byte in a bounded number of calls, and the calls together hand
    out exactly the bytes queued; the last one ends the session. *)
Lemma drain_sends fuel n lk bs maxlen :
  node_inv n lk → crypto_ok (n_crypto n) → session_is_active (n_uplink n) = true →
  pouch_is_open (n_uplink n) = false → tx n bs → 0 < maxlen < 2 ^ 32 → zlen bs < Z.of_nat fuel →
  wp (drain fuel maxlen) (λ out n',
    out = bs ∧ tx_empty n' ∧ session_ended n n' ∧ node_inv n' lk ∧ crypto_ok (n_crypto n')) n.
Proof. apply wp_drain. Qed.
End uplink_theorems.

Section uplink_witnesses.
#[local] Existing Instances small_config small_config_ok zephyr_ref zephyr_ref_spec
  malloc_always crypto_none crypto_none_spec.

(** A node in a session: two blocks wait for processing, the pouch header has not
    been sent, and a buffer is half read by the transport. *)
Definition node_u_bufs : list pouch_buf := [mk_buf 6 [0; 4; 192; 1; 2; 3];
  mk_buf 4 [0; 2; 65; 9]; mk_buf 3 [130; 1; 0]; mk_buf 4 [5; 6; 7; 8]].

Definition node_u : node := mk_node (list_mem node_u_bufs)
  (mk_uplink (Some 2%nat) 1 0 0 [0%nat; 1%nat] [] (mk_view (Some 3%nat) 2))
  NULL (init_streams) init_downlink (Some [1; 2; 3]) [] (k_msgq_define 4) [].

Lemma node_u_inv : node_inv node_u [].
Proof.
  unfold node_inv. assert (owned node_u ++ [] = seq 0 4) as -> by by vm_compute.
  apply (list_mem_owns node_u_bufs); [|done].
  repeat constructor; cbn; try done; solve_bytes.
Qed.

Lemma node_u_ok : uplink_ok node_u [].
Proof.
  split; [apply node_u_inv|by eexists|]. intros l x Hl Hx. cbn in Hl, Hx.
  apply elem_of_cons in Hl as [->|Hl]; [injection Hx as <-|apply list_elem_of_singleton in Hl as ->; injection Hx as <-].
  - by exists 0, true, true, [1; 2; 3].
  - by exists 1, true, false, [9].
Qed.

Lemma process_refines_witness :
  wp process_blocks (λ _ n', ∃ n1 ys,
    (if can_process (n_uplink node_u)
     then processed node_u [] [[0; 4; 192; 1; 2; 3]; [0; 2; 65; 9]] n1 ys else n1 = node_u) ∧
    n' = if pouch_is_closing (n_uplink node_u)
         then set_uplink (up_set_flags (Z.setbit (up_flags (n_uplink node_u)) POUCH_CLOSED) (n_uplink n1)) n1
         else n1) node_u.
Proof. apply process_refines; [apply node_u_ok|by repeat constructor]. Defined.

Lemma node_u_tx : tx node_u [7; 8].
Proof.
  exists [7; 8], []. split_and!; [|constructor|done]. split; [done|].
  exists 3%nat, (mk_buf 4 [5; 6; 7; 8]). split_and!; try done; cbn.
  split; cbn; [done|done|solve_bytes].
Qed.

Lemma fill_refines_witness :
  wp (pouch_uplink_fill 1) (λ r n', ∃ out bs',
    r.1.2 = zlen out ∧ r.2 = out ∧ [7; 8] = out ++ bs' ∧ zlen out ≤ 1 ∧ tx n' bs' ∧
    node_inv n' [] ∧ crypto_ok (n_crypto n') ∧
    (∀ k, k ∈ slist_items (up_processing (n_uplink node_u)) →
       heap (n_mem n') !! k = heap (n_mem node_u) !! k) ∧
    if pouch_is_open (n_uplink node_u) then r.1.1 = POUCH_MORE_DATA ∧ fill_frame node_u n' else
    if decide (r.1.1 = POUCH_MORE_DATA)
    then fill_frame node_u n' ∧ zlen out = 1 ∧ ¬ tx_empty n'
    else r.1.1 = POUCH_NO_MORE_DATA ∧ bs' = [] ∧ tx_empty n' ∧ session_ended node_u n') node_u.
Proof. apply (fill_refines node_u [] [7; 8] 1); [apply node_u_inv|by eexists|done|apply node_u_tx|done]. Defined.

(** The same node, with its pouch closed. *)
Definition node_c : node := set_uplink (up_set_flags 7 (n_uplink node_u)) node_u.

Lemma drain_sends_witness :
  wp (drain 3 1) (λ out n',
    out = [7; 8] ∧ tx_empty n' ∧ session_ended node_c n' ∧ node_inv n' [] ∧
    crypto_ok (n_crypto n')) node_c.
Proof.
  apply (drain_sends 3 node_c [] [7; 8] 1);
    [apply node_u_inv|by eexists|done|done|apply node_u_tx|done|done].
Defined.

(** What one run of the work item queues: the header, then the blocks. *)
Lemma process_example :
  wp process_blocks (λ _ n', slist_items (up_transport (n_uplink n')) = [2; 0; 1]%nat ∧
    slist_items (up_processing (n_uplink n')) = [] ∧ up_header (n_uplink n') = NULL) node_u.
Proof. by vm_compute. Qed.
End uplink_witnesses.
