(* ===== verification/Session.v ===== *)
(** Sessions: what [pouch_uplink_start], [pouch_uplink_close],
    [pouch_uplink_finish] of [src/uplink.c] and [pouch_header_create] of
    [src/header.c] do, and what a whole session sends. *)
From S2P Require Import Prelude Zephyr Config Buf Block Header Node CryptoNone CryptoSpec.
From S2P Require Import Reference Entry Stream Uplink.

(** ** Sessions *)

Section sessions.
Context `{COk : ConfigOk} `{ZS : ZephyrSpec} `{Mal : Malloc} `{Cr : Crypto}.
Context {CS : CryptoSpec Cr} `{HC : HeaderCodecSpec}.
Implicit Types (n : node) (l k : nat).

(** The bytes of a pouch header that names the format version and the encryption
    of a crypto state. *)
Definition header_bytes (c : crypto_st) (enc : list Z) : Prop :=
  ∃ info, announces c info ∧
    cbor_encode_pouch_header POUCH_HEADER_MAX_LEN (mk_header POUCH_HEADER_VERSION info) = Some enc.

Lemma header_max_range : 0 < POUCH_HEADER_MAX_LEN < 2 ^ 16.
Proof. unfold POUCH_HEADER_MAX_LEN. by destruct CONFIG_POUCH_ENCRYPTION_SAEAD. Qed.

(** What making a header may change. *)
Record header_frame n n' : Prop := {
  hf_uplink : n_uplink n' = n_uplink n;
  hf_entry : n_entry n' = n_entry n;
  hf_streams : n_streams n' = n_streams n;
  hf_downlink : n_downlink n' = n_downlink n;
  hf_events : n_events n' = n_events n;
  hf_calls : n_calls n' = n_calls n;
  hf_work : n_work n' = n_work n;
  hf_kept : ∀ k b, heap (n_mem n) !! k = Some b → heap (n_mem n') !! k = Some b;
}.

Lemma owned_header_frame n n' : header_frame n n' → owned n' = owned n.
Proof. intros []. unfold owned. congruence. Qed.

Lemma wp_write_header n l junk maxlen Q :
  crypto_ok (n_crypto n) → fresh_pouch (n_crypto n) → heap (n_mem n) !! l = Some (mk_buf 0 junk) →
  wf_buf (mk_buf 0 junk) → zlen junk = maxlen →
  (∀ e c, crypto_ok c → Q (Some e) (set_crypto c n)) →
  (∀ info enc b c, crypto_ok c → announces c info → wf_buf b → contents b = enc →
     cbor_encode_pouch_header maxlen (mk_header POUCH_HEADER_VERSION info) = Some enc →
     Q success (set_mem (set_buf l b (n_mem n)) (set_crypto c n))) →
  wp (write_header (Some l) maxlen) Q n.
Proof.
  intros Hc Hfresh Hl Hwf Hlen HF HS. unfold write_header. wp_step. apply wp_zoom.
  eapply wp_mono; [by apply header_get_ok|]. intros [err info] c [Hc' Hann]. cbn in Hann.
  destruct err as [e|]; [wp_step; by apply HF|]. specialize (Hann eq_refl).
  wp_step. apply wp_on_mem. unfold buf_next. wp_step. eapply wp_deref; [exact Hl|]. wp_step.
  destruct (cbor_encode_pouch_header maxlen _) as [enc|] eqn:Henc; [|wp_step; by apply HF].
  pose proof (encode_bytes _ _ _ Henc) as Hbytes. pose proof (encode_len _ _ _ Henc) as Hn.
  assert (appends (mk_buf 0 junk) enc (buf_append (mk_buf 0 junk) enc)) as Hap.
  { apply buf_append_appends; [done| |done]. unfold capacity. cbn. lia. }
  pose proof Hwf as [? ? ?]. cbn in *.
  wp_step. apply wp_on_mem. eapply wp_store; [exact Hl|cbn; lia|unfold capacity; cbn; lia|].
  pose proof (zlen_splice 0 enc junk) as Hsp.
  wp_step. apply wp_on_mem. eapply wp_buf_claim; [apply heap_set_buf_eq| |lia| |].
  { split; cbn; [lia|lia|by apply Forall_splice]. }
  { unfold capacity. cbn. lia. }
  wp_step. cbn [n_mem set_mem set_crypto]. rewrite set_buf_set_buf. eapply HS; [done|done| | |exact Henc].
  - apply (app_wf _ _ _ Hap).
  - etransitivity; [exact (app_contents _ _ _ Hap)|done].
Qed.

Lemma wp_header_create n lk :
  node_inv n lk → crypto_ok (n_crypto n) → fresh_pouch (n_crypto n) →
  wp pouch_header_create (λ h n', header_frame n n' ∧ crypto_ok (n_crypto n') ∧
    node_inv n' (option_list h ++ lk) ∧
    match h with
    | Some l => ∃ enc, ptr_contents (n_mem n') (Some l) = Some enc ∧ header_bytes (n_crypto n') enc
    | None => True
    end) n.
Proof.
  intros Hinv Hc Hfr. pose proof header_max_range. unfold pouch_header_create. wp_step. apply wp_on_mem.
  apply wp_buf_alloc; [lia| |].
  2: { intros _. wp_step. split_and!; try done. by apply owns_no_buf. }
  intros junk _ Hlen Hb. set (b0 := mk_buf 0 junk). set (l := mallocs (n_mem n)).
  assert (wf_buf b0) as Hwf0 by (split; cbn; try done; lia).
  pose proof (owns_new_buf _ _ b0 Hinv Hwf0) as Hinv1. fold l in Hinv1.
  assert (∀ k b, heap (n_mem n) !! k = Some b → l ≠ k) as Hfresh.
  { intros k b Hk <-. by eapply (live_not_fresh n lk l b). }
  wp_step. eapply wp_write_header; [done|done|apply heap_new_buf_eq|done|done| |].
  - intros e c Hc'. wp_step. apply wp_on_mem. eapply wp_free_owned; [exact Hinv1|].
    intros m' Hm' _ Hk. wp_step. split_and!; try done. split; try done.
    intros k b Hb'. specialize (Hfresh k b Hb').
    transitivity (heap (new_buf b0 (n_mem n)) !! k); [by apply Hk|].
    by rewrite heap_new_buf_ne.
  - intros info enc b c Hc' Hann Hwf Hco Henc. wp_step. cbn [n_mem set_mem set_crypto].
    unfold l. rewrite set_new_buf. split_and!; [|done| |].
    + split; try done. intros k b' Hb'. cbn. rewrite lookup_insert_ne; [done|]. by eapply Hfresh.
    + unfold node_inv. eapply heap_owns_proper; [|by apply (owns_new_buf _ _ b Hinv)].
      unfold owned. cbn. solve_Permutation.
    + exists enc. split; [|by exists info]. unfold ptr_contents. cbn [n_mem set_mem].
      rewrite heap_new_buf_eq. cbn. by rewrite Hco.
Qed.

(** What starting a session leaves alone. *)
Record start_frame n n' : Prop := {
  sta_entry : n_entry n' = n_entry n;
  sta_streams : n_streams n' = n_streams n;
  sta_downlink : n_downlink n' = n_downlink n;
  sta_calls : n_calls n' = n_calls n;
  sta_processing : up_processing (n_uplink n') = up_processing (n_uplink n);
  sta_transport : up_transport (n_uplink n') = up_transport (n_uplink n);
  sta_reader : up_reader (n_uplink n') = up_reader (n_uplink n);
  sta_id : up_id (n_uplink n') = up_id (n_uplink n);
  sta_kept : ∀ k b, heap (n_mem n) !! k = Some b → heap (n_mem n') !! k = Some b;
}.

Lemma uplink_ok_kept n n' lk lk' :
  uplink_ok n lk → node_inv n' lk' → crypto_ok (n_crypto n') →
  up_processing (n_uplink n') = up_processing (n_uplink n) →
  (∀ k b, heap (n_mem n) !! k = Some b → heap (n_mem n') !! k = Some b) → uplink_ok n' lk'.
Proof.
  intros [Hinv _ Hbl] Hinv' Hc' Hq Hk. split; [done|done|]. rewrite Hq. intros l x Hl Hx.
  apply (Hbl l x Hl). destruct (owns_lookup _ _ l Hinv) as (b & Hb & _).
  { unfold owned, uplink_owned. set_solver. }
  cbn in *. by rewrite Hb, (Hk _ _ Hb) in *.
Qed.

Lemma clear_set_bit v :
  Z.testbit v SESSION_ACTIVE = false →
  Z.clearbit (Z.setbit v SESSION_ACTIVE) SESSION_ACTIVE = v.
Proof.
  unfold SESSION_ACTIVE. intros Hv. apply Z.bits_inj'. intros i Hi. rewrite Z.clearbit_eqb, Z.setbit_eqb by lia.
  destruct (Z.eqb_spec 0 i) as [<-|]; [by rewrite Hv|]. cbn. by rewrite andb_true_r.
Qed.

Lemma wp_uplink_start n lk :
  uplink_ok n lk → session_is_active (n_uplink n) = false → up_header (n_uplink n) = NULL →
  wp pouch_uplink_start (λ r n', start_frame n n' ∧ uplink_ok n' lk ∧
    if r : bool then
      up_flags (n_uplink n') = Z.setbit (up_flags (n_uplink n)) SESSION_ACTIVE ∧
      event_emitted POUCH_EVENT_SESSION_START n n' ∧
      ∃ l enc, up_header (n_uplink n') = Some l ∧
        ptr_contents (n_mem n') (Some l) = Some enc ∧ header_bytes (n_crypto n') enc
    else up_flags (n_uplink n') = up_flags (n_uplink n) ∧ up_header (n_uplink n') = NULL ∧
      n_events n' = n_events n ∧ n_work n' = n_work n) n.
Proof.
  intros Hok Hact Hh. pose proof Hok as [Hinv Hc Hbl].
  rewrite session_is_active_bit in Hact. unfold pouch_uplink_start, uplink_test_and_set_bit,
    uplink_set_bit, uplink_clear_bit, modify_uplink.
  do 6 wp_step. rewrite atomic_test_bit_spec, Hact, atomic_set_bit_spec by done.
  pose proof (clear_set_bit _ Hact) as Hclear.
  wp_step. apply wp_zoom. eapply wp_mono; [by apply session_start_ok|]. intros [e|] c1 [Hc1 Hready].
  { do 3 wp_step. cbn. rewrite atomic_clear_bit_spec, Hclear by done. by split_and!. }
  wp_step. apply wp_zoom. eapply wp_mono; [by apply pouch_start_ok; auto|]. intros [e|] c2 [Hc2 Hfresh].
  { do 3 wp_step. cbn. rewrite atomic_clear_bit_spec, Hclear by done. by split_and!. }
  wp_step. eapply wp_mono; [by apply (wp_header_create _ lk); try apply Hfresh|].
  intros h n1 ([Hu He Hs Hd Hev Hca Hw Hk] & Hc3 & Hinv1 & Hhd). do 2 wp_step.
  destruct h as [l|].
  - destruct Hhd as (enc & Henc & Hhb).
    assert (∀ q w, q = (k_msgq_put (n_events n) POUCH_EVENT_SESSION_START).2 → work_event ∈ w →
      let n' := set_work w (set_events q (set_uplink (up_set_header (Some l) (n_uplink n1)) n1)) in
      start_frame n n' ∧ uplink_ok n' lk ∧
      up_flags (n_uplink n') = Z.setbit (up_flags (n_uplink n)) SESSION_ACTIVE ∧
      event_emitted POUCH_EVENT_SESSION_START n n' ∧
      ∃ l enc, up_header (n_uplink n') = Some l ∧
        ptr_contents (n_mem n') (Some l) = Some enc ∧ header_bytes (n_crypto n') enc) as Hfin.
    { intros q w Hq Hwk n'. split_and!.
      - unfold n'. split; try done; by rewrite ?He, ?Hs, ?Hd, ?Hca; cbn; rewrite ?Hu.
      - eapply uplink_ok_kept; [exact Hok| |done|cbn; by rewrite Hu|done].
        unfold n', node_inv in *. eapply heap_owns_proper; [|exact Hinv1].
        unfold owned, uplink_owned. cbn. rewrite !Hu. cbn. rewrite Hh. cbn. solve_Permutation.
      - unfold n'. cbn. by rewrite Hu.
      - by split.
      - by exists l, enc. }
    unfold pouch_event_emit, k_work_submit. do 7 wp_step. rewrite queue_is_empty_spec.
    assert (∀ w, work_event ∈ add_work work_event w) as Hwe by (intros; apply add_work_in).
    case_bool_decide; cbn [negb]; wp_steps; apply Hfin; cbn; try by rewrite Hev.
    + done.
    + by apply add_work_mono.
  - do 3 wp_step. cbn. rewrite Hu. cbn. rewrite atomic_clear_bit_spec, Hclear by done.
    assert (uplink_ok (set_uplink (up_set_flags (up_flags (n_uplink n)) (up_set_header NULL (n_uplink n1))) n1) lk) as Hok'.
    { eapply uplink_ok_kept; try done; cbn; [|by rewrite Hu].
      unfold node_inv in *. eapply heap_owns_proper; [|exact Hinv1].
      unfold owned, uplink_owned. cbn. rewrite !Hu. cbn. by rewrite Hh. }
    rewrite Hu in Hok'. by split_and!.
Qed.

(** *** The end of a pouch *)

Lemma wp_finish_loop fuel n lk :
  node_inv n lk → (length (slist_items (up_transport (n_uplink n))) < fuel)%nat →
  wp (finish_loop fuel) (λ _ n', fill_frame n n' ∧ node_inv n' lk ∧
    up_reader (n_uplink n') = up_reader (n_uplink n) ∧
    slist_items (up_transport (n_uplink n')) = [] ∧
    (∀ k, k ∉ slist_items (up_transport (n_uplink n)) →
       heap (n_mem n') !! k = heap (n_mem n) !! k)) n.
Proof.
  revert n. induction fuel as [|fuel IH]; intros n Hinv Hfuel; [lia|]. cbn [finish_loop].
  unfold modify_uplink. do 3 wp_step. apply wp_on_mem.
  destruct (slist_items (up_transport (n_uplink n))) as [|l ls] eqn:Hls.
  - eapply wp_queue_get_empty; [done|]. intros q Hq. rewrite set_mem_id. do 3 wp_step.
    split_and!; try done. unfold node_inv. eapply heap_owns_proper; [|exact Hinv].
    rewrite !owned_reader. cbn. by rewrite Hq, Hls.
  - destruct (owns_lookup _ _ l Hinv) as (b & Hl & _).
    { rewrite owned_reader, Hls. set_solver. }
    eapply wp_queue_get_cons; [done|done|]. intros q Hq. rewrite set_mem_id. do 3 wp_step.
    apply wp_on_mem. eapply wp_free_owned.
    { eapply heap_owns_proper; [|exact Hinv]. rewrite owned_reader, Hls. cbn [app]. apply Permutation_middle. }
    intros m Hm _ Hk. eapply wp_mono; [apply IH|].
    + unfold node_inv. eapply heap_owns_proper; [|exact Hm].
      rewrite owned_reader. cbn. rewrite Hq. solve_Permutation.
    + cbn in *. rewrite Hq. lia.
    + intros [] n' (Hfr & Hinv' & Hr & Ht & Hkept). split_and!; try done; [by destruct Hfr; split|].
      intros k Hin. rewrite not_elem_of_cons in Hin. destruct Hin as [Hne Hin]. cbn in Hkept.
      rewrite Hkept by by rewrite Hq. by apply Hk.
Qed.

(** The session id after a pouch differs from the one before. *)
Lemma next_session_id v : u32 (atomic_inc (atomic_wrap v)) ≠ u32 (atomic_wrap v).
Proof.
  rewrite atomic_inc_spec. unfold u32. rewrite !atomic_wrap_mod. intros H.
  pose proof (Z.mod_pos_bound v (2 ^ 32)). rewrite Z.add_mod in H by lia.
  destruct (Z.eq_dec (v mod 2 ^ 32) (2 ^ 32 - 1)) as [E|E].
  - rewrite E in H. done.
  - rewrite (Z.mod_small 1), Z.mod_small in H by lia. lia.
Qed.

(** What finishing leaves alone. *)
Record finish_frame n n' : Prop := {
  fif_entry : n_entry n' = n_entry n;
  fif_streams : n_streams n' = n_streams n;
  fif_downlink : n_downlink n' = n_downlink n;
  fif_calls : n_calls n' = n_calls n;
  fif_processing : up_processing (n_uplink n') = up_processing (n_uplink n);
  fif_kept : ∀ k, k ∈ slist_items (up_processing (n_uplink n)) ++ option_list (n_entry n) ++
      stream_bufs (n_streams n) ++ downlink_owned (n_downlink n) →
    heap (n_mem n') !! k = heap (n_mem n) !! k;
}.

(** The last part of [pouch_uplink_finish]. *)
Definition finish_tail : M node unit :=
  modify_uplink (λ u, up_set_id (atomic_inc (up_id u)) u);;
  n ← get;
  modify_uplink (up_set_flags 0);;
  if negb (Z.land (up_flags (n_uplink n)) (BIT SESSION_ACTIVE) =? 0) then end_session else mret tt.

Lemma wp_finish_tail n lk :
  node_inv n lk → crypto_ok (n_crypto n) → tx_empty n →
  wp finish_tail (λ _ n', node_inv n' lk ∧ crypto_ok (n_crypto n') ∧ tx_empty n' ∧
    up_header (n_uplink n') = up_header (n_uplink n) ∧ up_flags (n_uplink n') = 0 ∧
    up_id (n_uplink n') = atomic_inc (up_id (n_uplink n)) ∧
    n_entry n' = n_entry n ∧ n_streams n' = n_streams n ∧ n_downlink n' = n_downlink n ∧
    n_calls n' = n_calls n ∧ up_processing (n_uplink n') = up_processing (n_uplink n) ∧
    n_mem n' = n_mem n ∧
    if session_is_active (n_uplink n) then event_emitted POUCH_EVENT_SESSION_END n n'
    else n_events n' = n_events n ∧ n_work n' = n_work n) n.
Proof.
  intros Hinv Hc [Hv Hq]. unfold finish_tail, modify_uplink. do 6 wp_step.
  change (negb (Z.land (up_flags (n_uplink (set_uplink (up_set_id (atomic_inc (up_id (n_uplink n)))
    (n_uplink n)) n))) (BIT SESSION_ACTIVE) =? 0)) with (session_is_active (n_uplink n)).
  destruct (session_is_active (n_uplink n)).
  - eapply wp_mono; [eapply (wp_end_session _ lk []); try done|].
    + exists [], []. unfold reader_bytes. cbn. rewrite Hv, Hq. by repeat constructor.
    + intros [] n' ([? ? ? ? Hi Hh Hp Hf [? ?]] & Hm & _ & Hr & Ht & Hinv' & Hc').
      cbn in *. unfold tx_empty. rewrite Hr, Ht, Hf, Hi, Hh, Hp. by split_and!.
  - wp_step. by split_and!.
Qed.

Lemma up_header_null_id n : up_header (n_uplink n) = NULL →
  set_uplink (up_set_header NULL (n_uplink n)) n = n.
Proof. destruct n as [? u ? ? ? ? ? ? ?], u. cbn. by intros ->. Qed.

(** Freeing the header and clearing the pointer, whether there is one or not. *)
Lemma free_header_same {A} n (k : M node A) :
  (n ← get;
   match up_header (n_uplink n) with
   | Some _ => on_mem (buf_free (up_header (n_uplink n)));; modify_uplink (up_set_header NULL)
   | None => mret tt
   end;; k) n =
  (on_mem (buf_free (up_header (n_uplink n)));; modify_uplink (up_set_header NULL);; k) n.
Proof.
  unfold modify_uplink. cbv [mbind M_bind get modify mret M_ret].
  destruct (up_header (n_uplink n)) as [h|] eqn:Hh.
  - by destruct (on_mem (buf_free (Some h)) n).
  - unfold on_mem, zoom. cbn [buf_free]. rewrite set_mem_id. by rewrite up_header_null_id.
Qed.

Lemma not_transport n lk k :
  node_inv n lk →
  k ∈ slist_items (up_processing (n_uplink n)) ++ option_list (n_entry n) ++
    stream_bufs (n_streams n) ++ downlink_owned (n_downlink n) →
  k ∉ slist_items (up_transport (n_uplink n)).
Proof.
  intros Hinv Hk Ht. pose proof (owns_nodup _ _ Hinv) as Hnd.
  rewrite owned_reader, (Permutation_app_comm (option_list _)), <- app_assoc in Hnd.
  apply list.NoDup_app in Hnd as (_ & Hdis & _). apply (Hdis k Ht).
  revert Hk. rewrite !elem_of_app. tauto.
Qed.

Lemma wp_uplink_finish n lk :
  node_inv n lk → crypto_ok (n_crypto n) →
  wp pouch_uplink_finish (λ _ n', node_inv n' lk ∧ crypto_ok (n_crypto n') ∧
    tx_empty n' ∧ up_header (n_uplink n') = NULL ∧ up_flags (n_uplink n') = 0 ∧
    up_id (n_uplink n') = atomic_inc (up_id (n_uplink n)) ∧ finish_frame n n' ∧
    if session_is_active (n_uplink n) then event_emitted POUCH_EVENT_SESSION_END n n'
    else n_events n' = n_events n ∧ n_work n' = n_work n) n.
Proof.
  intros Hinv Hc. unfold pouch_uplink_finish. do 3 wp_step.
  pose proof (reader_length _ _ Hinv) as Hlen.
  eapply wp_mono; [apply (wp_finish_loop _ n lk Hinv); lia|].
  intros [] n1 (Hfr1 & Hinv1 & Hr1 & Ht1 & Hk1). unfold modify_uplink. do 3 wp_step.
  apply wp_on_mem. unfold pouch_bufview_free. wp_step.
  eapply wp_free_opt.
  { eapply heap_owns_proper; [|exact Hinv1]. by rewrite owned_reader, Ht1. }
  cbn [app]. intros m2 Hm2 _ Hk2. do 3 wp_step. set (v0 := mk_view NULL 0).
  set (rest := slist_items (up_processing (n_uplink n1)) ++ option_list (n_entry n1) ++
    stream_bufs (n_streams n1) ++ downlink_owned (n_downlink n1) ++ lk).
  eapply wp_same; [apply (free_header_same _ finish_tail)|].
  wp_step. apply wp_on_mem. eapply (wp_free_opt _ _ rest).
  { eapply heap_owns_proper; [|exact Hm2]. unfold rest. solve_Permutation. }
  intros m3 Hm3 _ Hk3. unfold modify_uplink. do 2 wp_step. destruct Hfr1 as [He Hs Hd Hcr Hev Hca Hw Hfl Hi Hh Hp].
  eapply wp_mono; [apply (wp_finish_tail _ lk)|].
  - unfold node_inv. eapply heap_owns_proper; [|exact Hm3].
    rewrite owned_reader. cbn. by rewrite Ht1.
  - cbn. by rewrite Hcr.
  - by split.
  - intros [] n' (Hinv' & Hc' & Hte & Hh' & Hf' & Hi' & He' & Hs' & Hd' & Hca' & Hp' & Hm' & Hev').
    cbn in *. split_and!; try done; try congruence.
    + split; try congruence. intros k Hk. pose proof (not_transport n lk k Hinv Hk) as Hnt.
      rewrite <- Hp, <- He, <- Hs, <- Hd in Hk.
      rewrite Hm', Hk3, Hk2, Hk1; [done|done| |]; unfold rest; revert Hk; rewrite !elem_of_app; tauto.
    + revert Hev'. unfold session_is_active, event_emitted. cbn. rewrite Hfl.
      by destruct (negb _); [rewrite Hev|rewrite Hev, Hw].
Qed.

(** *** Closing *)

(** What closing leaves alone. *)
Record close_frame n n' : Prop := {
  cf_streams : n_streams n' = n_streams n;
  cf_downlink : n_downlink n' = n_downlink n;
  cf_crypto : n_crypto n' = n_crypto n;
  cf_events : n_events n' = n_events n;
  cf_calls : n_calls n' = n_calls n;
  cf_transport : up_transport (n_uplink n') = up_transport (n_uplink n);
  cf_reader : up_reader (n_uplink n') = up_reader (n_uplink n);
  cf_header : up_header (n_uplink n') = up_header (n_uplink n);
  cf_kept : ∀ l b, heap (n_mem n) !! l = Some b → n_entry n ≠ Some l →
    heap (n_mem n') !! l = Some b;
}.

(** The block that holds the entries of the open block, if there is one. *)
Definition entry_blocks (open : option (list entry)) : list (list Z) :=
  match open with
  | Some es => [block_bytes BLOCK_ID_ENTRY true true (entries_bytes es)]
  | None => []
  end.

Lemma entry_block_plain open x : x ∈ entry_blocks open →
  (∀ es, open = Some es → zlen (entries_bytes es) ≤ MAX_BLOCK_PAYLOAD_SIZE) → plain_block x.
Proof.
  destruct open as [es|]; cbn; [|by intros ?%elem_of_nil].
  intros ->%list_elem_of_singleton Hsz. exists BLOCK_ID_ENTRY, true, true, (entries_bytes es).
  split_and!; try done. by apply Hsz.
Qed.

Lemma wp_uplink_close n lk open xs :
  uplink_ok n lk → entry_rep n open → pouch_is_closing (n_uplink n) = false →
  holds (n_mem n) (slist_items (up_processing (n_uplink n))) xs →
  wp (pouch_uplink_close success) (λ r n', r = success ∧ uplink_ok n' lk ∧ close_frame n n' ∧
    n_entry n' = NULL ∧ up_flags (n_uplink n') = Z.setbit (up_flags (n_uplink n)) POUCH_CLOSING ∧
    holds (n_mem n') (slist_items (up_processing (n_uplink n'))) (xs ++ entry_blocks open) ∧
    work_process ∈ n_work n') n.
Proof.
  intros [Hinv Hc Hbl] Hrep Hcl Hxs. rewrite pouch_is_closing_bit in Hcl.
  eapply wp_same; [apply pouch_uplink_close_run|].
  unfold uplink_test_and_set_bit, uplink_set_bit, modify_uplink.
  do 6 wp_step. rewrite atomic_test_bit_spec, Hcl, atomic_set_bit_spec by done.
  set (n0 := set_uplink _ n). wp_step.
  assert (node_inv n0 lk) as Hinv0 by done.
  eapply wp_mono; [by apply (wp_entry_close n0 lk open)|].
  intros r n1 (-> & Hrep1 & Hem & [Hs Hd Hcr Hev Hca [q Hu] Hk] & Hinv1).
  unfold k_work_submit. do 3 wp_step. cbn [n_uplink n_entry set_work n_mem].
  assert (holds (n_mem n1) (slist_items (up_processing (n_uplink n0))) xs) as Hxs1.
  { eapply holds_kept; [|exact Hxs]. intros k Hin.
    destruct (owns_lookup _ _ k Hinv) as (b & Hb & _); [unfold owned, uplink_owned; set_solver|].
    rewrite Hb. apply Hk; [done|]. intros He.
    eapply (owned_split n lk k (uplink_owned (n_uplink n) ++ stream_bufs (n_streams n) ++
      downlink_owned (n_downlink n) ++ lk)); [done| |unfold uplink_owned; set_solver].
    unfold owned. cbn in He. rewrite He. cbn. solve_Permutation. }
  assert (holds (n_mem n1) (slist_items (up_processing (n_uplink n1))) (xs ++ entry_blocks open)) as Hall.
  { destruct open as [es|]; cbn [entry_emits entry_blocks] in *.
    - destruct Hem as (l & -> & (_ & b & Hb & Hco) & _). apply holds_app; [done|].
      constructor; [|constructor]. cbn. by rewrite Hb, <- Hco.
    - by rewrite Hem, app_nil_r. }
  split_and!; [done| | | | |done|apply add_work_in].
  - split; [done|cbn; by rewrite Hcr|]. intros l x Hl Hx.
    assert (x ∈ xs ++ entry_blocks open) as Hin.
    { apply list_elem_of_lookup in Hl as [i Hi].
      destruct (Forall2_lookup_l _ _ _ _ _ Hall Hi) as (y & Hy & Hxy). cbn in Hx, Hxy.
      cbn in Hx. rewrite Hxy in Hx. injection Hx as ->. by eapply list_elem_of_lookup_2. }
    apply elem_of_app in Hin as [Hin|Hin].
    + apply list_elem_of_lookup in Hin as [i Hi].
      destruct (Forall2_lookup_r _ _ _ _ _ Hxs Hi) as (k & Hk' & Hkx). eapply (Hbl k); [|done].
      by eapply list_elem_of_lookup_2.
    + eapply entry_block_plain; [done|]. intros es ->. by destruct Hrep.
  - split; try done; cbn; by rewrite Hu.
  - done.
  - cbn. by rewrite Hu.
Qed.

(** Setting a bit that is set. *)
Lemma set_bit_id n i :
  0 ≤ i → Z.testbit (up_flags (n_uplink n)) i = true →
  set_uplink (up_set_flags (Z.setbit (up_flags (n_uplink n)) i) (n_uplink n)) n = n.
Proof.
  intros Hi Hb. replace (Z.setbit (up_flags (n_uplink n)) i) with (up_flags (n_uplink n)).
  - destruct n as [? u ? ? ? ? ? ? ?]. by destruct u.
  - apply Z.bits_inj'. intros j Hj. rewrite Z.setbit_eqb by done.
    destruct (Z.eqb_spec i j) as [<-|]; [by rewrite Hb|done].
Qed.

Lemma close_again n lock :
  Z.testbit (up_flags (n_uplink n)) POUCH_CLOSING = true →
  pouch_uplink_close lock n = Ret (Some EALREADY) n.
Proof.
  intros Hcl. rewrite pouch_uplink_close_run. apply wp_run.
  unfold uplink_test_and_set_bit, uplink_set_bit, modify_uplink. wp_steps.
  rewrite atomic_test_bit_spec, Hcl, atomic_set_bit_spec by done. wp_step. by rewrite set_bit_id.
Qed.

(** *** A whole session *)

(** No session, nothing left of an earlier one. *)
Record idle n : Prop := {
  idle_flags : up_flags (n_uplink n) = 0;
  idle_header : up_header (n_uplink n) = NULL;
  idle_tx : tx_empty n;
}.

Definition run_session : M node bool :=
  started ← pouch_uplink_start;
  if started : bool then
    pouch_uplink_close success;;
    process_blocks;;
    mret true
  else mret false.

Lemma processed_tx n lk xs n' ys l enc :
  processed n lk xs n' ys → tx_empty n → node_inv n lk →
  up_header (n_uplink n) = Some l → ptr_contents (n_mem n) (Some l) = Some enc →
  tx n' (if decide (ys = []) then [] else enc ++ concat ys).
Proof.
  intros [Hfr Hs Hq Hfl Hh (es & Ht & Hes) Hk Hinv Hc] [Hv Ht0] Hinv0 Hl Henc.
  exists [], (if decide (ys = []) then [] else enc :: ys). unfold reader_bytes.
  rewrite (pf_reader _ _ Hfr), Hv, Ht, Ht0, Hl. cbn [app option_list].
  split_and!; [done| |by case_decide].
  case_decide as Hys; [subst; by inversion Hes; subst; constructor|].
  constructor; [|done]. revert Henc. cbn. rewrite Hk; [done|].
  unfold owned_rest. rewrite Hl. set_solver.
Qed.

(** A session has started: the header [enc] waits, the open entries are [open], and
    the blocks [xs] wait to be processed. *)
Record started n (enc : list Z) (open : option (list entry)) (xs : list (list Z)) : Prop := {
  sd_flags : up_flags (n_uplink n) = Z.setbit 0 SESSION_ACTIVE;
  sd_header : ∃ l, up_header (n_uplink n) = Some l ∧ ptr_contents (n_mem n) (Some l) = Some enc;
  sd_bytes : header_bytes (n_crypto n) enc;
  sd_tx : tx_empty n;
  sd_entry : entry_rep n open;
  sd_processing : holds (n_mem n) (slist_items (up_processing (n_uplink n))) xs;
}.

Lemma entry_rep_kept n n' open :
  entry_rep n open → n_entry n' = n_entry n →
  (∀ k b, heap (n_mem n) !! k = Some b → heap (n_mem n') !! k = Some b) → entry_rep n' open.
Proof.
  intros Hrep He Hk. destruct open as [es|]; cbn in *; [|by rewrite He].
  destruct Hrep as (? & l & b & ? & ? & ?). split; [done|]. exists l, b.
  rewrite He. split_and!; [done|by apply Hk|done].
Qed.

Lemma wp_start_session n lk open xs :
  uplink_ok n lk → entry_rep n open → idle n →
  holds (n_mem n) (slist_items (up_processing (n_uplink n))) xs →
  wp pouch_uplink_start (λ r n', uplink_ok n' lk ∧ start_frame n n' ∧
    if r : bool then event_emitted POUCH_EVENT_SESSION_START n n' ∧ ∃ enc, started n' enc open xs
    else n_events n' = n_events n ∧ entry_rep n' open ∧
      holds (n_mem n') (slist_items (up_processing (n_uplink n'))) xs) n.
Proof.
  intros Hok Hrep [Hfl Hh Htx] Hxs. pose proof (uo_inv _ _ Hok) as Hinv.
  eapply wp_mono; [apply (wp_uplink_start n lk Hok); [|done]|].
  { by rewrite session_is_active_bit, Hfl. }
  intros r n1 (Hsf & Hok1 & Hres). pose proof Hsf as [He1 Hs1 Hd1 Hca1 Hp1 Ht1 Hr1 Hi1 Hk1].
  assert (holds (n_mem n1) (slist_items (up_processing (n_uplink n1))) xs) as Hxs1.
  { rewrite Hp1. eapply holds_kept; [|exact Hxs]. intros k Hin.
    destruct (owns_lookup _ _ k Hinv) as (b & Hb & _); [unfold owned, uplink_owned; set_solver|].
    by rewrite Hb, (Hk1 _ _ Hb). }
  assert (entry_rep n1 open) as Hrep1 by by eapply entry_rep_kept.
  split; [done|]. split; [done|]. destruct r; [|by destruct Hres as (_ & _ & ? & _)].
  destruct Hres as (Hfl1 & Hev & l & enc & Hl & Henc & Hhb). split; [done|].
  exists enc. split; [by rewrite Hfl1, Hfl|by exists l|done| |done|done].
  unfold tx_empty in *. by rewrite Hr1, Ht1.
Qed.

Lemma wp_close_started n lk enc open xs :
  uplink_ok n lk → started n enc open xs →
  wp (pouch_uplink_close success;; process_blocks) (λ _ n', node_inv n' lk ∧ crypto_ok (n_crypto n') ∧
    session_is_active (n_uplink n') = true ∧ pouch_is_open (n_uplink n') = false ∧
    n_entry n' = NULL ∧ slist_items (up_processing (n_uplink n')) = [] ∧
    n_events n' = n_events n ∧
    ∃ ys, seal_all (n_crypto n) (xs ++ entry_blocks open) ys (n_crypto n') ∧
      tx n' (if decide (ys = []) then [] else enc ++ concat ys)) n.
Proof.
  intros Hok [Hfl (l & Hl & Henc) Hhb Htx Hrep Hxs]. wp_step. eapply wp_mono.
  { apply (wp_uplink_close n lk open xs Hok Hrep); [|done]. by rewrite pouch_is_closing_bit, Hfl. }
  intros r n2 (_ & Hok2 & [? ? Hcr2 Hev2 ? Ht2 Hr2 Hh2 Hk2] & He2 & Hfl2 & Hxs2 & _). rewrite Hfl in Hfl2.
  eapply wp_mono; [apply (wp_process_blocks n2 lk (xs ++ entry_blocks open) Hok2); [|done]|].
  { unfold can_process. by rewrite session_is_active_bit, pouch_is_open_bit, Hfl2. }
  intros [] n' (n3 & ys & Hpr & ->). rewrite pouch_is_closing_bit, Hfl2.
  change (Z.testbit _ POUCH_CLOSING) with true.
  assert (ptr_contents (n_mem n2) (Some l) = Some enc) as Henc2.
  { cbn in Henc |- *. destruct (heap (n_mem n) !! l) as [b|] eqn:Hb; [|done].
    rewrite (Hk2 _ _ Hb); [done|]. intros Hen.
    eapply (owned_split n lk l (uplink_owned (n_uplink n) ++ stream_bufs (n_streams n) ++
      downlink_owned (n_downlink n) ++ lk) (uo_inv _ _ Hok)).
    - unfold owned. rewrite Hen. cbn. solve_Permutation.
    - unfold uplink_owned. rewrite Hl. set_solver. }
  assert (tx_empty n2) as Htx2 by (unfold tx_empty in *; by rewrite Ht2, Hr2).
  pose proof (processed_tx _ _ _ _ _ l enc Hpr Htx2 (uo_inv _ _ Hok2) ltac:(by rewrite Hh2) Henc2) as Htx3.
  destruct Hpr as [Hfr Hse Hq Hfl3 _ _ _ Hinv3 Hc3].
  split_and!; [done|done| | | | | |].
  - by rewrite session_is_active_bit.
  - by rewrite pouch_is_open_bit.
  - cbn. by rewrite (pf_entry _ _ Hfr).
  - done.
  - cbn. by rewrite (pf_events _ _ Hfr), Hev2.
  - exists ys. by rewrite <- Hcr2.
Qed.

Lemma wp_run_session n lk open xs :
  uplink_ok n lk → entry_rep n open → idle n →
  holds (n_mem n) (slist_items (up_processing (n_uplink n))) xs →
  wp run_session (λ r n', node_inv n' lk ∧ crypto_ok (n_crypto n') ∧
    if r : bool then
      session_is_active (n_uplink n') = true ∧ pouch_is_open (n_uplink n') = false ∧
      n_entry n' = NULL ∧ slist_items (up_processing (n_uplink n')) = [] ∧
      n_events n' = (k_msgq_put (n_events n) POUCH_EVENT_SESSION_START).2 ∧
      ∃ enc ys c, header_bytes c enc ∧ seal_all c (xs ++ entry_blocks open) ys (n_crypto n') ∧
        tx n' (if decide (ys = []) then [] else enc ++ concat ys)
    else
      n_events n' = n_events n ∧ entry_rep n' open ∧
      holds (n_mem n') (slist_items (up_processing (n_uplink n'))) xs) n.
Proof.
  intros Hok Hrep Hidle Hxs. unfold run_session. wp_step.
  eapply wp_mono; [by apply (wp_start_session n lk open xs)|].
  intros [] n1 ([Hinv1 Hc1 Hb1] & _ & Hres); [|by wp_step].
  destruct Hres as ([Hev _] & enc & Hst).
  eapply wp_same; [apply seq_assoc|].
  wp_step. eapply wp_mono; [by apply (wp_close_started n1 lk enc open xs)|].
  intros [] n' (Hinv & Hc & Hact & Hop & He & Hq & Hev' & ys & Hs & Htx). wp_step.
  split_and!; [done..|by rewrite Hev'|]. exists enc, ys, (n_crypto n1).
  split_and!; [apply Hst|done|done].
Qed.
End sessions.

(** ** Properties *)

Section session_theorems.
Context `{COk : ConfigOk} `{ZS : ZephyrSpec} `{Mal : Malloc} `{Cr : Crypto}.
Context {CS : CryptoSpec Cr} `{HC : HeaderCodecSpec}.
Implicit Types (n : node) (l k : nat).

(** C32: a whole session sends what was written and nothing else: starting it on
    an idle node, closing the pouch and running the processing work item leaves,
    for the transport, a header that announces the crypto state followed by what
    that state makes of the queued blocks and of the block of open entries, in
    order; calls of the transport with any room hand out exactly these bytes and
    end the session. When the session cannot start, nothing was emitted and the
    blocks are kept. *)
Theorem session_sends n lk open xs :
  uplink_ok n lk → entry_rep n open → idle n →
  holds (n_mem n) (slist_items (up_processing (n_uplink n))) xs →
  wp run_session (λ r n',
    if r : bool then
      n_events n' = (k_msgq_put (n_events n) POUCH_EVENT_SESSION_START).2 ∧
      ∃ enc ys c, header_bytes c enc ∧ seal_all c (xs ++ entry_blocks open) ys (n_crypto n') ∧
        let bytes := if decide (ys = []) then [] else enc ++ concat ys in
        ∀ fuel maxlen, 0 < maxlen < 2 ^ 32 → zlen bytes < Z.of_nat fuel →
          wp (drain fuel maxlen) (λ out n'', out = bytes ∧ tx_empty n'' ∧
            session_ended n' n'' ∧ node_inv n'' lk) n'
    else
      n_events n' = n_events n ∧ entry_rep n' open ∧
      holds (n_mem n') (slist_items (up_processing (n_uplink n'))) xs) n.
Proof.
  intros Hok Hrep Hidle Hxs. eapply wp_mono; [by apply (wp_run_session n lk open xs)|].
  intros [|] n' (Hinv & Hc & Hr); [|done]. destruct Hr as (Hact & Hop & _ & _ & Hev & enc & ys & c & Hh & Hs & Htx).
  split; [done|]. exists enc, ys, c. split_and!; [done|done|]. intros bytes fuel maxlen Hmax Hfuel.
  eapply wp_mono; [by apply (wp_drain fuel n' lk bytes maxlen)|].
  intros out n'' (-> & He & Hse & Hinv'' & _). by split_and!.
Qed.

(** C37: starting a session on a node without one either marks it active, puts a
    header buffer in place and emits the start event, or, whichever of its steps
    fails, leaves flags, header, events and work as they were and no buffer
    behind. The state of the crypto module is not among these: what its steps did
    before one failed (a session key made by SAEAD, say) stays. While a session
    is active another start is refused and changes nothing. *)
Theorem start_refines n lk :
  uplink_ok n lk →
  (session_is_active (n_uplink n) = true → pouch_uplink_start n = Ret false n) ∧
  (session_is_active (n_uplink n) = false → up_header (n_uplink n) = NULL →
   wp pouch_uplink_start (λ r n', start_frame n n' ∧ uplink_ok n' lk ∧
    if r : bool then
      up_flags (n_uplink n') = Z.setbit (up_flags (n_uplink n)) SESSION_ACTIVE ∧
      event_emitted POUCH_EVENT_SESSION_START n n' ∧
      ∃ l enc, up_header (n_uplink n') = Some l ∧
        ptr_contents (n_mem n') (Some l) = Some enc ∧ header_bytes (n_crypto n') enc
    else up_flags (n_uplink n') = up_flags (n_uplink n) ∧ up_header (n_uplink n') = NULL ∧
      n_events n' = n_events n ∧ n_work n' = n_work n) n).
Proof.
  intros Hok. split; [|by apply wp_uplink_start].
  rewrite session_is_active_bit. intros Hact. apply wp_run.
  unfold pouch_uplink_start, uplink_test_and_set_bit, uplink_set_bit, modify_uplink. wp_steps.
  rewrite atomic_test_bit_spec, Hact, atomic_set_bit_spec by done. wp_step.
  by rewrite set_bit_id.
Qed.

(** Closing a pouch queues the block of open entries behind the blocks that
    wait and submits the work item; closing it again reports [EALREADY] and
    changes nothing. *)
Lemma close_refines n lk open xs :
  uplink_ok n lk → entry_rep n open →
  holds (n_mem n) (slist_items (up_processing (n_uplink n))) xs →
  wp (pouch_uplink_close success) (λ r n',
    if pouch_is_closing (n_uplink n) then r = Some EALREADY ∧ n' = n else
    r = success ∧ uplink_ok n' lk ∧ close_frame n n' ∧ n_entry n' = NULL ∧
    up_flags (n_uplink n') = Z.setbit (up_flags (n_uplink n)) POUCH_CLOSING ∧
    holds (n_mem n') (slist_items (up_processing (n_uplink n'))) (xs ++ entry_blocks open) ∧
    work_process ∈ n_work n') n.
Proof.
  intros Hok Hrep Hxs. destruct (pouch_is_closing (n_uplink n)) eqn:Hcl.
  - rewrite pouch_is_closing_bit in Hcl. unfold wp. rewrite close_again by done. by split.
  - by apply wp_uplink_close.
Qed.

(** When [pouch_uplink_close] cannot lock the entry block in time it returns
    the error, but leaves the pouch marked as closing with the entries still in
    the open block; trying again only reports [EALREADY], so the pouch ends
    without them. *)
Lemma close_timeout_drops_entries n err :
  pouch_is_closing (n_uplink n) = false →
  wp (r ← pouch_uplink_close (Some err); r' ← pouch_uplink_close success; mret (r, r'))
    (λ r n', r = (Some err, Some EALREADY) ∧ n_entry n' = n_entry n ∧ n_mem n' = n_mem n ∧
       up_processing (n_uplink n') = up_processing (n_uplink n) ∧
       pouch_is_closing (n_uplink n') = true) n.
Proof.
  rewrite pouch_is_closing_bit. intros Hcl. wp_step. eapply wp_same; [apply pouch_uplink_close_run|].
  unfold uplink_test_and_set_bit, uplink_set_bit, modify_uplink,
    entry_block_close, k_work_submit. wp_steps.
  rewrite atomic_test_bit_spec, Hcl, atomic_set_bit_spec by done. wp_steps.
  set (n1 := set_work _ _).
  assert (Z.testbit (up_flags (n_uplink n1)) POUCH_CLOSING = true) as Hcl1.
  { unfold POUCH_CLOSING. cbn -[Z.testbit Z.setbit]. by rewrite Z.setbit_eq. }
  unfold wp. cbv [mbind M_bind]. rewrite close_again by done. cbv [mret M_ret]. split_and!; try done.
  by rewrite pouch_is_closing_bit.
Qed.

(** C36: finishing frees whatever the transport had not sent, the header and the
    buffer being read included, ends a session that is still active, and leaves
    the node idle, with the blocks that wait and the open entries untouched; the
    session id changes, so a stream opened before is no longer valid. *)
Theorem finish_resets n lk v :
  node_inv n lk → crypto_ok (n_crypto n) → up_id (n_uplink n) = atomic_wrap v →
  wp pouch_uplink_finish (λ _ n', node_inv n' lk ∧ idle n' ∧ finish_frame n n' ∧
    (∀ o, session_valid o n → ¬ session_valid o n') ∧
    if session_is_active (n_uplink n) then event_emitted POUCH_EVENT_SESSION_END n n'
    else n_events n' = n_events n ∧ n_work n' = n_work n) n.
Proof.
  intros Hinv Hc Hid. eapply wp_mono; [by apply wp_uplink_finish|].
  intros [] n' (Hinv' & _ & Htx & Hh & Hf & Hi & Hfr & Hev). split_and!; try done.
  intros o. unfold session_valid. rewrite Hi, Hid. intros ->.
  intros Heq. by apply (next_session_id v).
Qed.
End session_theorems.

Section device_id.
Context `{COk : ConfigOk} `{ZS : ZephyrSpec} `{Mal : Malloc} `{HC : HeaderCodecSpec}.
Context {CC : CanonicalCodec Co}.
#[local] Existing Instance crypto_none.
#[local] Existing Instance crypto_none_spec.

(** The header of a plaintext build has no room for an id of 32 bytes. *)
Lemma header_too_long id :
  CONFIG_POUCH_ENCRYPTION_SAEAD = false → zlen id = POUCH_DEVICE_ID_MAX_LEN →
  cbor_encode_pouch_header POUCH_HEADER_MAX_LEN
    (mk_header POUCH_HEADER_VERSION (plaintext_info id)) = None.
Proof.
  intros Hcfg Hid. destruct (cbor_encode_pouch_header _ _) as [l|] eqn:Hl; [|done].
  pose proof (encode_len _ _ _ Hl) as Hle. apply encode_plain_len in Hl; [|done|by rewrite Hid].
  rewrite Hid in Hl. unfold POUCH_HEADER_MAX_LEN in Hle. rewrite Hcfg in Hle.
  rewrite Hl in Hle. by destruct Hle.
Qed.

Lemma wp_header_create_none n id :
  CONFIG_POUCH_ENCRYPTION_SAEAD = false → zlen id = POUCH_DEVICE_ID_MAX_LEN →
  node_inv n [] → n_crypto n = Some id → wp pouch_header_create (λ h n', h = NULL) n.
Proof.
  intros Hcfg Hid Hinv Hc. pose proof header_max_range. unfold pouch_header_create.
  wp_step. apply wp_on_mem. apply wp_buf_alloc; [lia| |].
  2: { intros _. by wp_steps. }
  intros junk Hj Hlen Hb. wp_step. unfold write_header. wp_step. apply wp_zoom.
  cbn. unfold CryptoNone.crypto_header_get. wp_steps. cbn. rewrite Hc. wp_step.
  wp_step. apply wp_on_mem. unfold buf_next. wp_step.
  eapply wp_deref; [apply heap_new_buf_eq|]. wp_step. rewrite header_too_long by done.
  wp_steps. apply wp_on_mem. eapply wp_free_owned.
  { apply (owns_new_buf _ _ (mk_buf 0 junk) Hinv). split; cbn; [lia|lia|done]. }
  intros m' _ _ _. by wp_steps.
Qed.

(** With the canonical encoding the build selects, the room for a header is
    one byte short of a device id of the length [POUCH_DEVICE_ID_MAX_LEN], which
    [crypto_init] accepts: the header cannot be made and no session ever starts. *)
Lemma longest_device_id_never_starts n id :
  CONFIG_POUCH_ENCRYPTION_SAEAD = false → zlen id = POUCH_DEVICE_ID_MAX_LEN →
  node_inv n [] →
  CryptoNone.crypto_init (Some id) (n_crypto n) = Ret success (Some id) ∧
  (n_crypto n = Some id → wp pouch_uplink_start (λ r n', r = false) n).
Proof.
  intros Hcfg Hid Hinv. split; [unfold CryptoNone.crypto_init; by rewrite Hid|]. intros Hc.
  unfold pouch_uplink_start, uplink_test_and_set_bit, uplink_set_bit, uplink_clear_bit,
    modify_uplink. wp_steps.
  destruct (atomic_test_bit _ _); [by wp_steps|].
  wp_step. apply wp_zoom. apply wp_ret. wp_step. apply wp_zoom. apply wp_ret. wp_step.
  eapply wp_mono; [by apply (wp_header_create_none _ id)|]. intros h n' ->. by wp_steps.
Qed.
End device_id.

Section session_witnesses.
#[local] Existing Instances small_config small_config_ok zephyr_ref zephyr_ref_spec
  malloc_always crypto_none crypto_none_spec plain_codec plain_codec_spec plain_codec_canonical.

(** An idle node: a finished block waits, and an entry is in the open block. *)
Definition node_i_bufs : list pouch_buf := [
  mk_buf 6 [0; 4; 192; 1; 2; 3];
  mk_buf 11 ([0; 0; 192; 0; 2; 0; 50; 1; 46; 7; 8] ++ replicate 24 0)].

Definition node_i : node := mk_node (list_mem node_i_bufs)
  (mk_uplink NULL 0 0 0 [0%nat] [] (mk_view NULL 0))
  (Some 1%nat) init_streams init_downlink (Some [97; 98; 99]) [] (k_msgq_define 4) [].

Definition open_i : option (list entry) := Some [mk_app_entry [46] 50 [7; 8]].

Lemma node_i_inv : node_inv node_i [].
Proof.
  unfold node_inv. assert (owned node_i ++ [] = seq 0 2) as -> by by vm_compute.
  apply (list_mem_owns node_i_bufs); [|done].
  repeat constructor; cbn; try done; solve_bytes.
Qed.

Lemma node_i_ok : uplink_ok node_i [].
Proof.
  split; [apply node_i_inv|by eexists|]. intros l x Hl Hx. cbn in Hl, Hx.
  apply list_elem_of_singleton in Hl as ->. injection Hx as <-. by exists 0, true, true, [1; 2; 3].
Qed.

Lemma node_i_rep : entry_rep node_i open_i.
Proof.
  split; [by vm_compute|]. exists 1%nat. eexists. split_and!; [done|done|].
  split; [split; cbn; [done|done|solve_bytes]|by vm_compute|by vm_compute].
Qed.

Lemma node_i_idle : idle node_i.
Proof. by split. Qed.

Lemma node_i_holds :
  holds (n_mem node_i) (slist_items (up_processing (n_uplink node_i))) [[0; 4; 192; 1; 2; 3]].
Proof. by repeat constructor. Qed.

Lemma session_sends_witness :
  wp run_session (λ r n',
    if r : bool then
      n_events n' = (k_msgq_put (n_events node_i) POUCH_EVENT_SESSION_START).2 ∧
      ∃ enc ys c, header_bytes c enc ∧
        seal_all c ([[0; 4; 192; 1; 2; 3]] ++ entry_blocks open_i) ys (n_crypto n') ∧
        let bytes := if decide (ys = []) then [] else enc ++ concat ys in
        ∀ fuel maxlen, 0 < maxlen < 2 ^ 32 → zlen bytes < Z.of_nat fuel →
          wp (drain fuel maxlen) (λ out n'', out = bytes ∧ tx_empty n'' ∧
            session_ended n' n'' ∧ node_inv n'' []) n'
    else
      n_events n' = n_events node_i ∧ entry_rep n' open_i ∧
      holds (n_mem n') (slist_items (up_processing (n_uplink n'))) [[0; 4; 192; 1; 2; 3]]) node_i.
Proof.
  apply (session_sends node_i [] open_i [[0; 4; 192; 1; 2; 3]]);
    [apply node_i_ok|apply node_i_rep|apply node_i_idle|apply node_i_holds].
Defined.

(** The bytes of that session, drained five at a time: the header names version
    1, plaintext and the device id; then the two blocks. *)
Lemma session_sends_example :
  wp (started ← run_session; out ← drain 100 5; mret (started, out))
    (λ r _, r = (true, [130; 1; 130; 0; 99; 97; 98; 99] ++ [0; 4; 192; 1; 2; 3] ++
       [0; 9; 192; 0; 2; 0; 50; 1; 46; 7; 8])) node_i.
Proof. by vm_compute. Qed.

Lemma start_refines_witness :
  (session_is_active (n_uplink node_i) = true → pouch_uplink_start node_i = Ret false node_i) ∧
  (session_is_active (n_uplink node_i) = false → up_header (n_uplink node_i) = NULL →
   wp pouch_uplink_start (λ r n', start_frame node_i n' ∧ uplink_ok n' [] ∧
    if r : bool then
      up_flags (n_uplink n') = Z.setbit (up_flags (n_uplink node_i)) SESSION_ACTIVE ∧
      event_emitted POUCH_EVENT_SESSION_START node_i n' ∧
      ∃ l enc, up_header (n_uplink n') = Some l ∧
        ptr_contents (n_mem n') (Some l) = Some enc ∧ header_bytes (n_crypto n') enc
    else up_flags (n_uplink n') = up_flags (n_uplink node_i) ∧ up_header (n_uplink n') = NULL ∧
      n_events n' = n_events node_i ∧ n_work n' = n_work node_i) node_i).
Proof. apply start_refines, node_i_ok. Defined.

Lemma close_refines_witness :
  wp (pouch_uplink_close success) (λ r n',
    if pouch_is_closing (n_uplink node_i) then r = Some EALREADY ∧ n' = node_i else
    r = success ∧ uplink_ok n' [] ∧ close_frame node_i n' ∧ n_entry n' = NULL ∧
    up_flags (n_uplink n') = Z.setbit (up_flags (n_uplink node_i)) POUCH_CLOSING ∧
    holds (n_mem n') (slist_items (up_processing (n_uplink n')))
      ([[0; 4; 192; 1; 2; 3]] ++ entry_blocks open_i) ∧
    work_process ∈ n_work n') node_i.
Proof. apply close_refines; [apply node_i_ok|apply node_i_rep|apply node_i_holds]. Defined.

Example close_timeout_drops_entries_there :
  wp (r ← pouch_uplink_close (Some EAGAIN); r' ← pouch_uplink_close success; mret (r, r'))
    (λ r n', r = (Some EAGAIN, Some EALREADY) ∧ n_entry n' = n_entry node_i ∧
       n_mem n' = n_mem node_i ∧ up_processing (n_uplink n') = up_processing (n_uplink node_i) ∧
       pouch_is_closing (n_uplink n') = true) node_i.
Proof. by apply (close_timeout_drops_entries node_i EAGAIN). Defined.

Lemma finish_resets_witness :
  wp pouch_uplink_finish (λ _ n', node_inv n' [] ∧ idle n' ∧ finish_frame node_u n' ∧
    (∀ o, session_valid o node_u → ¬ session_valid o n') ∧
    if session_is_active (n_uplink node_u) then event_emitted POUCH_EVENT_SESSION_END node_u n'
    else n_events n' = n_events node_u ∧ n_work n' = n_work node_u) node_u.
Proof. apply (finish_resets node_u [] 0); [apply node_u_inv|by eexists|done]. Defined.

Definition node_long : node := init_node (Some (replicate 32 120) : CryptoNone.st).

Lemma longest_device_id_never_starts_witness :
  CryptoNone.crypto_init (Some (replicate 32 120)) (n_crypto node_long) =
    Ret success (Some (replicate 32 120)) ∧
  (n_crypto node_long = Some (replicate 32 120) → wp pouch_uplink_start (λ r n', r = false) node_long).
Proof.
  apply (longest_device_id_never_starts node_long
    (replicate 32 120)); [done|done|apply init_node_inv].
Defined.

(** The node with a session. *)
Definition node_s : node := set_uplink (up_set_flags 1 (n_uplink node_i)) node_i.
End session_witnesses.
