(* ===== verification/SaeadChain.v ===== *)
(** What SAEAD encryption promises: an uplink pouch is a chain of sealed blocks under
    nonces that do not repeat, a downlink pouch is accepted only as such a chain, and
    how far replays are detected. *)
From S2P Require Import Prelude Zephyr Config Platform Buf Block Header Node CryptoNone CryptoSpec.
From S2P Require Import Cert SaeadSession Saead SaeadSpec Reference SaeadReference.
From S2P Require Import Entry Stream Uplink Session.

(** ** Chains of sealed blocks *)

Section chain.
Context `{COk : ConfigOk} `{ZS : ZephyrSpec} `{PS : PsaSpec}.
Implicit Types (s : session) (key : psa_key) (pt : list Z).

(** The blocks that [sender] makes of the plaintexts [pts], from the position of [s] on. *)
Fixpoint seal_pouch s (sender : pouch_role) key (pts : list (list Z)) : list (list Z) :=
  match pts with
  | [] => []
  | pt :: pts =>
      let ct := seal_at s sender key pt in
      sized ct :: seal_pouch (advance s (tag_of ct)) sender key pts
  end.

(** The nonce of the [i]-th block. *)
Definition nonce_at s (sender : pouch_role) (i : nat) : list Z :=
  nonce_generate (s_set_block_index (u32 (s_block_index s + Z.of_nat i)) s) sender.

(** Sessions at the same position with the same algorithm. *)
Definition same_position s s' : Prop :=
  s_algorithm s = s_algorithm s' ∧ s_pouch_id s = s_pouch_id s' ∧
  s_block_index s = s_block_index s' ∧ s_ad s = s_ad s'.

Lemma seal_at_position s s' r key pt : same_position s s' → seal_at s r key pt = seal_at s' r key pt.
Proof.
  unfold seal_at, nonce_generate, block_ad. by intros (-> & -> & -> & ->).
Qed.

Lemma seal_pouch_position s s' r key pts :
  same_position s s' → seal_pouch s r key pts = seal_pouch s' r key pts.
Proof.
  revert s s'. induction pts as [|pt pts IH]; intros s s' H; cbn [seal_pouch]; [done|].
  rewrite (seal_at_position s s') by done. f_equal. apply IH.
  destruct H as (? & ? & Hi & ?). by split_and!; cbn; rewrite ?Hi.
Qed.

Lemma u32_add x y : u32 (u32 x + y) = u32 (x + y).
Proof. unfold u32. by rewrite Zplus_mod_idemp_l. Qed.

(** Block [i] of a chain: sealed under the nonce of its index, with the tag of the
    block before as associated data, the first block of a pouch with none. *)
Lemma seal_pouch_lookup s r key pts i pt :
  s_block_index s = 0 → pts !! i = Some pt → Z.of_nat i < 2 ^ 32 →
  ∃ ct ad, seal_pouch s r key pts !! i = Some (sized ct) ∧
    ct = aead_seal (s_algorithm s) (key_material key) (nonce_at s r i) ad pt ∧
    match i with
    | O => ad = []
    | S j => ∃ ct', seal_pouch s r key pts !! j = Some (sized ct') ∧ ad = tag_of ct'
    end.
Proof.
  intros Hidx. assert (∀ n s pts i, s_block_index s = Z.of_nat n → Z.of_nat (n + i) < 2 ^ 32 →
    pts !! i = Some pt → ∃ ct ad,
    seal_pouch s r key pts !! i = Some (sized ct) ∧
    ct = aead_seal (s_algorithm s) (key_material key) (nonce_at s r i) ad pt ∧
    match i with
    | O => ad = block_ad s
    | S j => ∃ ct', seal_pouch s r key pts !! j = Some (sized ct') ∧ ad = tag_of ct'
    end) as Hgen.
  { clear s pts i Hidx. intros n s pts i. revert n s pts.
    induction i as [|i IH]; intros n s [|p pts] Hn Hlt Hp; try done; cbn [seal_pouch].
    - injection Hp as ->. eexists _, _. split_and!; [done| |done].
      unfold seal_at, nonce_at. do 2 f_equal. rewrite Z.add_0_r.
      unfold s_set_block_index, u32. rewrite Z.mod_small by lia. by destruct s.
    - set (ct0 := seal_at s r key p). set (s1 := advance s (tag_of ct0)).
      assert (s_block_index s1 = Z.of_nat (S n)) as Hn1.
      { cbn. unfold u32. rewrite Z.mod_small; lia. }
      destruct (IH (S n) s1 pts Hn1) as (ct & ad & Hct & Heq & Had); [lia|done|].
      exists ct, ad. split; [exact Hct|]. split.
      + rewrite Heq. f_equal. unfold nonce_at, nonce_generate. cbn -[Z.of_nat u32 u16].
        rewrite u32_add. replace (s_block_index s + 1 + Z.of_nat i) with
          (s_block_index s + Z.of_nat (S i)) by lia. done.
      + destruct i as [|j]; [|exact Had]. exists ct0. split; [done|]. rewrite Had.
        unfold block_ad. rewrite Hn1. destruct (Z.ltb_spec 0 (Z.of_nat (S n))); [done|lia]. }
  intros Hp Hi. destruct (Hgen 0%nat s pts i) as (ct & ad & ? & ? & Had); [done|done|done|].
  exists ct, ad. split_and!; [done|done|]. destruct i; [|done]. rewrite Had. unfold block_ad.
  by rewrite Hidx.
Qed.

(** Nonces of blocks of different pouches, senders, or indices up to 65535 differ. *)
Lemma nonce_inj s s' r r' :
  0 ≤ s_pouch_id s < 65536 → 0 ≤ s_pouch_id s' < 65536 →
  0 ≤ s_block_index s < 65536 → 0 ≤ s_block_index s' < 65536 →
  nonce_generate s r = nonce_generate s' r' →
  s_pouch_id s = s_pouch_id s' ∧ s_block_index s = s_block_index s' ∧ r = r'.
Proof.
  intros Hp Hp' Hi Hi'. unfold nonce_generate. rewrite !u16_small by done. intros He.
  apply app_inj_1 in He as [H1 He]; [|by rewrite !be16_length].
  apply app_inj_1 in He as [H2 He]; [|by rewrite !be16_length].
  apply be16_inj in H1, H2; [|done..].
  injection He as He. split_and!; [done|done|]. by destruct r, r'.
Qed.

Lemma nonces_distinct s r i j :
  0 ≤ s_pouch_id s < 65536 → s_block_index s = 0 → Z.of_nat i < 65536 → Z.of_nat j < 65536 →
  nonce_at s r i = nonce_at s r j → i = j.
Proof.
  intros Hp Hidx Hi Hj He. unfold nonce_at in He. rewrite Hidx in He.
  assert (∀ k, Z.of_nat k < 65536 → u32 (0 + Z.of_nat k) = Z.of_nat k) as Hu.
  { intros k Hk. unfold u32. rewrite Z.mod_small; lia. }
  rewrite !Hu in He by done. apply nonce_inj in He as (_ & He & _); cbn in *; lia.
Qed.

(** The index is cut to 16 bits: block 65536 has the nonce of block 0. *)
Lemma nonce_wraps s r : s_block_index s = 0 → nonce_at s r (Z.to_nat 65536) = nonce_at s r 0.
Proof.
  intros Hidx. unfold nonce_at, nonce_generate.
  cbn [s_block_index s_pouch_id s_set_block_index]. rewrite Hidx, Z2Nat.id by lia.
  reflexivity.
Qed.
End chain.

(** ** The uplink *)

Section saead_uplink.
Context `{COk : ConfigOk} `{ZS : ZephyrSpec} `{Mal : Malloc} `{PS : PsaSpec} {SB : SaeadBuild Cfg}.
Context {Tls : Mbedtls} {TS : MbedtlsSpec Tls} `{B64S : Base64Spec} `{HC : HeaderCodecSpec}.
#[local] Existing Instances crypto_saead crypto_saead_spec.
Implicit Types (c : saead_st).

(** The nonce of block [i] of pouch [pouch_id] of the device. *)
Definition device_nonce (pouch_id i : Z) : list Z :=
  sys_put_be16 pouch_id ++ sys_put_be16 i ++ 0 :: replicate 7 0.

(** [ys] are the plaintexts [pts] sealed by the device in a pouch, each block under the
    nonce of its index and bound to the tag of the block before. *)
Definition sealed_chain (alg : psa_algorithm) key (pouch_id : Z) (pts ys : list (list Z)) : Prop :=
  length ys = length pts ∧ ∀ i pt, pts !! i = Some pt → ∃ ct ad, ys !! i = Some (sized ct) ∧
    ct = aead_seal alg (key_material key) (device_nonce pouch_id (Z.of_nat i)) ad pt ∧
    match i with
    | O => ad = []
    | S j => ∃ ct', ys !! j = Some (sized ct') ∧ ad = tag_of ct'
    end.

Lemma seal_pouch_length s r key pts : length (seal_pouch s r key pts) = length pts.
Proof. revert s. induction pts as [|pt pts IH]; intros s; [done|]. cbn. by rewrite IH. Qed.

(** Sealing changes the position in the pouch only. *)
Definition same_session c c' : Prop :=
  sa_psa c' = sa_psa c ∧ sa_certs c' = sa_certs c ∧
  s_set_block_index 0 (s_set_ad [] (sa_uplink c')) = s_set_block_index 0 (s_set_ad [] (sa_uplink c)).

Lemma same_session_fields c c' : same_session c c' →
  s_id (sa_uplink c') = s_id (sa_uplink c) ∧ s_flags (sa_uplink c') = s_flags (sa_uplink c) ∧
  s_algorithm (sa_uplink c') = s_algorithm (sa_uplink c) ∧ s_key (sa_uplink c') = s_key (sa_uplink c) ∧
  s_pouch_id (sa_uplink c') = s_pouch_id (sa_uplink c).
Proof. intros (_ & _ & He). by injection He. Qed.

Lemma same_session_trans c1 c2 c3 : same_session c1 c2 → same_session c2 c3 → same_session c1 c3.
Proof. intros (? & ? & ?) (? & ? & ?). split_and!; congruence. Qed.

(** What the module makes of a list of blocks: all of them are sealed if there is
    memory, none without a key. *)
Definition sealed_from c (xs ys pts : list (list Z)) : Prop :=
  match psa_keys (sa_psa c) (s_key (sa_uplink c)) with
  | Some key => ys = seal_pouch (sa_uplink c) POUCH_ROLE_DEVICE key pts ∧ sublist (map sized pts) xs ∧
      ((∀ k, malloc_bytes k MAX_CIPHERTEXT_BLOCK_SIZE ≠ None) → map sized pts = xs)
  | None => ys = [] ∧ pts = []
  end.

Lemma seal_all_chain (c c' : crypto_st) xs ys :
  seal_all c xs ys c' → s_test_bit SaeadSession.SESSION_ACTIVE (sa_uplink (c : saead_st)) = true → uplink_key_fits (c : saead_st) →
  same_session (c : saead_st) (c' : saead_st) ∧ ∃ pts, sealed_from (c : saead_st) xs ys pts.
Proof.
  induction 1 as [c|c x c1 xs ys c2 [Hx Hcomp] _ IH|c x y c1 xs ys c2 [Hx _] _ IH]; intros Hact Hfits.
  - split; [by split_and!|]. exists []. unfold sealed_from. by destruct (psa_keys _ _).
  - cbn in Hx. subst c1. destruct (IH Hact Hfits) as (Hss & pts & Hp). split; [done|]. exists pts.
    unfold sealed_from in *. specialize (Hfits : ∀ key, _ → _). destruct (psa_keys _ _) as [key|]; [|done].
    destruct Hp as (Hys & Hsub & _). split_and!; [done|by constructor|]. intros Hmem.
    by destruct (Hcomp Hact (ex_intro _ key (Hfits key eq_refl)) Hmem).
  - destruct Hx as (key & pt & -> & Hk & Hct & ->). cbn zeta in Hct.
    destruct IH as (Hss & pts & Hp); [done|done|]. split; [by destruct Hss as (? & ? & ?)|].
    exists (pt :: pts). unfold sealed_from in *. cbn in Hk, Hp. rewrite Hk in Hp |- *.
    destruct Hp as (-> & Hsub & Hall). cbn [seal_pouch map]. rewrite Hct. split_and!; [done|by constructor|].
    intros Hmem. by rewrite Hall.
Qed.
End saead_uplink.

Section saead_uplink_theorem.
Context `{COk : ConfigOk} `{ZS : ZephyrSpec} `{Mal : Malloc} `{PS : PsaSpec} {SB : SaeadBuild Cfg}.
Context {Tls : Mbedtls} {TS : MbedtlsSpec Tls} `{B64S : Base64Spec} `{HC : HeaderCodecSpec}.
#[local] Existing Instances crypto_saead crypto_saead_spec.

Lemma seal_pouch_sealed s key pts :
  session_ok s → s_block_index s = 0 → Z.of_nat (length pts) ≤ 65536 →
  sealed_chain (s_algorithm s) key (s_pouch_id s) pts (seal_pouch s POUCH_ROLE_DEVICE key pts).
Proof.
  intros Hok Hidx Hn. split; [apply seal_pouch_length|]. intros i pt Hi.
  pose proof (lookup_lt_Some _ _ _ Hi) as Hlt.
  destruct (seal_pouch_lookup s POUCH_ROLE_DEVICE key pts i pt Hidx Hi) as (ct & ad & ? & -> & ?); [lia|].
  eexists _, ad. split_and!; [done| |done]. do 2 f_equal. unfold nonce_at, nonce_generate, device_nonce.
  cbn -[u16 u32 Z.of_nat]. rewrite Hidx, Z.add_0_l. unfold u32.
  rewrite Z.mod_small, !u16_small; [done|lia|apply Hok|lia].
Qed.

Lemma device_nonce_inj p i j : 0 ≤ i < 65536 → 0 ≤ j < 65536 → device_nonce p i = device_nonce p j → i = j.
Proof.
  unfold device_nonce. intros Hi Hj [He _]%app_inv_head%app_inj_1; [by apply be16_inj|by rewrite !be16_length].
Qed.

(** C5: what an encrypted session sends, told by the crypto state it leaves: the header
    names the id of the session, the pouch and the reference of the device certificate.
    If a key could be derived, the blocks behind the header are the blocks that were
    queued, in order, all of them unless memory is short; the i-th is sealed under
    the key of the session and the nonce of the pouch, the index i and the device, with
    the tag of the block before as associated data; and these nonces are all different.
    Without a key nothing is sent. *)
Theorem saead_session_sealed n lk open xs :
  uplink_ok n lk → entry_rep n open → idle n →
  holds (n_mem n) (slist_items (up_processing (n_uplink n))) xs → zlen xs < 65536 →
  wp run_session (λ r n', r = true →
    let c := n_crypto n' : saead_st in let s := sa_uplink c in ∃ enc pts ys,
    cbor_encode_pouch_header POUCH_HEADER_MAX_LEN (mk_header POUCH_HEADER_VERSION
      (uplink_info s (device_ref (sa_certs c)))) = Some enc ∧
    match psa_keys (sa_psa c) (s_key s) with
    | Some key => sealed_chain (s_algorithm s) key (s_pouch_id s) pts ys ∧
        sublist (map sized pts) (xs ++ entry_blocks open) ∧
        ((∀ k, malloc_bytes k MAX_CIPHERTEXT_BLOCK_SIZE ≠ None) → map sized pts = xs ++ entry_blocks open)
    | None => ys = []
    end ∧
    NoDup (map (λ i, device_nonce (s_pouch_id s) (Z.of_nat i)) (seq 0 (length ys))) ∧
    let bytes := if decide (ys = []) then [] else enc ++ concat ys in
    ∀ fuel maxlen, 0 < maxlen < 2 ^ 32 → zlen bytes < Z.of_nat fuel →
      wp (drain fuel maxlen) (λ out n'', out = bytes ∧ session_ended n' n'') n') n.
Proof.
  intros Hok Hrep Hidle Hxs Hlen. eapply wp_mono; [by apply (wp_run_session n lk open xs)|].
  intros [|] n' (Hinv & Hc & Hr) [=].
  destruct Hr as (Hon & Hclosed & _ & _ & _ & enc & ys & c0 & (info & [(Hsok & Hact & Hidx & Hfits) [_ ->]] & Henc) & Hs & Htx).
  destruct (seal_all_chain _ _ _ _ Hs Hact Hfits) as (Hss & pts & Hp).
  destruct (same_session_fields _ _ Hss) as (Hid & Hfl & Halg & Hkey & Hpid). destruct Hss as (Hpsa & Hcert & _).
  intros c s. exists enc, pts, ys. subst s c. unfold uplink_info in *. rewrite Hid, Halg, Hpid, Hpsa, Hkey, Hcert.
  unfold sealed_from in Hp. assert (Z.of_nat (length ys) ≤ 65536) as Hn.
  { destruct (psa_keys _ _); [destruct Hp as (-> & Hsub & _)|by destruct Hp as [-> _]; cbn; lia]. rewrite seal_pouch_length.
    apply sublist_length in Hsub. rewrite length_map, length_app in Hsub.
    assert (length (entry_blocks open) ≤ 1)%nat by (destruct open as [[|? ?]|]; cbn; lia). unfold zlen in Hlen. lia. }
  split_and!; [done| | |].
  - destruct (psa_keys _ _); [|by destruct Hp]. destruct Hp as (-> & ? & ?). rewrite seal_pouch_length in Hn.
    split_and!; [by apply seal_pouch_sealed|done|done].
  - apply NoDup_fmap_2_strong; [|apply NoDup_seq]. intros i j Hi Hj. rewrite !elem_of_seq in *.
    intros He. apply device_nonce_inj in He; lia.
  - intros fuel maxlen Hmax Hfuel. eapply wp_mono; [eapply (wp_drain fuel n' lk _ maxlen); try done|].
    intros out n'' (-> & _ & Hse & _ & _). by split.
Qed.
End saead_uplink_theorem.

(** ** The downlink *)

Section saead_downlink.
Context `{COk : ConfigOk} `{ZS : ZephyrSpec} `{Mal : Malloc} `{PS : PsaSpec} {SB : SaeadBuild Cfg}.
Context {Tls : Mbedtls} {TS : MbedtlsSpec Tls} `{B64S : Base64Spec}.
Implicit Types (c : saead_st) (m : mem) (ls rest : list nat).

(** Decrypting the blocks of a queue one after the other. *)
Fixpoint decrypt_all (ls : list nat) : M (mem * saead_st) (list ptr) :=
  match ls with
  | [] => mret []
  | l :: ls =>
      r ← CryptoSaead.crypto_decrypt_block (Some l);
      rs ← decrypt_all ls;
      mret (r :: rs)
  end.

(** The buffers handed out. *)
Definition handed_out (rs : list ptr) : list nat := concat (map option_list rs).

(** What decrypting the blocks [xs] gives in state [c]: the plaintexts [pts]. *)
Definition decrypted_as c xs (pts : list (list Z)) : Prop :=
  (∃ key, (pts ≠ [] → psa_keys (sa_psa c) (s_key (sa_downlink c)) = Some key) ∧
     sublist (seal_pouch (sa_downlink c) POUCH_ROLE_SERVER key pts) xs) ∧
  ∀ key pts', can_decrypt (sa_psa c) (sa_downlink c) key → Forall server_block pts' →
    xs = seal_pouch (sa_downlink c) POUCH_ROLE_SERVER key pts' →
    (∀ n, malloc_bytes n MAX_PLAINTEXT_BLOCK_SIZE ≠ None) → pts = pts'.

Lemma downlink_next_position c ct :
  same_position (sa_downlink (downlink_next c ct)) (advance (sa_downlink c) (tag_of ct)) ∧
  s_key (sa_downlink (downlink_next c ct)) = s_key (sa_downlink c) ∧
  sa_psa (downlink_next c ct) = sa_psa c.
Proof. done. Qed.

(** One block, then the others. *)
Lemma decrypted_as_step c c1 x xs y pts :
  saead_opens c x y c1 → saead_complete c x y →
  decrypted_as c1 xs pts →
  ∃ pts1, map sized pts1 = option_list y ∧ decrypted_as c (x :: xs) (pts1 ++ pts).
Proof.
  intros Hx Hcomp [(key1 & Hkey1 & Hsub) Hall]. destruct y as [y|].
  - destruct Hx as (key & pt & Hkey & Hsb & -> & -> & ->). cbn zeta in *.
    set (ct := seal_at (sa_downlink c) POUCH_ROLE_SERVER key pt) in *.
    destruct (downlink_next_position c ct) as (Hpst & Hk & Hpsa). rewrite Hk, Hpsa in *.
    assert (pts = [] ∨ key1 = key) as Hsame.
    { destruct pts as [|p pts]; [by left|right]. specialize (Hkey1 ltac:(done)). congruence. }
    exists [pt]. split; [done|]. split.
    + exists key. split; [done|]. cbn [app seal_pouch]. fold ct. constructor.
      rewrite <- (seal_pouch_position _ _ _ _ _ Hpst).
      destruct Hsame as [-> | ->]; [apply sublist_nil_l|done].
    + intros key' pts' Hcan Hpts' Heq Hmal. destruct pts' as [|p pts']; [done|].
      apply Forall_cons_iff in Hpts' as [Hp Hpts'].
      cbn [seal_pouch] in Heq. injection Heq as Hx Heq.
      assert (key' = key) as -> by (destruct Hcan as [Hcan _]; congruence).
      specialize (Hcomp key p Hcan Hp Hx Hmal). injection Hcomp as Hp'.
      assert (pt = p) as ->.
      { pose proof block_sizes_range. destruct Hp as [Hp _]. unfold sized in Hp'.
        destruct Hsb as [Hsb _].
        apply app_inj_1 in Hp' as [_ ?]; [done|]. pose proof (zlen_nonneg pt).
        pose proof (zlen_nonneg p). rewrite !be16_length; [done|lia|lia]. }
      cbn [app]. f_equal. eapply (Hall key pts'); [|done| |done].
      * destruct Hcan as (? & ? & ?). by split_and!.
      * rewrite Heq. apply seal_pouch_position. by destruct Hpst as (? & ? & ? & ?).
  - cbn in Hx. subst c1. exists []. split; [done|]. split.
    + exists key1. split; [done|]. by constructor.
    + intros key pts' Hcan Hpts' Heq Hmal. destruct pts' as [|p pts']; [done|].
      apply Forall_cons_iff in Hpts' as [Hp Hpts']. cbn [seal_pouch] in Heq. injection Heq as Hx Heq.
      by specialize (Hcomp key p Hcan Hp Hx Hmal).
Qed.

Lemma wp_decrypt_all m c ls rest xs :
  heap_owns m (ls ++ rest) → holds m ls xs → Forall received_block xs → saead_ok c →
  wp (decrypt_all ls) (λ rs t, ∃ pts, heap_owns t.1 (handed_out rs ++ rest) ∧
    (∀ k, k ∈ rest → heap t.1 !! k = heap m !! k) ∧ saead_ok t.2 ∧
    holds t.1 (handed_out rs) (map sized pts) ∧ decrypted_as c xs pts) (m, c).
Proof.
  revert m c rest xs. induction ls as [|l ls IH]; intros m c rest xs Hm Hh Hrec Hok; cbn [decrypt_all].
  { wp_step. inversion Hh; subst. exists []. split_and!; [done|done|done|by constructor|].
    split; [exists (mk_key [] None []); split; [done|constructor]|].
    intros key [|p pts'] _ _ He _; [done|]. cbn in He. done. }
  inversion Hh as [|? x ? xs' Hl Hh']; subst. apply Forall_cons_iff in Hrec as [Hx Hrec].
  cbn in Hl. destruct (heap m !! l) as [b|] eqn:Hb; [|done]. injection Hl as Hco.
  wp_step. eapply wp_mono.
  { apply (wp_saead_opens m c l (ls ++ rest) b); [done|done|done|by rewrite Hco]. }
  intros r [m1 c1] (Hok1 & [Hm1 Hk1] & Hop & Hcomp). cbn [fst snd] in *.
  wp_step. eapply wp_mono.
  { apply (IH m1 c1 (option_list r ++ rest) xs'); [|eapply holds_kept; [|exact Hh']|done|done].
    - by rewrite (assoc_L (++)), (comm (++) ls), <- (assoc_L (++)).
    - intros k Hk. apply Hk1, elem_of_app. by left. }
  intros rs [m2 c2] (pts & Hm2 & Hk2 & Hok2 & Hh2 & Hdec). cbn [fst snd] in *. wp_step.
  destruct (decrypted_as_step c c1 (contents b) xs' (ptr_contents m1 r) pts) as (pts1 & Hpts1 & Hd); [done..|].
  exists (pts1 ++ pts). rewrite map_app, Hpts1. split_and!; [|  |done| |by rewrite Hco in Hd].
  - unfold handed_out. cbn [map concat]. rewrite <- (assoc_L (++)), (comm (++) (option_list r)).
    rewrite <- (assoc_L (++)), (comm (++) rest). exact Hm2.
  - intros k Hk. rewrite Hk2, Hk1; [done| |]; apply elem_of_app; by right.
  - apply holds_app; [|done]. destruct r as [e|]; [|by constructor].
    cbn [ptr_contents option_list] in *. assert (is_Some (heap m1 !! e)) as [be He].
    { rewrite <- (owns_dom _ _ Hm1). by left. }
    rewrite He. cbn. constructor; [|constructor]. cbn. rewrite Hk2 by (by left). by rewrite He.
Qed.
End saead_downlink.

(** ** Properties of the downlink *)

Section saead_downlink_theorems.
Context `{COk : ConfigOk} `{ZS : ZephyrSpec} `{Mal : Malloc} `{PS : PsaSpec} {SB : SaeadBuild Cfg}.
Context {Tls : Mbedtls} {TS : MbedtlsSpec Tls} `{B64S : Base64Spec}.
Implicit Types (c : saead_st) (m : mem) (ls rest : list nat).

(** C6: whatever blocks are received, the plaintexts that decryption hands out were
    sealed by the holder of the session key for this pouch, as server, in this order
    from the first block on: the blocks they came from are those that the server
    makes of them, and blocks that are forged, repeated, missing their predecessor or
    of another pouch are dropped without effect. A pouch as the server makes it is
    decrypted completely, if there is memory. Every block is freed. *)
Theorem downlink_authentic m c ls rest xs :
  heap_owns m (ls ++ rest) → holds m ls xs → Forall received_block xs → saead_ok c →
  wp (decrypt_all ls) (λ rs t, ∃ pts, heap_owns t.1 (handed_out rs ++ rest) ∧
    holds t.1 (handed_out rs) (map sized pts) ∧
    (∃ key, (pts ≠ [] → psa_keys (sa_psa c) (s_key (sa_downlink c)) = Some key) ∧
       sublist (seal_pouch (sa_downlink c) POUCH_ROLE_SERVER key pts) xs) ∧
    ∀ key pts', can_decrypt (sa_psa c) (sa_downlink c) key → Forall server_block pts' →
      xs = seal_pouch (sa_downlink c) POUCH_ROLE_SERVER key pts' →
      (∀ n, malloc_bytes n MAX_PLAINTEXT_BLOCK_SIZE ≠ None) → pts = pts') (m, c).
Proof.
  intros Hm Hh Hrec Hok. eapply wp_mono; [by apply wp_decrypt_all|].
  intros rs t (pts & Hm' & _ & _ & Hh' & [Hk Hall]). exists pts. by split_and!.
Qed.

(** A header that the server sends with a sequence number that is not newer than the
    last one of which a block was decrypted. *)
Definition old_header c (info : encryption_info) : Prop :=
  ∃ session id pouch_id, info = saead_info session pouch_id ∧
    CryptoSaead.header_session_id session = Some id ∧ id_initiator id = POUCH_ROLE_SERVER ∧
    id_type id = SESSION_ID_TYPE_SEQUENTIAL ∧ id_seqnum id ≤ sa_server_seqnum c.

(** A well-formed header of a server session. *)
Definition server_header (info : encryption_info) : Prop :=
  ∃ session id pouch_id, info = saead_info session pouch_id ∧
    CryptoSaead.header_session_id session = Some id ∧ id_initiator id = POUCH_ROLE_SERVER.

(** C9: replays. While the session is known to be valid, a header with an old
    sequence number is refused and changes nothing. But any header that is accepted
    forgets this: directly after it no well-formed header of a server session is
    refused as a replay, whatever its sequence number or pouch id, until a block is
    decrypted again. *)
Theorem replay_protection info c :
  saead_ok c → wp (CryptoSaead.crypto_downlink_start info) (λ err c',
    (s_test_bit SESSION_VALID (sa_downlink c) = true → old_header c info →
       err = Some EBADMSG ∧ c' = c) ∧
    (err = success → ∀ info2, server_header info2 →
       wp (CryptoSaead.crypto_downlink_start info2) (λ err2 _,
         err2 = success ∨ err2 = Some EIO) c')) c.
Proof.
  intros Hok. eapply wp_mono; [by apply wp_saead_downlink_start|].
  intros err c' (Hok' & Hfr & Hres). split.
  - intros Hv (session & id & pid & -> & Hid & Hini & Ht & Hseq).
    assert (∀ alg, is_valid_downlink id alg c = false) as Hbad.
    { intros alg. unfold is_valid_downlink. rewrite Hv. cbn [negb]. destruct (_ && _); [done|].
      rewrite decide_True, bool_decide_true by done. by rewrite (proj2 (Z.leb_le _ _)). }
    destruct err as [e|].
    + destruct Hres as [_ Hres]. specialize (Hres session id pid eq_refl Hid).
      rewrite decide_True in Hres by by right. by destruct Hres as [-> ->].
    + destruct Hres as (session' & id' & pid' & [= <- <-] & Hid' & _ & Hvalid & _).
      rewrite Hid in Hid'. injection Hid' as <-. by rewrite Hbad in Hvalid.
  - intros -> info2 (session & id & pid & -> & Hid & Hini).
    destruct Hres as (? & ? & ? & _ & _ & _ & _ & [Hst _]).
    eapply wp_mono; [by apply wp_saead_downlink_start|]. intros [e|] c2 (_ & _ & Hres2); [right|by left].
    destruct Hres2 as [_ Hres2]. specialize (Hres2 session id pid eq_refl Hid).
    rewrite decide_False in Hres2; [by subst|]. intros [Hd|Hd]; [congruence|].
    unfold is_valid_downlink in Hd. by rewrite (dr_valid _ _ _ _ Hst) in Hd.
Qed.

(** Starting a second downlink pouch leaves the key of the first in the key store,
    with nothing that refers to it. *)
Lemma restart_leaks_key info c :
  saead_ok c → psa_keys (sa_psa c) (s_key (sa_downlink c)) ≠ None →
  s_key (sa_downlink c) ≠ s_key (sa_uplink c) →
  wp (CryptoSaead.crypto_downlink_start info) (λ err c', err = success →
    psa_keys (sa_psa c') (s_key (sa_downlink c)) = psa_keys (sa_psa c) (s_key (sa_downlink c)) ∧
    s_key (sa_downlink c') ≠ s_key (sa_downlink c) ∧
    s_key (sa_uplink c') ≠ s_key (sa_downlink c)) c.
Proof.
  intros Hok Hkey Hne. eapply wp_mono; [by apply wp_saead_downlink_start|].
  intros err c' (Hok' & [Hup _ _ _ _] & Hres) ->.
  destruct Hres as (? & ? & ? & _ & _ & _ & _ & [[_ _ _ _ _ [Hkept Hmade] Hnn] _]).
  assert (s_key (sa_downlink c') ≠ s_key (sa_downlink c)) as Hd.
  { intros He. destruct Hmade as [[? _]|(_ & Hfree & _)]; [done|]. by rewrite He in Hfree. }
  split_and!; [by apply Hkept|done|by rewrite Hup].
Qed.
End saead_downlink_theorems.

Section saead_witnesses.
#[local] Existing Instances saead_config saead_config_ok zephyr_ref zephyr_ref_spec malloc_always
  psa_toy psa_toy_spec mbedtls_toy mbedtls_toy_spec base64_ref base64_ref_spec saead_config_build
  crypto_saead crypto_saead_spec saead_codec saead_codec_spec.

(** A provisioned device with a finished block and an open entry. *)
Definition node_e_bufs : list pouch_buf := [
  mk_buf 6 [0; 4; 192; 1; 2; 3];
  mk_buf 11 ([0; 0; 192; 0; 2; 0; 50; 1; 46; 7; 8] ++ replicate 24 0)].

Definition node_e : node := mk_node (list_mem node_e_bufs)
  (mk_uplink NULL 0 0 0 [0%nat] [] (mk_view NULL 0))
  (Some 1%nat) init_streams init_downlink saead_0 [] (k_msgq_define 4) [].

Definition open_e : option (list entry) := Some [mk_app_entry [46] 50 [7; 8]].

Lemma node_e_inv : node_inv node_e [].
Proof.
  unfold node_inv. assert (owned node_e ++ [] = seq 0 2) as -> by by vm_compute.
  apply (list_mem_owns node_e_bufs); [|done].
  repeat constructor; cbn; try done; solve_bytes.
Qed.

Lemma node_e_ok : uplink_ok node_e [].
Proof.
  split; [apply node_e_inv|apply saead_0_ok|]. intros l x Hl Hx. cbn in Hl, Hx.
  apply list_elem_of_singleton in Hl as ->. injection Hx as <-. by exists 0, true, true, [1; 2; 3].
Qed.

Lemma node_e_rep : entry_rep node_e open_e.
Proof.
  split; [by vm_compute|]. exists 1%nat. eexists. split_and!; [done|done|].
  split; [split; cbn; [done|done|solve_bytes]|by vm_compute|by vm_compute].
Qed.

Lemma saead_session_sealed_witness :
  wp run_session (λ r n', r = true →
    let c := n_crypto n' : saead_st in let s := sa_uplink c in ∃ enc pts ys,
    cbor_encode_pouch_header POUCH_HEADER_MAX_LEN (mk_header POUCH_HEADER_VERSION
      (uplink_info s (device_ref (sa_certs c)))) = Some enc ∧
    match psa_keys (sa_psa c) (s_key s) with
    | Some key => sealed_chain (s_algorithm s) key (s_pouch_id s) pts ys ∧
        sublist (map sized pts) ([[0; 4; 192; 1; 2; 3]] ++ entry_blocks open_e) ∧
        ((∀ k, malloc_bytes k MAX_CIPHERTEXT_BLOCK_SIZE ≠ None) → map sized pts = [[0; 4; 192; 1; 2; 3]] ++ entry_blocks open_e)
    | None => ys = []
    end ∧
    NoDup (map (λ i, device_nonce (s_pouch_id s) (Z.of_nat i)) (seq 0 (length ys))) ∧
    let bytes := if decide (ys = []) then [] else enc ++ concat ys in
    ∀ fuel maxlen, 0 < maxlen < 2 ^ 32 → zlen bytes < Z.of_nat fuel →
      wp (drain fuel maxlen) (λ out n'', out = bytes ∧ session_ended n' n'') n') node_e.
Proof.
  apply (saead_session_sealed node_e [] open_e [[0; 4; 192; 1; 2; 3]]);
    [apply node_e_ok|apply node_e_rep|by split|by repeat constructor|done].
Defined.

(** That session starts, and sends a header of 28 bytes and two blocks of 20 and 25
    bytes with their sizes. *)
Example sealed_session_length :
  wp (started ← run_session; out ← drain 100 11; mret (started, zlen out))
    (λ r _, r = (true, 28 + (2 + 20) + (2 + 25))) node_e.
Proof. by vm_compute. Qed.

(** A server session: the header it sends, and the state of the device after it. *)
Definition server_info (seq : Z) : encryption_info :=
  saead_info (mk_session_info (session_id_sequential [8; 7; 6; 5; 4; 3; 2; 1] seq) server
    chacha20_poly1305 5 (replicate 6 9)) 3.

Definition after_start (info : encryption_info) (c : saead_st) : saead_st :=
  match CryptoSaead.crypto_downlink_start info c with Ret _ c' => c' | _ => c end.

Definition saead_1 : saead_st := after_start (server_info 11) saead_0.

Lemma saead_1_ok : saead_ok saead_1.
Proof. by repeat split. Qed.

(** The key the device derived, and two blocks the server sealed with it; the second
    is delivered a second time, and before the first. *)
Definition sample_key : psa_key := default (mk_key [] None []) (psa_keys (sa_psa saead_1) (s_key (sa_downlink saead_1))).
Definition server_pts : list (list Z) := [[192; 1; 2]; [193; 3]].
Definition server_blocks : list (list Z) :=
  seal_pouch (sa_downlink saead_1) POUCH_ROLE_SERVER sample_key server_pts.

Definition mixed_blocks : list (list Z) :=
  match server_blocks with [x; y] => [y; x; y; y] | _ => [] end.

Definition mixed_bufs : list pouch_buf := map (λ x, mk_buf (zlen x) x) mixed_blocks.

Lemma mixed_bufs_own : heap_owns (list_mem mixed_bufs) (seq 0 4 ++ []).
Proof.
  apply (list_mem_owns mixed_bufs); [|done].
  repeat constructor; try solve_bytes; by vm_compute.
Qed.

Lemma mixed_received : Forall received_block mixed_blocks.
Proof.
  apply Forall_forall. intros x Hx.
  exists (zlen x - 2), (drop 2 x). revert x Hx. apply Forall_forall.
  repeat constructor; by vm_compute.
Qed.

Lemma downlink_authentic_witness :
  wp (decrypt_all (seq 0 4)) (λ rs t, ∃ pts, heap_owns t.1 (handed_out rs ++ []) ∧
    holds t.1 (handed_out rs) (map sized pts) ∧
    (∃ key, (pts ≠ [] → psa_keys (sa_psa saead_1) (s_key (sa_downlink saead_1)) = Some key) ∧
       sublist (seal_pouch (sa_downlink saead_1) POUCH_ROLE_SERVER key pts) mixed_blocks) ∧
    ∀ key pts', can_decrypt (sa_psa saead_1) (sa_downlink saead_1) key → Forall server_block pts' →
      mixed_blocks = seal_pouch (sa_downlink saead_1) POUCH_ROLE_SERVER key pts' →
      (∀ n, malloc_bytes n MAX_PLAINTEXT_BLOCK_SIZE ≠ None) → pts = pts')
    (list_mem mixed_bufs, saead_1).
Proof.
  apply (downlink_authentic (list_mem mixed_bufs) saead_1 (seq 0 4) [] mixed_blocks);
    [apply mixed_bufs_own|by repeat constructor|apply mixed_received|apply saead_1_ok].
Defined.

(** Of the four deliveries the second and the third are accepted. *)
Example mixed_accepted :
  wp (decrypt_all (seq 0 4)) (λ rs t, map (ptr_contents t.1) rs =
    [None; Some [0; 3; 192; 1; 2]; Some [0; 2; 193; 3]; None]) (list_mem mixed_bufs, saead_1).
Proof. by vm_compute. Qed.

(** The device after the first block of that pouch. *)
Definition saead_2 : saead_st :=
  match decrypt_all [1%nat] (list_mem mixed_bufs, saead_1) with Ret _ t => t.2 | _ => saead_1 end.

Lemma saead_2_kept :
  sa_uplink saead_2 = sa_uplink saead_1 ∧ sa_certs saead_2 = sa_certs saead_1.
Proof. split; by vm_compute. Qed.

Lemma saead_2_session : session_ok (sa_downlink saead_2).
Proof. split; by vm_compute. Qed.

Lemma saead_2_ok : saead_ok saead_2.
Proof.
  destruct saead_1_ok, saead_2_kept as [Hu Hc].
  constructor; [by rewrite Hu|apply saead_2_session|by rewrite Hc|by rewrite Hu].
Qed.

Lemma replay_protection_witness :
  wp (CryptoSaead.crypto_downlink_start (server_info 11)) (λ err c',
    (s_test_bit SESSION_VALID (sa_downlink saead_2) = true → old_header saead_2 (server_info 11) →
       err = Some EBADMSG ∧ c' = saead_2) ∧
    (err = success → ∀ info2, server_header info2 →
       wp (CryptoSaead.crypto_downlink_start info2) (λ err2 _,
         err2 = success ∨ err2 = Some EIO) c')) saead_2.
Proof. apply (replay_protection (server_info 11) saead_2), saead_2_ok. Defined.

(** The replay of that header is refused; after a header with a higher number, of
    which no block was decrypted, it is accepted, and so is its pouch. *)
Example replay_accepted :
  wp (a ← CryptoSaead.crypto_downlink_start (server_info 11);
      b ← CryptoSaead.crypto_downlink_start (server_info 12);
      c ← CryptoSaead.crypto_downlink_start (server_info 11);
      mret [a; b; c]) (λ r _, r = [Some EBADMSG; success; success]) saead_2.
Proof. by vm_compute. Qed.
End saead_witnesses.
