(* ===== verification/Downlink.v ===== *)
(** The downlink: [src/downlink.c].

    The transport pushes the bytes of a pouch in pieces of its own size. They are
    collected in one buffer; the pouch header is decoded and cut off, and each
    block that is complete is handed to the decryption work item, whose results
    the consuming work item delivers to the application. *)
From S2P Require Import Prelude Zephyr Config Buf Block Header Node CryptoNone CryptoSpec.
From S2P Require Import Reference Entry Stream.

Section downlink.
Context `{Cfg : Config} `{Zk : Zephyr} `{Mal : Malloc} `{Cr : Crypto} `{Hnd : Handlers}.
Context `{Co : HeaderCodec}.

Definition downlink_init : M node unit :=
  modify_downlink (dl_set_decrypt buf_queue_init);;
  modify_downlink (dl_set_consume buf_queue_init).

Definition consume_blocks : M node unit :=
  n ← get;
  '(pouch_buf, q) ← on_mem (buf_queue_get (dl_consume (n_downlink n)));
  modify_downlink (dl_set_consume q);;
  match pouch_buf with
  | None => mret tt
  | Some _ =>
      pouch_downlink_block_push pouch_buf;;
      on_mem (buf_free pouch_buf);;
      n ← get;
      if negb (buf_queue_is_empty (dl_consume (n_downlink n)))
      then k_work_submit work_consume else mret tt
  end.

Definition decrypt_blocks : M node unit :=
  n ← get;
  '(block, q) ← on_mem (buf_queue_get (dl_decrypt (n_downlink n)));
  modify_downlink (dl_set_decrypt q);;
  decrypted ← on_crypto (crypto_decrypt_block block);
  match decrypted with
  | None => mret tt
  | Some _ =>
      n ← get;
      q ← on_mem (buf_queue_submit (dl_consume (n_downlink n)) decrypted);
      modify_downlink (dl_set_consume q);;
      k_work_submit work_consume;;
      n ← get;
      if negb (buf_queue_is_empty (dl_decrypt (n_downlink n)))
      then k_work_submit work_decrypt else mret tt
  end.

Definition block_downlink_push (pouch_buf : ptr) : M node unit :=
  n ← get;
  q ← on_mem (buf_queue_submit (dl_decrypt (n_downlink n)) pouch_buf);
  modify_downlink (dl_set_decrypt q);;
  k_work_submit work_decrypt.

Definition pouch_downlink_start : M node unit :=
  modify_downlink (dl_set_pouch_header false);;
  pouch_buf ← on_mem (buf_alloc MAX_CIPHERTEXT_BLOCK_SIZE);
  modify_downlink (dl_set_pouch_buf pouch_buf).

(** The result and [*header_len]. *)
Definition pouch_downlink_parse_header (v : pouch_bufview) : M node (rc * Z) :=
  '(header_raw, v) ← on_mem (pouch_bufview_read v 0);
  avail ← on_mem (pouch_bufview_available v);
  raw ← (match header_raw with Some a => on_mem (load_bytes a avail) | None => ub end);
  match cbor_decode_pouch_header raw with
  | None => mret (Some EIO, 0)
  | Some (header, header_len) =>
      err ← on_crypto_st (crypto_downlink_start (hd_encryption_info header));
      match err with
      | Some _ => mret (err, header_len)
      | None => mret (success, header_len)
      end
  end.

(** The part of the loop of [pouch_downlink_push] for the header: whether to go
    on with the blocks. *)
Definition push_header (pouch_buf : ptr) (v : pouch_bufview) : M node bool :=
  n ← get;
  if dl_pouch_header (n_downlink n) then mret true else
  '(err, header_len) ← pouch_downlink_parse_header v;
  match err with
  | Some _ => mret false
  | None =>
      modify_downlink (dl_set_pouch_header true);;
      on_mem (buf_trim_start pouch_buf header_len);;
      mret true
  end.

(** The part for a complete block: the block is sent on, what follows it goes to
    a new buffer. *)
Definition push_block (pouch_buf_to_send : ptr) (v : pouch_bufview) (block_size : Z) : M node unit :=
  pouch_buf ← on_mem (buf_alloc MAX_CIPHERTEXT_BLOCK_SIZE);
  modify_downlink (dl_set_pouch_buf pouch_buf);;
  avail ← on_mem (pouch_bufview_available v);
  (match pouch_buf with
   | Some _ =>
       if block_size <? avail then
         '(a, v) ← on_mem (pouch_bufview_read v 0);
         avail ← on_mem (pouch_bufview_available v);
         let remaining_len := usz (avail - block_size) in
         remaining ← (match a with
                      | Some (p, off) => on_mem (load_bytes (p, off + block_size) remaining_len)
                      | None => ub
                      end);
         on_mem (buf_write pouch_buf remaining remaining_len);;
         on_mem (buf_trim_end pouch_buf_to_send remaining_len);;
         mret tt
       else mret tt
   | None => mret tt
   end);;
  block_downlink_push pouch_buf_to_send.

(** The part for the blocks: whether to go on with the loop. *)
Definition push_blocks (pouch_buf : ptr) (v : pouch_bufview) : M node bool :=
  avail ← on_mem (pouch_bufview_available v);
  if 2 <? avail then
    '(block_size, v) ← on_mem (pouch_bufview_read_be16 v);
    if MAX_BLOCK_SIZE_FIELD_VALUE <? block_size then mret false else
    avail ← on_mem (pouch_bufview_available v);
    (if block_size <=? avail then push_block pouch_buf v block_size else mret tt);;
    mret true
  else mret true.

(** The loop: [buf] is what is left of the bytes pushed. *)
Fixpoint push_loop (fuel : nat) (buf : list Z) : M node unit :=
  match fuel with
  | O => nofuel
  | S fuel =>
      if zlen buf =? 0 then mret tt else
      n ← get;
      let pouch_buf := dl_pouch_buf (n_downlink n) in
      match pouch_buf with
      | None => mret tt
      | Some _ =>
          size ← on_mem (buf_size_get pouch_buf);
          if MAX_CIPHERTEXT_BLOCK_SIZE <=? size then mret tt else
          let buf_written := Z.min (zlen buf) (MAX_CIPHERTEXT_BLOCK_SIZE - size) in
          on_mem (buf_write pouch_buf buf buf_written);;
          let buf := drop (Z.to_nat buf_written) buf in
          let v := pouch_bufview_init pouch_buf in
          go ← push_header pouch_buf v;
          if negb go then mret tt else
          go ← push_blocks pouch_buf v;
          if negb go then mret tt else push_loop fuel buf
      end
  end.

(** Every turn takes at least one byte. *)
Definition pouch_downlink_push (buf : list Z) : M node unit := push_loop (S (length buf)) buf.

Definition pouch_downlink_finish : M node unit := mret tt.
End downlink.

(** ** Specification *)

(** What the bytes received so far, with the header cut off, come to: no
    complete block yet, a block that is too large, or a block and what follows. *)
Inductive cut_result :=
  | cut_wait
  | cut_bad
  | cut_block (block rest : list Z).

Section cut.
Context `{COk : ConfigOk} `{ZS : ZephyrSpec}.
Implicit Types (acc data x rest : list Z).

Definition cut acc : cut_result :=
  if 2 <? zlen acc then
    let size := sys_get_be16 (slice 0 2 acc) in
    if MAX_BLOCK_SIZE_FIELD_VALUE <? size then cut_bad
    else if size <=? zlen acc - 2
         then cut_block (slice 0 (2 + size) acc) (drop (Z.to_nat (2 + size)) acc)
         else cut_wait
  else cut_wait.

(** A block of the length its size field says. *)
Definition sized_block (x : list Z) : Prop :=
  ∃ size body, x = sys_put_be16 size ++ body ∧ zlen body = size ∧
    1 ≤ size ≤ MAX_BLOCK_SIZE_FIELD_VALUE ∧ Forall is_byte body.

Lemma max_field_range : 2 ≤ MAX_BLOCK_SIZE_FIELD_VALUE < 65536 - 2.
Proof. unfold MAX_BLOCK_SIZE_FIELD_VALUE. pose proof block_sizes_range. lia. Qed.

Lemma sized_block_len x : sized_block x → 3 ≤ zlen x ≤ MAX_CIPHERTEXT_BLOCK_SIZE.
Proof.
  intros (size & body & -> & Hb & Hs & _). pose proof max_field_range.
  rewrite zlen_app, be16_zlen by lia. unfold MAX_BLOCK_SIZE_FIELD_VALUE in *. lia.
Qed.

Lemma sized_block_bytes x : sized_block x → Forall is_byte x.
Proof.
  intros (size & body & -> & Hb & Hs & Hbs). pose proof max_field_range.
  apply Forall_app. split; [apply be16_bytes; lia|done].
Qed.

Lemma two_bytes acc : 2 < zlen acc → Forall is_byte acc →
  ∃ size r, acc = sys_put_be16 size ++ r ∧ 0 ≤ size < 65536 ∧ slice 0 2 acc = sys_put_be16 size.
Proof.
  intros Hlen Hb. destruct acc as [|a [|b r]]; [by cbn in Hlen..|].
  apply Forall_cons_iff in Hb as [Ha Hb]. apply Forall_cons_iff in Hb as [Hb _].
  exists (sys_get_be16 [a; b]), r. rewrite put_get_be16 by done.
  split_and!; [done|apply get_be16_range; done..|done].
Qed.

(** A complete block is cut off, whatever follows. *)
Lemma cut_sized x rest : sized_block x → cut (x ++ rest) = cut_block x rest.
Proof.
  intros Hx. pose proof (sized_block_len x Hx) as Hlen. destruct Hx as (size & body & -> & Hb & Hs & _).
  pose proof max_field_range. pose proof (zlen_nonneg rest). unfold cut.
  assert (zlen (sys_put_be16 size) = 2) as H2 by (apply be16_zlen; lia).
  rewrite <- !app_assoc, !zlen_app, H2.
  destruct (Z.ltb_spec 2 (2 + (zlen body + zlen rest))); [|lia].
  assert (∀ k, slice 0 2 (sys_put_be16 size ++ k) = sys_put_be16 size) as ->
    by (intros; rewrite <- H2; apply slice_prefix).
  rewrite get_put_be16 by lia.
  destruct (Z.ltb_spec MAX_BLOCK_SIZE_FIELD_VALUE size); [lia|].
  destruct (Z.leb_spec size (2 + (zlen body + zlen rest) - 2)); [|lia].
  assert (2 + size = zlen (sys_put_be16 size ++ body)) as -> by (rewrite zlen_app; lia).
  rewrite app_assoc, slice_prefix. f_equal.
  unfold zlen. rewrite Nat2Z.id. apply drop_app_length.
Qed.

(** What is cut off has the size its field says, and is the front. *)
Lemma cut_block_inv acc x rest :
  Forall is_byte acc → cut acc = cut_block x rest →
  ∃ size body, acc = x ++ rest ∧ x = sys_put_be16 size ++ body ∧ zlen body = size ∧
    0 ≤ size ≤ MAX_BLOCK_SIZE_FIELD_VALUE.
Proof.
  intros Hb. unfold cut. destruct (Z.ltb_spec 2 (zlen acc)) as [Hlen|]; [|done].
  destruct (two_bytes acc Hlen Hb) as (size & r & Hacc & Hs & ->). rewrite get_put_be16 by done.
  destruct (Z.ltb_spec MAX_BLOCK_SIZE_FIELD_VALUE size); [done|].
  destruct (Z.leb_spec size (zlen acc - 2)) as [Hav|]; [|done].
  assert (zlen (sys_put_be16 size) = 2) as H2 by (apply be16_zlen; lia).
  intros [= <- <-]. exists size, (slice 0 size r). split_and!; [| | |lia|lia].
  - unfold slice. change (Z.to_nat 0) with 0%nat. by rewrite drop_0, take_drop.
  - rewrite Hacc, <- H2. apply slice_0_app. lia.
  - rewrite Hacc, zlen_app, H2 in Hav. apply zlen_slice; lia.
Qed.

Lemma cut_block_pos acc x rest :
  Forall is_byte acc → cut acc = cut_block x rest → 2 ≤ zlen x.
Proof.
  intros Hb Hc. destruct (cut_block_inv acc x rest Hb Hc) as (size & body & _ & -> & <- & Hs).
  pose proof max_field_range. rewrite zlen_app, be16_zlen by lia. pose proof (zlen_nonneg body). lia.
Qed.

(** Less of what has to wait has to wait. *)
Lemma cut_wait_prefix acc r : cut (acc ++ r) = cut_wait → cut acc = cut_wait.
Proof.
  unfold cut. rewrite zlen_app. pose proof (zlen_nonneg r).
  destruct (Z.ltb_spec 2 (zlen acc)); [|done].
  destruct (Z.ltb_spec 2 (zlen acc + zlen r)); [|lia]. rewrite slice_app_l by lia.
  destruct (_ <? sys_get_be16 _); [done|].
  destruct (Z.leb_spec (sys_get_be16 (slice 0 2 acc)) (zlen acc + zlen r - 2)); [done|].
  by destruct (Z.leb_spec (sys_get_be16 (slice 0 2 acc)) (zlen acc - 2)); [lia|].
Qed.

(** A proper prefix of a block has to wait. *)
Lemma cut_partial x acc r : sized_block x → x = acc ++ r → r ≠ [] → cut acc = cut_wait.
Proof.
  intros (size & body & -> & Hb & Hs & _) Hx Hr. pose proof max_field_range. unfold cut.
  destruct (Z.ltb_spec 2 (zlen acc)) as [Hlen|]; [|done].
  assert (zlen (sys_put_be16 size) = 2) as H2 by (apply be16_zlen; lia).
  assert (slice 0 2 acc = sys_put_be16 size) as ->.
  { rewrite <- (slice_app_l 0 2 acc r) by lia. rewrite <- Hx, <- H2. apply slice_prefix. }
  rewrite get_put_be16 by lia. apply (f_equal zlen) in Hx. rewrite !zlen_app, H2 in Hx.
  destruct (Z.ltb_spec MAX_BLOCK_SIZE_FIELD_VALUE size); [lia|].
  destruct (Z.leb_spec size (zlen acc - 2)); [|done].
  destruct r as [|? r]; [done|]. rewrite zlen_cons in Hx. pose proof (zlen_nonneg r). lia.
Qed.

(** What waits, within a stream of blocks, is shorter than the next block. *)
Lemma wait_short acc r x rest :
  sized_block x → cut acc = cut_wait → acc ++ r = x ++ rest → zlen acc < zlen x.
Proof.
  intros Hx Hw Heq. destruct (Z.lt_ge_cases (zlen acc) (zlen x)) as [|Hge]; [done|].
  assert (acc = x ++ drop (length x) acc) as Hacc.
  { apply (f_equal (take (length x))) in Heq. unfold zlen in Hge.
    rewrite take_app_le, take_app_length in Heq by lia. rewrite <- Heq at 1. by rewrite take_drop. }
  rewrite Hacc, cut_sized in Hw by done. done.
Qed.

(** Every prefix of a stream of blocks is some of them and a part that waits. *)
Lemma stream_prefix blocks p r tail :
  Forall sized_block blocks → cut tail = cut_wait → p ++ r = concat blocks ++ tail →
  ∃ b1 b2 p', blocks = b1 ++ b2 ∧ p = concat b1 ++ p' ∧ cut p' = cut_wait ∧
    p' ++ r = concat b2 ++ tail.
Proof.
  intros Hb Ht. revert p. induction Hb as [|x blocks Hx _ IH]; intros p Heq.
  - exists [], [], p. split_and!; try done. cbn in Heq. subst tail. by eapply cut_wait_prefix.
  - cbn in Heq. rewrite <- app_assoc in Heq.
    apply app_eq_inv in Heq as [(k & -> & Hk)|(k & -> & Hk)].
    + destruct (IH k) as (b1 & b2 & p' & -> & -> & Hw & He); [done|].
      exists (x :: b1), b2, p'. split_and!; try done. cbn. by rewrite <- app_assoc.
    + destruct (decide (k = [])) as [->|Hne].
      * rewrite app_nil_r in *. cbn in Hk. destruct (IH []) as (b1 & b2 & p' & -> & Hp & Hw & He).
        { by rewrite <- Hk. }
        exists (p :: b1), b2, p'. split_and!; try done. cbn. by rewrite <- app_assoc, <- Hp, app_nil_r.
      * exists [], ((p ++ k) :: blocks), p. split_and!; [done|done| |].
        -- by eapply cut_partial.
        -- cbn. by rewrite Hk, <- !app_assoc.
Qed.
End cut.

Section push_facts.
Context `{COk : ConfigOk} `{ZS : ZephyrSpec} `{Mal : Malloc} `{Cr : Crypto} `{Hnd : Handlers}.
Context `{HC : HeaderCodecSpec}.
Implicit Types (n : node) (l k : nat) (acc data x rest : list Z).

(** The collecting buffer holds [acc]. *)
Definition pending n acc : Prop :=
  ∃ l b, dl_pouch_buf (n_downlink n) = Some l ∧ heap (n_mem n) !! l = Some b ∧
    capacity b = MAX_CIPHERTEXT_BLOCK_SIZE ∧ contents b = acc.

(** No memory for a collecting buffer. *)
Definition collect_failed n : Prop :=
  dl_pouch_buf (n_downlink n) = NULL ∧
  ∃ k, malloc_bytes k MAX_CIPHERTEXT_BLOCK_SIZE = None.

(** What pushing may change: the heap, the collecting buffer, and the decryption
    queue, to which the buffers [ls] are added. *)
Record push_frame n n' (ls : list nat) : Prop := {
  pu_uplink : n_uplink n' = n_uplink n;
  pu_entry : n_entry n' = n_entry n;
  pu_streams : n_streams n' = n_streams n;
  pu_events : n_events n' = n_events n;
  pu_calls : n_calls n' = n_calls n;
  pu_consume : dl_consume (n_downlink n') = dl_consume (n_downlink n);
  pu_decrypt : slist_items (dl_decrypt (n_downlink n')) =
    slist_items (dl_decrypt (n_downlink n)) ++ ls;
  pu_work : n_work n' = if decide (ls = []) then n_work n else add_work work_decrypt (n_work n);
  pu_kept : ∀ k b, heap (n_mem n) !! k = Some b → dl_pouch_buf (n_downlink n) ≠ Some k →
    heap (n_mem n') !! k = Some b ∧ dl_pouch_buf (n_downlink n') ≠ Some k;
}.

Lemma push_frame_refl n : push_frame n n [].
Proof. split; try done. by rewrite app_nil_r. Qed.

Lemma add_work_idem w ws : add_work w (add_work w ws) = add_work w ws.
Proof. unfold add_work at 1. by rewrite decide_True by apply add_work_in. Qed.

Lemma push_frame_trans n1 n2 n3 ls ls' :
  push_frame n1 n2 ls → push_frame n2 n3 ls' → push_frame n1 n3 (ls ++ ls').
Proof.
  intros [? ? ? ? ? ? Hd1 Hw1 Hk1] [? ? ? ? ? ? Hd2 Hw2 Hk2]. split; try congruence.
  - by rewrite Hd2, Hd1, app_assoc.
  - rewrite Hw2, Hw1. destruct ls as [|l ls]; [done|]. rewrite (decide_False (P := l :: ls = [])) by done.
    rewrite (decide_False (P := (l :: ls) ++ ls' = [])) by done.
    case_decide; [done|apply add_work_idem].
  - intros k b Hk Hp. destruct (Hk1 k b Hk Hp). by apply Hk2.
Qed.

(** The buffers delivered hold the blocks [xs]. *)
Lemma push_frame_holds n1 n2 ls xs ls' :
  push_frame n1 n2 ls' → holds (n_mem n1) ls xs →
  (∀ k, k ∈ ls → dl_pouch_buf (n_downlink n1) ≠ Some k) →
  holds (n_mem n2) ls xs.
Proof.
  intros Hfr Hh Hp. eapply Forall2_impl_in; [exact Hh|]. intros k x Hk. cbn.
  destruct (heap (n_mem n1) !! k) as [b|] eqn:Hb; [|done].
  by destruct (pu_kept _ _ _ Hfr k b Hb (Hp k Hk)) as [-> _].
Qed.

Lemma owned_pouch_buf n lk :
  owned n ++ lk ≡ₚ option_list (dl_pouch_buf (n_downlink n)) ++ uplink_owned (n_uplink n) ++
    option_list (n_entry n) ++ stream_bufs (n_streams n) ++
    slist_items (dl_decrypt (n_downlink n)) ++ slist_items (dl_consume (n_downlink n)) ++ lk.
Proof. unfold owned, downlink_owned. solve_Permutation. Qed.

(** Sending off a buffer that is in no place. *)
Lemma wp_block_downlink_push n lk l b Q :
  node_inv n (l :: lk) → heap (n_mem n) !! l = Some b → 
  (∀ q, slist_items q = slist_items (dl_decrypt (n_downlink n)) ++ [l] →
     let n' := set_work (add_work work_decrypt (n_work n))
                 (set_downlink (dl_set_decrypt q (n_downlink n)) n) in
     node_inv n' lk → Q tt n') →
  wp (block_downlink_push (Some l)) Q n.
Proof.
  intros Hinv Hl HQ. unfold block_downlink_push. do 3 wp_step. apply wp_on_mem.
  eapply wp_queue_submit; [done| |].
  { intros Hin. eapply (owned_split n (l :: lk) l (owned n ++ lk) Hinv); [solve_Permutation|].
    unfold owned, downlink_owned. rewrite !elem_of_app. tauto. }
  intros q Hq. rewrite set_mem_id. unfold modify_downlink, k_work_submit. wp_steps. apply HQ; [done|].
  unfold node_inv. eapply heap_owns_proper; [|exact Hinv].
  unfold owned, downlink_owned. cbn. rewrite Hq. solve_Permutation.
Qed.

(** The view of a block behind its size field. *)
Lemma view_rest_block m l b x rest size :
  heap m !! l = Some b → wf_buf b → contents b = x ++ rest → zlen x = 2 + size → 0 ≤ size →
  ∃ body, zlen body = size ∧ view_rest m (mk_view (Some l) 2) (body ++ rest).
Proof.
  intros Hl Hwf Hco Hx Hs. pose proof (view_rest_init _ _ _ Hl Hwf) as Hr. rewrite Hco in Hr.
  rewrite <- (take_drop 2 x), <- app_assoc in Hr. unfold zlen in Hx.
  apply view_rest_split in Hr as (l' & b' & [= <-] & _ & _ & _ & _ & _ & Hr).
  exists (drop 2 x). split; [unfold zlen; rewrite length_drop; lia|].
  replace 2 with (0 + zlen (take 2 x)); [done|]. unfold zlen. rewrite length_take. lia.
Qed.

(** Copying what follows a block to a new buffer [k], and cutting it off. *)
Lemma wp_split_off n l k b b0 x rest size Q :
  heap (n_mem n) !! l = Some b → heap (n_mem n) !! k = Some b0 → l ≠ k →
  wf_buf b → wf_buf b0 → contents b = x ++ rest → zlen x = 2 + size → 0 ≤ size →
  buf_bytes b0 + zlen rest ≤ capacity b0 →
  (∀ b1 b', wf_buf b1 → contents b1 = x → appends b0 rest b' →
     Q tt (set_mem (set_buf l b1 (set_buf k b' (n_mem n))) n)) →
  wp ('(a, v) ← on_mem (pouch_bufview_read (mk_view (Some l) 2) 0);
      avail ← on_mem (pouch_bufview_available v);
      let remaining_len := usz (avail - size) in
      remaining ← (match a with
                   | Some (p, off) => on_mem (load_bytes (p, off + size) remaining_len)
                   | None => ub
                   end);
      on_mem (buf_write (Some k) remaining remaining_len);;
      on_mem (buf_trim_end (Some l) remaining_len);;
      mret tt) Q n.
Proof.
  intros Hl Hk Hlk Hwf Hwf0 Hco Hx Hs Hfit HQ. pose proof (contents_zlen b Hwf) as Hn.
  rewrite Hco, zlen_app, Hx in Hn. pose proof Hwf as [Hbb Hcap Hby]. pose proof (zlen_nonneg rest).
  destruct (view_rest_block (n_mem n) l b x rest size) as (body & Hbody & Hr); try done.
  wp_step. apply wp_on_mem. eapply wp_view_peek; [exact Hr|]. rewrite set_mem_id.
  wp_step. apply wp_on_mem. eapply wp_available; [exact Hr|]. rewrite set_mem_id.
  rewrite zlen_app, Hbody, (usz_small (size + zlen rest - size)) by lia.
  replace (size + zlen rest - size) with (zlen rest) by lia. cbv zeta. wp_step. apply wp_on_mem.
  eapply (wp_load_ahead _ _ _ body rest []); [by rewrite app_nil_r|lia|done|].
  rewrite set_mem_id. wp_step. apply wp_on_mem.
  eapply wp_buf_write; [done|done|lia|done| |].
  { apply view_rest_bytes, Forall_app in Hr. by destruct Hr. }
  rewrite slice_0_all. intros b' Hb'. wp_step. apply wp_on_mem. cbn [n_mem set_mem].
  eapply wp_trim_end; [by rewrite heap_set_buf_ne|done|lia|]. rewrite Z.min_l by lia.
  wp_step. apply HQ; [split; cbn; [lia|done|done]| |done].
  replace (buf_bytes b - zlen rest) with (zlen x) by lia. unfold contents. cbn.
  transitivity (slice 0 (zlen x) (contents b)); [|rewrite Hco; apply slice_prefix].
  unfold contents. rewrite slice_slice by lia. done.
Qed.

(** Sending off the collecting buffer [l], [p] having taken its place. *)
Lemma wp_send_off n lk l b p m2 Q :
  node_inv n lk → dl_pouch_buf (n_downlink n) = Some l → heap (n_mem n) !! l = Some b →
  heap_owns m2 (option_list p ++ owned n ++ lk) →
  (∀ k, p = Some k → heap (n_mem n) !! k = None) →
  (∀ k c, heap (n_mem n) !! k = Some c → k ≠ l → heap m2 !! k = Some c) →
  (∀ n', push_frame n n' [l] → node_inv n' lk → n_crypto n' = n_crypto n →
     dl_pouch_header (n_downlink n') = dl_pouch_header (n_downlink n) →
     dl_pouch_buf (n_downlink n') = p → n_mem n' = m2 → Q tt n') →
  wp (block_downlink_push (Some l)) Q
    (set_mem m2 (set_downlink (dl_set_pouch_buf p (n_downlink n)) n)).
Proof.
  intros Hinv Hp Hl Hown Hfresh Hkept HQ.
  destruct (owns_lookup _ _ l Hown) as (b2 & Hl2 & _).
  { rewrite owned_pouch_buf, Hp. set_solver. }
  eapply (wp_block_downlink_push _ lk); [|exact Hl2|].
  - unfold node_inv. eapply heap_owns_proper; [|exact Hown].
    unfold owned, downlink_owned. cbn. rewrite Hp. cbn. solve_Permutation.
  - intros q Hq n' Hinv'. apply HQ; try done. split; try done. cbn. intros k c Hk Hne. split.
    + apply Hkept; [done|congruence].
    + intros Heq. rewrite (Hfresh k Heq) in Hk. done.
Qed.

(** What pushing achieves once the header is known. *)
Record pushed n n' lk (ls : list nat) : Prop := {
  pd_frame : push_frame n n' ls;
  pd_inv : node_inv n' lk;
  pd_crypto : n_crypto n' = n_crypto n;
  pd_header : dl_pouch_header (n_downlink n') = dl_pouch_header (n_downlink n);
  pd_pouch : ∀ k, k ∈ ls → dl_pouch_buf (n_downlink n') ≠ Some k;
}.

Lemma pushed_refl n lk : node_inv n lk → pushed n n lk [].
Proof. split; try done; [apply push_frame_refl|]. by intros k ?%elem_of_nil. Qed.

Lemma pushed_trans n1 n2 n3 lk ls ls' xs :
  pushed n1 n2 lk ls → pushed n2 n3 lk ls' → holds (n_mem n2) ls xs →
  pushed n1 n3 lk (ls ++ ls') ∧ holds (n_mem n3) ls xs.
Proof.
  intros [Hf1 _ ? ? Hp1] [Hf2 ? ? ? Hp2] Hh. split.
  - split; [by eapply push_frame_trans|done|congruence|congruence|].
    intros k [Hk|Hk]%elem_of_app; [|by apply Hp2].
    apply list_elem_of_lookup in Hk as [i Hi]. destruct (Forall2_lookup_l _ _ _ _ _ Hh Hi) as (x & _ & Hx).
    cbn in Hx. destruct (heap (n_mem n2) !! k) as [b|] eqn:Hb; [|done].
    apply (pu_kept _ _ _ Hf2 k b Hb). apply Hp1. by eapply list_elem_of_lookup_2.
  - by eapply push_frame_holds.
Qed.

(** What became of the collecting buffer when a block [x] was complete. *)
Definition block_sent n' l x rest : Prop :=
  collect_failed n' ∧ ptr_contents (n_mem n') (Some l) = Some (x ++ rest) ∨
  pending n' rest ∧ ptr_contents (n_mem n') (Some l) = Some x.

(** A complete block [x] at the front of the collecting buffer [l] is sent off;
    a new buffer holds what follows it, if there is memory for one. *)
Lemma wp_push_block n lk l b x rest size Q :
  node_inv n lk → dl_pouch_buf (n_downlink n) = Some l → heap (n_mem n) !! l = Some b →
  capacity b = MAX_CIPHERTEXT_BLOCK_SIZE → contents b = x ++ rest → zlen x = 2 + size → 0 ≤ size →
  (∀ n', pushed n n' lk [l] → block_sent n' l x rest → Q tt n') →
  wp (push_block (Some l) (mk_view (Some l) 2) size) Q n.
Proof.
  intros Hinv Hp Hl Hcap Hco Hx Hs HQ.
  pose proof (owns_wf _ _ Hinv l b Hl) as Hwf. pose proof (live_not_next _ _ _ _ Hinv Hl) as Hkl.
  pose proof (contents_zlen b Hwf) as Hn. rewrite Hco, zlen_app in Hn. pose proof Hwf as [Hbb Hcap' _].
  pose proof block_sizes_range. pose proof (zlen_nonneg rest).
  unfold push_block. wp_step. apply wp_on_mem. apply wp_buf_alloc; [lia| |].
  - intros junk _ Hlen Hb. set (k := mallocs (n_mem n)) in *. set (b0 := mk_buf 0 junk).
    assert (wf_buf b0) as Hwf0 by (split; cbn; [lia|lia|done]).
    pose proof (owns_new_buf _ _ b0 Hinv Hwf0) as Hown. fold k in Hown.
    assert (∀ c, heap (n_mem n) !! k ≠ Some c) as Hfresh.
    { intros c Hc. by apply (live_not_next _ _ _ _ Hinv Hc). }
    assert (∀ m2 b1 bk, heap_owns m2 (k :: owned n ++ lk) → heap m2 !! l = Some b1 →
      contents b1 = x → heap m2 !! k = Some bk → capacity bk = MAX_CIPHERTEXT_BLOCK_SIZE →
      contents bk = rest → (∀ j c, heap (n_mem n) !! j = Some c → j ≠ l → heap m2 !! j = Some c) →
      wp (block_downlink_push (Some l)) Q
        (set_mem m2 (set_downlink (dl_set_pouch_buf (Some k) (n_downlink n)) n))) as Hend.
    { intros m2 b1 bk Hm2 Hl2 Hb1 Hk2 Hcapk Hbk Hkept.
      apply (wp_send_off n lk l b (Some k) m2); try done.
      - intros j [= <-]. destruct (heap (n_mem n) !! k) eqn:E; [by destruct (Hfresh p)|done].
      - intros n' Hfr Hi Hc Hh Hpb Hm. apply HQ.
        { split; try done. intros j ->%list_elem_of_singleton. rewrite Hpb. by intros [=]. }
        right. split; [by exists k, bk; rewrite Hm|]. cbn. by rewrite Hm, Hl2, <- Hb1. }
    assert (heap (new_buf b0 (n_mem n)) !! l = Some b) as Hl1 by (cbn; by rewrite lookup_insert_ne).
    unfold modify_downlink. do 3 wp_step. apply wp_on_mem.
    unfold pouch_bufview_available. cbn [view_buf view_offset]. wp_step.
    eapply wp_deref; [exact Hl1|]. wp_step. rewrite usz_small by lia. wp_step.
    destruct (Z.ltb_spec size (buf_bytes b - 2)) as [Hlt|Hge].
    + eapply (wp_split_off _ l k b b0 x rest size); try done; [apply heap_new_buf_eq|unfold capacity in *; cbn [buf_bytes buf_data b0]; lia|].
      intros b1 b' Hwf1 Hb1 [Hwf' Hcap1 Hco']. eapply (Hend _ b1 b'); try done.
      * apply owns_set_buf; [apply owns_set_buf; [exact Hown|by apply elem_of_cons; left|done]| |done].
        apply (owns_dom _ _ Hown). by rewrite Hl1.
      * apply heap_set_buf_eq.
      * rewrite heap_set_buf_ne by done. apply heap_set_buf_eq.
      * by rewrite Hcap1.
      * intros j c Hj Hjl. assert (k ≠ j) as Hkj by (intros <-; by apply (Hfresh c)).
        rewrite !heap_set_buf_ne by done. cbn. by rewrite lookup_insert_ne.
    + wp_step. assert (rest = []) as -> by (apply zlen_zero_nil; lia). rewrite app_nil_r in Hco.
      eapply (Hend _ b b0); try done; [apply heap_new_buf_eq|].
      intros j c Hj _. cbn. rewrite lookup_insert_ne; [done|]. intros <-. by apply (Hfresh c).
  - intros Hnone. unfold modify_downlink. do 3 wp_step. apply wp_on_mem.
    unfold pouch_bufview_available. cbn [view_buf view_offset]. wp_step.
    eapply wp_deref; [exact Hl|]. do 2 wp_step.
    apply (wp_send_off n lk l b NULL (no_buf (n_mem n))); try done; [by apply owns_no_buf|].
    intros n' Hfr Hi Hc Hh Hpb Hm. apply HQ.
    { split; try done. intros j _. by rewrite Hpb. }
    left. split; [split; [done|by eexists]|]. cbn. by rewrite Hm; cbn; rewrite Hl, <- Hco.
Qed.

Lemma wp_push_blocks n lk l b acc Q :
  node_inv n lk → dl_pouch_buf (n_downlink n) = Some l → heap (n_mem n) !! l = Some b →
  capacity b = MAX_CIPHERTEXT_BLOCK_SIZE → contents b = acc →
  match cut acc with
  | cut_wait => Q true n
  | cut_bad => Q false n
  | cut_block x rest => ∀ n', pushed n n' lk [l] → block_sent n' l x rest → Q true n'
  end →
  wp (push_blocks (Some l) (pouch_bufview_init (Some l))) Q n.
Proof.
  intros Hinv Hp Hl Hcap Hco HQ. pose proof (owns_wf _ _ Hinv l b Hl) as Hwf.
  pose proof (view_rest_init _ _ _ Hl Hwf) as Hr. rewrite Hco in Hr.
  pose proof (view_rest_bytes _ _ _ Hr) as Hby. unfold push_blocks.
  wp_step. apply wp_on_mem. eapply wp_available; [exact Hr|]. rewrite set_mem_id.
  destruct (Z.ltb_spec 2 (zlen acc)) as [Hlen|Hlen].
  2: { wp_step. revert HQ. unfold cut. by destruct (Z.ltb_spec 2 (zlen acc)); [lia|]. }
  destruct (two_bytes acc Hlen Hby) as (size & r & Hacc & Hsz & Hsl).
  assert (zlen (sys_put_be16 size) = 2) as H2 by by apply be16_zlen.
  pose proof Hwf as [Hbb Hcap' _]. rewrite Hacc in Hr. unfold pouch_bufview_read_be16.
  wp_step. apply wp_on_mem. wp_step. eapply (wp_bufview_read _ _ _ r); [exact Hr|done|].
  cbn [view_buf view_offset pouch_bufview_init]. intros l' b' [= <-] Hl' _ _ Hle Hd Hr'.
  wp_step. rewrite Hl in Hl'. injection Hl' as <-.
  eapply wp_load; [exact Hl|lia|lia|unfold capacity; lia|].
  rewrite Hd, get_put_be16 by done. wp_step. rewrite set_mem_id.
  revert HQ. unfold cut. destruct (Z.ltb_spec 2 (zlen acc)); [|lia]. rewrite Hsl, get_put_be16 by done.
  destruct (MAX_BLOCK_SIZE_FIELD_VALUE <? size) eqn:Hbad; [intros HQ; by wp_step|].
  intros HQ. wp_step. apply wp_on_mem. eapply wp_available; [exact Hr'|]. rewrite set_mem_id. wp_step.
  rewrite Hacc, zlen_app, H2 in HQ. replace (2 + zlen r - 2) with (zlen r) in HQ by lia.
  rewrite <- Hacc in HQ. destruct (Z.leb_spec size (zlen r)) as [Hav|Hav]; [|by do 2 wp_step].
  eapply (wp_push_block n lk l b); try done.
  - by rewrite Hco; unfold slice; change (Z.to_nat 0) with 0%nat; rewrite drop_0, take_drop.
  - rewrite zlen_slice; [done|lia|lia|]. rewrite Hacc, zlen_app. lia.
  - lia.
Qed.

(** A full collecting buffer holds a complete or an oversized block. *)
Lemma wait_room acc : cut acc = cut_wait → zlen acc < MAX_CIPHERTEXT_BLOCK_SIZE.
Proof.
  unfold cut. pose proof block_sizes_range. destruct (Z.ltb_spec 2 (zlen acc)); [|lia].
  unfold MAX_BLOCK_SIZE_FIELD_VALUE.
  destruct (Z.ltb_spec (MAX_CIPHERTEXT_BLOCK_SIZE - 2) (sys_get_be16 (slice 0 2 acc))); [done|].
  destruct (Z.leb_spec (sys_get_be16 (slice 0 2 acc)) (zlen acc - 2)); [done|]. lia.
Qed.

(** The bytes a turn of the loop takes. *)
Definition turn_len acc data : Z := Z.min (zlen data) (MAX_CIPHERTEXT_BLOCK_SIZE - zlen acc).

Definition turn_taken acc data : list Z := take (Z.to_nat (turn_len acc data)) data.
Definition turn_left acc data : list Z := drop (Z.to_nat (turn_len acc data)) data.

Lemma turn_split acc data : turn_taken acc data ++ turn_left acc data = data.
Proof. apply take_drop. Qed.

(** The first part of a turn: bytes move to the collecting buffer. *)
Lemma wp_push_turn fuel n lk acc data Q :
  node_inv n lk → pending n acc → zlen acc < MAX_CIPHERTEXT_BLOCK_SIZE →
  Forall is_byte data → data ≠ [] →
  (∀ l b n1, pushed n n1 lk [] → dl_pouch_buf (n_downlink n1) = Some l →
     heap (n_mem n1) !! l = Some b → capacity b = MAX_CIPHERTEXT_BLOCK_SIZE →
     contents b = acc ++ turn_taken acc data →
     wp (go ← push_header (Some l) (pouch_bufview_init (Some l));
         if negb go then mret tt else
         go ← push_blocks (Some l) (pouch_bufview_init (Some l));
         if negb go then mret tt else push_loop fuel (turn_left acc data)) Q n1) →
  wp (push_loop (S fuel) data) Q n.
Proof.
  intros Hinv (l & b & Hp & Hl & Hcap & Hco) Hroom Hby Hne HQ.
  pose proof (owns_wf _ _ Hinv l b Hl) as Hwf. pose proof (contents_zlen b Hwf) as Hn.
  rewrite Hco in Hn. pose proof (zlen_nonneg data). cbn [push_loop].
  destruct (Z.eqb_spec (zlen data) 0) as [E|_]; [by apply zlen_zero_nil in E|].
  do 2 wp_step. rewrite Hp. wp_step. apply wp_on_mem. eapply wp_buf_size_get; [exact Hl|].
  rewrite set_mem_id, <- Hn. destruct (Z.leb_spec MAX_CIPHERTEXT_BLOCK_SIZE (zlen acc)); [lia|].
  fold (turn_len acc data). fold (turn_left acc data). wp_step. apply wp_on_mem.
  assert (0 ≤ turn_len acc data ≤ zlen data) as Ht by (unfold turn_len; lia).
  eapply wp_buf_write; [exact Hl|done|exact Ht|unfold turn_len; lia|done|].
  intros b' [Hwf' Hcap' Hco']. apply (HQ l b').
  - split; try done; [|apply owns_set_buf; [exact Hinv| |done]|by intros k ?%elem_of_nil].
    + split; try done; [by rewrite app_nil_r|]. intros k c Hk Hkp. split; [|done].
      cbn. rewrite lookup_insert_ne; [done|congruence].
    + apply (owns_dom _ _ Hinv). by eexists.
  - done.
  - apply heap_set_buf_eq.
  - by rewrite Hcap'.
  - by rewrite Hco', Hco.
Qed.

Lemma pending_bytes n lk acc : node_inv n lk → pending n acc → Forall is_byte acc.
Proof. intros Hinv (l & b & _ & Hl & _ & <-). by apply contents_bytes, (owns_wf _ _ Hinv l). Qed.

(** A turn when the header is known. *)
Lemma wp_block_turn fuel n lk acc data Q :
  node_inv n lk → pending n acc → zlen acc < MAX_CIPHERTEXT_BLOCK_SIZE →
  dl_pouch_header (n_downlink n) = true → Forall is_byte data → data ≠ [] →
  match cut (acc ++ turn_taken acc data) with
  | cut_wait => ∀ n', pushed n n' lk [] → pending n' (acc ++ turn_taken acc data) →
      wp (push_loop fuel (turn_left acc data)) Q n'
  | cut_bad => ∀ n', pushed n n' lk [] → pending n' (acc ++ turn_taken acc data) → Q tt n'
  | cut_block x rest => ∀ n' l, pushed n n' lk [l] → block_sent n' l x rest →
      wp (push_loop fuel (turn_left acc data)) Q n'
  end →
  wp (push_loop (S fuel) data) Q n.
Proof.
  intros Hinv Hpe Hroom Hhd Hby Hne HQ. eapply wp_push_turn; try done.
  intros l b n1 Hpd Hp Hl Hcap Hco. unfold push_header at 1. wp_step. wp_step. wp_step.
  rewrite (pd_header _ _ _ _ Hpd), Hhd. wp_step. cbn [negb]. wp_step.
  eapply (wp_push_blocks n1 lk l b); [apply Hpd|done..|].
  assert (pending n1 (acc ++ turn_taken acc data)) as Hpe1 by by exists l, b.
  destruct (cut _) as [| |x rest]; cbn [negb].
  - by apply HQ.
  - wp_step. by apply HQ.
  - intros n' Hpd' Hs. apply (HQ n' l); [|done].
    destruct (pushed_trans n n1 n' lk [] [l] [] Hpd Hpd') as [? _]; [constructor|done].
Qed.

(** *** The loop *)

(** A block with the size its size field says, which may be 0. *)
Definition framed (x : list Z) : Prop :=
  ∃ size body, x = sys_put_be16 size ++ body ∧ zlen body = size ∧
    0 ≤ size ≤ MAX_BLOCK_SIZE_FIELD_VALUE.

(** What pushing [data] behind [acc] comes to: blocks were sent off, and what
    follows them is collected; bytes are dropped only behind an oversized block,
    in a full buffer, or for want of memory. *)
Definition push_result n lk acc data n' : Prop :=
  ∃ ls, pushed n n' lk ls ∧
    (∀ k, k ∈ ls → ∃ x, ptr_contents (n_mem n') (Some k) = Some x ∧ received_block x) ∧
    (collect_failed n' ∨
     ∃ xs acc' lost, holds (n_mem n') ls xs ∧ Forall framed xs ∧ pending n' acc' ∧
       acc ++ data = concat xs ++ acc' ++ lost ∧
       (lost = [] ∨ cut acc' = cut_bad ∨ MAX_CIPHERTEXT_BLOCK_SIZE ≤ zlen acc')).

Lemma wp_push_stop fuel n data Q :
  (0 < fuel)%nat → data = [] ∨ dl_pouch_buf (n_downlink n) = NULL → Q tt n →
  wp (push_loop fuel data) Q n.
Proof.
  intros Hf Hs HQ. destruct fuel as [|fuel]; [lia|]. cbn [push_loop].
  destruct (Z.eqb_spec (zlen data) 0) as [E|E]; [by wp_step|]. do 2 wp_step.
  destruct Hs as [->| ->]; [done|]. by wp_step.
Qed.

Lemma turn_left_length acc data :
  data ≠ [] → zlen acc < MAX_CIPHERTEXT_BLOCK_SIZE →
  (length (turn_left acc data) < length data)%nat.
Proof.
  intros Hne Hroom. unfold turn_left, turn_len. rewrite length_drop.
  destruct data as [|x data]; [done|]. rewrite zlen_cons. pose proof (zlen_nonneg data). cbn. lia.
Qed.

Lemma wp_push_full fuel n lk acc data Q :
  node_inv n lk → pending n acc → MAX_CIPHERTEXT_BLOCK_SIZE ≤ zlen acc → Q tt n →
  wp (push_loop (S fuel) data) Q n.
Proof.
  intros Hinv (l & b & Hp & Hl & _ & Hco) Hfull HQ. cbn [push_loop].
  destruct (zlen data =? 0); [by wp_step|]. do 2 wp_step. rewrite Hp. wp_step. apply wp_on_mem.
  eapply wp_buf_size_get; [exact Hl|]. rewrite set_mem_id.
  rewrite <- (contents_zlen b), Hco by by eapply owns_wf.
  by destruct (Z.leb_spec MAX_CIPHERTEXT_BLOCK_SIZE (zlen acc)); [wp_step|lia].
Qed.

Lemma framed_received x rest : framed x → received_block (x ++ rest).
Proof.
  intros (size & body & -> & Hb & Hs). exists size, (body ++ rest). pose proof (zlen_nonneg rest).
  rewrite zlen_app, <- app_assoc. split_and!; [lia|lia|lia|done].
Qed.

Lemma cut_framed acc x rest :
  Forall is_byte acc → cut acc = cut_block x rest → framed x ∧ acc = x ++ rest.
Proof. intros Hb Hc. destruct (cut_block_inv _ _ _ Hb Hc) as (size & body & ? & ? & ? & ?). split; [by exists size, body|done]. Qed.

Lemma push_result_step n n1 n' lk ls1 xs1 acc data acc1 data1 :
  pushed n n1 lk ls1 → holds (n_mem n1) ls1 xs1 → Forall framed xs1 →
  acc ++ data = concat xs1 ++ acc1 ++ data1 →
  push_result n1 lk acc1 data1 n' → push_result n lk acc data n'.
Proof.
  intros Hpd Hh Hxs Heq (ls & Hpd' & Hrec & Hres).
  destruct (pushed_trans n n1 n' lk ls1 ls xs1 Hpd Hpd' Hh) as [Hpd2 Hh2].
  exists (ls1 ++ ls). split_and!; [done| |].
  - intros k [Hk|Hk]%elem_of_app; [|by apply Hrec].
    apply list_elem_of_lookup in Hk as [i Hi]. destruct (Forall2_lookup_l _ _ _ _ _ Hh2 Hi) as (x & Hx & Hkx).
    exists x. split; [done|]. rewrite <- (app_nil_r x). apply framed_received.
    by eapply Forall_lookup_1.
  - destruct Hres as [|(xs & acc' & lost & Hh' & Hf & Hpe & Heq' & Hl)]; [by left|right].
    exists (xs1 ++ xs), acc', lost. split_and!; try done; [by apply holds_app|by apply Forall_app|].
    by rewrite Heq, Heq', concat_app, <- app_assoc.
Qed.

Lemma push_result_end n lk acc data :
  node_inv n lk → pending n acc →
  data = [] ∨ cut acc = cut_bad ∨ MAX_CIPHERTEXT_BLOCK_SIZE ≤ zlen acc →
  push_result n lk acc data n.
Proof.
  intros Hinv Hpe Hend. exists []. split_and!; [by apply pushed_refl|by intros k ?%elem_of_nil|].
  right. exists [], acc, data. split_and!; try done. constructor.
Qed.

Lemma push_result_failed n n1 lk acc data l x :
  pushed n n1 lk [l] → collect_failed n1 → ptr_contents (n_mem n1) (Some l) = Some x →
  received_block x → push_result n lk acc data n1.
Proof.
  intros Hpd Hc Hx Hr. exists [l]. split_and!; [done| |by left].
  intros k ->%list_elem_of_singleton. by exists x.
Qed.

Lemma wp_push_any fuel n lk acc data :
  node_inv n lk → pending n acc → dl_pouch_header (n_downlink n) = true → Forall is_byte data →
  (length data < fuel)%nat → wp (push_loop fuel data) (λ _ n', push_result n lk acc data n') n.
Proof.
  revert n acc data. induction fuel as [|fuel IH]; intros n acc data Hinv Hpe Hhd Hby Hf; [lia|].
  destruct (decide (data = [])) as [->|Hne].
  { apply wp_push_stop; [lia|by left|]. apply push_result_end; auto. }
  destruct (Z.lt_ge_cases (zlen acc) MAX_CIPHERTEXT_BLOCK_SIZE) as [Hroom|Hfull].
  2: { eapply wp_push_full; [done|done|done|]. apply push_result_end; auto. }
  pose proof (turn_left_length acc data Hne Hroom) as Hleft.
  pose proof (turn_split acc data) as Hsplit.
  assert (Forall is_byte (turn_taken acc data) ∧ Forall is_byte (turn_left acc data)) as [Hby1 Hby2].
  { apply Forall_app. by rewrite Hsplit. }
  assert (Forall is_byte (acc ++ turn_taken acc data)) as Hbya.
  { apply Forall_app. split; [by eapply pending_bytes|done]. }
  eapply wp_block_turn; try done. destruct (cut (acc ++ turn_taken acc data)) as [| |x rest] eqn:Hcut.
  - intros n1 Hpd Hpe1. eapply wp_mono; [apply (IH n1 _ _ (pd_inv _ _ _ _ Hpd) Hpe1)|].
    + by rewrite (pd_header _ _ _ _ Hpd).
    + done.
    + lia.
    + intros [] n'. apply (push_result_step n n1 n' lk [] []); [done|constructor|done|].
      by rewrite <- app_assoc, Hsplit.
  - intros n1 Hpd Hpe1. eapply (push_result_step n n1 n1 lk [] []); [done|constructor|done| |].
    2: { apply (push_result_end n1 lk _ (turn_left acc data) (pd_inv _ _ _ _ Hpd) Hpe1). auto. }
    by rewrite <- app_assoc, Hsplit.
  - destruct (cut_framed _ _ _ Hbya Hcut) as [Hx Heq].
    intros n1 l Hpd [[Hc Hl]|[Hpe1 Hl]].
    + apply wp_push_stop; [lia|by right; apply Hc|].
      eapply push_result_failed; [done|done|exact Hl|]. by apply framed_received.
    + eapply wp_mono; [apply (IH n1 _ _ (pd_inv _ _ _ _ Hpd) Hpe1)|].
      * by rewrite (pd_header _ _ _ _ Hpd).
      * done.
      * lia.
      * intros [] n'. apply (push_result_step n n1 n' lk [l] [x]); [done|by repeat constructor|by repeat constructor|].
        cbn. by rewrite app_nil_r, app_assoc, <- Heq, <- app_assoc, Hsplit.
Qed.

(** *** When everything is delivered *)

(** The blocks [xs] were sent off and [tail] is collected. *)
Definition push_done n lk xs tail n' : Prop :=
  ∃ ls, pushed n n' lk ls ∧
    (∀ k, k ∈ ls → ∃ x, ptr_contents (n_mem n') (Some k) = Some x ∧ received_block x) ∧
    (collect_failed n' ∨ holds (n_mem n') ls xs ∧ pending n' tail).

Lemma sized_framed x : sized_block x → framed x.
Proof. intros (size & body & ? & ? & ? & _). exists size, body. split_and!; [done..|lia|lia]. Qed.

Lemma push_done_step n n1 n' lk ls1 xs1 xs tail :
  pushed n n1 lk ls1 → holds (n_mem n1) ls1 xs1 → Forall sized_block xs1 →
  push_done n1 lk xs tail n' → push_done n lk (xs1 ++ xs) tail n'.
Proof.
  intros Hpd Hh Hxs (ls & Hpd' & Hrec & Hres).
  destruct (pushed_trans n n1 n' lk ls1 ls xs1 Hpd Hpd' Hh) as [Hpd2 Hh2].
  exists (ls1 ++ ls). split_and!; [done| |].
  - intros k [Hk|Hk]%elem_of_app; [|by apply Hrec].
    apply list_elem_of_lookup in Hk as [i Hi]. destruct (Forall2_lookup_l _ _ _ _ _ Hh2 Hi) as (x & Hx & Hkx).
    exists x. split; [done|]. rewrite <- (app_nil_r x). apply framed_received, sized_framed.
    by eapply Forall_lookup_1.
  - destruct Hres as [|[Hh' Hpe]]; [by left|right]. split; [by apply holds_app|done].
Qed.

Lemma concat_length_le (x : list Z) xs : x ∈ xs → zlen x ≤ zlen (concat xs).
Proof.
  induction 1 as [x xs|x y xs _ IH]; cbn; rewrite zlen_app; [pose proof (zlen_nonneg (concat xs))|pose proof (zlen_nonneg y)]; lia.
Qed.

(** One push that is no longer than any block: what it completes is at most one
    block, and the next is not complete. *)
Lemma wait_blocks acc data x b1 b2 tail :
  cut acc = cut_wait → sized_block x → acc ++ data = concat ((x :: b1) ++ b2) ++ tail →
  Forall (λ y, zlen data ≤ zlen y) ((x :: b1) ++ b2) → b1 = [] ∧ b2 = [].
Proof.
  intros Hw Hx Heq Hsz. cbn in Heq. rewrite <- app_assoc in Heq.
  pose proof (wait_short acc data x _ Hx Hw Heq) as Hlt.
  apply (f_equal zlen) in Heq. rewrite !zlen_app in Heq.
  destruct (decide (b1 ++ b2 = [])) as [E|Hne]; [by apply app_eq_nil in E|exfalso].
  destruct (b1 ++ b2) as [|y ys] eqn:E; [done|].
  pose proof (concat_length_le y (y :: ys)) as Hy. cbn [app] in Hsz. rewrite E in Hsz.
  apply Forall_cons_iff in Hsz as [_ Hsz]. apply Forall_cons_iff in Hsz as [Hsz _].
  pose proof (zlen_nonneg tail). specialize (Hy ltac:(by left)). lia.
Qed.

Lemma wp_push_complete fuel n lk acc data blocks tail :
  node_inv n lk → pending n acc → cut acc = cut_wait → dl_pouch_header (n_downlink n) = true →
  Forall is_byte data → (length data < fuel)%nat →
  acc ++ data = concat blocks ++ tail → Forall sized_block blocks → cut tail = cut_wait →
  Forall (λ x, zlen data ≤ zlen x) blocks →
  wp (push_loop fuel data) (λ _ n', push_done n lk blocks tail n') n.
Proof.
  revert n acc data blocks. induction fuel as [|fuel IH];
    intros n acc data blocks Hinv Hpe Hw Hhd Hby Hf Heq Hbs Ht Hsz; [lia|].
  destruct (decide (data = [])) as [->|Hne].
  { apply wp_push_stop; [lia|by left|]. rewrite app_nil_r in Heq. subst acc.
    destruct blocks as [|x blocks].
    - exists []. split_and!; [by apply pushed_refl|by intros k ?%elem_of_nil|]. right. by split; [constructor|].
    - cbn in Hw. rewrite <- app_assoc, cut_sized in Hw by by apply Forall_cons_iff in Hbs as [? _]. done. }
  pose proof (wait_room acc Hw) as Hroom. pose proof (turn_left_length acc data Hne Hroom) as Hleft.
  pose proof (turn_split acc data) as Hsplit.
  assert (Forall is_byte (turn_left acc data)) as Hby2.
  { by apply Forall_drop. }
  assert (zlen (turn_left acc data) ≤ zlen data) as Hle by (unfold zlen; lia).
  destruct (stream_prefix blocks (acc ++ turn_taken acc data) (turn_left acc data) tail)
    as (b1 & b2 & p & -> & Hp & Hwp & Hrest); [done|done|by rewrite <- app_assoc, Hsplit|].
  eapply wp_block_turn; try done. destruct b1 as [|x b1].
  - cbn in Hp. subst p. rewrite Hwp. intros n1 Hpd Hpe1.
    eapply wp_mono; [apply (IH n1 _ _ b2 (pd_inv _ _ _ _ Hpd) Hpe1); try done|].
    + by rewrite (pd_header _ _ _ _ Hpd).
    + lia.
    + eapply Forall_impl; [|exact Hsz]. cbn. lia.
    + intros [] n'. by apply (push_done_step n n1 n' lk [] []); [|constructor|].
  - assert (sized_block x) as Hx by (cbn in Hbs; by apply Forall_cons_iff in Hbs as [? _]).
    destruct (wait_blocks acc data x b1 b2 tail Hw Hx Heq Hsz) as [-> ->].
    cbn [concat] in Hp. rewrite app_nil_r in Hp. rewrite Hp, cut_sized by done.
    intros n1 l Hpd [[Hc Hl]|[Hpe1 Hl]].
    + apply wp_push_stop; [lia|by right; apply Hc|]. exists [l]. split_and!; [done| |by left].
      intros k ->%list_elem_of_singleton. eexists. split; [exact Hl|]. by apply framed_received, sized_framed.
    + eapply wp_mono; [apply (IH n1 _ _ [] (pd_inv _ _ _ _ Hpd) Hpe1); try done|].
      * by rewrite (pd_header _ _ _ _ Hpd).
      * lia.
      * intros [] n'. apply (push_done_step n n1 n' lk [l] [x]); [done|by repeat constructor|by repeat constructor].
Qed.

(** *** The header *)

(** The node once the header of a pouch was taken off the collecting buffer. *)
Definition header_taken n l b (c : crypto_st) : node :=
  set_mem (set_buf l b (n_mem n)) (set_downlink (dl_set_pouch_header true (n_downlink n)) (set_crypto c n)).

Lemma wp_push_header n lk l b acc Q :
  node_inv n lk → heap (n_mem n) !! l = Some b → contents b = acc →
  dl_pouch_header (n_downlink n) = false →
  match cbor_decode_pouch_header acc with
  | None => Q false n
  | Some (h, k) =>
      wp (crypto_downlink_start (hd_encryption_info h)) (λ r c,
        match r with
        | Some _ => Q false (set_crypto c n)
        | None => ∀ b', wf_buf b' → capacity b' = capacity b → contents b' = drop (Z.to_nat k) acc →
            Q true (header_taken n l b' c)
        end) (n_crypto n)
  end →
  wp (push_header (Some l) (pouch_bufview_init (Some l))) Q n.
Proof.
  intros Hinv Hl Hco Hhd HQ. pose proof (owns_wf _ _ Hinv l b Hl) as Hwf.
  pose proof (view_rest_init _ _ _ Hl Hwf) as Hr. rewrite Hco in Hr. pose proof Hwf as [Hbb Hcap _].
  pose proof (contents_zlen b Hwf) as Hn. rewrite Hco in Hn.
  unfold push_header. do 2 wp_step. rewrite Hhd. unfold pouch_downlink_parse_header. wp_step.
  wp_step. apply wp_on_mem. eapply wp_view_peek; [exact Hr|]. rewrite set_mem_id. wp_step. apply wp_on_mem.
  eapply wp_available; [exact Hr|]. rewrite set_mem_id. wp_step. apply wp_on_mem.
  eapply (wp_load_ahead _ _ _ [] acc []); [by rewrite app_nil_r|done|done|]. rewrite set_mem_id.
  destruct (cbor_decode_pouch_header acc) as [[h k]|] eqn:Hdec; [|by do 2 wp_step].
  pose proof (decode_len _ _ _ Hdec) as Hk. wp_step. apply wp_zoom. eapply wp_mono; [exact HQ|].
  intros [e|] c HQ'; [by do 2 wp_step|]. unfold modify_downlink. do 4 wp_step. apply wp_on_mem.
  eapply wp_trim_start; [exact Hl|done|lia|]. intros b' Hwf' Hcap' Hco'. wp_step. apply HQ'; [done|done|].
  rewrite Hco'. rewrite <- Hco. unfold contents, slice. change (Z.to_nat 0) with 0%nat. rewrite drop_0.
  rewrite skipn_firstn_comm. f_equal. lia.
Qed.

(** *** Pushing a pouch in pieces *)

Definition push_chunks (chunks : list (list Z)) : M node unit :=
  foldr (λ c r, pouch_downlink_push c;; r) (mret tt) chunks.

(** Without a collecting buffer pushing does nothing. *)
Lemma wp_push_chunks_none chunks n Q :
  dl_pouch_buf (n_downlink n) = NULL → Q tt n → wp (push_chunks chunks) Q n.
Proof.
  intros Hp HQ. induction chunks as [|c chunks IH]; cbn [push_chunks foldr]; [by wp_step|].
  wp_step. apply wp_push_stop; [lia|by right|done].
Qed.

Lemma push_done_nil n lk acc : node_inv n lk → pending n acc → push_done n lk [] acc n.
Proof.
  intros Hinv Hpe. exists []. split_and!; [by apply pushed_refl|by intros k ?%elem_of_nil|].
  right. split; [constructor|done].
Qed.

(** The transition from one push to the next. *)
Lemma push_done_seq {A} n lk xs acc xs' tail (p : M node A) n1 :
  push_done n lk xs acc n1 → Forall sized_block xs →
  (∀ Q : A → node → Prop, dl_pouch_buf (n_downlink n1) = NULL → (∀ a, Q a n1) → wp p Q n1) →
  (∀ ls, pushed n n1 lk ls → pending n1 acc → wp p (λ _ n', push_done n1 lk xs' tail n') n1) →
  wp p (λ _ n', push_done n lk (xs ++ xs') tail n') n1.
Proof.
  intros (ls & Hpd & Hrec & [Hc|[Hh Hpe]]) Hxs Hstop Hgo.
  - apply Hstop; [apply Hc|]. intros a. exists ls. split_and!; auto.
  - eapply wp_mono; [by eapply Hgo|]. intros a n'. by eapply push_done_step.
Qed.

Lemma wp_push_chunks chunks n lk acc blocks tail :
  node_inv n lk → pending n acc → cut acc = cut_wait → dl_pouch_header (n_downlink n) = true →
  acc ++ concat chunks = concat blocks ++ tail → Forall (Forall is_byte) chunks →
  Forall sized_block blocks → cut tail = cut_wait →
  (∀ c x, c ∈ chunks → x ∈ blocks → zlen c ≤ zlen x) →
  wp (push_chunks chunks) (λ _ n', push_done n lk blocks tail n') n.
Proof.
  revert n acc blocks. induction chunks as [|c chunks IH];
    intros n acc blocks Hinv Hpe Hw Hhd Heq Hby Hbs Ht Hsz; cbn [push_chunks foldr].
  { wp_step. cbn in Heq. rewrite app_nil_r in Heq. subst acc. destruct blocks as [|x blocks].
    - by apply push_done_nil.
    - cbn in Hw. rewrite <- app_assoc, cut_sized in Hw by by apply Forall_cons_iff in Hbs as [? _]. done. }
  apply Forall_cons_iff in Hby as [Hc Hby]. cbn [concat] in Heq. rewrite app_assoc in Heq.
  destruct (stream_prefix blocks (acc ++ c) (concat chunks) tail Hbs Ht Heq)
    as (b1 & b2 & p & -> & Hp & Hwp & Hrest).
  apply Forall_app in Hbs as [Hb1 Hb2].
  wp_step. eapply wp_mono.
  { apply (wp_push_complete _ n lk acc c b1 p); try done; [lia|]. apply Forall_forall.
    intros x Hx%list_elem_of_In. apply Hsz; [by left|]. rewrite elem_of_app. by left. }
  intros [] n1 Hdone. eapply push_done_seq; [done|done| |].
  - intros Q Hnone HQ. by apply wp_push_chunks_none.
  - intros ls Hpd Hpe1. apply (IH n1 p); try done; [apply Hpd|by rewrite (pd_header _ _ _ _ Hpd)|].
    intros c' x Hc' Hx. apply Hsz; [by right|]. rewrite elem_of_app. by right.
Qed.

(** *** The header arrives *)

(** What may change until the header is complete. *)
Record header_pushed n n' lk acc (c : crypto_st) (hd : bool) : Prop := {
  hp_frame : push_frame n n' [];
  hp_inv : node_inv n' lk;
  hp_pending : pending n' acc;
  hp_crypto : n_crypto n' = c;
  hp_header : dl_pouch_header (n_downlink n') = hd;
}.

Lemma turn_all acc data :
  zlen acc + zlen data ≤ MAX_CIPHERTEXT_BLOCK_SIZE →
  turn_taken acc data = data ∧ turn_left acc data = [].
Proof.
  intros Hfit. unfold turn_taken, turn_left, turn_len. rewrite Z.min_l by lia.
  unfold zlen. rewrite Nat2Z.id. by rewrite firstn_all, drop_all.
Qed.

Lemma wp_header_push n lk acc data Q :
  node_inv n lk → pending n acc → dl_pouch_header (n_downlink n) = false →
  Forall is_byte data → data ≠ [] → zlen acc + zlen data ≤ MAX_CIPHERTEXT_BLOCK_SIZE →
  match cbor_decode_pouch_header (acc ++ data) with
  | None => ∀ n', header_pushed n n' lk (acc ++ data) (n_crypto n) false → Q tt n'
  | Some (h, k) =>
      cut (drop (Z.to_nat k) (acc ++ data)) = cut_wait ∧
      wp (crypto_downlink_start (hd_encryption_info h)) (λ r c,
        match r with
        | Some _ => ∀ n', header_pushed n n' lk (acc ++ data) c false → Q tt n'
        | None => ∀ n', header_pushed n n' lk (drop (Z.to_nat k) (acc ++ data)) c true → Q tt n'
        end) (n_crypto n)
  end →
  wp (pouch_downlink_push data) Q n.
Proof.
  intros Hinv Hpe Hhd Hby Hne Hfit HQ. destruct (turn_all acc data Hfit) as [Ht Hl].
  assert (0 < length data)%nat by (destruct data; [done|cbn; lia]).
  assert (0 < zlen data) by (unfold zlen; lia).
  unfold pouch_downlink_push. eapply (wp_push_turn _ n lk acc); [done..|lia|done|done|].
  rewrite Ht, Hl. intros l b n1 [Hfr Hinv1 Hc Hhd1 _] Hp Hlb Hcap Hco. rewrite Hhd in Hhd1.
  assert (header_pushed n n1 lk (acc ++ data) (n_crypto n) false) as Hhp by (split; try done; by exists l, b).
  wp_step. eapply (wp_push_header n1 lk l b); [done..|].
  destruct (cbor_decode_pouch_header (acc ++ data)) as [[h k]|] eqn:Hdec.
  2: { cbn [negb]. wp_step. by apply HQ. }
  destruct HQ as [Hw HQ]. rewrite Hc. eapply wp_mono; [exact HQ|]. intros [e|] c HQ'.
  { cbn [negb]. wp_step. apply HQ'. destruct Hhp as [[] ? (l' & b' & ? & ? & ? & ?) ? ?]. split; try done.
    by exists l', b'. }
  intros b' Hwf' Hcap' Hco'. cbn [negb].
  assert (header_pushed n (header_taken n1 l b' c) lk (drop (Z.to_nat k) (acc ++ data)) c true) as Hhp'.
  { split; try done.
    - destruct Hfr as [? ? ? ? ? ? ? ? Hk]. split; try done. intros j d Hj Hjp. destruct (Hk j d Hj Hjp) as [? ?].
      split; [|done]. cbn. rewrite lookup_insert_ne; [done|congruence].
    - unfold node_inv. apply owns_set_buf; [exact Hinv1| |done]. apply (owns_dom _ _ Hinv1). by eexists.
    - exists l, b'. split_and!; [done|apply heap_set_buf_eq|by rewrite Hcap'|done]. }
  wp_step. eapply (wp_push_blocks _ lk l b'); [apply Hhp'|done|apply heap_set_buf_eq|by rewrite Hcap'|done|].
  rewrite Hw. cbn [negb]. apply wp_push_stop; [lia|by left|]. by apply HQ'.
Qed.

(** *** A whole pouch *)

Context {CS : CryptoSpec Cr}.

(** The blocks [xs] of a pouch were sent off, and [tail] is collected. *)
Definition pouch_done n lk xs tail n' : Prop :=
  ∃ ls, push_frame n n' ls ∧ node_inv n' lk ∧ crypto_ok (n_crypto n') ∧
    (∀ k, k ∈ ls → ∃ x, ptr_contents (n_mem n') (Some k) = Some x ∧ received_block x) ∧
    (collect_failed n' ∨ holds (n_mem n') ls xs ∧ pending n' tail).

Lemma header_then_blocks n n1 lk acc c xs tail n' :
  header_pushed n n1 lk acc c true → crypto_ok c → push_done n1 lk xs tail n' → pouch_done n lk xs tail n'.
Proof.
  intros [Hfr _ _ Hc _] Hok (ls & [Hfr' Hinv' Hc' _ _] & Hrec & Hres).
  exists ls. split_and!; try done.
  - by apply (push_frame_trans n n1 n' [] ls).
  - by rewrite Hc', Hc.
Qed.

Lemma header_then_pouch n n1 lk acc c xs tail n' :
  header_pushed n n1 lk acc c false → pouch_done n1 lk xs tail n' → pouch_done n lk xs tail n'.
Proof.
  intros [Hfr _ _ _ _] (ls & Hfr' & ?). exists ls. split; [|done]. by apply (push_frame_trans n n1 n' [] ls).
Qed.

(** Less than a block waits. *)
Lemma short_waits (k r : list Z) blocks tail :
  Forall sized_block blocks → cut tail = cut_wait → k ++ r = concat blocks ++ tail →
  Forall (λ x, zlen k < zlen x) blocks → cut k = cut_wait.
Proof.
  intros Hbs Ht Heq Hsz. destruct (stream_prefix blocks k r tail Hbs Ht Heq) as (b1 & b2 & p & -> & Hk & Hw & _).
  destruct b1 as [|x b1]; [by subst|]. cbn in Hk, Hsz. apply Forall_cons_iff in Hsz as [Hx _].
  rewrite Hk, !zlen_app in Hx. pose proof (zlen_nonneg (concat b1)). pose proof (zlen_nonneg p). lia.
Qed.

Lemma wp_pouch_chunks chunks n lk acc h room enc r blocks tail :
  node_inv n lk → pending n acc → dl_pouch_header (n_downlink n) = false →
  cbor_encode_pouch_header room h = Some enc →
  wp (crypto_downlink_start (hd_encryption_info h)) (λ e c, e = success ∧ crypto_ok c) (n_crypto n) →
  enc = acc ++ r → r ≠ [] → acc ++ concat chunks = enc ++ concat blocks ++ tail →
  Forall (Forall is_byte) chunks → Forall sized_block blocks → cut tail = cut_wait →
  (∀ c x, c ∈ chunks → x ∈ blocks → zlen c ≤ zlen x) →
  (∀ c, c ∈ chunks → zlen enc + zlen c ≤ MAX_CIPHERTEXT_BLOCK_SIZE) →
  wp (push_chunks chunks) (λ _ n', pouch_done n lk blocks tail n') n.
Proof.
  revert n acc r. induction chunks as [|c chunks IH];
    intros n acc r Hinv Hpe Hhd Henc Hacc Hr Hne Heq Hby Hbs Ht Hsz Hfit; cbn [push_chunks foldr].
  { cbn in Heq. rewrite app_nil_r, Hr in Heq. apply (f_equal zlen) in Heq. rewrite !zlen_app in Heq.
    destruct r as [|x r]; [done|]. rewrite zlen_cons in Heq. pose proof (zlen_nonneg r).
    pose proof (zlen_nonneg (concat blocks)). pose proof (zlen_nonneg tail). lia. }
  apply Forall_cons_iff in Hby as [Hc Hby].
  assert (∀ c' x, c' ∈ chunks → x ∈ blocks → zlen c' ≤ zlen x) as Hsz' by (intros; apply Hsz; [by right|done]).
  assert (∀ c', c' ∈ chunks → zlen enc + zlen c' ≤ MAX_CIPHERTEXT_BLOCK_SIZE) as Hfit'
    by (intros; apply Hfit; by right).
  specialize (Hfit c ltac:(by left)). assert (zlen acc ≤ zlen enc) as Hle.
  { rewrite Hr, zlen_app. pose proof (zlen_nonneg r). lia. }
  wp_step. destruct (decide (c = [])) as [->|Hcne].
  { apply wp_push_stop; [cbn; lia|by left|]. by apply (IH n acc r). }
  assert (∀ k : list Z, acc ++ c = enc ++ k → k ++ concat chunks = concat blocks ++ tail →
    wp (pouch_downlink_push c) (λ _ n1, wp (push_chunks chunks) (λ _ n', pouch_done n lk blocks tail n') n1) n) as Hdone.
  { intros k Hk Hrest. apply (wp_header_push n lk acc c); [done..|lia|].
    rewrite Hk, (decode_encode _ _ _ k Henc). unfold zlen. rewrite Nat2Z.id, drop_app_length.
    assert (cut k = cut_wait) as Hwk.
    { eapply short_waits; [done|done|done|]. apply Forall_forall. intros x Hx%list_elem_of_In.
      specialize (Hsz c x ltac:(by left) Hx). apply (f_equal zlen) in Hk. rewrite Hr, !zlen_app in Hk.
      destruct r as [|y r]; [done|]. rewrite zlen_cons in Hk. pose proof (zlen_nonneg r). lia. }
    split; [done|]. eapply wp_mono; [exact Hacc|]. intros e c' [-> Hok] n1 Hhp.
    eapply wp_mono; [apply (wp_push_chunks chunks n1 lk k blocks tail); try done; apply Hhp|].
    intros [] n'. by eapply header_then_blocks. }
  cbn [concat] in Heq. rewrite app_assoc in Heq.
  apply app_eq_inv in Heq as [(k & Hk & Hrest)|(k & Hk & Hrest)]; [by apply (Hdone k)|].
  destruct (decide (k = [])) as [->|Hkne].
  { apply (Hdone []); [by rewrite Hk, !app_nil_r|by rewrite Hrest]. }
  apply (wp_header_push n lk acc c); [done..|lia|].
  rewrite (decode_prefix _ _ _ _ _ Henc Hk Hkne). intros n1 Hhp.
  eapply wp_mono; [apply (IH n1 (acc ++ c) k); try done; [apply Hhp..| |by rewrite Hrest, Hk, <- !app_assoc]|].
  - by rewrite (hp_crypto _ _ _ _ _ _ Hhp).
  - intros [] n'. by eapply header_then_pouch.
Qed.

(** Starting a pouch: what an earlier pouch left in the collecting buffer is no
    longer reachable. *)
Lemma wp_downlink_start_pouch n lk :
  node_inv n lk →
  wp pouch_downlink_start (λ _ n',
    push_frame (set_downlink (dl_set_pouch_buf NULL (n_downlink n)) n) n' [] ∧
    node_inv n' (option_list (dl_pouch_buf (n_downlink n)) ++ lk) ∧ n_crypto n' = n_crypto n ∧
    dl_pouch_header (n_downlink n') = false ∧ (collect_failed n' ∨ pending n' [])) n.
Proof.
  intros Hinv. pose proof block_sizes_range. unfold pouch_downlink_start, modify_downlink.
  do 3 wp_step. apply wp_on_mem. apply wp_buf_alloc; [lia| |].
  - intros junk _ Hlen Hb. set (b0 := mk_buf 0 junk).
    assert (wf_buf b0) as Hwf0 by (split; cbn; [lia|lia|done]).
    pose proof (owns_new_buf _ _ b0 Hinv Hwf0) as Hown. wp_step. split_and!; try done.
    + split; try done; [by rewrite app_nil_r|].
      intros k b Hk _. cbn in Hk. pose proof (live_not_next _ _ _ _ Hinv Hk). split; [|cbn; congruence].
      cbn. by rewrite lookup_insert_ne.
    + unfold node_inv. eapply heap_owns_proper; [|exact Hown].
      unfold owned, downlink_owned. cbn. solve_Permutation.
    + right. exists (mallocs (n_mem n)), b0. split_and!; [done|apply heap_new_buf_eq|done|done].
  - intros Hnone. wp_step. split_and!; try done.
    + split; try done. by rewrite app_nil_r.
    + unfold node_inv. eapply heap_owns_proper; [|by apply owns_no_buf].
      unfold owned, downlink_owned. cbn. solve_Permutation.
    + left. split; [done|by eexists].
Qed.
End push_facts.

(** ** Properties *)

Section downlink_theorems.
Context `{COk : ConfigOk} `{ZS : ZephyrSpec} `{Mal : Malloc} `{Cr : Crypto} `{Hnd : Handlers}.
Context `{HC : HeaderCodecSpec} {CS : CryptoSpec Cr}.
Implicit Types (n : node).

(** The pieces of a pouch pushed to a new collecting buffer. *)
Lemma wp_pouch n lk h room enc blocks tail chunks :
  node_inv n lk → cbor_encode_pouch_header room h = Some enc →
  wp (crypto_downlink_start (hd_encryption_info h)) (λ e c, e = success ∧ crypto_ok c) (n_crypto n) →
  crypto_ok (n_crypto n) →
  concat chunks = enc ++ concat blocks ++ tail →
  Forall (Forall is_byte) chunks → Forall sized_block blocks → cut tail = cut_wait →
  (∀ c x, c ∈ chunks → x ∈ blocks → zlen c ≤ zlen x) →
  (∀ c, c ∈ chunks → zlen enc + zlen c ≤ MAX_CIPHERTEXT_BLOCK_SIZE) →
  wp (pouch_downlink_start;; push_chunks chunks;; pouch_downlink_finish) (λ _ n',
    pouch_done (set_downlink (dl_set_pouch_buf NULL (n_downlink n)) n)
      (option_list (dl_pouch_buf (n_downlink n)) ++ lk) blocks tail n') n.
Proof.
  intros Hinv Henc Hacc Hok Heq Hby Hbs Ht Hsz Hfit. wp_step.
  eapply wp_mono; [by apply (wp_downlink_start_pouch n lk)|].
  intros [] n1 (Hfr0 & Hinv1 & Hc & Hhd & Hpe).
  set (n0 := set_downlink _ _) in *. unfold pouch_downlink_finish.
  wp_step. destruct Hpe as [Hf|Hpe].
  - apply wp_push_chunks_none; [apply Hf|]. wp_step. exists [].
    split_and!; [done|done|by rewrite Hc|by intros k ?%elem_of_nil|by left].
  - eapply wp_mono; [apply (wp_pouch_chunks chunks n1 (option_list (dl_pouch_buf (n_downlink n)) ++ lk) [] h room enc enc blocks tail); try done|].
    + by rewrite Hc.
    + apply encode_len in Henc. intros ->. by destruct Henc.
    + intros [] n' (ls & Hfr & ?). wp_step. exists ls. split; [|done]. by apply (push_frame_trans n0 n1 n' [] ls).
Qed.

(** C33: a pouch pushed in pieces of which none is longer than the shortest of its
    blocks ([second_block_is_held] shows what a longer one can lose), and each of
    which fits into the buffer next to the header, is taken apart again: its header is decoded once and cut off, and
    exactly its blocks are queued for decryption, each in a buffer of its own and
    in order, with the work item submitted; a block still incomplete at the end
    stays in the collecting buffer. Only a failed allocation stops this. The
    collecting buffer of the pouch before is lost. *)
Theorem downlink_reassembles n lk h room enc blocks tail chunks :
  node_inv n lk → cbor_encode_pouch_header room h = Some enc →
  wp (crypto_downlink_start (hd_encryption_info h)) (λ e c, e = success ∧ crypto_ok c) (n_crypto n) →
  crypto_ok (n_crypto n) →
  concat chunks = enc ++ concat blocks ++ tail →
  Forall (Forall is_byte) chunks → Forall sized_block blocks → cut tail = cut_wait →
  (∀ c x, c ∈ chunks → x ∈ blocks → zlen c ≤ zlen x) →
  (∀ c, c ∈ chunks → zlen enc + zlen c ≤ MAX_CIPHERTEXT_BLOCK_SIZE) →
  wp (pouch_downlink_start;; push_chunks chunks;; pouch_downlink_finish) (λ _ n',
    node_inv n' (option_list (dl_pouch_buf (n_downlink n)) ++ lk) ∧ n_calls n' = n_calls n ∧
    ∃ ls, slist_items (dl_decrypt (n_downlink n')) = slist_items (dl_decrypt (n_downlink n)) ++ ls ∧
      (ls ≠ [] → work_decrypt ∈ n_work n') ∧
      (collect_failed n' ∨ holds (n_mem n') ls blocks ∧ pending n' tail)) n.
Proof.
  intros. eapply wp_mono; [by eapply wp_pouch|].
  intros [] n' (ls & [_ _ _ _ Hca _ Hd Hw _] & Hinv' & _ & _ & Hres). split_and!; [done|done|].
  exists ls. split_and!; [done| |done]. intros Hne. rewrite Hw, decide_False by done. apply add_work_in.
Qed.

(** C34: whatever bytes are pushed once the header is known, the blocks sent off
    and the bytes kept are those received, in order: each block sent has the size
    its size field says, and bytes are dropped only behind an oversized block, in
    a full collecting buffer, or when there is no memory for a new one. What is
    sent for decryption always holds the whole block. *)
Theorem push_keeps_bytes n lk acc data :
  node_inv n lk → pending n acc → dl_pouch_header (n_downlink n) = true → Forall is_byte data →
  wp (pouch_downlink_push data) (λ _ n', push_result n lk acc data n') n.
Proof. intros. apply wp_push_any; [done..|lia]. Qed.

(** C38: two complete blocks that arrive in one push: only the first is sent for
    decryption; the second is kept in the collecting buffer although it is
    complete, and the end of the pouch does not send it. *)
Theorem second_block_is_held n lk x y :
  node_inv n lk → pending n [] → dl_pouch_header (n_downlink n) = true →
  sized_block x → sized_block y → zlen x + zlen y ≤ MAX_CIPHERTEXT_BLOCK_SIZE →
  wp (pouch_downlink_push (x ++ y);; pouch_downlink_finish) (λ _ n', ∃ l,
    slist_items (dl_decrypt (n_downlink n')) = slist_items (dl_decrypt (n_downlink n)) ++ [l] ∧
    (collect_failed n' ∨
     ptr_contents (n_mem n') (Some l) = Some x ∧ pending n' y ∧ cut y = cut_block y [])) n.
Proof.
  intros Hinv Hpe Hhd Hx Hy Hfit. pose proof (sized_block_len x Hx). pose proof (sized_block_len y Hy).
  destruct (turn_all [] (x ++ y)) as [Htk Hl]; [rewrite zlen_app; change (zlen []) with 0; lia|].
  unfold pouch_downlink_push, pouch_downlink_finish. wp_step.
  eapply (wp_block_turn _ n lk []); [done|done|change (zlen []) with 0; lia|done| | |].
  { apply Forall_app. by split; apply sized_block_bytes. }
  { intros [-> ->]%app_eq_nil. rewrite zlen_nil in *. lia. }
  rewrite Htk, Hl. cbn [app]. rewrite cut_sized by done. intros n1 l [Hfr _ _ _ _] Hs.
  apply wp_push_stop; [|by left|].
  { rewrite length_app. unfold zlen in *. lia. }
  wp_step. exists l. split; [apply Hfr|]. destruct Hs as [[? _]|[Hp Hlx]]; [by left|right].
  split_and!; [done|done|]. rewrite <- (app_nil_r y) at 1. by apply cut_sized.
Qed.

(** While the header is incomplete, or when the crypto module refuses the
    encryption it names, nothing is sent and the bytes are kept; a header that is
    refused is decoded and refused again with every further push. *)
Lemma header_errors n lk acc data :
  node_inv n lk → pending n acc → dl_pouch_header (n_downlink n) = false →
  Forall is_byte data → data ≠ [] → zlen acc + zlen data ≤ MAX_CIPHERTEXT_BLOCK_SIZE →
  match cbor_decode_pouch_header (acc ++ data) with
  | None => True
  | Some (h, k) => wp (crypto_downlink_start (hd_encryption_info h)) (λ r _, r ≠ success) (n_crypto n)
  end →
  wp (pouch_downlink_push data) (λ _ n', push_frame n n' [] ∧ node_inv n' lk ∧
    pending n' (acc ++ data) ∧ dl_pouch_header (n_downlink n') = false) n.
Proof.
  intros Hinv Hpe Hhd Hby Hne Hfit Hbad. pose proof block_sizes_range.
  unfold pouch_downlink_push. destruct (turn_all acc data Hfit) as [Ht Hl].
  assert (0 < zlen data) by (destruct data; [done|rewrite zlen_cons; pose proof (zlen_nonneg data); lia]).
  eapply (wp_push_turn _ n lk acc); [done..|lia|done|done|].
  rewrite Ht, Hl. intros l b n1 [Hfr Hinv1 Hc Hhd1 _] Hp Hlb Hcap Hco. rewrite Hhd in Hhd1.
  wp_step. eapply (wp_push_header n1 lk l b); [done..|].
  destruct (cbor_decode_pouch_header (acc ++ data)) as [[h k]|].
  - rewrite Hc. eapply wp_mono; [exact Hbad|]. intros [e|] c Hr; [|done]. cbn [negb]. wp_step.
    split_and!; [by destruct Hfr|done|by exists l, b|done].
  - cbn [negb]. wp_step. split_and!; [done|done|by exists l, b|done].
Qed.

(** Every start of a pouch leaves the collecting buffer of the pouch before
    allocated with nothing pointing to it. *)
Lemma start_loses_buffer n lk l :
  node_inv n lk → dl_pouch_buf (n_downlink n) = Some l →
  wp pouch_downlink_start (λ _ n', node_inv n' (l :: lk) ∧ is_Some (heap (n_mem n') !! l) ∧
    dl_pouch_buf (n_downlink n') ≠ Some l) n.
Proof.
  intros Hinv Hp. eapply wp_mono; [by apply (wp_downlink_start_pouch n lk)|].
  rewrite Hp. intros [] n' (Hfr & Hinv' & _). cbn in Hinv'.
  destruct (owns_lookup _ _ l Hinv) as (b & Hb & _); [rewrite owned_pouch_buf, Hp; set_solver|].
  destruct (pu_kept _ _ _ Hfr l b Hb) as [Hb' Hne]; [done|]. split_and!; [done|by eexists|done].
Qed.
End downlink_theorems.

Section downlink_witnesses.
#[local] Existing Instances small_config small_config_ok zephyr_ref zephyr_ref_spec
  malloc_always crypto_none crypto_none_spec one_handler plain_codec plain_codec_spec.

Definition sample_header : pouch_header := mk_header 1 (plaintext_info [97; 98; 99]).
Definition sample_block_1 : list Z := [0; 4; 192; 1; 2; 3].
Definition sample_block_2 : list Z := [0; 5; 192; 4; 5; 6; 7].

(** The header, two blocks and the start of a third, in four pieces. *)
Definition sample_chunks : list (list Z) :=
  [[130; 1; 130; 0; 99]; [97; 98; 99; 0; 4]; [192; 1; 2; 3; 0; 5]; [192; 4; 5; 6; 7; 0]].

Lemma sample_block_1_sized : sized_block sample_block_1.
Proof. exists 4, [192; 1; 2; 3]. split_and!; [done|done|done|done|solve_bytes]. Qed.

Lemma sample_block_2_sized : sized_block sample_block_2.
Proof. exists 5, [192; 4; 5; 6; 7]. split_and!; [done|done|done|done|solve_bytes]. Qed.

Lemma downlink_reassembles_witness :
  wp (pouch_downlink_start;; push_chunks sample_chunks;; pouch_downlink_finish) (λ _ n',
    node_inv n' (option_list (dl_pouch_buf (n_downlink node_0)) ++ []) ∧ n_calls n' = n_calls node_0 ∧
    ∃ ls, slist_items (dl_decrypt (n_downlink n')) = slist_items (dl_decrypt (n_downlink node_0)) ++ ls ∧
      (ls ≠ [] → work_decrypt ∈ n_work n') ∧
      (collect_failed n' ∨ holds (n_mem n') ls [sample_block_1; sample_block_2] ∧ pending n' [0])) node_0.
Proof.
  apply (downlink_reassembles node_0 [] sample_header 37 [130; 1; 130; 0; 99; 97; 98; 99]
    [sample_block_1; sample_block_2] [0] sample_chunks).
  - apply init_node_inv.
  - done.
  - split; [done|by eexists].
  - by eexists.
  - done.
  - repeat constructor; solve_bytes.
  - repeat constructor; [apply sample_block_1_sized|apply sample_block_2_sized].
  - done.
  - unfold sample_chunks. intros c x. rewrite !elem_of_cons, !elem_of_nil. by intros [->|[->|[->|[->|[]]]]] [->|[->|[]]].
  - unfold sample_chunks. intros c. rewrite !elem_of_cons, !elem_of_nil. by intros [->|[->|[->|[->|[]]]]].
Defined.

(** A node whose collecting buffer holds the given bytes. *)
Definition node_d (hd : bool) (acc : list Z) : node :=
  set_downlink (mk_downlink (Some 0%nat) hd [] [])
    (set_mem (list_mem [mk_buf (zlen acc) (acc ++ replicate (35 - length acc) 0)]) node_0).

Lemma node_d_inv hd acc : Forall is_byte acc → (length acc ≤ 35)%nat → node_inv (node_d hd acc) [].
Proof.
  intros Hb Hlen. unfold node_inv. assert (owned (node_d hd acc) ++ [] = [0%nat]) as -> by by vm_compute.
  apply (list_mem_owns [mk_buf (zlen acc) (acc ++ replicate (35 - length acc) 0)]); [|done].
  repeat constructor; cbn; try rewrite !zlen_app; unfold zlen; rewrite ?length_replicate; [lia..|].
  apply Forall_app. split; [done|]. apply Forall_replicate. unfold is_byte. lia.
Qed.

Lemma node_d_pending hd acc : (length acc ≤ 35)%nat → pending (node_d hd acc) acc.
Proof.
  intros Hlen. exists 0%nat. eexists. split_and!; [done|done| |].
  - unfold capacity. cbn. unfold zlen. rewrite length_app, length_replicate. change MAX_CIPHERTEXT_BLOCK_SIZE with 35. lia.
  - apply slice_prefix.
Qed.

Lemma push_keeps_bytes_witness :
  wp (pouch_downlink_push (sample_block_1 ++ sample_block_2)) (λ _ n',
    push_result (node_d true [0; 2]) [] [0; 2] (sample_block_1 ++ sample_block_2) n') (node_d true [0; 2]).
Proof.
  apply push_keeps_bytes; [apply node_d_inv; [solve_bytes|cbn; lia]|apply node_d_pending; cbn; lia|done|].
  unfold sample_block_1, sample_block_2. cbn. solve_bytes.
Defined.

Lemma second_block_is_held_witness :
  wp (pouch_downlink_push (sample_block_1 ++ sample_block_2);; pouch_downlink_finish) (λ _ n', ∃ l,
    slist_items (dl_decrypt (n_downlink n')) =
      slist_items (dl_decrypt (n_downlink (node_d true []))) ++ [l] ∧
    (collect_failed n' ∨
     ptr_contents (n_mem n') (Some l) = Some sample_block_1 ∧ pending n' sample_block_2 ∧
     cut sample_block_2 = cut_block sample_block_2 [])) (node_d true []).
Proof.
  apply (second_block_is_held (node_d true []) [] sample_block_1 sample_block_2);
    [apply node_d_inv; [solve_bytes|cbn; lia]|apply node_d_pending; cbn; lia|done|
     apply sample_block_1_sized|apply sample_block_2_sized|done].
Defined.

Lemma header_errors_witness :
  wp (pouch_downlink_push [130; 1; 130; 0; 99]) (λ _ n',
    push_frame (node_d false []) n' [] ∧ node_inv n' [] ∧
    pending n' ([] ++ [130; 1; 130; 0; 99]) ∧ dl_pouch_header (n_downlink n') = false) (node_d false []).
Proof.
  apply (header_errors (node_d false []) [] [] [130; 1; 130; 0; 99]);
    [apply node_d_inv; [solve_bytes|cbn; lia]|apply node_d_pending; cbn; lia|done|solve_bytes|done|done|done].
Defined.

Lemma start_loses_buffer_witness :
  wp pouch_downlink_start (λ _ n', node_inv n' [0%nat] ∧ is_Some (heap (n_mem n') !! 0%nat) ∧
    dl_pouch_buf (n_downlink n') ≠ Some 0%nat) (node_d true [1; 2]).
Proof.
  apply (start_loses_buffer (node_d true [1; 2]) [] 0); [apply node_d_inv; [solve_bytes|cbn; lia]|done].
Defined.
End downlink_witnesses.
