(* ===== verification/Pouch.v ===== *)
(** The pouch module: [src/pouch.c], and the work items as a whole.

    Events go to a message queue and are dispatched by a work item; the other
    work items are those of the uplink and the downlink. [work_step] lets any
    pending work item run next. *)
From stdpp Require Import relations.
From S2P Require Import Prelude Zephyr Config Buf Block Header Node CryptoNone CryptoSpec.
From S2P Require Import Reference Entry Stream Uplink Downlink.

Section pouch.
Context `{Cfg : Config} `{Zk : Zephyr} `{Mal : Malloc} `{Cr : Crypto} `{Hnd : Handlers}.

(** A queue of the configured depth is empty after that many messages. *)
Fixpoint dispatch_loop (fuel : nat) : M node unit :=
  match fuel with
  | O => nofuel
  | S fuel =>
      n ← get;
      modify (set_events (k_msgq_get (n_events n)).2);;
      match (k_msgq_get (n_events n)).1 with
      | None => mret tt
      | Some event =>
          for_each pouch_event_handlers (λ h, call (event_cb h event));;
          dispatch_loop fuel
      end
  end.

Definition dispatch_events : M node unit :=
  dispatch_loop (S (Z.to_nat CONFIG_POUCH_EVENT_QUEUE_DEPTH)).

(** [crypto_init] is that of the crypto module, applied to the configuration. *)
Definition pouch_init (crypto_init : M crypto_st rc) : M node rc :=
  downlink_init;;
  uplink_init;;
  on_crypto_st crypto_init.

(** The handler of a work item. *)
Definition run_item (w : work_item) : M node unit :=
  match w with
  | work_process => process_blocks
  | work_decrypt => decrypt_blocks
  | work_consume => consume_blocks
  | work_event => dispatch_events
  end.

(** A pending work item runs; it is not pending while it runs. *)
Inductive work_step : node → node → Prop :=
  | run_work w ws1 ws2 n n' :
      n_work n = ws1 ++ w :: ws2 →
      run_item w (set_work (ws1 ++ ws2) n) = Ret tt n' →
      work_step n n'.

(** The node after the first of the pending work items has run. *)
Definition run_first (n : node) : node :=
  match n_work n with
  | w :: ws => match run_item w (set_work ws n) with Ret _ n' => n' | _ => n end
  | [] => n
  end.

Lemma run_first_step n n' : n_work n ≠ [] → run_first n = n' → 
  (∃ m, run_item (hd work_event (n_work n)) (set_work (tail (n_work n)) n) = Ret tt m) → work_step n n'.
Proof.
  unfold run_first. destruct (n_work n) as [|w ws] eqn:Hw; [done|]. cbn. intros _ <- [m Hm]. rewrite Hm.
  by apply (run_work w [] ws).
Qed.
End pouch.

(** ** Events *)

Section events.
Context `{COk : ConfigOk} `{ZS : ZephyrSpec} `{Mal : Malloc} `{Cr : Crypto} `{Hnd : Handlers}.
Implicit Types (n : node).

(** The calls of the handlers for the events [es]. *)
Definition event_calls (es : list pouch_event) : list callback :=
  concat (map (λ e, map (λ h, event_cb h e) pouch_event_handlers) es).

Lemma wp_dispatch_loop fuel n Q :
  (length (msgq_items (n_events n)) < fuel)%nat →
  (∀ q, msgq_items q = [] → msgq_depth q = msgq_depth (n_events n) →
    Q tt (set_calls (n_calls n ++ event_calls (msgq_items (n_events n))) (set_events q n))) →
  wp (dispatch_loop fuel) Q n.
Proof.
  revert n. induction fuel as [|fuel IH]; intros n Hf HQ; [lia|]. cbn [dispatch_loop].
  do 3 wp_step. destruct (msgq_get_spec _ (n_events n)) as (Hhd & Htl & Hdep). rewrite Hhd.
  destruct (msgq_items (n_events n)) as [|e es] eqn:Hes; cbn [head tail] in *.
  - wp_step. specialize (HQ _ Htl Hdep). unfold event_calls in HQ. cbn in HQ.
    rewrite app_nil_r in HQ. destruct n. exact HQ.
  - wp_step. wp_step. eapply (wp_for_each_call _ (λ h, event_cb h e)). apply IH; cbn.
    + rewrite Htl. cbn in Hf. lia.
    + intros q Hq Hd. rewrite Htl, <- app_assoc. exact (HQ q Hq (eq_trans Hd Hdep)).
Qed.

(** Emitting events one after the other. *)
Definition emit_all (es : list pouch_event) : M node unit :=
  foldr (λ e r, pouch_event_emit e;; r) (mret tt) es.

(** A full queue drops what does not fit. *)
Lemma put_items (q : msgq pouch_event) e :
  zlen (msgq_items q) ≤ msgq_depth q →
  msgq_items (k_msgq_put q e).2 = take (Z.to_nat (msgq_depth q)) (msgq_items q ++ [e]) ∧
  msgq_depth (k_msgq_put q e).2 = msgq_depth q ∧
  zlen (msgq_items (k_msgq_put q e).2) ≤ msgq_depth q.
Proof.
  intros Hle. destruct (Z.lt_ge_cases (zlen (msgq_items q)) (msgq_depth q)) as [Hlt|Hge].
  - destruct (msgq_put_room _ q e Hlt) as (_ & -> & ->). rewrite zlen_app, zlen_singleton.
    split_and!; [|done|lia]. symmetry. apply firstn_all2. rewrite length_app. unfold zlen in Hlt. cbn. lia.
  - rewrite (msgq_put_full _ q e Hge). cbn. split_and!; [|done|done]. unfold zlen in *.
    rewrite take_app_le by lia. symmetry. apply firstn_all2. lia.
Qed.

Lemma take_app_take {A} k (l r : list A) : take k (take k l ++ r) = take k (l ++ r).
Proof.
  destruct (le_lt_dec (length l) k) as [H|H].
  - by rewrite (firstn_all2 l).
  - rewrite !take_app_le; [|lia|rewrite length_take; lia]. rewrite take_take. f_equal. lia.
Qed.

Lemma wp_emit_all es n Q :
  zlen (msgq_items (n_events n)) ≤ msgq_depth (n_events n) →
  (∀ q w, msgq_items q = take (Z.to_nat (msgq_depth (n_events n))) (msgq_items (n_events n) ++ es) →
     msgq_depth q = msgq_depth (n_events n) → (work_event ∈ n_work n ∨ es ≠ [] → work_event ∈ w) →
     Q tt (set_work w (set_events q n))) →
  wp (emit_all es) Q n.
Proof.
  revert n. induction es as [|e es IH]; intros n Hle HQ; cbn [emit_all foldr].
  - wp_step. specialize (HQ (n_events n) (n_work n)). destruct n. apply HQ; [|done|by intros [?|?]].
    rewrite app_nil_r. symmetry. apply firstn_all2. unfold zlen in Hle. cbn in *. lia.
  - unfold pouch_event_emit, k_work_submit. wp_steps.
    destruct (put_items (n_events n) e Hle) as (Hit & Hdep & Hle'). apply IH; cbn.
    + by rewrite Hdep.
    + intros q w Hq Hd Hw. apply (HQ q w).
      * rewrite Hq, Hit, Hdep, take_app_take. by rewrite <- app_assoc.
      * congruence.
      * intros _. apply Hw. left. apply add_work_in.
Qed.

(** C40: events emitted one after the other are reported to every handler in the
    order of emission by the next run of the work item, behind those that were
    waiting; those that find the queue full are dropped, and the queue is empty
    afterwards. *)
Theorem events_delivered es n :
  msgq_depth (n_events n) = CONFIG_POUCH_EVENT_QUEUE_DEPTH → 
  zlen (msgq_items (n_events n)) ≤ CONFIG_POUCH_EVENT_QUEUE_DEPTH →
  wp (emit_all es;; dispatch_events) (λ _ n',
    n_calls n' = n_calls n ++ event_calls
      (take (Z.to_nat CONFIG_POUCH_EVENT_QUEUE_DEPTH) (msgq_items (n_events n) ++ es)) ∧
    msgq_items (n_events n') = [] ∧
    (es ≠ [] → work_event ∈ n_work n') ∧ n_mem n' = n_mem n) n.
Proof.
  intros Hdep Hle. wp_step. apply wp_emit_all; [by rewrite Hdep|]. intros q w Hq Hd Hw.
  rewrite Hdep in Hq, Hd. apply wp_dispatch_loop; cbn.
  - rewrite Hq, length_take. lia.
  - intros q' Hq' _. rewrite Hq. split_and!; try done. intros Hne. apply Hw. by right.
Qed.
End events.

(** ** Delivery

    The pipeline from the decryption queue to the application. *)

Section delivery.
Context `{COk : ConfigOk} `{ZS : ZephyrSpec} `{Mal : Malloc} `{Cr : Crypto} `{Hnd : Handlers}.
Context {CS : CryptoSpec Cr}.
Implicit Types (n : node) (l : nat).

(** From state [c], opening the blocks [xs] one after the other gives the blocks
    [ys], whichever way the crypto module goes. *)
Fixpoint decrypts (c : crypto_st) (xs ys : list (list Z)) : Prop :=
  match xs, ys with
  | [], [] => True
  | x :: xs, y :: ys => ∀ r c', opens c x r c' → r = Some y ∧ decrypts c' xs ys
  | _, _ => False
  end.

(** Delivering a block with the bytes [y] makes the calls [cs]. *)
Definition delivers (y : list Z) (cs : list callback) : Prop :=
  ∀ n l b Q, heap (n_mem n) !! l = Some b → wf_buf b → contents b = y →
    Q tt (set_calls (n_calls n ++ cs) n) → wp (pouch_downlink_block_push (Some l)) Q n.

(** The state of the pipeline: the blocks [xs] wait for decryption and the blocks [ds]
    for delivery, the blocks [fs] are yet to be received, and [css] are the calls to come. *)
Record pipe n (lk : list nat) (xs ds fs : list (list Z)) (css : list (list callback)) : Prop := {
  pi_inv : node_inv n lk;
  pi_crypto : crypto_ok (n_crypto n);
  pi_decrypt : holds (n_mem n) (slist_items (dl_decrypt (n_downlink n))) xs;
  pi_consume : holds (n_mem n) (slist_items (dl_consume (n_downlink n))) ds;
  pi_received : Forall received_block xs;
  pi_opens : ∃ ys, decrypts (n_crypto n) (xs ++ fs) ys ∧ Forall2 delivers (ds ++ ys) css;
  pi_work : NoDup (n_work n);
  pi_items : ∀ w, w ∈ n_work n ↔ w = work_decrypt ∧ xs ≠ [] ∨ w = work_consume ∧ ds ≠ [];
}.

(** The collecting buffer is left alone. *)
Record collecting_kept n n' : Prop := {
  ck_pouch : dl_pouch_buf (n_downlink n') = dl_pouch_buf (n_downlink n);
  ck_header : dl_pouch_header (n_downlink n') = dl_pouch_header (n_downlink n);
  ck_heap : ∀ k, dl_pouch_buf (n_downlink n) = Some k → heap (n_mem n') !! k = heap (n_mem n) !! k;
}.

Lemma collecting_kept_refl n : collecting_kept n n.
Proof. done. Qed.

Lemma collecting_kept_trans n1 n2 n3 :
  collecting_kept n1 n2 → collecting_kept n2 n3 → collecting_kept n1 n3.
Proof.
  intros [Hp1 Hh1 Hm1] [Hp2 Hh2 Hm2]. split; [congruence|congruence|].
  intros k Hk. rewrite Hm2; [by apply Hm1|congruence].
Qed.

(** The steps still to do. *)
Definition pipe_size (xs ds : list (list Z)) : nat := 2 * length xs + length ds.

(** The buffers outside the two queues. *)
Definition outside n (lk : list nat) : list nat :=
  uplink_owned (n_uplink n) ++ option_list (n_entry n) ++ stream_bufs (n_streams n) ++
  option_list (dl_pouch_buf (n_downlink n)) ++ lk.

Lemma owned_queues n lk :
  owned n ++ lk ≡ₚ slist_items (dl_decrypt (n_downlink n)) ++ slist_items (dl_consume (n_downlink n)) ++ outside n lk.
Proof. unfold owned, downlink_owned, outside. solve_Permutation. Qed.

(** What a work item of the pipeline changes: the heap, the crypto state, the two queues
    and the calls. *)
Record moved n n' (m : mem) (c : crypto_st) (qd qc : slist nat) (calls : list callback) : Prop := {
  mv_mem : n_mem n' = m;
  mv_crypto : n_crypto n' = c;
  mv_uplink : n_uplink n' = n_uplink n;
  mv_entry : n_entry n' = n_entry n;
  mv_streams : n_streams n' = n_streams n;
  mv_calls : n_calls n' = calls;
  mv_downlink : n_downlink n' = dl_set_consume qc (dl_set_decrypt qd (n_downlink n));
}.

Lemma moved_kept n n' lk m c qd qc calls :
  moved n n' m c qd qc calls → (∀ k, k ∈ outside n lk → heap m !! k = heap (n_mem n) !! k) → collecting_kept n n'.
Proof.
  intros [Em _ _ _ _ _ Ed] Hk. split; [by rewrite Ed..|]. intros k Hp. rewrite Em. apply Hk.
  unfold outside. rewrite Hp, !elem_of_app. cbn. set_solver.
Qed.

Lemma moved_pipe n n' lk m c qd qc calls ks xs ds fs css :
  moved n n' m c qd qc calls →
  heap_owns m ks → ks ≡ₚ slist_items qd ++ slist_items qc ++ outside n lk → crypto_ok c →
  holds m (slist_items qd) xs → holds m (slist_items qc) ds → Forall received_block xs →
  (∃ ys, decrypts c (xs ++ fs) ys ∧ Forall2 delivers (ds ++ ys) css) → NoDup (n_work n') →
  (∀ w, w ∈ n_work n' ↔ w = work_decrypt ∧ xs ≠ [] ∨ w = work_consume ∧ ds ≠ []) →
  pipe n' lk xs ds fs css.
Proof.
  intros [Em Ec Eu Ee Es _ Ed] Hm Hks Hc Hd Hcs Hrec Hdel Hndw Hit.
  split; rewrite ?Em, ?Ec, ?Ed; try done. unfold node_inv. rewrite Em. eapply heap_owns_proper; [|exact Hm].
  by rewrite owned_queues, Hks, Ed; unfold outside; rewrite Eu, Ee, Es, Ed.
Qed.

(** A queue is empty with the blocks that it holds. *)
Lemma holds_empty m q xs : holds m (slist_items q) xs → buf_queue_is_empty q = bool_decide (xs = []).
Proof.
  intros Hh. rewrite queue_is_empty_spec. apply bool_decide_ext. pose proof (Forall2_length Hh). by destruct (slist_items q), xs.
Qed.

Lemma add_work_nodup w ws : NoDup ws → NoDup (add_work w ws).
Proof.
  intros Hn. unfold add_work. case_decide as Hw; [done|]. apply list.NoDup_app. split_and!; [done| |apply NoDup_singleton].
  intros v Hv ->%list_elem_of_singleton. done.
Qed.

Lemma elem_of_add_work v w ws : v ∈ add_work w ws ↔ v = w ∨ v ∈ ws.
Proof.
  unfold add_work. case_decide as Hw.
  - split; [by right|]. by intros [->|?].
  - rewrite elem_of_app, list_elem_of_singleton. tauto.
Qed.

(** Removing the work item that runs. *)
Lemma work_removed (w : work_item) ws ws1 ws2 :
  NoDup ws → ws = ws1 ++ w :: ws2 →
  NoDup (ws1 ++ ws2) ∧ ∀ v, v ∈ ws1 ++ ws2 ↔ v ∈ ws ∧ v ≠ w.
Proof.
  intros Hn ->. rewrite <- Permutation_middle in Hn. apply list.NoDup_cons in Hn as [Hw Hn].
  split; [done|]. intros v. rewrite !elem_of_app, elem_of_cons in *.
  split; [|tauto]. intros Hv. split; [tauto|]. intros ->. tauto.
Qed.

(** A block that cannot be decrypted stops the line: those behind it stay in the queue
    with no work item submitted for them, until another block is received. *)
Lemma undecryptable_block_stalls n l ls b m c :
  slist_items (dl_decrypt (n_downlink n)) = l :: ls → heap (n_mem n) !! l = Some b →
  crypto_decrypt_block (Some l) (n_mem n, n_crypto n) = Ret NULL (m, c) →
  wp decrypt_blocks (λ _ n', slist_items (dl_decrypt (n_downlink n')) = ls ∧ n_work n' = n_work n) n.
Proof.
  intros Hq Hl Hc. unfold decrypt_blocks. do 3 wp_step. apply wp_on_mem.
  eapply wp_queue_get_cons; [exact Hq|done|]. intros q1 Hq1. rewrite set_mem_id.
  unfold modify_downlink. do 3 wp_step. apply wp_zoom. by eapply wp_eq; [exact Hc|].
Qed.

(** One run of [decrypt_blocks]. *)
Lemma wp_decrypt_step n lk x xs ds fs css Q :
  node_inv n lk → crypto_ok (n_crypto n) →
  holds (n_mem n) (slist_items (dl_decrypt (n_downlink n))) (x :: xs) →
  holds (n_mem n) (slist_items (dl_consume (n_downlink n))) ds →
  Forall received_block (x :: xs) →
  (∃ ys, decrypts (n_crypto n) ((x :: xs) ++ fs) ys ∧ Forall2 delivers (ds ++ ys) css) →
  NoDup (n_work n) → (∀ w, w ∈ n_work n ↔ w = work_consume ∧ ds ≠ []) →
  (∀ n' y, pipe n' lk xs (ds ++ [y]) fs css → n_calls n' = n_calls n → collecting_kept n n' → Q tt n') →
  wp decrypt_blocks Q n.
Proof.
  intros Hinv Hc Hd Hcs Hrec (ys & Hys & Hdel) Hndw Hwk HQ.
  inversion Hd as [|l ? ls ? Hl Hls Hq]; subst. symmetry in Hq.
  apply Forall_cons_iff in Hrec as [Hx Hrec]. destruct ys as [|y ys]; [done|]. cbn in Hys.
  cbn in Hl. destruct (heap (n_mem n) !! l) as [b|] eqn:Hb; [|done]. injection Hl as Hbx.
  set (rest := ls ++ slist_items (dl_consume (n_downlink n)) ++ outside n lk).
  assert (heap_owns (n_mem n) (l :: rest)) as Hown.
  { eapply heap_owns_proper; [|exact Hinv]. by rewrite owned_queues, Hq. }
  unfold decrypt_blocks. wp_step. wp_step. wp_step. apply wp_on_mem.
  eapply wp_queue_get_cons; [exact Hq|done|]. intros q1 Hq1. rewrite set_mem_id.
  unfold modify_downlink. do 3 wp_step. apply wp_zoom.
  eapply wp_mono; [eapply (decrypt_ok (n_mem n) (n_crypto n) l rest b); [done|done|done|by rewrite Hbx]|].
  intros r [m c] (Hc' & Hm & Hk & Hs). cbn in Hc', Hm, Hk, Hs. rewrite Hbx in Hs.
  destruct (Hys _ _ Hs) as [Hr Hys']. destruct r as [e|]; [|done]. cbn in Hr.
  destruct (heap m !! e) as [be|] eqn:Hbe; [|done]. injection Hr as Hbe'.
  assert (e ∉ rest) as He by by apply owns_nodup, list.NoDup_cons in Hm as [? _].
  unfold rest in Hk, He. rewrite !elem_of_app in He.
  do 3 wp_step. apply wp_on_mem. eapply wp_queue_submit; [exact Hbe|cbn; tauto|].
  intros q2 Hq2. cbn in Hq2. rewrite set_mem_id. unfold k_work_submit. do 6 wp_step.
  assert (holds m (slist_items q1) xs) as Hh1.
  { rewrite Hq1. eapply holds_kept; [|done]. intros k Hin. apply Hk. rewrite !elem_of_app. tauto. }
  assert (holds m (slist_items q2) (ds ++ [y])) as Hh2.
  { rewrite Hq2. apply holds_app; [|constructor; [cbn; rewrite Hbe; cbn; by rewrite Hbe'|constructor]].
    eapply holds_kept; [|done]. intros k Hin. apply Hk. rewrite !elem_of_app. tauto. }
  assert (∀ n', moved n n' m c q1 q2 (n_calls n) →
    (n_work n' = if bool_decide (xs = []) then add_work work_consume (n_work n)
     else add_work work_decrypt (add_work work_consume (n_work n))) → Q tt n') as Hfin.
  { intros n' Hmv Ew. apply (HQ n' y); [|apply Hmv|].
    - eapply moved_pipe; try done.
      + unfold rest. rewrite Hq1, Hq2. solve_Permutation.
      + exists ys. by rewrite <- app_assoc.
      + rewrite Ew. case_bool_decide; by repeat apply add_work_nodup.
      + intros w. rewrite Ew. assert (ds ++ [y] ≠ []) by by destruct ds.
        case_bool_decide; rewrite !elem_of_add_work, Hwk; naive_solver.
    - eapply (moved_kept n n' lk); [exact Hmv|]. intros k Hin. apply Hk. rewrite !elem_of_app. tauto. }
  rewrite (holds_empty m _ xs) by done. case_bool_decide; cbn; wp_steps; by apply Hfin.
Qed.

(** One run of [consume_blocks]. *)
Lemma wp_consume_step n lk xs d ds fs css Q :
  node_inv n lk → crypto_ok (n_crypto n) →
  holds (n_mem n) (slist_items (dl_decrypt (n_downlink n))) xs →
  holds (n_mem n) (slist_items (dl_consume (n_downlink n))) (d :: ds) →
  Forall received_block xs →
  (∃ ys, decrypts (n_crypto n) (xs ++ fs) ys ∧ Forall2 delivers ((d :: ds) ++ ys) css) →
  NoDup (n_work n) → (∀ w, w ∈ n_work n ↔ w = work_decrypt ∧ xs ≠ []) →
  (∀ n' cs css', css = cs :: css' → pipe n' lk xs ds fs css' → n_calls n' = n_calls n ++ cs →
    collecting_kept n n' → Q tt n') →
  wp consume_blocks Q n.
Proof.
  intros Hinv Hc Hd Hcs Hrec (ys & Hys & Hdel) Hndw Hwk HQ.
  inversion Hcs as [|l ? ls ? Hl Hls Hq]; subst. symmetry in Hq.
  inversion Hdel as [|? cs ? css' Hdel1 Hdel2]; subst.
  cbn in Hl. destruct (heap (n_mem n) !! l) as [b|] eqn:Hb; [|done]. injection Hl as Hbx.
  pose proof (owns_wf _ _ Hinv l b Hb) as Hwf.
  set (rest := slist_items (dl_decrypt (n_downlink n)) ++ ls ++ outside n lk).
  assert (heap_owns (n_mem n) (l :: rest)) as Hown.
  { eapply heap_owns_proper; [|exact Hinv]. rewrite owned_queues, Hq. unfold rest. solve_Permutation. }
  unfold consume_blocks. wp_step. wp_step. wp_step. apply wp_on_mem.
  eapply wp_queue_get_cons; [exact Hq|done|]. intros q1 Hq1. rewrite set_mem_id.
  unfold modify_downlink. do 3 wp_step. eapply (Hdel1 _ l b); [exact Hb|done|done|].
  wp_step. apply wp_on_mem. eapply wp_free_owned; [exact Hown|]. intros m Hm _ Hk.
  assert (∀ k, k ∈ rest → heap m !! k = heap (n_mem n) !! k) as Hkept.
  { intros k Hin. apply Hk. intros ->. apply owns_nodup in Hown. by apply list.NoDup_cons in Hown as [? _]. }
  unfold rest in Hkept. do 2 wp_step.
  assert (holds m (slist_items (dl_decrypt (n_downlink n))) xs ∧ holds m (slist_items q1) ds) as [Hh1 Hh2].
  { rewrite Hq1. split; (eapply holds_kept; [|done]); intros k Hin; apply Hkept; rewrite !elem_of_app; tauto. }
  assert (∀ n', moved n n' m (n_crypto n) (dl_decrypt (n_downlink n)) q1 (n_calls n ++ cs) →
    (n_work n' = if bool_decide (ds = []) then n_work n else add_work work_consume (n_work n)) → Q tt n') as Hfin.
  { intros n' Hmv Ew. apply (HQ n' cs css'); [done| |apply Hmv|].
    - eapply moved_pipe; try done.
      + unfold rest. by rewrite Hq1.
      + by exists ys.
      + rewrite Ew. case_bool_decide; [done|by apply add_work_nodup].
      + intros w. rewrite Ew. case_bool_decide; rewrite ?elem_of_add_work, Hwk; naive_solver.
    - eapply (moved_kept n n' lk); [exact Hmv|]. intros k Hin. apply Hkept. rewrite !elem_of_app. tauto. }
  rewrite (holds_empty m _ ds) by done.
  case_bool_decide; cbn; unfold k_work_submit; wp_steps; by apply Hfin.
Qed.

(** A step of the pipeline does one thing to one block. *)
Definition pipe_next n lk xs ds fs css n' : Prop :=
  ∃ xs' ds' css' cs, pipe n' lk xs' ds' fs css' ∧ css = cs ++ css' ∧ collecting_kept n n' ∧
    n_calls n' = n_calls n ++ concat cs ∧ (pipe_size xs' ds' < pipe_size xs ds)%nat.

Lemma wp_pipe_item n lk xs ds fs css w ws1 ws2 :
  pipe n lk xs ds fs css → n_work n = ws1 ++ w :: ws2 →
  wp (run_item w) (λ _ n', pipe_next n lk xs ds fs css n') (set_work (ws1 ++ ws2) n).
Proof.
  intros [Hinv Hc Hd Hcs Hrec Hop Hndw Hit] Hw.
  destruct (work_removed w (n_work n) ws1 ws2 Hndw Hw) as [Hnd' Hin].
  assert (w ∈ n_work n) as Hww by (rewrite Hw; set_solver).
  apply Hit in Hww as [[-> Hne]|[-> Hne]]; cbn [run_item].
  - destruct xs as [|x xs]; [done|]. eapply (wp_decrypt_step _ lk x xs ds fs css); try done.
    { intros w. cbn [n_work set_work]. rewrite Hin, Hit. naive_solver. }
    intros n' y Hp Hca Hk. exists xs, (ds ++ [y]), css, []. split_and!; [done|done|by destruct Hk|by rewrite app_nil_r|].
    unfold pipe_size. rewrite length_app. cbn. lia.
  - destruct ds as [|d ds]; [done|]. eapply (wp_consume_step _ lk xs d ds fs css); try done.
    { intros w. cbn [n_work set_work]. rewrite Hin, Hit. naive_solver. }
    intros n' cs css' -> Hp Hca Hk. exists xs, ds, css', [cs].
    split_and!; [done|done|by destruct Hk|cbn; by rewrite app_nil_r|]. unfold pipe_size. cbn. lia.
Qed.

Lemma pipe_step n n' lk xs ds fs css :
  pipe n lk xs ds fs css → work_step n n' → pipe_next n lk xs ds fs css n'.
Proof.
  intros Hp Hs. inversion Hs as [w ws1 ws2 ? ? Hw Hrun]; subst.
  pose proof (wp_pipe_item n lk xs ds fs css w ws1 ws2 Hp Hw) as H. unfold wp in H. by rewrite Hrun in H.
Qed.

(** A pending work item can run. *)
Lemma pipe_progress n lk xs ds fs css : pipe n lk xs ds fs css → n_work n ≠ [] → ∃ n', work_step n n'.
Proof.
  intros Hp Hne. destruct (n_work n) as [|w ws] eqn:Hw; [done|].
  pose proof (wp_pipe_item n lk xs ds fs css w [] ws Hp Hw) as Hi.
  apply wp_inv in Hi as ([] & n' & Hrun & _). exists n'. by eapply (run_work w [] ws).
Qed.

Lemma pipe_steps n n' lk xs ds fs css k :
  pipe n lk xs ds fs css → nsteps work_step k n n' →
  ∃ xs' ds' css' cs, pipe n' lk xs' ds' fs css' ∧ css = cs ++ css' ∧
    n_calls n' = n_calls n ++ concat cs ∧ (k + pipe_size xs' ds' ≤ pipe_size xs ds)%nat.
Proof.
  intros Hp Hs. revert xs ds css Hp. induction Hs as [n|k n1 n2 n3 Hs1 Hs IH]; intros xs ds css Hp.
  - exists xs, ds, css, []. split_and!; [done|done|by rewrite app_nil_r|lia].
  - destruct (pipe_step _ _ _ _ _ _ _ Hp Hs1) as (xs1 & ds1 & css1 & cs1 & Hp1 & -> & _ & Hca1 & Hlt).
    destruct (IH _ _ _ Hp1) as (xs' & ds' & css' & cs & Hp' & -> & Hca & Hle).
    exists xs', ds', css', (cs1 ++ cs). split_and!; [done|by rewrite app_assoc| |lia].
    by rewrite Hca, Hca1, concat_app, app_assoc.
Qed.

(** Without work the queues are empty; then nothing is to come if nothing is to be received. *)
Lemma pipe_empty n lk xs ds fs css : pipe n lk xs ds fs css → n_work n = [] → xs = [] ∧ ds = [].
Proof.
  intros [_ _ _ _ _ _ _ Hit] Hw. split.
  - destruct (decide (xs = [])); [done|]. assert (work_decrypt ∈ n_work n) as H by (apply Hit; auto).
    rewrite Hw in H. by apply elem_of_nil in H.
  - destruct (decide (ds = [])); [done|]. assert (work_consume ∈ n_work n) as H by (apply Hit; auto).
    rewrite Hw in H. by apply elem_of_nil in H.
Qed.

Lemma pipe_idle n lk xs ds css : pipe n lk xs ds [] css → n_work n = [] → css = [].
Proof.
  intros Hp Hw. destruct (pipe_empty _ _ _ _ _ _ Hp Hw) as [-> ->].
  destruct (pi_opens _ _ _ _ _ _ Hp) as (ys & Hys & Hdel). destruct ys; [|done]. by inversion Hdel.
Qed.

(** Blocks queued for decryption are delivered by the work items whatever the
    order in which they run: every pending item can run, the calls made so far
    are always those of the first blocks, in order and each once, no more than
    two runs per block are needed, and when no item is pending all was
    delivered. *)
Lemma pipe_run n n' lk xs ds css k :
  pipe n lk xs ds [] css → nsteps work_step k n n' →
  (k ≤ pipe_size xs ds)%nat ∧
  (∃ cs css', css = cs ++ css' ∧ n_calls n' = n_calls n ++ concat cs) ∧
  (n_work n' = [] → n_calls n' = n_calls n ++ concat css) ∧
  (n_work n' ≠ [] → ∃ n'', work_step n' n'').
Proof.
  intros Hp Hs. destruct (pipe_steps _ _ _ _ _ _ _ _ Hp Hs) as (xs' & ds' & css' & cs & Hp' & -> & Hca & Hle).
  split_and!; [lia|by exists cs, css'| |by eapply pipe_progress].
  intros Hw. by rewrite (pipe_idle _ _ _ _ _ Hp' Hw), app_nil_r.
Qed.

(** A finished block of entries is delivered as calls for its entries. *)
Lemma entries_deliver es :
  Forall wf_entry es → zlen (entries_bytes es) ≤ MAX_BLOCK_PAYLOAD_SIZE →
  delivers (block_bytes BLOCK_ID_ENTRY true true (entries_bytes es)) (concat (map entry_calls es)).
Proof.
  intros Hwf Hsz n l b Q Hl Hb Hco HQ. pose proof max_payload_range.
  eapply (wp_entry_block_push n l b es); [done|done|done|lia|done|done].
Qed.

End delivery.

(** The plaintext module opens every block as it is. *)
Lemma decrypts_plain `{Cfg : Config} {COk : ConfigOk Cfg} `{Zk : Zephyr} {ZS : ZephyrSpec Zk} P c xs :
  decrypts (CS := crypto_none_spec_where P) c xs xs.
Proof. induction xs as [|x xs IH]; [done|]. intros r c' [-> ->]. done. Qed.

Section pouch_witnesses.
#[local] Existing Instances small_config small_config_ok zephyr_ref zephyr_ref_spec
  malloc_always crypto_none crypto_none_spec one_handler.

Definition six_events : list pouch_event :=
  [POUCH_EVENT_SESSION_START; POUCH_EVENT_SESSION_END; POUCH_EVENT_SESSION_START;
   POUCH_EVENT_SESSION_END; POUCH_EVENT_SESSION_START; POUCH_EVENT_SESSION_END].

Lemma events_delivered_witness :
  wp (emit_all six_events;; dispatch_events) (λ _ n',
    n_calls n' = n_calls node_0 ++ event_calls
      (take (Z.to_nat CONFIG_POUCH_EVENT_QUEUE_DEPTH) (msgq_items (n_events node_0) ++ six_events)) ∧
    msgq_items (n_events n') = [] ∧
    (six_events ≠ [] → work_event ∈ n_work n') ∧ n_mem n' = n_mem node_0) node_0.
Proof. by apply (events_delivered six_events node_0). Defined.

(** Two blocks of one entry each wait for decryption. *)
Definition entry_a : entry := mk_app_entry [46] 50 [7; 8].
Definition entry_b : entry := mk_app_entry [47] 60 [9].

Definition node_p_bufs : list pouch_buf := [
  mk_buf 11 [0; 9; 192; 0; 2; 0; 50; 1; 46; 7; 8]; mk_buf 10 [0; 8; 192; 0; 1; 0; 60; 1; 47; 9]].

Definition node_p : node := mk_node (list_mem node_p_bufs)
  (n_uplink node_0) NULL init_streams (mk_downlink NULL true [0%nat; 1%nat] [])
  (Some [97]) [work_decrypt] (k_msgq_define 4) [].

Definition blocks_p : list (list Z) :=
  [block_bytes BLOCK_ID_ENTRY true true (entries_bytes [entry_a]);
   block_bytes BLOCK_ID_ENTRY true true (entries_bytes [entry_b])].

Definition calls_p : list (list callback) :=
  [concat (map entry_calls [entry_a]); concat (map entry_calls [entry_b])].

Lemma node_p_pipe : pipe node_p [] blocks_p [] [] calls_p.
Proof.
  split.
  - unfold node_inv. assert (owned node_p ++ [] = seq 0 2) as -> by by vm_compute.
    apply (list_mem_owns node_p_bufs); [|done]. repeat constructor; cbn; try done; solve_bytes.
  - by eexists.
  - repeat constructor; by vm_compute.
  - constructor.
  - repeat constructor; [exists 9, [192; 0; 2; 0; 50; 1; 46; 7; 8]|exists 8, [192; 0; 1; 0; 60; 1; 47; 9]]; by split_and!.
  - exists blocks_p. split; [apply decrypts_plain|].
    repeat constructor; apply entries_deliver; try done; repeat constructor; try done; cbn; solve_bytes.
  - apply NoDup_singleton.
  - intros w. cbn. rewrite list_elem_of_singleton. naive_solver.
Qed.

Example pipe_run_there :
  (1 ≤ pipe_size blocks_p [])%nat ∧
  (∃ cs css', calls_p = cs ++ css' ∧ n_calls (run_first node_p) = n_calls node_p ++ concat cs) ∧
  (n_work (run_first node_p) = [] → n_calls (run_first node_p) = n_calls node_p ++ concat calls_p) ∧
  (n_work (run_first node_p) ≠ [] → ∃ n'', work_step (run_first node_p) n'').
Proof.
  apply (pipe_run node_p (run_first node_p) [] blocks_p [] calls_p 1); [apply node_p_pipe|].
  apply nsteps_once. apply run_first_step; [done|done|]. eexists. by vm_compute.
Qed.
End pouch_witnesses.
