(* ===== verification/Preemption.v ===== *)
(** Closing a pouch while the work queue runs: [pouch_uplink_close] of [src/uplink.c] is
    called by a thread of the application, and the work items of the library run in the
    thread of the work queue, between any two of its calls. *)
From stdpp Require Import relations.
From S2P Require Import Prelude Zephyr Config Buf Block Header Node CryptoNone CryptoSpec.
From S2P Require Import Reference Entry Stream Uplink Session Downlink Pouch.

Section preemption.
Context `{COk : ConfigOk} `{ZS : ZephyrSpec} `{Mal : Malloc} `{Cr : Crypto} `{Hnd : Handlers}.
Implicit Types (n : node).

(** The thread makes its next call, or a pending work item runs. *)
Inductive thread_step {A} : thread node A * node → thread node A * node → Prop :=
  | thread_call {X} (m : M node X) k n x n' :
      m n = Ret x n' → thread_step (call_then m k, n) (k x, n')
  | thread_work t n n' : work_step n n' → thread_step (t, n) (t, n').

(** Running the thread alone is one of its runs. *)
Lemma run_thread_steps {A} (t : thread node A) n a n' :
  run_thread t n = Ret a n' → rtc thread_step (t, n) (returns a, n').
Proof.
  revert n. induction t as [b|X m k IH]; intros n; cbn [run_thread].
  - by intros [= -> ->].
  - cbv [mbind M_bind]. destruct (m n) as [x n1| |] eqn:Hm; [|done|done]. intros Hk.
    eapply rtc_l; [by apply thread_call|by apply IH].
Qed.

(** A step of the thread, and a run of a work item, from what is known of their programs. *)
Lemma steps_call {A X} (m : M node X) (k : X → thread node A) n t' (Q : node → Prop) :
  wp m (λ x n', ∃ n'', rtc thread_step (k x, n') (t', n'') ∧ Q n'') n →
  ∃ n'', rtc thread_step (call_then m k, n) (t', n'') ∧ Q n''.
Proof.
  intros (x & n' & Hm & n'' & Hs & HQ)%wp_inv. exists n''. split; [|done].
  eapply rtc_l; [by apply thread_call|done].
Qed.

Lemma steps_work {A} (t t' : thread node A) w ws1 ws2 n (Q : node → Prop) :
  n_work n = ws1 ++ w :: ws2 →
  wp (run_item w) (λ _ n', ∃ n'', rtc thread_step (t, n') (t', n'') ∧ Q n'') (set_work (ws1 ++ ws2) n) →
  ∃ n'', rtc thread_step (t, n) (t', n'') ∧ Q n''.
Proof.
  intros Hw ([] & n' & Hm & n'' & Hs & HQ)%wp_inv. exists n''. split; [|done].
  eapply rtc_l; [|done]. apply thread_work. by apply (run_work w ws1 ws2).
Qed.

Lemma steps_refl {A} (t : thread node A) n (Q : node → Prop) : Q n → ∃ n'', rtc thread_step (t, n) (t, n'') ∧ Q n''.
Proof. intros HQ. by exists n. Qed.
End preemption.

Section close_race.
Context `{COk : ConfigOk} `{ZS : ZephyrSpec} `{Mal : Malloc} `{Cr : Crypto} {CS : CryptoSpec Cr} `{Hnd : Handlers}.
Context `{HC : HeaderCodecSpec}.
Implicit Types (n : node).

(** The node once the pouch is marked as closing. *)
Definition closing_node n : node :=
  set_uplink (up_set_flags (Z.setbit (up_flags (n_uplink n)) POUCH_CLOSING) (n_uplink n)) n.

Lemma closing_node_flags n :
  can_process (n_uplink n) = true →
  can_process (n_uplink (closing_node n)) = true ∧ pouch_is_closing (n_uplink (closing_node n)) = true.
Proof.
  unfold can_process. rewrite !session_is_active_bit, !pouch_is_open_bit, pouch_is_closing_bit.
  unfold closing_node. cbn -[Z.testbit Z.setbit]. rewrite !Z.setbit_neq by done. intros ->. split; [done|].
  unfold POUCH_CLOSING. by rewrite Z.setbit_eq.
Qed.

Lemma can_process_closing (u : pouch_uplink) f :
  up_flags u = Z.setbit f POUCH_CLOSING → Z.testbit f SESSION_ACTIVE = true → Z.testbit f POUCH_CLOSED = false →
  can_process u = true.
Proof.
  intros Hf Ha Hc. unfold can_process. rewrite session_is_active_bit, pouch_is_open_bit, Hf.
  by rewrite !Z.setbit_neq, Ha, Hc by done.
Qed.

Lemma close_alone n lk es xs :
  uplink_ok n lk → entry_rep n (Some es) →
  can_process (n_uplink n) = true → pouch_is_closing (n_uplink n) = false →
  holds (n_mem n) (slist_items (up_processing (n_uplink n))) xs →
  wp (pouch_uplink_close success) (λ r n', r = success ∧
    rtc thread_step (close_thread success, n) (returns success, n') ∧
    can_process (n_uplink n') = true ∧ work_process ∈ n_work n' ∧ n_entry n' = NULL ∧
    holds (n_mem n') (slist_items (up_processing (n_uplink n')))
      (xs ++ [block_bytes BLOCK_ID_ENTRY true true (entries_bytes es)])) n.
Proof.
  intros Hok Hrep Hcan Hncl Hxs. pose proof (wp_uplink_close n lk (Some es) xs Hok Hrep Hncl Hxs) as Hw.
  apply wp_inv in Hw as (r & n' & Hrun & -> & _ & _ & He & Hfl & Hh & Hp).
  eapply wp_eq; [exact Hrun|]. split_and!; [done|by apply run_thread_steps| |done|done|done].
  unfold can_process in Hcan. rewrite session_is_active_bit, pouch_is_open_bit in Hcan.
  apply andb_true_iff in Hcan as [Ha Hc]. eapply can_process_closing; [exact Hfl|done|by apply negb_true_iff].
Qed.

(** C39: [pouch_uplink_close] may report success and yet leave entries out of the pouch.
    Called on an open pouch with open entries while the processing work item is pending,
    and left alone until it returns, it queues the block of these entries, with the work
    item pending that will take it into the pouch. But its calls and the runs of the work
    queue can also come in an order such that the close returns 0 and the pouch is closed
    without these entries: their block stays in the processing queue, where the work item
    leaves it, and what the transport has to send is what was queued before. *)
Theorem close_race n lk es xs ws1 ws2 :
  uplink_ok n lk → entry_rep n (Some es) →
  can_process (n_uplink n) = true → pouch_is_closing (n_uplink n) = false →
  holds (n_mem n) (slist_items (up_processing (n_uplink n))) xs →
  n_work n = ws1 ++ work_process :: ws2 →
  wp (pouch_uplink_close success) (λ r n', r = success ∧
    rtc thread_step (close_thread success, n) (returns success, n') ∧
    can_process (n_uplink n') = true ∧ work_process ∈ n_work n' ∧ n_entry n' = NULL ∧
    holds (n_mem n') (slist_items (up_processing (n_uplink n')))
      (xs ++ [block_bytes BLOCK_ID_ENTRY true true (entries_bytes es)])) n ∧
  ∃ n', rtc thread_step (close_thread success, n) (returns success, n') ∧
    node_inv n' lk ∧ pouch_is_open (n_uplink n') = false ∧ n_entry n' = NULL ∧
    (∃ l, slist_items (up_processing (n_uplink n')) = [l] ∧
      ptr_contents (n_mem n') (Some l) = Some (block_bytes BLOCK_ID_ENTRY true true (entries_bytes es))) ∧
    ∃ n1 ys, processed (set_work (ws1 ++ ws2) (closing_node n)) lk xs n1 ys ∧
      up_transport (n_uplink n') = up_transport (n_uplink n1).
Proof.
  intros Hok Hrep Hcan Hncl Hxs Hw. split; [by apply (close_alone n lk es xs)|].
  destruct (closing_node_flags n Hcan) as [Hcan0 Hcl].
  rewrite pouch_is_closing_bit in Hncl, Hcl. apply steps_call.
  unfold uplink_test_and_set_bit, uplink_set_bit, modify_uplink. do 5 wp_step.
  rewrite atomic_test_bit_spec, Hncl, atomic_set_bit_spec by done. fold (closing_node n).
  eapply (steps_work _ _ work_process ws1 ws2); [done|]. cbn [run_item]. set (n0 := set_work _ _).
  eapply wp_mono; [apply (wp_process_blocks n0 lk xs); try done; by destruct Hok|].
  intros [] n1' (n1 & ys & Hpr & Hn1). rewrite pouch_is_closing_bit in Hn1.
  change (up_flags (n_uplink n0)) with (up_flags (n_uplink (closing_node n))) in Hn1. rewrite Hcl in Hn1.
  pose proof Hpr as [Hfr _ Hq _ _ _ Hk Hinv1 _].
  assert (node_inv n1' lk) as Hinv1' by by rewrite Hn1.
  assert (entry_rep n1' (Some es)) as Hrep1.
  { destruct Hrep as (Hsz & l & b & He & Hb & Hob). split; [done|]. exists l, b. rewrite Hn1. cbn.
    rewrite (pf_entry _ _ Hfr). split_and!; [done| |done]. rewrite Hk; [done|].
    unfold owned_rest. cbn. rewrite He. set_solver. }
  apply steps_call. eapply wp_mono; [by apply (wp_entry_close n1' lk (Some es))|].
  intros r n2 (-> & He2 & (l & Hl & (_ & b & Hb & Hco) & _) & [_ _ _ _ _ [q Hu] _] & Hinv2).
  apply steps_call. unfold k_work_submit. wp_step.
  cbn [n_work]. set (n3 := set_work _ n2).
  assert (work_process ∈ n_work n3) as Hp by apply add_work_in.
  apply list_elem_of_split in Hp as (w1 & w2 & Hp).
  eapply (steps_work _ _ work_process w1 w2); [exact Hp|]. cbn [run_item]. set (n4 := set_work _ n3).
  assert (up_flags (n_uplink n4) = Z.setbit (up_flags (n_uplink (closing_node n))) POUCH_CLOSED) as Hfl.
  { cbn. by rewrite Hu, Hn1. }
  assert (Z.testbit (up_flags (n_uplink n4)) POUCH_CLOSED = true) as Hcd.
  { rewrite Hfl. unfold POUCH_CLOSED. by rewrite Z.setbit_eq. }
  apply wp_process_idle; [unfold can_process; rewrite pouch_is_open_bit, Hcd; by rewrite andb_false_r|].
  rewrite pouch_is_closing_bit, Hfl, Z.setbit_neq, Hcl by done. rewrite <- Hfl, set_bit_id by done.
  apply steps_refl. split_and!; [done|by rewrite pouch_is_open_bit, Hcd|done| |].
  - exists l. cbn. rewrite Hl, Hn1. cbn. rewrite Hq. split; [done|]. by rewrite Hb, <- Hco.
  - exists n1, ys. split; [done|]. cbn. by rewrite Hu, Hn1.
Qed.
End close_race.

Section preemption_witnesses.
#[local] Existing Instances small_config small_config_ok zephyr_ref zephyr_ref_spec
  malloc_always crypto_none crypto_none_spec one_handler plain_codec plain_codec_spec.

(** A node in a session, with a block that waits, the work item for it, and an open
    entry. *)
Definition node_r : node := set_work [work_process] (set_uplink (up_set_flags 1 (n_uplink node_i)) node_i).

Lemma close_race_witness :
  wp (pouch_uplink_close success) (λ r n', r = success ∧
    rtc thread_step (close_thread success, node_r) (returns success, n') ∧
    can_process (n_uplink n') = true ∧ work_process ∈ n_work n' ∧ n_entry n' = NULL ∧
    holds (n_mem n') (slist_items (up_processing (n_uplink n')))
      ([[0; 4; 192; 1; 2; 3]] ++ [block_bytes BLOCK_ID_ENTRY true true (entries_bytes [mk_app_entry [46] 50 [7; 8]])])) node_r ∧
  ∃ n',
  rtc thread_step (close_thread success, node_r) (returns success, n') ∧
  node_inv n' [] ∧ pouch_is_open (n_uplink n') = false ∧ n_entry n' = NULL ∧
  (∃ l, slist_items (up_processing (n_uplink n')) = [l] ∧
    ptr_contents (n_mem n') (Some l) =
      Some (block_bytes BLOCK_ID_ENTRY true true (entries_bytes [mk_app_entry [46] 50 [7; 8]]))) ∧
  ∃ n1 ys, processed (set_work ([] ++ []) (closing_node node_r)) [] [[0; 4; 192; 1; 2; 3]] n1 ys ∧
    up_transport (n_uplink n') = up_transport (n_uplink n1).
Proof.
  apply (close_race node_r [] [mk_app_entry [46] 50 [7; 8]] [[0; 4; 192; 1; 2; 3]] [] []);
    [destruct node_i_ok; by split|apply node_i_rep|done|done|apply node_i_holds|done].
Defined.
End preemption_witnesses.
