(* ===== verification/Receive.v ===== *)
(** A node that receives a pouch, whatever its crypto module: from the bytes pushed
    ([src/downlink.c]) through the work items to the calls of the application, for
    pouches of blocks of entries ([src/entry.c]) and of streams ([src/stream.c]). *)
From stdpp Require Import relations.
From S2P Require Import Prelude Zephyr Config Buf Block Header Node CryptoNone CryptoSpec.
From S2P Require Import Reference Entry Stream Uplink Downlink Pouch.

(** ** The blocks of a pouch *)

Section blocks.
Context `{COk : ConfigOk} `{ZS : ZephyrSpec} `{Mal : Malloc} `{Cr : Crypto} `{Hnd : Handlers}.

Lemma block_sized id first last payload :
  0 ≤ id < 32 → zlen payload ≤ MAX_BLOCK_PAYLOAD_SIZE →
  Forall is_byte (block_bytes id first last payload) → sized_block (block_bytes id first last payload).
Proof.
  intros Hid Hsz Hb. exists (1 + zlen payload), (block_id_byte id first last :: payload).
  pose proof (zlen_nonneg payload). pose proof auth_tag_range.
  split_and!; [done|by rewrite zlen_cons|lia| |].
  - unfold MAX_BLOCK_SIZE_FIELD_VALUE, MAX_CIPHERTEXT_BLOCK_SIZE, MAX_PLAINTEXT_BLOCK_SIZE,
      BLOCK_HEADER_SIZE. lia.
  - unfold block_bytes in Hb. by apply Forall_app in Hb as [_ ?].
Qed.

(** A block that holds the entries [es]. *)
Definition entry_block es : list Z := block_bytes BLOCK_ID_ENTRY true true (entries_bytes es).

(** The blocks of a stream with the pieces [d :: ds]; [start] for the first block. *)
Fixpoint stream_from (id : Z) (start : option (list Z * Z)) (d : list Z) (ds : list (list Z)) : list (list Z) :=
  block_bytes id (bool_decide (is_Some start)) (bool_decide (ds = [])) (stream_payload start d) ::
  match ds with [] => [] | d :: ds => stream_from id None d ds end.

Definition stream_pouch (id : Z) (path : list Z) (ct : Z) (ds : list (list Z)) : list (list Z) :=
  match ds with [] => [] | d :: ds => stream_from id (Some (path, ct)) d ds end.

(** The payloads fit in blocks. *)
Definition stream_fits (path : list Z) (ds : list (list Z)) : Prop :=
  zlen path < 256 ∧ 3 + zlen path + zlen (hd [] ds) ≤ MAX_BLOCK_PAYLOAD_SIZE ∧
  Forall (λ d, zlen d ≤ MAX_BLOCK_PAYLOAD_SIZE) ds.

Lemma stream_block_delivers id start d last :
  0 < id < 32 → wf_start start → zlen (stream_payload start d) ≤ MAX_BLOCK_PAYLOAD_SIZE →
  delivers (block_bytes id (bool_decide (is_Some start)) last (stream_payload start d)) (stream_calls id start d last).
Proof. intros Hid Hst Hsz n l b Q Hb Hwf Hco HQ. by apply (wp_finished_push n l b id start d last). Qed.

Lemma stream_from_delivers id start d ds :
  0 < id < 32 → wf_start start → zlen (stream_payload start d) ≤ MAX_BLOCK_PAYLOAD_SIZE →
  Forall (λ d, zlen d ≤ MAX_BLOCK_PAYLOAD_SIZE) ds →
  ∃ css, Forall2 delivers (stream_from id start d ds) css ∧
    concat css = match start with
      | Some (path, ct) => map (λ h, start_cb h id path ct) pouch_downlink_handlers
      | None => []
      end ++ stream_data_calls id (d :: ds).
Proof.
  intros Hid Hst Hsz Hds. revert start d Hst Hsz.
  induction Hds as [|d' ds Hd' _ IH]; intros start d Hst Hsz.
  - exists [stream_calls id start d true]. split; [by repeat constructor; apply stream_block_delivers|].
    cbn. by rewrite !app_nil_r.
  - destruct (IH None d') as (css & Hdel & Hcss); [done|done|].
    exists (stream_calls id start d false :: css). split.
    + constructor; [by apply stream_block_delivers|done].
    + cbn [concat]. rewrite Hcss. unfold stream_calls. by rewrite <- app_assoc.
Qed.

Lemma stream_pouch_delivers id path ct ds :
  0 < id < 32 → 0 ≤ ct < 65536 → stream_fits path ds → ds ≠ [] →
  ∃ css, Forall2 delivers (stream_pouch id path ct ds) css ∧
    concat css = map (λ h, start_cb h id path ct) pouch_downlink_handlers ++ stream_data_calls id ds.
Proof.
  intros Hid Hct (Hp & Hsz & Hds) Hne. destruct ds as [|d ds]; [done|]. apply Forall_cons_iff in Hds as [_ Hds].
  apply (stream_from_delivers id (Some (path, ct)) d ds); [done|done| |done].
  cbn [stream_payload hd] in *. pose proof (zlen_nonneg path). pose proof (zlen_nonneg d).
  rewrite zlen_app, be16_zlen, zlen_cons, zlen_app by lia. lia.
Qed.
End blocks.

(** ** Receiving

    The transport pushes pieces of a pouch while the work queue handles the blocks that
    are complete: pushes and work items come in any order. *)

Section receiving.
Context `{COk : ConfigOk} `{ZS : ZephyrSpec} `{Mal : Malloc} `{Cr : Crypto} `{Hnd : Handlers} `{Co : HeaderCodec}.

(** The pieces still to be pushed, and the node: the next piece is pushed, or a pending
    work item runs. Pushing goes on as long as there is memory to collect a block. *)
Inductive rx_step : list (list Z) * node → list (list Z) * node → Prop :=
  | rx_push c cs n n' : pouch_downlink_push c n = Ret tt n' → ¬ collect_failed n' → rx_step (c :: cs, n) (cs, n')
  | rx_work cs n n' : work_step n n' → rx_step (cs, n) (cs, n').

(** The work queue, with nothing pushed in between, in the order of submission. *)
Fixpoint run_pending (fuel : nat) : M node unit :=
  match fuel with
  | O => nofuel
  | S fuel =>
      n ← get;
      match n_work n with
      | [] => mret tt
      | w :: ws => modify (set_work ws);; run_item w;; run_pending fuel
      end
  end.

Lemma run_pending_steps fuel cs n n' :
  run_pending fuel n = Ret tt n' → rtc rx_step (cs, n) (cs, n') ∧ n_work n' = [].
Proof.
  revert n. induction fuel as [|fuel IH]; intros n; [done|]. cbn [run_pending]. unfold mbind, M_bind. cbn.
  destruct (n_work n) as [|w ws] eqn:Hw; [by intros [= <-]|]. unfold mbind, M_bind. cbn.
  destruct (run_item w (set_work ws n)) as [[] n1| |] eqn:Hi; [|done..]. intros Hr.
  destruct (IH n1 Hr) as [Hs ?]. split; [|done]. eapply rtc_l; [|exact Hs].
  apply rx_work. by eapply (run_work w [] ws).
Qed.

Lemma push_chunks_steps chunks n n' :
  (∀ k, malloc_bytes k MAX_CIPHERTEXT_BLOCK_SIZE ≠ None) →
  push_chunks chunks n = Ret tt n' → rtc rx_step (chunks, n) ([], n').
Proof.
  intros Hmem. revert n. induction chunks as [|c cs IH]; intros n; cbn [push_chunks foldr].
  - intros [= <-]. apply rtc_refl.
  - unfold mbind, M_bind. destruct (pouch_downlink_push c n) as [[] n1| |] eqn:Hp; [|done..]. intros Hr.
    eapply rtc_l; [|by apply IH]. apply rx_push; [done|]. intros [_ [k Hk]]. by eapply Hmem.
Qed.

Context {HC : HeaderCodecSpec Co} {CS : CryptoSpec Cr}.
Implicit Types (n : node).

(** A node that is not receiving anything. *)
Record receiver n : Prop := {
  rc_decrypt : slist_items (dl_decrypt (n_downlink n)) = [];
  rc_consume : slist_items (dl_consume (n_downlink n)) = [];
  rc_work : n_work n = [];
  rc_crypto : crypto_ok (n_crypto n);
}.

Definition ready n : Prop := receiver n ∧ ∃ lk, node_inv n lk.

(** From node [n], where [chunks] are to be pushed, the application gets the calls [css], in
    order and each once: whatever the order of pushes and work items, no more than [size]
    of them run, each can be done while it is due, the calls made so far are the first of
    [css], and all of them when everything is done; then the node is ready for the next
    pouch. [calls] were made before. (The end of the pouch, [pouch_downlink_finish], does
    nothing.) *)
Definition delivers_all (calls : list callback) (size : nat) (css : list (list callback)) (chunks : list (list Z)) (n : node) : Prop :=
  ∀ k cs n', nsteps rx_step k (chunks, n) (cs, n') →
    (k ≤ size)%nat ∧
    (∀ c cs', cs = c :: cs' → ∃ n'', pouch_downlink_push c n' = Ret tt n'') ∧
    (n_work n' ≠ [] → ∃ n'', work_step n' n'') ∧
    (∃ made rest, css = made ++ rest ∧ n_calls n' = calls ++ concat made) ∧
    (cs = [] → n_work n' = [] → n_calls n' = calls ++ concat css ∧ ready n').

(** The pieces that a pouch is pushed in; of a pouch without blocks nothing may be sent. *)
Record pushable (enc : list Z) (blocks chunks : list (list Z)) : Prop := {
  pb_bytes : concat chunks = enc ++ concat blocks ∨ concat chunks = [] ∧ blocks = [];
  pb_blocks : Forall sized_block blocks;
  pb_short : ∀ c x, c ∈ chunks → x ∈ blocks → zlen c ≤ zlen x;
  pb_fit : ∀ c, c ∈ chunks → zlen enc + zlen c ≤ MAX_CIPHERTEXT_BLOCK_SIZE;
}.

(** *** Once the header is known *)

(** The collecting buffer holds [acc], and the pieces [cs] bring the blocks [fs]. *)
Record collecting n lk (acc : list Z) (xs ds fs : list (list Z)) (css : list (list callback)) (cs : list (list Z)) : Prop := {
  co_pipe : pipe n lk xs ds fs css;
  co_pending : pending n acc;
  co_header : dl_pouch_header (n_downlink n) = true;
  co_wait : cut acc = cut_wait;
  co_rest : acc ++ concat cs = concat fs;
  co_bytes : Forall (Forall is_byte) cs;
  co_blocks : Forall sized_block fs;
  co_short : ∀ c x, c ∈ cs → x ∈ fs → zlen c ≤ zlen x;
}.

Lemma queued_not_pouch n lk l k :
  node_inv n lk → dl_pouch_buf (n_downlink n) = Some l →
  k ∈ slist_items (dl_decrypt (n_downlink n)) ++ slist_items (dl_consume (n_downlink n)) → k ≠ l.
Proof.
  intros Hinv Hp Hk ->. pose proof (owns_nodup _ _ Hinv) as Hdup. rewrite owned_queues in Hdup. unfold outside in Hdup. rewrite Hp in Hdup.
  apply list_elem_of_split in Hk as (l1 & l2 & Hs). rewrite app_assoc, Hs in Hdup.
  rewrite <- app_assoc in Hdup. apply list.NoDup_app in Hdup as (_ & _ & Hdup).
  cbn in Hdup. apply list.NoDup_cons in Hdup as [Hdup _]. apply Hdup. set_solver.
Qed.

(** Blocks sent off are at the end of the line. *)
Lemma push_done_pipe n n' lk acc xs ds b1 b2 css p :
  pipe n lk xs ds (b1 ++ b2) css → pending n acc → push_done n lk b1 p n' → Forall sized_block b1 →
  collect_failed n' ∨ pipe n' lk (xs ++ b1) ds b2 css ∧ pending n' p ∧ n_calls n' = n_calls n ∧
    dl_pouch_header (n_downlink n') = dl_pouch_header (n_downlink n).
Proof.
  intros [Hinv Hc Hd Hcs Hrec (ys & Hys & Hdel) Hndw Hit] (l & b & Hp & _)
    (ls & [[Hu He Hs Hev Hca Hco Hde Hwk Hkept] Hinv' Hc' Hhd Hpo] & _ & Hres) Hb1.
  destruct Hres as [|[Hh Hpe]]; [by left|right]. split_and!; [|done|done|done].
  assert (∀ zs ls0, holds (n_mem n) ls0 zs →
    (∀ k, k ∈ ls0 → k ∈ slist_items (dl_decrypt (n_downlink n)) ++ slist_items (dl_consume (n_downlink n))) →
    holds (n_mem n') ls0 zs) as Hsame.
  { intros zs ls0 Hz Hin. eapply Forall2_impl_in; [exact Hz|]. intros k x Hk Hx. cbn in Hx |- *.
    destruct (heap (n_mem n) !! k) as [bk|] eqn:Hb; [|done]. destruct (Hkept k bk Hb) as [-> _]; [|done].
    rewrite Hp. intros [= ->]. by eapply (queued_not_pouch n lk k k Hinv Hp); [apply Hin|]. }
  pose proof (Forall2_length Hh) as Hlen. split.
  - done.
  - by rewrite Hc'.
  - rewrite Hde. apply holds_app; [|done]. apply Hsame; [done|]. intros k Hk. rewrite elem_of_app. by left.
  - rewrite Hco. apply Hsame; [done|]. intros k Hk. rewrite elem_of_app. by right.
  - apply Forall_app. split; [done|]. eapply Forall_impl; [|exact Hb1]. intros x Hx.
    rewrite <- (app_nil_r x). by apply framed_received, sized_framed.
  - exists ys. by rewrite Hc', <- app_assoc.
  - rewrite Hwk. case_decide; [done|by apply add_work_nodup].
  - intros w. rewrite Hwk. case_decide as Hls.
    + assert (b1 = []) as -> by (destruct b1; [done|by rewrite Hls in Hlen]). by rewrite app_nil_r, Hit.
    + assert (b1 ≠ []) by by destruct ls, b1. rewrite elem_of_add_work, Hit.
      assert (xs ++ b1 ≠ []) by by destruct xs. naive_solver.
Qed.

Lemma push_collecting n lk acc xs ds fs css c cs :
  collecting n lk acc xs ds fs css (c :: cs) →
  wp (pouch_downlink_push c) (λ _ n', collect_failed n' ∨ ∃ b1 b2 p, fs = b1 ++ b2 ∧
    collecting n' lk p (xs ++ b1) ds b2 css cs ∧ n_calls n' = n_calls n) n.
Proof.
  intros [Hpipe Hpe Hhd Hw Hrest Hby Hbs Hshort]. apply Forall_cons_iff in Hby as [Hc Hby].
  cbn [concat] in Hrest. rewrite app_assoc in Hrest.
  destruct (stream_prefix fs (acc ++ c) (concat cs) [] Hbs ltac:(done)) as (b1 & b2 & p & -> & Hp & Hwp & Hr).
  { by rewrite app_nil_r. }
  apply Forall_app in Hbs as [Hb1 Hb2]. rewrite app_nil_r in Hr.
  eapply wp_mono.
  { apply (wp_push_complete _ n lk acc c b1 p); try done; [apply Hpipe|lia|]. apply Forall_forall.
    intros x Hx%list_elem_of_In. apply Hshort; [by left|]. rewrite elem_of_app. by left. }
  intros [] n' Hd. destruct (push_done_pipe _ _ _ _ _ _ _ _ _ _ Hpipe Hpe Hd Hb1) as [|(Hpipe' & Hpe' & Hca & Hhd')];
    [by left|right].
  exists b1, b2, p. split_and!; [done| |done]. split; try done; [by rewrite Hhd'|].
  intros c' x Hc' Hx. apply Hshort; [by right|]. rewrite elem_of_app. by right.
Qed.

Lemma work_collecting n n' lk acc xs ds fs css cs :
  collecting n lk acc xs ds fs css cs → work_step n n' →
  ∃ xs' ds' css' made, collecting n' lk acc xs' ds' fs css' cs ∧ css = made ++ css' ∧
    n_calls n' = n_calls n ++ concat made ∧ (pipe_size xs' ds' < pipe_size xs ds)%nat.
Proof.
  intros [Hpipe (l & b & Hp & Hb & Hcap & Hco) Hhd Hw Hrest Hby Hbs Hshort] Hs.
  destruct (pipe_step _ _ _ _ _ _ _ Hpipe Hs) as (xs' & ds' & css' & made & Hpipe' & -> & [Hk1 Hk2 Hk3] & Hca & Hlt).
  exists xs', ds', css', made. split_and!; [|done|done|done]. split; try done; [|congruence].
  exists l, b. rewrite Hk1, (Hk3 l Hp). by split_and!.
Qed.

(** *** Until the header is complete *)

Context (h : pouch_header) (room : Z) (enc : list Z) (Henc : cbor_encode_pouch_header room h = Some enc).
Context (blocks ys : list (list Z)) (css : list (list callback)) (Hdel : Forall2 delivers ys css).

(** Nothing of the pouch was sent off; the header, of which [acc] has arrived, will be accepted. *)
Record awaiting n lk (acc : list Z) (cs : list (list Z)) : Prop := {
  aw_receiver : receiver n;
  aw_inv : node_inv n lk;
  aw_pending : pending n acc;
  aw_header : dl_pouch_header (n_downlink n) = false;
  aw_accepts : wp (crypto_downlink_start (hd_encryption_info h))
    (λ e c, e = success ∧ crypto_ok c ∧ decrypts c blocks ys) (n_crypto n);
  aw_part : ∃ r, enc = acc ++ r ∧ r ≠ [];
  aw_rest : acc ++ concat cs = enc ++ concat blocks ∨ concat cs = [] ∧ blocks = [];
  aw_bytes : Forall (Forall is_byte) cs;
  aw_blocks : Forall sized_block blocks;
  aw_short : ∀ c x, c ∈ cs → x ∈ blocks → zlen c ≤ zlen x;
  aw_fit : ∀ c, c ∈ cs → zlen enc + zlen c ≤ MAX_CIPHERTEXT_BLOCK_SIZE;
}.

(** The header was just taken off. *)
Lemma header_pipe n n' lk k c :
  receiver n → header_pushed n n' lk k c true → crypto_ok c → decrypts c blocks ys → pipe n' lk [] [] blocks css.
Proof.
  intros [Hd Hcs Hw _] [[_ _ _ _ _ Hco Hde Hwk _] Hinv _ Hc _] Hok Hdec. split.
  - done.
  - by rewrite Hc.
  - rewrite Hde, Hd. constructor.
  - rewrite Hco, Hcs. constructor.
  - constructor.
  - exists ys. by rewrite Hc.
  - rewrite Hwk, Hw. constructor.
  - intros w. rewrite Hwk, Hw. cbn. rewrite elem_of_nil. naive_solver.
Qed.

Lemma header_receiver n n' lk acc :
  receiver n → header_pushed n n' lk acc (n_crypto n) false → receiver n'.
Proof.
  intros [Hd Hcs Hw Hc] [[_ _ _ _ _ Hco Hde Hwk _] _ _ Hcr _]. split.
  - by rewrite Hde, Hd.
  - by rewrite Hco.
  - by rewrite Hwk.
  - by rewrite Hcr.
Qed.

(** One push: the header is still incomplete, or it is taken off, and less than a block is
    left of the piece. *)
Lemma push_header_done n lk acc c cs k :
  awaiting n lk acc (c :: cs) → c ≠ [] → acc ++ c = enc ++ k → k ++ concat cs = concat blocks →
  wp (pouch_downlink_push c) (λ _ n', n_calls n' = n_calls n ∧ collecting n' lk k [] [] blocks css cs) n.
Proof.
  intros [Hn Hinv Hpe Hhd Hacc (r & Hr & Hne) _ Hby Hbs Hshort Hfit] Hcne Hk Hrest.
  apply Forall_cons_iff in Hby as [Hc Hby]. specialize (Hfit c ltac:(by left)).
  assert (zlen acc < zlen enc) as Hlt.
  { rewrite Hr, zlen_app. destruct r as [|x r]; [done|]. rewrite zlen_cons. pose proof (zlen_nonneg r). lia. }
  assert (cut k = cut_wait) as Hwk.
  { apply (short_waits k (concat cs) blocks []); [done|done|by rewrite app_nil_r|]. apply Forall_forall.
    intros x Hx%list_elem_of_In. specialize (Hshort c x ltac:(by left) Hx).
    apply (f_equal zlen) in Hk. rewrite !zlen_app in Hk. lia. }
  apply (wp_header_push n lk acc c); [done..|lia|].
  rewrite Hk, (decode_encode _ _ _ k Henc). unfold zlen. rewrite Nat2Z.id, drop_app_length.
  split; [done|]. eapply wp_mono; [exact Hacc|]. intros e c' (-> & Hok & Hdec) n1 Hhp.
  split; [apply (hp_frame _ _ _ _ _ _ Hhp)|]. split; try done.
  - by eapply header_pipe.
  - apply Hhp.
  - apply Hhp.
  - intros d x Hd Hx. apply Hshort; [by right|done].
Qed.

Lemma push_awaiting n lk acc c cs :
  awaiting n lk acc (c :: cs) →
  wp (pouch_downlink_push c) (λ _ n', n_calls n' = n_calls n ∧
    ((∃ acc', awaiting n' lk acc' cs) ∨ ∃ k, collecting n' lk k [] [] blocks css cs)) n.
Proof.
  intros Haw. pose proof Haw as [Hn Hinv Hpe Hhd Hacc (r & Hr & Hne) Hrest Hby Hbs Hshort Hfit].
  apply Forall_cons_iff in Hby as [Hc Hby].
  assert (∀ c' x, c' ∈ cs → x ∈ blocks → zlen c' ≤ zlen x) as Hshort' by (intros; apply Hshort; [by right|done]).
  assert (∀ c', c' ∈ cs → zlen enc + zlen c' ≤ MAX_CIPHERTEXT_BLOCK_SIZE) as Hfit' by (intros; apply Hfit; by right).
  destruct (decide (c = [])) as [->|Hcne].
  { apply wp_push_stop; [cbn; lia|by left|]. split; [done|left]. exists acc. split; try done. by exists r. }
  destruct Hrest as [Hrest|[[? _]%app_eq_nil _]]; [|done].
  cbn [concat] in Hrest. rewrite app_assoc in Hrest.
  assert (∀ k, acc ++ c = enc ++ k → k ++ concat cs = concat blocks → wp (pouch_downlink_push c) (λ _ n', n_calls n' = n_calls n ∧
    ((∃ acc', awaiting n' lk acc' cs) ∨ ∃ k, collecting n' lk k [] [] blocks css cs)) n) as Hdone.
  { intros k Hk Hkr. eapply wp_mono; [by apply (push_header_done n lk acc c cs k)|].
    intros [] n' [? ?]. split; [done|right]. by exists k. }
  apply app_eq_inv in Hrest as [(k & Hk & Hkr)|(k & Hk & Hkr)]; [by apply (Hdone k)|].
  destruct (decide (k = [])) as [->|Hkne].
  { apply (Hdone []); [by rewrite Hk, !app_nil_r|by rewrite Hkr]. }
  specialize (Hfit c ltac:(by left)). assert (zlen acc ≤ zlen enc) as Hle.
  { rewrite Hr, zlen_app. pose proof (zlen_nonneg r). lia. }
  apply (wp_header_push n lk acc c); [done..|lia|]. rewrite (decode_prefix _ _ _ _ _ Henc Hk Hkne).
  intros n1 Hhp. split; [apply (hp_frame _ _ _ _ _ _ Hhp)|left]. exists (acc ++ c). split; try done.
  - by eapply header_receiver.
  - apply Hhp.
  - apply Hhp.
  - apply Hhp.
  - by rewrite (hp_crypto _ _ _ _ _ _ Hhp).
  - by exists k.
  - left. by rewrite Hkr, Hk, <- !app_assoc.
Qed.

(** *** The whole reception *)

(** The calls made so far, in at most [m] more steps the others. *)
Definition receiving lk (calls : list callback) (m : nat) (cs : list (list Z)) n : Prop :=
  (∃ acc, awaiting n lk acc cs ∧ n_calls n = calls ∧ m = (length cs + 2 * length blocks)%nat) ∨
  (∃ acc xs ds fs made css', collecting n lk acc xs ds fs css' cs ∧ css = made ++ css' ∧
     n_calls n = calls ++ concat made ∧ m = (length cs + 2 * length fs + pipe_size xs ds)%nat).

Lemma receiving_push lk calls m c cs n :
  receiving lk calls m (c :: cs) n →
  wp (pouch_downlink_push c) (λ _ n', collect_failed n' ∨ ∃ m', (m' < m)%nat ∧ receiving lk calls m' cs n') n.
Proof.
  intros [(acc & Haw & Hca & ->)|(acc & xs & ds & fs & made & css' & Hco & Hcss & Hca & ->)].
  - eapply wp_mono; [by eapply (push_awaiting n lk acc)|]. intros [] n' [Hca' [[acc' Haw']|[k Hco]]]; right.
    + exists (length cs + 2 * length blocks)%nat. split; [cbn; lia|left]. exists acc'. by rewrite Hca'.
    + exists (length cs + 2 * length blocks)%nat. split; [cbn; lia|right].
      exists k, [], [], blocks, [], css. rewrite Hca', app_nil_r. split_and!; [done|done|done|]. unfold pipe_size. cbn. lia.
  - eapply wp_mono; [by eapply push_collecting|]. intros [] n' [|(b1 & b2 & p & -> & Hco' & Hca')]; [by left|right].
    eexists. split; [|right; exists p, (xs ++ b1), ds, b2, made, css'; rewrite Hca'; by split_and!].
    unfold pipe_size. rewrite !length_app. cbn. lia.
Qed.

Lemma receiving_work lk calls m cs n n' :
  receiving lk calls m cs n → work_step n n' → ∃ m', (m' < m)%nat ∧ receiving lk calls m' cs n'.
Proof.
  intros [(acc & Haw & _)|(acc & xs & ds & fs & made & css' & Hco & Hcss & Hca & ->)] Hs.
  - inversion Hs as [w ws1 ws2 ? ? Hw _]; subst. rewrite (rc_work _ (aw_receiver _ _ _ _ Haw)) in Hw.
    by destruct ws1.
  - destruct (work_collecting _ _ _ _ _ _ _ _ _ Hco Hs) as (xs' & ds' & css2 & made2 & Hco' & Hcss' & Hca' & Hlt).
    eexists. split; [|right; exists acc, xs', ds', fs, (made ++ made2), css2; split_and!; [done|by rewrite Hcss, Hcss', app_assoc| |done]].
    + lia.
    + by rewrite Hca', Hca, concat_app, app_assoc.
Qed.

Lemma receiving_steps lk calls m chunks n k cs n' :
  receiving lk calls m chunks n → nsteps rx_step k (chunks, n) (cs, n') →
  ∃ m', (k + m' ≤ m)%nat ∧ receiving lk calls m' cs n'.
Proof.
  intros Hrc Hs. remember (chunks, n) as s eqn:Es. remember (cs, n') as s' eqn:Es'.
  revert m chunks n Es Hrc. induction Hs as [s|k s1 s2 s3 Hs1 Hs IH]; intros m chunks n -> Hrc.
  - injection Es' as -> ->. exists m. split; [lia|done].
  - inversion Hs1 as [c cs1 n0 n1 Hp Hf|cs1 n0 n1 Hw]; subst.
    + pose proof (receiving_push _ _ _ _ _ _ Hrc) as H1. unfold wp in H1. rewrite Hp in H1.
      destruct H1 as [|(m1 & Hm1 & Hrc1)]; [done|].
      destruct (IH eq_refl m1 cs1 n1 eq_refl Hrc1) as (m' & ? & ?). exists m'. split; [lia|done].
    + destruct (receiving_work _ _ _ _ _ _ Hrc Hw) as (m1 & Hm1 & Hrc1).
      destruct (IH eq_refl m1 chunks n1 eq_refl Hrc1) as (m' & ? & ?). exists m'. split; [lia|done].
Qed.

Lemma receiving_progress lk calls m cs n :
  receiving lk calls m cs n → n_work n ≠ [] → ∃ n', work_step n n'.
Proof.
  intros [(acc & Haw & _)|(acc & xs & ds & fs & made & css' & Hco & _)] Hw.
  - by rewrite (rc_work _ (aw_receiver _ _ _ _ Haw)) in Hw.
  - by eapply pipe_progress; [apply Hco|].
Qed.

(** When nothing is left to be done all calls were made. *)
Lemma receiving_done lk calls m n :
  receiving lk calls m [] n → n_work n = [] → n_calls n = calls ++ concat css ∧ ready n.
Proof.
  intros [(acc & Haw & Hca & _)|(acc & xs & ds & fs & made & css' & Hco & Hcss & Hca & _)] Hw.
  - destruct Haw as [Hn Hinv _ _ Hacc (r & Hr & Hne) Hrest _ _ _ _]. split; [|by split; [|exists lk]].
    cbn in Hrest. rewrite app_nil_r in Hrest. assert (blocks = []) as Hb.
    { destruct Hrest as [Hrest|[_ ?]]; [|done]. rewrite Hr, <- app_assoc in Hrest.
      rewrite <- (app_nil_r acc) in Hrest at 1. apply app_inv_head in Hrest. by destruct r. }
    apply wp_inv in Hacc as (e & c & _ & _ & _ & Hdec). rewrite Hb in Hdec.
    assert (ys = []) as Hys by by destruct ys. rewrite Hys in Hdel.
    apply Forall2_nil_inv_l in Hdel. by rewrite Hdel, app_nil_r.
  - destruct Hco as [Hpipe _ _ Hwt Hrest _ Hbs _]. cbn in Hrest. rewrite app_nil_r in Hrest.
    assert (fs = []) as ->.
    { destruct fs as [|x fs]; [done|]. apply Forall_cons_iff in Hbs as [Hx _]. cbn in Hrest.
      by rewrite Hrest, cut_sized in Hwt. }
    destruct (pipe_empty _ _ _ _ _ _ Hpipe Hw) as [-> ->].
    rewrite (pipe_idle _ _ _ _ _ Hpipe Hw), app_nil_r in Hcss. rewrite Hcss. split; [done|].
    destruct Hpipe as [Hinv Hok Hd Hcs _ _ _ _]. split; [|by exists lk].
    split; [by inversion Hd|by inversion Hcs|done|done].
Qed.

Lemma receiving_delivers lk calls m chunks n :
  receiving lk calls m chunks n → delivers_all calls m css chunks n.
Proof.
  intros Hrc k cs n' Hs. destruct (receiving_steps _ _ _ _ _ _ _ _ Hrc Hs) as (m' & Hm & Hrc').
  split_and!; [lia| |by eapply receiving_progress| |].
  - intros c cs' ->. pose proof (receiving_push _ _ _ _ _ _ Hrc') as Hp.
    apply wp_inv in Hp as ([] & n'' & Hrun & _). by exists n''.
  - destruct Hrc' as [(acc & _ & Hca & _)|(acc & xs & ds & fs & made & css' & _ & Hcss & Hca & _)].
    + exists [], css. by rewrite app_nil_r.
    + by exists made, css'.
  - intros -> Hw. by eapply receiving_done.
Qed.

(** A pouch for a node that is not receiving anything. *)
Lemma wp_receive n lk chunks :
  receiver n → node_inv n lk → pushable enc blocks chunks →
  wp (crypto_downlink_start (hd_encryption_info h))
    (λ e c, e = success ∧ crypto_ok c ∧ decrypts c blocks ys) (n_crypto n) →
  wp pouch_downlink_start (λ _ n', collect_failed n' ∨
    delivers_all (n_calls n) (length chunks + 2 * length blocks) css chunks n') n.
Proof.
  intros [Hd Hcs Hw Hc] Hinv [Hcat Hbs Hshort Hfit] Hacc.
  pose proof (encode_bytes _ _ _ Henc) as Hencb. pose proof (encode_len _ _ _ Henc) as Hencl.
  eapply wp_mono; [by apply (wp_downlink_start_pouch n lk)|].
  intros [] n' ([_ _ _ _ Hca Hco Hde Hwk _] & Hinv' & Hcr & Hhd & [|Hpe]); [by left|right].
  cbn in Hca, Hco, Hde, Hwk. rewrite app_nil_r in Hde.
  eapply (receiving_delivers (option_list (dl_pouch_buf (n_downlink n)) ++ lk)). left. exists [].
  split_and!; [|done|done]. split; try done.
  - split; [by rewrite Hde|by rewrite Hco|by rewrite Hwk|by rewrite Hcr].
  - by rewrite Hcr.
  - exists enc. split; [done|]. intros ->. by destruct Hencl.
  - apply Forall_concat. destruct Hcat as [->|[-> _]]; [|constructor]. apply Forall_app. split; [done|].
    apply Forall_concat. eapply Forall_impl; [|exact Hbs]. by intros x Hx%sized_block_bytes.
Qed.
End receiving.

(** ** One pouch after the other *)

Section pouches.
Context `{COk : ConfigOk} `{ZS : ZephyrSpec} `{Mal : Malloc} `{Cr : Crypto} `{Hnd : Handlers} `{Co : HeaderCodec}.
Context {HC : HeaderCodecSpec Co} {CS : CryptoSpec Cr}.
Implicit Types (n : node).

(** A pouch as it arrives, with its plaintext blocks and the calls that they stand for. *)
Record pouch := mk_pouch {
  po_header : pouch_header;
  po_encoding : list Z;
  po_blocks : list (list Z);
  po_plain : list (list Z);
  po_calls : list (list callback);
  po_chunks : list (list Z);
}.

Record wf_pouch (p : pouch) : Prop := {
  wf_encoded : ∃ room, cbor_encode_pouch_header room (po_header p) = Some (po_encoding p);
  wf_delivers : Forall2 delivers (po_plain p) (po_calls p);
  wf_pushable : pushable (po_encoding p) (po_blocks p) (po_chunks p);
}.

(** In the state [c] the crypto module accepts its header and opens its blocks. *)
Definition accepts (c : crypto_st) (p : pouch) : Prop :=
  wp (crypto_downlink_start (hd_encryption_info (po_header p)))
    (λ e c', e = success ∧ crypto_ok c' ∧ decrypts c' (po_blocks p) (po_plain p)) c.

(** Pouches are received one after the other: the next one starts when the work of the one
    before is done, in a state in which the crypto module accepts it. *)
Inductive rx_pouches : list pouch → node → node → Prop :=
  | rx_none n : rx_pouches [] n n
  | rx_next p ps n n1 n2 n3 :
      accepts (n_crypto n) p →
      pouch_downlink_start n = Ret tt n1 → ¬ collect_failed n1 →
      rtc rx_step (po_chunks p, n1) ([], n2) → n_work n2 = [] →
      rx_pouches ps n2 n3 → rx_pouches (p :: ps) n n3.

Lemma wp_receive_next p n :
  wf_pouch p → accepts (n_crypto n) p → ready n → wp pouch_downlink_start (λ _ n', collect_failed n' ∨
    delivers_all (n_calls n) (length (po_chunks p) + 2 * length (po_blocks p)) (po_calls p) (po_chunks p) n') n.
Proof.
  intros [[room Henc] Hdel Hpush] Hacc [Hn [lk Hinv]].
  by apply (wp_receive _ room (po_encoding p) Henc (po_blocks p) (po_plain p) (po_calls p) Hdel n lk).
Qed.

Definition calls_of (ps : list pouch) : list callback := concat (map (λ p, concat (po_calls p)) ps).

Lemma pouches_received ps n n' :
  ready n → Forall wf_pouch ps → rx_pouches ps n n' → n_calls n' = n_calls n ++ calls_of ps ∧ ready n'.
Proof.
  intros Hn Hps Hrx. induction Hrx as [n|p ps n n1 n2 n3 Hacc Hst Hf [k Hk]%rtc_nsteps Hw _ IH];
    [by rewrite app_nil_r|].
  apply Forall_cons_iff in Hps as [Hp Hps]. pose proof (wp_receive_next p n Hp Hacc Hn) as H1.
  unfold wp in H1. rewrite Hst in H1. destruct H1 as [|H1]; [done|].
  destruct (H1 k [] n2 Hk) as (_ & _ & _ & _ & H2). destruct (H2 eq_refl Hw) as [Hca2 Hr2].
  destruct (IH Hr2 Hps) as [Hca3 Hr3]. split; [|done].
  rewrite Hca3, Hca2, <- app_assoc. done.
Qed.

(** C2: a device keeps receiving. Take any number of pouches, each accepted by the
    crypto module in the state that the ones before left it in, and pushed in pieces
    no longer than its shortest block (what longer pieces can lose is
    [Downlink.second_block_is_held]), with work items in between in any order; the
    next pouch starts when the work of the one before is done. Then the application
    got exactly the calls of their blocks, pouch by pouch, and the device is ready
    for the next pouch, which, if the crypto module accepts it, will be delivered
    completely and in order, too, as long as there is memory to collect its
    blocks. *)
Theorem pouches_in_sequence ps n n' :
  ready n → Forall wf_pouch ps → rx_pouches ps n n' →
  n_calls n' = n_calls n ++ calls_of ps ∧ ready n' ∧
  ∀ p, wf_pouch p → accepts (n_crypto n') p → wp pouch_downlink_start (λ _ n1, collect_failed n1 ∨
    delivers_all (n_calls n') (length (po_chunks p) + 2 * length (po_blocks p)) (po_calls p) (po_chunks p) n1) n'.
Proof.
  intros Hn Hps Hrx. destruct (pouches_received _ _ _ Hn Hps Hrx) as [Hca Hr].
  split_and!; [done|done|]. intros p Hp Hacc. by apply wp_receive_next.
Qed.

(** A device that receives pouches, doing the work after each. *)
Definition receive_pouch (p : pouch) : M node unit :=
  pouch_downlink_start;; push_chunks (po_chunks p);; run_pending (2 * length (po_blocks p) + 1).
Definition after_pouch (p : pouch) (n : node) : node :=
  match receive_pouch p n with Ret _ n' => n' | _ => n end.

Lemma receive_pouch_rx p ps n n3 :
  (∀ k, malloc_bytes k MAX_CIPHERTEXT_BLOCK_SIZE ≠ None) → accepts (n_crypto n) p →
  match receive_pouch p n with Ret _ _ => true | _ => false end = true →
  rx_pouches ps (after_pouch p n) n3 → rx_pouches (p :: ps) n n3.
Proof.
  intros Hmem Hacc. unfold after_pouch, receive_pouch, mbind, M_bind.
  destruct (pouch_downlink_start n) as [[] n1| |] eqn:H1; [|done..].
  destruct (push_chunks _ n1) as [[] n2| |] eqn:H2; [|done..].
  destruct (run_pending _ n2) as [[] n4| |] eqn:H4; [|done..]. intros _ Hps.
  apply (run_pending_steps _ []) in H4 as [Hs Hw].
  assert (∀ m, ¬ collect_failed m) as Hm by (intros m [_ [k Hk]]; by eapply Hmem).
  eapply rx_next; [done|exact H1|apply Hm| |exact Hw|exact Hps].
  etrans; [by apply push_chunks_steps|exact Hs].
Qed.

(** The pieces are short enough, as a test. *)
Definition short_pieces (p : pouch) : bool :=
  forallb (λ c, forallb (λ x, zlen c <=? zlen x) (po_blocks p) &&
    (zlen (po_encoding p) + zlen c <=? MAX_CIPHERTEXT_BLOCK_SIZE)) (po_chunks p).

Lemma short_pieces_pushable p :
  concat (po_chunks p) = po_encoding p ++ concat (po_blocks p) → Forall sized_block (po_blocks p) →
  short_pieces p = true → pushable (po_encoding p) (po_blocks p) (po_chunks p).
Proof.
  intros Hcat Hbs Hc. unfold short_pieces in Hc. rewrite forallb_forall in Hc. split; [by left|done| |].
  - intros c x Hin Hx. apply list_elem_of_In, Hc, andb_prop in Hin as [Hin _].
    rewrite forallb_forall in Hin. apply list_elem_of_In, Hin in Hx. lia.
  - intros c Hin. apply list_elem_of_In, Hc, andb_prop in Hin as [_ Hin]. lia.
Qed.
End pouches.

(** Cutting a byte string into pieces of [k] bytes, for the examples. *)
Fixpoint pieces_of (k : nat) (fuel : nat) (l : list Z) : list (list Z) :=
  match fuel, l with
  | S fuel, _ :: _ => take k l :: pieces_of k fuel (drop k l)
  | _, _ => []
  end.

Section pouches_witnesses.
#[local] Existing Instances small_config small_config_ok zephyr_ref zephyr_ref_spec
  malloc_always crypto_none crypto_none_spec one_handler plain_codec plain_codec_spec.

(** Two pouches, of an entry and of a stream, for a device in plaintext. *)
Definition some_header : pouch_header := mk_header POUCH_HEADER_VERSION (plaintext_info [115]).
Definition some_pouch (k : nat) (blocks : list (list Z)) (css : list (list callback)) : pouch :=
  let enc := default [] (cbor_encode_pouch_header 20 some_header) in
  mk_pouch some_header enc blocks blocks css (pieces_of k 100 (enc ++ concat blocks)).
Definition some_entries : list entry := [mk_app_entry [46] 50 [7; 8]; mk_app_entry [47; 97] 60 [1]].
Definition entry_pouch_1 : pouch := some_pouch 3 [entry_block some_entries] [concat (map entry_calls some_entries)].
Definition stream_pouch_1 : pouch :=
  some_pouch 2 (stream_pouch 1 [47; 97] 42 [[1; 2; 3]; [4; 5]])
    [stream_calls 1 (Some ([47; 97], 42)) [1; 2; 3] false; stream_calls 1 None [4; 5] true].

Definition rx_node : node := init_node (Some [120] : CryptoNone.st).

Lemma some_pouch_wf k blocks css :
  Forall2 delivers blocks css → Forall sized_block blocks →
  let p := some_pouch k blocks css in
  concat (po_chunks p) = po_encoding p ++ concat blocks → short_pieces p = true → wf_pouch p.
Proof. intros Hdel Hbs p Hcat Hc. split; [by exists 20|done|by apply short_pieces_pushable]. Qed.

Lemma some_pouch_accepted k blocks css c : crypto_ok c → accepts c (some_pouch k blocks css).
Proof. intros Hok. unfold accepts, wp. cbn. split_and!; [done|done|apply decrypts_plain]. Qed.

Lemma entry_pouch_1_wf : wf_pouch entry_pouch_1.
Proof.
  apply some_pouch_wf; [| |by vm_compute..].
  - repeat constructor. apply entries_deliver; [|done]. repeat constructor; done.
  - repeat constructor. apply block_sized; [done..|]. repeat constructor; done.
Qed.

Lemma stream_pouch_1_wf : wf_pouch stream_pouch_1.
Proof.
  apply some_pouch_wf; [| |by vm_compute..].
  - repeat constructor.
    + by apply (stream_block_delivers 1 (Some ([47; 97], 42))).
    + by apply (stream_block_delivers 1 None).
  - repeat constructor; (apply block_sized; [done..|]); repeat constructor; done.
Qed.

Lemma rx_node_ready : ready rx_node.
Proof. split; [|exists []; apply init_node_inv]. split; [done..|]. by eexists. Qed.

(** Both are received, then a third one would be. *)
Lemma pouches_in_sequence_witness : ∃ n' : node,
  rx_pouches [entry_pouch_1; stream_pouch_1] rx_node n' ∧
  n_calls n' = n_calls rx_node ++ calls_of [entry_pouch_1; stream_pouch_1] ∧ ready n' ∧
  ∀ p, wf_pouch p → accepts (n_crypto n') p → wp pouch_downlink_start (λ _ n1, collect_failed n1 ∨
    delivers_all (n_calls n') (length (po_chunks p) + 2 * length (po_blocks p)) (po_calls p) (po_chunks p) n1) n'.
Proof.
  set (n' := after_pouch stream_pouch_1 (after_pouch entry_pouch_1 rx_node)).
  assert (rx_pouches [entry_pouch_1; stream_pouch_1] rx_node n') as Hrx.
  { do 2 (apply receive_pouch_rx; [by intros k|by apply some_pouch_accepted; eexists; vm_compute|by vm_compute|]).
    constructor. }
  exists n'. split; [done|].
  apply (pouches_in_sequence [entry_pouch_1; stream_pouch_1] rx_node n'); [apply rx_node_ready| |done].
  constructor; [apply entry_pouch_1_wf|constructor; [apply stream_pouch_1_wf|constructor]].
Defined.
End pouches_witnesses.
