(* ===== verification/SaeadReceive.v ===== *)
(** An encrypted pouch of the server, from the bytes pushed to the calls of the
    application: [src/downlink.c], [src/pouch.c] and [src/entry.c] on top of
    [src/crypto_saead.c] and [src/saead/downlink.c]. *)
From S2P Require Import Prelude Zephyr Config Platform Buf Block Header Node CryptoNone CryptoSpec.
From S2P Require Import Cert SaeadSession Saead SaeadSpec Reference SaeadReference.
From S2P Require Import Entry Stream Uplink Session SaeadChain Downlink Pouch Receive.

(** The key of the pouch that is received. *)
Definition pouch_key `{PS : PsaSpec} {Tls : Mbedtls} (c : saead_st) : option psa_key :=
  psa_keys (sa_psa c) (s_key (sa_downlink c)).

Section saead_receive.
Context `{COk : ConfigOk} `{ZS : ZephyrSpec} `{Mal : Malloc} `{PS : PsaSpec} {SB : SaeadBuild Cfg}.
Context {Tls : Mbedtls} {TS : MbedtlsSpec Tls} `{B64S : Base64Spec} `{HC : HeaderCodecSpec} `{Hnd : Handlers}.
#[local] Existing Instances crypto_saead crypto_saead_spec.
Implicit Types (n : node) (c : saead_st).

(** An accepted header leaves the device with a key for its pouch. *)
Lemma started_can_decrypt info c :
  saead_ok c → wp (CryptoSaead.crypto_downlink_start info) (λ err c', err = success →
    saead_ok c' ∧ ∃ key, can_decrypt (sa_psa c') (sa_downlink c') key) c.
Proof.
  intros Hok. eapply wp_mono; [by apply wp_saead_downlink_start|].
  intros err c' (Hok' & _ & Hres) ->. split; [done|].
  destruct Hres as (session & id & pid & _ & _ & _ & _ & [_ Halg _ _ _ [_ Hmade] Hk] & _).
  destruct Hmade as [[? _]|(_ & _ & mat & Hmat)]; [done|].
  eexists. split_and!; [exact Hmat|by rewrite Halg|]. cbn. unfold DOWNLINK_KEY_USAGE. set_solver.
Qed.

Context (memory : ∀ k, malloc_bytes k MAX_PLAINTEXT_BLOCK_SIZE ≠ None).

Lemma sized_inj pt pt' : zlen pt < 65536 → zlen pt' < 65536 → sized pt = sized pt' → pt = pt'.
Proof.
  intros Hpt Hpt' He. pose proof (zlen_nonneg pt).
  destruct (sized_received (sized pt) (zlen pt) pt pt') as [_ ?]; done || lia.
Qed.

Lemma saead_opens_next c key pt r c' :
  can_decrypt (sa_psa c) (sa_downlink c) key → server_block pt →
  let ct := seal_at (sa_downlink c) POUCH_ROLE_SERVER key pt in
  opens (c : crypto_st) (sized ct) r (c' : crypto_st) → r = Some (sized pt) ∧ c' = downlink_next c ct.
Proof.
  intros Hcan Hpt ct [Hop Hcomp]. specialize (Hcomp key pt Hcan Hpt eq_refl memory). subst r. split; [done|].
  destruct Hop as (key' & pt' & Hkey & [Hpt' _] & _ & Heq & ->). destruct Hcan as (Hk & _).
  rewrite Hk in Hkey. injection Hkey as <-. destruct Hpt as [Hpt _]. pose proof block_sizes_range.
  by apply sized_inj in Heq as <-; [|lia..].
Qed.

(** The blocks that the server seals open into what it sealed. *)
Lemma saead_decrypts c key pts :
  can_decrypt (sa_psa c) (sa_downlink c) key → Forall server_block pts →
  decrypts (c : crypto_st) (seal_pouch (sa_downlink c) POUCH_ROLE_SERVER key pts) (map sized pts).
Proof.
  intros Hcan Hpts. revert c Hcan. induction Hpts as [|pt pts Hpt _ IH]; intros c Hcan; [done|].
  cbn [seal_pouch map decrypts]. intros r c' Hop.
  destruct (saead_opens_next c key pt r c' Hcan Hpt Hop) as [-> ->]. split; [done|].
  destruct (downlink_next_position c (seal_at (sa_downlink c) POUCH_ROLE_SERVER key pt)) as (Hpst & Hk & Hpsa).
  rewrite <- (seal_pouch_position _ _ _ _ _ Hpst). apply IH.
  unfold can_decrypt. rewrite Hk, Hpsa. destruct Hpst as (Ha & _). rewrite Ha. exact Hcan.
Qed.

(** So a sealed pouch is one that the device accepts, in any state in which it takes the
    header: receiving one pouch after the other ([Receive.pouches_in_sequence]) applies to
    the encrypted build. *)
Lemma sealed_accepted c0 c h key enc pts css chunks :
  saead_ok c0 → CryptoSaead.crypto_downlink_start (hd_encryption_info h) c0 = Ret success c →
  pouch_key c = Some key → Forall server_block pts →
  accepts (c0 : crypto_st)
    (mk_pouch h enc (seal_pouch (sa_downlink c) POUCH_ROLE_SERVER key pts) (map sized pts) css chunks).
Proof.
  intros Hok0 Hst Hkey Hpts. pose proof (started_can_decrypt (hd_encryption_info h) c0 Hok0) as Hk.
  unfold wp in Hk. rewrite Hst in Hk. destruct (Hk eq_refl) as (Hok & key' & Hcan).
  pose proof Hcan as (Hk' & _). unfold pouch_key in Hkey. rewrite Hk' in Hkey. injection Hkey as ->.
  unfold accepts. eapply wp_eq; [exact Hst|]. split_and!; [done|done|by apply saead_decrypts].
Qed.
End saead_receive.

(** ** Property *)

Section saead_delivery_theorem.
Context `{COk : ConfigOk} `{ZS : ZephyrSpec} `{Mal : Malloc} `{PS : PsaSpec} {SB : SaeadBuild Cfg}.
Context {Tls : Mbedtls} {TS : MbedtlsSpec Tls} `{B64S : Base64Spec} `{HC : HeaderCodecSpec} `{Hnd : Handlers}.
#[local] Existing Instances crypto_saead crypto_saead_spec.

(** C7: an encrypted pouch reaches the application. When the device accepts a header, it
    has derived a key; the blocks that the server seals with that key, pushed behind
    the header in pieces no longer than the shortest block (what longer pieces can lose
    is [Downlink.second_block_is_held]), are delivered as the calls for their
    plaintexts: in order, each once, in whatever order pieces are pushed and work items
    run, and something can run until all of them were made. There must be memory for the
    plaintexts, and only a failed allocation of a block to collect them prevents it. *)
Theorem saead_pouch_delivered (n : node) lk h (c : saead_st) :
  (∀ k, malloc_bytes k MAX_PLAINTEXT_BLOCK_SIZE ≠ None) → receiver n → node_inv n lk →
  CryptoSaead.crypto_downlink_start (hd_encryption_info h) (n_crypto n : saead_st) = Ret success c →
  ∃ key, pouch_key c = Some key ∧
    ∀ room enc pts css chunks, cbor_encode_pouch_header room h = Some enc →
      Forall server_block pts → Forall2 delivers (map sized pts) css →
      pushable enc (seal_pouch (sa_downlink c) POUCH_ROLE_SERVER key pts) chunks →
      wp pouch_downlink_start (λ _ n', collect_failed n' ∨
        delivers_all (n_calls n) (length chunks + 2 * length pts) css chunks n') n.
Proof.
  intros Hmem Hn Hinv Hst.
  pose proof (started_can_decrypt (hd_encryption_info h) (n_crypto n) (rc_crypto _ Hn)) as Hk.
  unfold wp in Hk. rewrite Hst in Hk. destruct (Hk eq_refl) as (_ & key & Hcan).
  assert (pouch_key c = Some key) as Hkey by apply Hcan. exists key. split; [done|].
  intros room enc pts css chunks Henc Hpts Hdel Hpush.
  rewrite <- (seal_pouch_length (sa_downlink c) POUCH_ROLE_SERVER key pts).
  apply (wp_receive_next (mk_pouch h enc _ (map sized pts) css chunks)).
  - split; [by exists room|done|done].
  - eapply sealed_accepted; [done|apply Hn|done..].
  - split; [done|by exists lk].
Qed.
End saead_delivery_theorem.

Section saead_receive_witnesses.
#[local] Existing Instances saead_config saead_config_ok zephyr_ref zephyr_ref_spec malloc_always
  psa_toy psa_toy_spec mbedtls_toy mbedtls_toy_spec base64_ref base64_ref_spec saead_config_build
  crypto_saead crypto_saead_spec saead_codec saead_codec_spec one_handler.

(** A provisioned device, the header of a server session, and the state after it. *)
Definition node_s : node := init_node (saead_0 : crypto_st (Crypto := crypto_saead)).
Definition server_session : pouch_header :=
  mk_header POUCH_HEADER_VERSION (saead_info (mk_session_info (session_id_random (replicate 16 6)) server
    chacha20_poly1305 5 (replicate 6 9)) 3).
Definition saead_s : saead_st := after_start (hd_encryption_info server_session) saead_0.

Lemma saead_s_started : CryptoSaead.crypto_downlink_start (hd_encryption_info server_session) saead_0 = Ret success saead_s.
Proof.
  assert (match CryptoSaead.crypto_downlink_start (hd_encryption_info server_session) saead_0 with
    Ret err _ => err | _ => Some EIO end = success) as He by by vm_compute.
  unfold saead_s, after_start. destruct (CryptoSaead.crypto_downlink_start _ _) as [err c| |]; [by subst|done..].
Qed.

Lemma node_s_receiver : receiver node_s.
Proof. split; [done|done|done|apply saead_0_ok]. Qed.

Lemma saead_pouch_delivered_witness :
  ∃ key, pouch_key saead_s = Some key ∧
    ∀ room enc pts css chunks, cbor_encode_pouch_header room server_session = Some enc →
      Forall server_block pts → Forall2 delivers (map sized pts) css →
      pushable enc (seal_pouch (sa_downlink saead_s) POUCH_ROLE_SERVER key pts) chunks →
      wp pouch_downlink_start (λ _ n', collect_failed n' ∨
        delivers_all (n_calls node_s) (length chunks + 2 * length pts) css chunks n') node_s.
Proof.
  apply (saead_pouch_delivered node_s [] server_session saead_s);
    [by intros k|apply node_s_receiver|apply init_node_inv|apply saead_s_started].
Defined.

(** An entry and a stream in two blocks, as the server seals them. *)
Definition server_plain : list (list Z) :=
  [192 :: entries_bytes [mk_app_entry [46] 50 [7; 8]]; 65 :: stream_payload (Some ([47; 97], 42)) [1; 2; 3]; 129 :: [4; 5]].
Definition server_pouch : list Z :=
  default [] (cbor_encode_pouch_header 200 server_session) ++
  concat (seal_pouch (sa_downlink saead_s) POUCH_ROLE_SERVER
    (default (mk_key [] None []) (pouch_key saead_s)) server_plain).

(** Pushed in pieces of seven bytes, with the work items run in the order they were submitted. *)
Example sealed_pouch_delivered :
  wp (pouch_downlink_start;; push_chunks (pieces_of 7 100 server_pouch);; pouch_downlink_finish) (λ _ n,
    n_calls (Nat.iter 6 run_first n) = entry_calls (mk_app_entry [46] 50 [7; 8]) ++
      start_cb 0 1 [47; 97] 42 :: stream_data_calls 1 [[1; 2; 3]; [4; 5]]) node_s.
Proof. by vm_compute. Qed.

(** The same blocks as a pouch of [Receive.v], and a second one of the same session under the
    next pouch id. *)
Definition server_calls : list (list callback) :=
  [concat (map entry_calls [mk_app_entry [46] 50 [7; 8]]); stream_calls 1 (Some ([47; 97], 42)) [1; 2; 3] false;
   stream_calls 1 None [4; 5] true].
Definition server_header (pid : Z) : pouch_header :=
  mk_header POUCH_HEADER_VERSION (saead_info (mk_session_info
    (session_id_random (replicate 16 6)) server chacha20_poly1305 5 (replicate 6 9)) pid).
Definition some_key : psa_key := mk_key [] None [].
Definition sealed_pouch (h : pouch_header) (c : saead_st) : pouch :=
  let enc := default [] (cbor_encode_pouch_header 200 h) in
  let blocks := seal_pouch (sa_downlink c) POUCH_ROLE_SERVER (default some_key (pouch_key c)) server_plain in
  mk_pouch h enc blocks (map sized server_plain) server_calls (pieces_of 7 100 (enc ++ concat blocks)).

Lemma server_plain_blocks : Forall server_block server_plain.
Proof. repeat constructor; try done; vm_compute; lia. Qed.

Lemma sealed_pouch_accepted h (c0 : saead_st) :
  saead_ok c0 →
  match CryptoSaead.crypto_downlink_start (hd_encryption_info h) c0 with
  | Ret err c => err = success ∧ is_Some (pouch_key c)
  | _ => False
  end → accepts (c0 : crypto_st) (sealed_pouch h (after_start (hd_encryption_info h) c0)).
Proof.
  intros Hok Hst. destruct (CryptoSaead.crypto_downlink_start _ c0) as [err c| |] eqn:Hs; [|done..].
  destruct Hst as [-> [key Hkey]].
  assert (after_start (hd_encryption_info h) c0 = c) as -> by (unfold after_start; by rewrite Hs).
  unfold sealed_pouch. rewrite Hkey. apply sealed_accepted; [by intros k|done..|apply server_plain_blocks].
Qed.

(** Two encrypted pouches in a row are received, the second after the first has moved the
    replay window. *)
Definition sealed_1 : pouch :=
  sealed_pouch (server_header 3) (after_start (hd_encryption_info (server_header 3)) saead_0).
Definition node_s1 : node := after_pouch sealed_1 node_s.
Definition sealed_2 : pouch :=
  sealed_pouch (server_header 4) (after_start (hd_encryption_info (server_header 4)) (n_crypto node_s1)).

(** [sized_block], as a test. *)
Definition sized_blockb (x : list Z) : bool :=
  bool_decide (x = sys_put_be16 (zlen x - 2) ++ drop 2 x) && (1 <=? zlen x - 2) &&
  (zlen x - 2 <=? MAX_BLOCK_SIZE_FIELD_VALUE) && forallb (λ b, (0 <=? b) && (b <? 256)) (drop 2 x).

Lemma sized_blockb_ok x : sized_blockb x = true → sized_block x.
Proof.
  unfold sized_blockb. rewrite !andb_true_iff, bool_decide_eq_true, forallb_forall.
  intros [[[Hx H1] H2] Hb]. exists (zlen x - 2), (drop 2 x). split_and!; [done| |lia..|].
  - unfold zlen in *. rewrite length_drop. lia.
  - apply Forall_forall. intros b Hin%Hb. unfold is_byte. lia.
Qed.

Lemma server_plain_delivers : Forall2 delivers (map sized server_plain) server_calls.
Proof.
  change (map sized server_plain) with [entry_block [mk_app_entry [46] 50 [7; 8]];
    block_bytes 1 true false (stream_payload (Some ([47; 97], 42)) [1; 2; 3]); block_bytes 1 false true [4; 5]].
  apply Forall2_cons; [|apply Forall2_cons; [|apply Forall2_cons; [|apply Forall2_nil; exact I]]].
  - apply (entries_deliver [mk_app_entry [46] 50 [7; 8]]); [|done]. repeat constructor; done.
  - by apply (stream_block_delivers 1 (Some ([47; 97], 42))).
  - by apply (stream_block_delivers 1 None).
Qed.

Lemma sealed_pouch_wf h (c : saead_st) :
  let p := sealed_pouch h c in
  (∃ room, cbor_encode_pouch_header room (po_header p) = Some (po_encoding p)) →
  concat (po_chunks p) = po_encoding p ++ concat (po_blocks p) → forallb sized_blockb (po_blocks p) = true →
  short_pieces p = true → wf_pouch p.
Proof.
  intros p Henc Hcat Hbs Hshort. split; [done| |apply short_pieces_pushable; [done| |done]].
  2: { apply Forall_forall. intros x Hx. rewrite forallb_forall in Hbs. by apply sized_blockb_ok, Hbs. }
  apply server_plain_delivers.
Qed.

Example sealed_pouches_in_sequence :
  wf_pouch sealed_1 ∧ wf_pouch sealed_2 ∧
  rx_pouches [sealed_1; sealed_2] node_s (after_pouch sealed_2 node_s1) ∧
  n_calls (after_pouch sealed_2 node_s1) = concat (server_calls ++ server_calls).
Proof.
  assert (wf_pouch sealed_1) as Hw1.
  { apply sealed_pouch_wf; [by exists 200; vm_compute|by vm_compute..]. }
  assert (∀ ps n, rx_pouches ps node_s1 n → rx_pouches (sealed_1 :: ps) node_s n) as H1.
  { intros ps n. apply receive_pouch_rx; [by intros k|apply sealed_pouch_accepted; [apply saead_0_ok|]|by vm_compute].
    vm_compute. split; [done|by eexists]. }
  assert (saead_ok (n_crypto node_s1)) as Hok1.
  { destruct (pouches_received [sealed_1] node_s node_s1) as [_ [[_ _ _ Hok] _]]; [|by constructor| |done].
    - split; [apply node_s_receiver|by exists []; apply init_node_inv].
    - apply H1. constructor. }
  split_and!; [done| | |by vm_compute].
  - apply sealed_pouch_wf; [by exists 200; vm_compute|by vm_compute..].
  - apply H1, receive_pouch_rx; [by intros k|apply sealed_pouch_accepted; [done|]|by vm_compute|constructor].
    vm_compute. split; [done|by eexists].
Qed.
End saead_receive_witnesses.
