(* ===== verification/EndToEnd.v ===== *)
(** From the application of one node to the application of another: the whole
    way of an entry through [src/entry.c], [src/block.c], [src/uplink.c],
    [src/header.c] and [src/downlink.c] in a plaintext build. *)
From stdpp Require Import relations.
From S2P Require Import Prelude Zephyr Config Buf Block Header Node CryptoNone CryptoSpec.
From S2P Require Import Reference Entry Stream Uplink Session Downlink Pouch Receive.

Section end_to_end.
Context `{COk : ConfigOk} `{ZS : ZephyrSpec} `{Mal : Malloc} `{Hnd : Handlers}.
Context `{HC : HeaderCodecSpec}.
#[local] Existing Instance crypto_none.
#[local] Existing Instance crypto_none_spec.
Implicit Types (n : node).

(** *** Blocks of entries *)

Lemma held_bytes m ls' ls xs : heap_owns m ls' → holds m ls xs → Forall (Forall is_byte) xs.
Proof.
  intros Ho Hh. apply Forall_forall. intros x Hx%list_elem_of_In.
  apply list_elem_of_lookup in Hx as [i Hi]. destruct (Forall2_lookup_r _ _ _ _ _ Hh Hi) as (l & _ & Hl).
  cbn in Hl. destruct (heap m !! l) as [b|] eqn:Hb; [|done]. injection Hl as <-.
  by apply contents_bytes, (owns_wf _ _ Ho l).
Qed.

Lemma finished_holds m ls ess :
  Forall2 (finished_entries m) ls ess → holds m ls (map entry_block ess).
Proof.
  induction 1 as [|l es ls ess (_ & b & Hb & Hco) _ IH]; [constructor|].
  constructor; [unfold ptr_contents; rewrite Hb; cbn; by rewrite Hco|done].
Qed.

Lemma finished_size m ls ess :
  Forall2 (finished_entries m) ls ess →
  Forall (λ es, zlen (entries_bytes es) ≤ MAX_BLOCK_PAYLOAD_SIZE) ess.
Proof. by induction 1 as [|l es ls ess [? _] _ IH]; constructor. Qed.

End end_to_end.

Section sending.
Context `{COk : ConfigOk} `{ZS : ZephyrSpec} `{Mal : Malloc} `{Hnd : Handlers}.
Context `{HC : HeaderCodecSpec} (id : list Z).
#[local] Existing Instance crypto_none.
#[local] Instance sender_spec : CryptoSpec crypto_none := crypto_none_spec_where (eq id).
Implicit Types (n : node).

Lemma tx_bytes n lk bs : node_inv n lk → tx n bs → Forall is_byte bs.
Proof.
  intros Hinv (rb & ts & Hr & Hts & ->). apply Forall_app. split.
  - unfold reader_bytes in Hr. destruct (view_buf (up_reader (n_uplink n))); [|by subst].
    destruct Hr as [_ Hr]. by eapply view_rest_bytes.
  - apply Forall_concat. by eapply held_bytes.
Qed.

Lemma seal_all_id c xs ys c' : seal_all c xs ys c' → ys = xs ∧ c' = c.
Proof.
  induction 1 as [|c x c1 xs ys c2 Hs _ _|c x y c1 xs ys c2 Hs _ IH]; [done| |].
  - by destruct Hs.
  - destruct Hs as [[= ->] ->]. by destruct IH as [-> ->].
Qed.

(** *** The sending side *)

(** A node without a session, whose entry block is closed. *)
Record sender n lk : Prop := {
  sd_inv : node_inv n lk;
  sd_entry : n_entry n = NULL;
  sd_processing : slist_items (up_processing (n_uplink n)) = [];
  sd_idle : idle n;
  sd_id : n_crypto n = Some id;
}.

(** What a session sends: the entries [acc] in blocks of [ess], none longer than
    a block can be, behind the encoded header [enc]. *)
Record entry_pouch (acc : list entry) (ess : list (list entry)) (enc : list Z) : Prop := {
  ep_entries : concat ess = acc;
  ep_fit : Forall (λ es, zlen (entries_bytes es) ≤ MAX_BLOCK_PAYLOAD_SIZE) ess;
  ep_header : cbor_encode_pouch_header POUCH_HEADER_MAX_LEN
    (mk_header POUCH_HEADER_VERSION (plaintext_info id)) = Some enc;
}.

(** Its bytes: a session without an entry sends nothing, not even a header. *)
Definition entry_pouch_bytes (ess : list (list entry)) (enc : list Z) : list Z :=
  if decide (ess = []) then [] else enc ++ concat (map entry_block ess).

Lemma entry_plain es : zlen (entries_bytes es) ≤ MAX_BLOCK_PAYLOAD_SIZE → plain_block (entry_block es).
Proof. intros Hsz. by exists BLOCK_ID_ENTRY, true, true, (entries_bytes es). Qed.

Lemma pouch_bytes_blocks ess enc :
  entry_pouch_bytes ess enc =
  if decide (map entry_block ess = []) then [] else enc ++ concat (map entry_block ess).
Proof. by destruct ess. Qed.

Lemma wp_send n lk pes :
  sender n lk → Forall valid_entry pes →
  wp (rs ← write_all pes; started ← run_session; mret (rs, started)) (λ r n',
    length r.1 = length pes ∧ (r.2 = true → ∃ ess enc,
      entry_pouch (accepted pes r.1) ess enc ∧ Forall sized_block (map entry_block ess) ∧
      ∀ fuel maxlen, 0 < maxlen < 2 ^ 32 → zlen (entry_pouch_bytes ess enc) < Z.of_nat fuel →
        wp (drain fuel maxlen) (λ out _, out = entry_pouch_bytes ess enc) n')) n.
Proof.
  intros [Hinv He Hq Hidle Hid] Hv. wp_step. eapply wp_mono; [by apply (wp_write_all n lk None)|].
  intros rs n1 (ls & ess & open & Hrs & Hq1 & Hfin & Hrep & Hinv1 & Hacc & [_ _ Hcr _ _ [q Hu]] & _).
  rewrite Hq in Hq1. cbn [app open_entries default] in Hq1, Hacc.
  pose proof (finished_holds _ _ _ Hfin) as Hh. pose proof (finished_size _ _ _ Hfin) as Hsz.
  assert (uplink_ok n1 lk) as Hok.
  { split; [done|by rewrite Hcr, Hid; exists id|]. intros l x Hl Hx. rewrite Hq1 in Hl.
    apply list_elem_of_lookup in Hl as [i Hi]. destruct (Forall2_lookup_l _ _ _ _ _ Hfin Hi) as (es & _ & Hes & b & Hb & Hco).
    cbn in Hx. rewrite Hb in Hx. injection Hx as <-. rewrite Hco. by apply entry_plain. }
  assert (idle n1) as Hidle1.
  { destruct Hidle as [Hf Hh' [Ht1 Ht2]]. split; [by rewrite Hu|by rewrite Hu|]. unfold tx_empty. by rewrite Hu. }
  wp_step. eapply wp_mono; [apply (wp_run_session n1 lk open (map entry_block ess)); try done|].
  { by rewrite Hq1. }
  intros started n2 (Hinv2 & Hc2 & Hr). wp_step. cbn [fst snd]. split; [done|]. intros ->.
  destruct Hr as (Hact & Hop & _ & _ & _ & enc & ys & c & (info & (id' & Hcid & ->) & Henc) & Hs & Htx).
  apply seal_all_id in Hs as [-> Hcc]. pose proof Hc2 as (id2 & Hid2 & <-).
  rewrite Hcc, Hcid in Hid2. injection Hid2 as ->.
  set (ess' := ess ++ option_list open).
  assert (map entry_block ess ++ entry_blocks open = map entry_block ess') as Hbl.
  { unfold ess'. rewrite map_app. by destruct open. }
  rewrite Hbl in Htx. assert (Forall (λ es, zlen (entries_bytes es) ≤ MAX_BLOCK_PAYLOAD_SIZE) ess') as Hsz'.
  { apply Forall_app. split; [done|]. destruct open as [es|]; constructor; [by destruct Hrep|constructor]. }
  assert (Forall sized_block (map entry_block ess')) as Hbs.
  { pose proof (tx_bytes _ _ _ Hinv2 Htx) as Hby. case_decide as Hnil; [by rewrite Hnil|].
    apply Forall_app in Hby as [_ Hby]. apply Forall_concat in Hby. rewrite Forall_map in Hby |- *.
    rewrite Forall_forall in Hby, Hsz' |- *. intros es Hes. apply block_sized; [done|by apply Hsz'|by apply Hby]. }
  exists ess', enc. split_and!; [|done|].
  - split; [|done|done]. rewrite <- Hacc. unfold ess'. rewrite concat_app. f_equal.
    destruct open; cbn; by rewrite ?app_nil_r.
  - rewrite <- pouch_bytes_blocks in Htx. intros fuel maxlen Hmax Hfuel.
    eapply wp_mono; [by eapply (wp_drain fuel n2 lk (entry_pouch_bytes ess' enc))|].
    by intros out n3 (-> & _).
Qed.
End sending.

(** *** Both sides *)

Section delivery_theorem.
Context `{COk : ConfigOk} `{ZS : ZephyrSpec} `{Mal : Malloc} `{Hnd : Handlers}.
Context `{HC : HeaderCodecSpec} (id : list Z).
#[local] Existing Instance crypto_none.
#[local] Existing Instance crypto_none_spec.

(** The callbacks of the application for each block. *)
Definition block_entry_calls (ess : list (list entry)) : list (list callback) :=
  map (λ es, concat (map entry_calls es)) ess.

Lemma entry_pouch_delivers acc ess enc :
  entry_pouch id acc ess enc → Forall wf_entry acc →
  Forall2 delivers (map entry_block ess) (block_entry_calls ess).
Proof.
  intros [<- Hsz _] Hwf. induction ess as [|es ess IH]; [constructor|].
  cbn in Hwf. apply Forall_app in Hwf as [Hw1 Hw2]. apply Forall_cons_iff in Hsz as [Hs1 Hs2].
  constructor; [by apply entries_deliver|by apply IH].
Qed.

(** C1: entries written on one node and sent in a session reach the application
    of another. The bytes of the session are the header and the entries whose
    write returned 0, in the order of the writes, cut into blocks that each hold
    no more than a block can. When another node pushes these bytes in pieces that
    are no longer than the shortest of the blocks (a longer piece can hold two
    complete blocks, and [Downlink.second_block_is_held] shows what is lost then)
    and that fit into its buffer next to a header, its handlers are called for
    exactly those entries, each once and in order, whatever the order in which the
    pieces are pushed and its work items run, and there is always something that
    can run until that is done. On the receiver only a failed allocation prevents
    it; on the sender, whatever allocations fail, an entry whose write returned 0
    is in the bytes sent by a session that started. *)
Theorem entries_end_to_end (nA nB : node) lkA lkB pes :
  sender id nA lkA → receiver nB → node_inv nB lkB → Forall valid_entry pes →
  Forall (λ pe, zlen (pe_path pe) < 256 ∧ pe_data_len pe < 65536) pes →
  wp (rs ← write_all pes; started ← run_session; mret (rs, started)) (λ r nA',
    r.2 = true → ∃ (ess : list (list entry)) (enc : list Z),
      concat ess = accepted pes r.1 ∧
      Forall (λ es, zlen (entries_bytes es) ≤ MAX_BLOCK_PAYLOAD_SIZE) ess ∧
      cbor_encode_pouch_header POUCH_HEADER_MAX_LEN
        (mk_header POUCH_HEADER_VERSION (plaintext_info id)) = Some enc ∧
      (∀ fuel maxlen, 0 < maxlen < 2 ^ 32 → zlen (entry_pouch_bytes ess enc) < Z.of_nat fuel →
        wp (drain fuel maxlen) (λ out _, out = entry_pouch_bytes ess enc) nA') ∧
      (∀ chunks : list (list Z), concat chunks = entry_pouch_bytes ess enc →
        (∀ c es, c ∈ chunks → es ∈ ess → zlen c ≤ zlen (entry_block es)) →
        (∀ c, c ∈ chunks → POUCH_HEADER_MAX_LEN + zlen c ≤ MAX_CIPHERTEXT_BLOCK_SIZE) →
        wp pouch_downlink_start (λ _ nB', collect_failed nB' ∨
          delivers_all (n_calls nB) (length chunks + 2 * length ess)
            (block_entry_calls ess) chunks nB') nB)) nA.
Proof.
  intros HA HB HinvB Hv Hsz. eapply wp_mono; [by apply (wp_send id nA lkA pes)|].
  intros [rs started] nA' (Hlen & Hsent) Hst. cbn [fst snd] in *.
  destruct (Hsent Hst) as (ess & enc & Hp & Hbs & Hdrain).
  pose proof (entry_pouch_delivers _ _ _ Hp (accepted_wf pes rs Hv Hsz)) as Hdel.
  destruct Hp as [Hacc Hfits Henc]. pose proof (encode_len _ _ _ Henc) as Hencl.
  exists ess, enc. split_and!; [done..|]. intros chunks Hcat Hchunk Hfit.
  rewrite <- (length_map entry_block ess).
  eapply (wp_receive _ _ enc Henc _ _ _ Hdel nB lkB); [done|done| |].
  - split; [|done| |].
    + rewrite Hcat, pouch_bytes_blocks. case_decide; [by right|by left].
    + intros c x Hc (es & -> & Hes)%list_elem_of_fmap. by apply Hchunk.
    + intros c Hc. specialize (Hfit c Hc). lia.
  - unfold wp. cbn. split_and!; [done|apply HB|apply decrypts_plain].
Qed.
End delivery_theorem.

Section end_to_end_witnesses.
#[local] Existing Instances default_config default_config_ok zephyr_ref zephyr_ref_spec
  malloc_always crypto_none crypto_none_spec one_handler plain_codec plain_codec_spec.

(** Two nodes with blocks of 512 bytes. *)
Definition node_a : node := init_node (Some [97; 98; 99] : CryptoNone.st).
Definition node_b : node := init_node (Some [120] : CryptoNone.st).

Lemma node_a_sender : sender [97; 98; 99] node_a [].
Proof. split; [apply init_node_inv|done|done|by split|done]. Qed.

Lemma node_b_receiver : receiver node_b.
Proof. split; [done|done|done|by eexists]. Qed.

Lemma entries_end_to_end_witness :
  wp (rs ← write_all sample_entries; started ← run_session; mret (rs, started)) (λ r nA',
    r.2 = true → ∃ (ess : list (list entry)) (enc : list Z),
      concat ess = accepted sample_entries r.1 ∧
      Forall (λ es, zlen (entries_bytes es) ≤ MAX_BLOCK_PAYLOAD_SIZE) ess ∧
      cbor_encode_pouch_header POUCH_HEADER_MAX_LEN
        (mk_header POUCH_HEADER_VERSION (plaintext_info [97; 98; 99])) = Some enc ∧
      (∀ fuel maxlen, 0 < maxlen < 2 ^ 32 → zlen (entry_pouch_bytes ess enc) < Z.of_nat fuel →
        wp (drain fuel maxlen) (λ out _, out = entry_pouch_bytes ess enc) nA') ∧
      (∀ chunks : list (list Z), concat chunks = entry_pouch_bytes ess enc →
        (∀ c es, c ∈ chunks → es ∈ ess → zlen c ≤ zlen (entry_block es)) →
        (∀ c, c ∈ chunks → POUCH_HEADER_MAX_LEN + zlen c ≤ MAX_CIPHERTEXT_BLOCK_SIZE) →
        wp pouch_downlink_start (λ _ nB', collect_failed nB' ∨
          delivers_all (n_calls node_b) (length chunks + 2 * length ess)
            (block_entry_calls ess) chunks nB') node_b)) node_a.
Proof.
  apply (entries_end_to_end [97; 98; 99] node_a node_b [] [] sample_entries);
    [apply node_a_sender|apply node_b_receiver|apply init_node_inv|apply sample_entries_valid..].
Defined.

(** The same run, computed: the bytes of the session, pushed three at a time. *)
Lemma entries_end_to_end_example :
  wp (rs ← write_all sample_entries; started ← run_session; out ← drain 200 20; mret (rs, started, out))
    (λ r _, r.1 = ([success; success; success], true) ∧
      wp (pouch_downlink_start;; push_chunks (pieces_of 3 100 r.2);; pouch_downlink_finish)
        (λ _ n, n_calls (run_first (run_first n)) = concat (map entry_calls (map app_entry sample_entries)))
        node_b) node_a.
Proof. vm_compute. by split. Qed.
End end_to_end_witnesses.
