(* ===== verification/Names.v ===== *)
(** The string literals of [golioth_sdk], of the example [examples/ble_gatt], and of the
    tests, as lists of characters. *)
From Stdlib Require Import ZArith List String Ascii.

Definition chars (s : string) : list Z :=
  List.map (fun a => Z.of_N (N_of_ascii a)) (list_ascii_of_string s).

(** [ota.c] *)
Definition GOLIOTH_OTA_COMPONENT_PATH_PREFIX : list Z := Eval cbv in chars ".u/c/".
Definition GOLIOTH_OTA_COMPONENT_PATH : list Z := Eval cbv in chars "/.u/c/*".
Definition GOLIOTH_OTA_MANIFEST_PATH : list Z := Eval cbv in chars "/.u/desired".

(** [settings.c] *)
Definition SETTINGS_DOWNLINK_PATH : list Z := Eval cbv in chars "/.c".
Definition SETTINGS_UPLINK_PATH : list Z := Eval cbv in chars ".c/status".

(** Keys. *)
Definition key_settings : list Z := Eval cbv in chars "settings".
Definition key_version : list Z := Eval cbv in chars "version".
Definition key_s : list Z := Eval cbv in chars "s".
Definition key_r : list Z := Eval cbv in chars "r".
Definition key_pkg : list Z := Eval cbv in chars "pkg".
Definition key_v : list Z := Eval cbv in chars "v".
Definition key_t : list Z := Eval cbv in chars "t".

(** [examples/ble_gatt]: the component, the setting, and the entry of the water sensor.
    A backquote stands for a double quote in the payloads. *)
Definition component_main : list Z := Eval cbv in chars "main".
Definition setting_led : list Z := Eval cbv in chars "LED".
Definition WATER_PATH : list Z := Eval cbv in chars ".s/water".

Definition quoted (s : string) : list Z := List.map (fun c => if Z.eqb c 96 then 34%Z else c) (chars s).
Definition water_present : list Z := Eval cbv in quoted "{`water_present`:true}".
Definition water_absent : list Z := Eval cbv in quoted "{`water_present`:false}".

(** [tests/pouch]. *)
Definition DEVICE_ID : list Z := Eval cbv in chars "test-device-id".
Definition test_path : list Z := Eval cbv in chars "test/path".
Definition test_path1 : list Z := Eval cbv in chars "test/path1".
Definition test_path2 : list Z := Eval cbv in chars "test/path2".
