(* ===== verification/Conformance.v ===== *)
(** The test suites of the repository, [tests/pouch], on the model: the helpers and the
    tests translated, and run. Every test passes, in the order of the suite and with
    the state the tests leave to each other, so where the tests look, the model does
    what the code does. [test_multithread_writer] is missing: it needs two threads.

    The devices of the suites have plaintext headers; [skip_pouch_header] and
    [test_pouch_header] take a header apart with zcbor, here with the generated
    decoder for it. *)
From S2P Require Import Prelude Zephyr Config Buf Block Header Node CryptoNone Reference.
From S2P Require Import Entry Stream Uplink Downlink Pouch Receive Names.

(** ** The test bench *)

Section bench.
Context `{Cfg : Config} `{Zk : Zephyr} `{Mal : Malloc} `{Hnd : Handlers} `{Co : HeaderCodec}.
#[local] Existing Instance crypto_none.

(** An assertion that fails ends the test. *)
Definition zassert {S} (b : bool) : M S unit := if b then mret tt else ub.
Definition zassert_ok {S} (err : rc) : M S unit := zassert (bool_decide (err = success)).

(** [k_sleep]: the work queue runs until it is idle. *)
Definition k_sleep : M node unit := run_pending 1000.

(** Power-up, and [init_pouch] of the suites. *)
Definition init_pouch (device_id : list Z) : M node unit :=
  pouch_init (CryptoNone.crypto_init (Some device_id));; mret tt.
Definition power_up : node := init_node (None : CryptoNone.st).

(** *** [common/src/transport.c] *)

(** The node and the static pointer [uplink]. *)
Record bench := mk_bench { bn_node : node; bn_uplink : bool }.

Definition with_node {A} (m : M node A) : M bench A :=
  zoom bn_node (λ n b, mk_bench n (bn_uplink b)) m.
Definition set_handle (up : bool) : M bench unit := modify (λ b, mk_bench (bn_node b) up).

Definition transport_session_start : M bench unit :=
  b ← get; zassert (negb (bn_uplink b));;
  up ← with_node pouch_uplink_start; set_handle up.

Definition transport_session_end : M bench unit :=
  b ← get; zassert (bn_uplink b);;
  with_node pouch_uplink_finish;; set_handle false.

Definition transport_pull_data (len : Z) : M bench (pouch_result * Z * list Z) :=
  b ← get; zassert (bn_uplink b);;
  with_node (pouch_uplink_fill len).

Definition transport_flush : M bench unit := b ← get; zassert (bn_uplink b).

Fixpoint purge (fuel : nat) : M bench unit :=
  match fuel with
  | O => nofuel
  | S fuel =>
      '(result, len, _) ← with_node (pouch_uplink_fill CONFIG_POUCH_BLOCK_SIZE);
      if negb (bool_decide (result = POUCH_MORE_DATA)) || (len =? 0) then mret tt else purge fuel
  end.

Definition transport_reset : M bench unit :=
  b ← get;
  (if negb (bn_uplink b) then
     up ← with_node pouch_uplink_start; set_handle up;;
     with_node (pouch_uplink_close success);;
     with_node k_sleep
   else mret tt);;
  purge 1000;;
  with_node pouch_uplink_finish;;
  set_handle false.

(** *** [common/include/utils.h] *)

(** A pointer into the data read is the list of the bytes from there on. *)
Record block := mk_block { bk_id : Z; bk_first : bool; bk_last : bool; bk_data_len : Z; bk_data : list Z }.

Definition pull_block (buf : list Z) : option (block * list Z) :=
  match buf with
  | b0 :: b1 :: b2 :: data =>
      let data_len := usz (b0 * 256 + b1 - 1) in
      Some (mk_block (Z.land b2 31) (negb (Z.land b2 64 =? 0)) (negb (Z.land b2 128 =? 0)) data_len data,
            drop (Z.to_nat data_len) data)
  | _ => None
  end.

Record stream_block := mk_stream_block {
  sb_block : block; sb_content_type : Z; sb_path_len : Z; sb_path : list Z; sb_data : list Z; sb_data_len : Z }.

Definition pull_stream_block (buf : list Z) : option (stream_block * list Z) :=
  '(b, rest) ← pull_block buf;
  match bk_data b with
  | c0 :: c1 :: path_len :: path =>
      Some (mk_stream_block b (c0 * 256 + c1) path_len path (drop (Z.to_nat path_len) path)
        (usz (bk_data_len b - 3 - path_len)), rest)
  | _ => None
  end.

(** The blocks behind the header. *)
Definition skip_pouch_header (buf : list Z) : option (list Z) :=
  '(_, k) ← cbor_decode_pouch_header buf; Some (drop (Z.to_nat k) buf).

Definition each {S A} (l : list A) (f : A → M S unit) : M S unit := foldr (λ a r, f a;; r) (mret tt) l.

Definition found {S A} (o : option A) : M S A :=
  match o with Some a => mret a | None => ub end.

(** [zassert_mem_equal] of the first [len] bytes. *)
Definition mem_equal {S} (a b : list Z) (len : Z) : M S unit :=
  zassert (bool_decide (slice 0 len a = slice 0 len b ∧ len ≤ zlen a ∧ len ≤ zlen b)).
End bench.

(** The helpers read back what the library writes. *)
Section readers.
Context `{COk : ConfigOk} `{ZS : ZephyrSpec}.

Lemma pull_block_bytes id first last payload rest :
  0 ≤ id < 32 → zlen payload < 65535 →
  pull_block (block_bytes id first last payload ++ rest) =
  Some (mk_block id first last (zlen payload) (payload ++ rest), rest).
Proof.
  intros Hid Hp. pose proof (zlen_nonneg payload) as Hn.
  destruct (block_id_byte_fields id first last Hid) as (_ & H1 & H2 & H3).
  unfold block_bytes. rewrite sys_put_be16_spec by lia. cbn [app pull_block].
  assert (usz ((1 + zlen payload) / 256 * 256 + (1 + zlen payload) mod 256 - 1) = zlen payload) as ->.
  { pose proof (Z.div_mod (1 + zlen payload) 256). rewrite usz_small; lia. }
  change 31 with BLOCK_ID_MASK. change 64 with FIRST_DATA_MASK. change 128 with LAST_DATA_MASK.
  rewrite H1, H2, H3. do 3 f_equal. unfold zlen. by rewrite Nat2Z.id, drop_app_length.
Qed.

Lemma pull_stream_block_bytes id last path ct d rest :
  0 ≤ id < 32 → 0 ≤ ct < 65536 → zlen path < 256 → zlen (stream_payload (Some (path, ct)) d) < 65535 →
  pull_stream_block (block_bytes id true last (stream_payload (Some (path, ct)) d) ++ rest) =
  Some (mk_stream_block (mk_block id true last (3 + zlen path + zlen d) (stream_payload (Some (path, ct)) d ++ rest))
    ct (zlen path) (path ++ d ++ rest) (d ++ rest) (zlen d), rest).
Proof.
  intros Hid Hct Hp Hsz. pose proof (zlen_nonneg path). pose proof (zlen_nonneg d).
  assert (zlen (stream_payload (Some (path, ct)) d) = 3 + zlen path + zlen d) as Hlen.
  { cbn [stream_payload]. rewrite zlen_app, be16_zlen, zlen_cons, zlen_app by lia. lia. }
  unfold pull_stream_block. rewrite pull_block_bytes, Hlen by lia. cbn [stream_payload].
  rewrite sys_put_be16_spec, u8_small by lia. cbn [app]. rewrite <- app_assoc.
  cbv [mbind option_bind]. cbn [bk_data bk_data_len].
  assert (usz (3 + zlen path + zlen d - 3 - zlen path) = zlen d) as -> by (rewrite usz_small; lia).
  pose proof (Z.div_mod ct 256). replace (ct / 256 * 256 + ct mod 256) with ct by lia.
  do 3 f_equal. unfold zlen. by rewrite Nat2Z.id, drop_app_length.
Qed.
End readers.

(** ** [uplink/src/uplink.c] *)

Section uplink_suite.
Context `{Cfg : Config} `{Zk : Zephyr} `{Mal : Malloc} `{Hnd : Handlers} `{Co : HeaderCodec}.
#[local] Existing Instance crypto_none.

Definition OCTET_STREAM : Z := 42.
Definition K_FOREVER : rc := success.

Definition entry_write (path data : list Z) : M bench unit :=
  err ← with_node (pouch_uplink_entry_write K_FOREVER (Some path) OCTET_STREAM (Some data) (zlen data));
  zassert_ok err.

(** The work item of [write_entry] runs while the test waits. *)
Definition write_entry (len : Z) : M bench unit :=
  entry_write test_path (replicate (Z.to_nat len) 97).

Definition read_data : M bench (list Z) :=
  '(_, _, data) ← transport_pull_data CONFIG_POUCH_BLOCK_SIZE; mret data.

Definition close_and_run : M bench unit :=
  with_node (pouch_uplink_close K_FOREVER);; with_node k_sleep.

Definition data1 : list Z := [1; 2; 3; 4; 5; 6].
Definition data2 : list Z := [7; 8; 9; 10; 11; 12].

Definition test_pouch_header : M bench unit :=
  transport_session_start;;
  write_entry 1;;
  close_and_run;;
  buf ← read_data;
  '(h, _) ← found (cbor_decode_pouch_header buf);
  zassert (hd_version h =? 1);;
  match hd_encryption_info h with
  | plaintext_info id => zassert (bool_decide (id = DEVICE_ID))
  | saead_info _ _ => zassert false
  end.

(** [sys_get_be16] at an index. *)
Definition be16_at (l : list Z) (i : nat) : Z :=
  match drop i l with b0 :: b1 :: _ => b0 * 256 + b1 | _ => -1 end.

Definition test_pouch_block : M bench unit :=
  transport_session_start;;
  entry_write test_path data1;;
  close_and_run;;
  buf ← read_data;
  block ← found (skip_pouch_header buf);
  zassert (be16_at block 0 =? zlen block - 2);;
  zassert (bool_decide (block !! 2%nat = Some (Z.lor 128 64))).

Definition test_pouch_entry : M bench unit :=
  transport_session_start;;
  entry_write test_path data1;;
  close_and_run;;
  buf ← read_data;
  block ← found (skip_pouch_header buf);
  let block_data := drop 3 block in
  zassert (zlen block_data =? 5 + zlen test_path + zlen data1);;
  zassert (be16_at block_data 0 =? zlen data1);;
  zassert (be16_at block_data 2 =? OCTET_STREAM);;
  zassert (bool_decide (block_data !! 4%nat = Some (zlen test_path)));;
  mem_equal (drop 5 block_data) test_path (zlen test_path);;
  mem_equal (drop (5 + length test_path) block_data) data1 (zlen data1).

Definition test_pull_no_data : M bench unit :=
  transport_session_start;;
  buf ← read_data;
  zassert (zlen buf =? 0).

(** The loop of [test_pull_partial]; returns [offset]. *)
Fixpoint pull_bytes (fuel : nat) (offset : Z) : M bench Z :=
  match fuel with
  | O => nofuel
  | S fuel =>
      if negb (offset <? CONFIG_POUCH_BLOCK_SIZE) then mret offset else
      '(result, len, _) ← transport_pull_data 1;
      zassert (len =? 1);;
      if bool_decide (result = POUCH_NO_MORE_DATA) then mret (offset + len) else
      zassert (bool_decide (result = POUCH_MORE_DATA));;
      pull_bytes fuel (offset + len)
  end.

Definition test_pull_partial : M bench unit :=
  transport_session_start;;
  write_entry 6;;
  close_and_run;;
  offset ← pull_bytes 1000 0;
  zassert (offset =? 42).

Definition test_submit_before_session : M bench unit :=
  write_entry 6;;
  transport_session_start;;
  close_and_run;;
  buf ← read_data;
  zassert (zlen buf =? 42).

Definition test_submit_after_close : M bench unit :=
  transport_session_start;;
  entry_write test_path data1;;
  close_and_run;;
  entry_write test_path data2;;
  buf ← read_data;
  zassert (zlen buf =? 42);;
  transport_session_end;;
  transport_session_start;;
  close_and_run;;
  buf ← read_data;
  zassert (zlen buf =? 42);;
  mem_equal (drop (42 - length data2) buf) data2 (zlen data2).

(** *** Streams *)

Definition stream_open (path : list Z) : M bench ptr :=
  stream ← with_node (pouch_uplink_stream_open path OCTET_STREAM);
  zassert (bool_decide (stream ≠ NULL));;
  mret stream.

Definition stream_write (stream : ptr) (data : list Z) : M bench unit :=
  written ← with_node (pouch_stream_write stream data (zlen data));
  zassert (written =? zlen data).

Definition stream_close (stream : ptr) : M bench unit :=
  err ← with_node (pouch_stream_close stream); zassert_ok err.

(** [i & 0xff] for every index [i] below [n]. *)
Definition dummy_data (n : Z) : list Z := map (λ i, Z.of_nat i mod 256) (seq 0 (Z.to_nat n)).

(** A pull of everything, in one call. *)
Definition pull_all (len : Z) : M bench (list Z) :=
  '(result, _, buf) ← transport_pull_data len;
  zassert (bool_decide (result = POUCH_NO_MORE_DATA));;
  found (skip_pouch_header buf).

Definition between (x a b : Z) : M bench unit := zassert ((a <=? x) && (x <=? b)).

Definition test_stream_basic : M bench unit :=
  transport_session_start;;
  stream ← stream_open test_path;
  stream_write stream data1;;
  stream_close stream;;
  with_node k_sleep;;
  buf ← read_data;
  block ← found (skip_pouch_header buf);
  zassert (be16_at block 0 =? zlen block - 2);;
  stream_id ← found (block !! 2%nat);
  between stream_id 129 255;;
  zassert (be16_at block 3 =? OCTET_STREAM);;
  zassert (bool_decide (block !! 5%nat = Some (zlen test_path)));;
  mem_equal (drop 6 block) test_path (zlen test_path);;
  mem_equal (drop (6 + length test_path) block) data1 (zlen data1).

Definition test_stream_multiblock : M bench unit :=
  transport_session_start;;
  stream ← stream_open test_path;
  let data := dummy_data (CONFIG_POUCH_BLOCK_SIZE + 50) in
  stream_write stream data;;
  stream_close stream;;
  close_and_run;;
  blockbuf ← pull_all (CONFIG_POUCH_BLOCK_SIZE + 200);
  '(first_block, blockbuf) ← found (pull_stream_block blockbuf);
  let b := sb_block first_block in
  between (bk_data_len b) 1 CONFIG_POUCH_BLOCK_SIZE;;
  between (bk_id b) 1 127;;
  zassert (bk_first b && negb (bk_last b));;
  zassert (sb_content_type first_block =? OCTET_STREAM);;
  zassert (sb_path_len first_block =? zlen test_path);;
  mem_equal (sb_path first_block) test_path (zlen test_path);;
  mem_equal (sb_data first_block) data (sb_data_len first_block);;
  '(second_block, _) ← found (pull_block blockbuf);
  between (bk_data_len second_block) 1 (CONFIG_POUCH_BLOCK_SIZE + 200 - sb_data_len first_block - 3);;
  between (bk_id second_block) 1 127;;
  zassert (bk_id second_block =? bk_id b);;
  zassert (negb (bk_first second_block) && bk_last second_block);;
  mem_equal (bk_data second_block) (drop (Z.to_nat (sb_data_len first_block)) data) (bk_data_len second_block).

(** The checks of one block of [test_stream_multi_stream]. *)
Definition whole_stream (b : stream_block) (path data : list Z) : M bench unit :=
  zassert (bk_first (sb_block b) && bk_last (sb_block b));;
  zassert (negb (bk_id (sb_block b) =? 0));;
  zassert (sb_data_len b =? zlen data);;
  mem_equal (sb_data b) data (zlen data);;
  zassert (sb_path_len b =? zlen path);;
  mem_equal (sb_path b) path (zlen path).

Definition test_stream_multi_stream : M bench unit :=
  transport_session_start;;
  stream1 ← stream_open test_path1;
  stream2 ← stream_open test_path2;
  let data2 := [7; 8; 9; 10; 11; 12; 13; 14; 15] in
  stream_write stream1 data1;;
  stream_write stream2 data2;;
  stream_close stream1;;
  stream_close stream2;;
  with_node k_sleep;;
  buf ← read_data;
  buf ← found (skip_pouch_header buf);
  '(block1, buf) ← found (pull_stream_block buf);
  whole_stream block1 test_path1 data1;;
  '(block2, buf) ← found (pull_stream_block buf);
  whole_stream block2 test_path2 data2.

(** Writing [data] to both streams in chunks of eight bytes. *)
Fixpoint write_both (fuel : nat) (stream1 stream2 : ptr) (data : list Z) : M bench unit :=
  match fuel, data with
  | O, _ => nofuel
  | _, [] => mret tt
  | S fuel, _ =>
      stream_write stream1 (take 8 data);;
      stream_write stream2 (take 8 data);;
      write_both fuel stream1 stream2 (drop 8 data)
  end.

(** The blocks behind the first two, in turns; [s] is the stream whose turn it is, [t] the
    other, both with their id and the data they have got. *)
Fixpoint pull_turns (turns : nat) (total : Z) (blockbuf : list Z) (s t : Z * list Z)
    : M bench ((Z * list Z) * (Z * list Z)) :=
  match turns with
  | O => mret (s, t)
  | S turns =>
      '(b, blockbuf) ← found (pull_block blockbuf);
      zassert (bk_id b =? s.1);;
      zassert (zlen s.2 + bk_data_len b <=? total);;
      let got := s.2 ++ slice 0 (bk_data_len b) (bk_data b) in
      zassert (Bool.eqb (bk_last b) (negb (zlen got <? total)));;
      pull_turns turns total blockbuf t (s.1, got)
  end.

(** The first block of a stream. *)
Definition pull_first (path blockbuf : list Z) : M bench ((Z * list Z) * list Z) :=
  '(b, blockbuf) ← found (pull_stream_block blockbuf);
  mem_equal (sb_path b) path (zlen path);;
  zassert (sb_content_type b =? OCTET_STREAM);;
  mret ((bk_id (sb_block b), slice 0 (sb_data_len b) (sb_data b)), blockbuf).

Definition test_stream_multi_block_multi_stream : M bench unit :=
  transport_session_start;;
  stream1 ← stream_open test_path1;
  stream2 ← stream_open test_path2;
  let total := CONFIG_POUCH_BLOCK_SIZE * 2 in
  let data := dummy_data total in
  write_both (S (length data)) stream1 stream2 data;;
  stream_close stream1;;
  stream_close stream2;;
  close_and_run;;
  blockbuf ← pull_all (CONFIG_POUCH_BLOCK_SIZE * 5);
  '(s1, blockbuf) ← pull_first test_path1 blockbuf;
  '(s2, blockbuf) ← pull_first test_path2 blockbuf;
  zassert (negb (s1.1 =? s2.1));;
  '(s1, s2) ← pull_turns 4 total blockbuf s1 s2;
  zassert (bool_decide (s1.2 = data ∧ s2.2 = data)).

(** Opening [k] streams. *)
Fixpoint open_all (k : nat) : M bench (list ptr) :=
  match k with
  | O => mret []
  | S k => stream ← stream_open test_path; l ← open_all k; mret (stream :: l)
  end.

Definition test_stream_max_count : M bench unit :=
  transport_session_start;;
  streams ← open_all (Z.to_nat POUCH_STREAMS_MAX);
  stream ← with_node (pouch_uplink_stream_open test_path OCTET_STREAM);
  zassert (bool_decide (stream = NULL));;
  each streams stream_close.

Definition test_stream_empty : M bench unit :=
  transport_session_start;;
  stream ← stream_open test_path;
  stream_close stream;;
  close_and_run;;
  buf ← read_data;
  zassert (zlen buf =? 0).

Definition is_valid (stream : ptr) (expected : bool) : M bench unit :=
  valid ← with_node (pouch_stream_is_valid stream); zassert (Bool.eqb valid expected).

Definition test_stream_fail_to_close_stream : M bench unit :=
  stream ← stream_open test_path;
  is_valid stream true;;
  transport_session_start;;
  is_valid stream true;;
  stream_write stream data1;;
  err ← with_node (pouch_uplink_close K_FOREVER); zassert_ok err;;
  transport_session_end;;
  is_valid stream false;;
  stream_close stream;;
  transport_session_start;;
  with_node k_sleep;;
  buf ← read_data;
  zassert (zlen buf =? 0).

(** The bytes behind the first eight, which the test does not set, are zero here. *)
Definition test_stream_length_aligned_to_block_size : M bench unit :=
  transport_session_start;;
  stream ← stream_open test_path;
  let data_len := CONFIG_POUCH_BLOCK_SIZE * 2 - (2 + 1 + zlen test_path) in
  let data := dummy_data 8 ++ replicate (Z.to_nat (data_len - 8)) 0 in
  stream_write stream data;;
  stream_close stream;;
  close_and_run;;
  start_of_blocks ← pull_all (CONFIG_POUCH_BLOCK_SIZE * 2 + 100);
  '(block1, blockbuf) ← found (pull_stream_block start_of_blocks);
  zassert (bk_first (sb_block block1) && negb (bk_last (sb_block block1)));;
  zassert (negb (bk_id (sb_block block1) =? 0));;
  zassert (bk_data_len (sb_block block1) =? CONFIG_POUCH_BLOCK_SIZE);;
  mem_equal (sb_data block1) data (sb_data_len block1);;
  '(block2, blockbuf) ← found (pull_block blockbuf);
  zassert (negb (bk_first block2) && bk_last block2);;
  zassert (bk_id block2 =? bk_id (sb_block block1));;
  zassert (bk_data_len block2 =? CONFIG_POUCH_BLOCK_SIZE);;
  mem_equal (bk_data block2) (drop (Z.to_nat (sb_data_len block1)) data) (bk_data_len block2);;
  zassert (sb_data_len block1 + bk_data_len block2 =? data_len);;
  zassert (bool_decide (blockbuf = [])).

(** The suite, in the order of the names, with [transport_reset] behind each test. *)
Definition uplink_tests : list (M bench unit) :=
  [test_pouch_block; test_pouch_entry; test_pouch_header; test_pull_no_data; test_pull_partial;
   test_stream_basic; test_stream_empty; test_stream_fail_to_close_stream;
   test_stream_length_aligned_to_block_size; test_stream_max_count; test_stream_multi_block_multi_stream;
   test_stream_multi_stream; test_stream_multiblock; test_submit_after_close; test_submit_before_session].

Definition run_suite (tests : list (M bench unit)) : M bench unit :=
  with_node (init_pouch DEVICE_ID);;
  each tests (λ test, test;; transport_reset).

Definition passes (tests : list (M bench unit)) : bool :=
  match run_suite tests (mk_bench power_up false) with Ret _ _ => true | _ => false end.
End uplink_suite.

Section uplink_results.
#[local] Existing Instances default_config default_config_ok zephyr_ref malloc_always one_handler plain_codec.

(** The suite passes. *)
Example uplink_suite_passes : passes uplink_tests = true.
Proof. by vm_compute. Qed.

(** Each test passes on a new device, too, and the suite in the reverse order. *)
Example uplink_tests_independent : forallb (λ test, passes [test]) uplink_tests && passes (rev uplink_tests) = true.
Proof. by vm_compute. Qed.
End uplink_results.

(** ** [uplink/src/events.c] *)

Section events_suite.
Context `{Cfg : Config} `{Zk : Zephyr} `{Mal : Malloc} `{Hnd : Handlers} `{Co : HeaderCodec}.
#[local] Existing Instance crypto_none.

(** The bench, the two counters, and the semaphore [event_rcvd]. *)
Record event_bench := mk_event_bench {
  eb_bench : bench; start_events : Z; end_events : Z; event_rcvd : Z }.

Definition on_bench {A} (m : M bench A) : M event_bench A :=
  zoom eb_bench (λ b e, mk_event_bench b (start_events e) (end_events e) (event_rcvd e)) m.

Definition event_handler (event : pouch_event) : M event_bench unit :=
  modify (λ e,
    match event with
    | POUCH_EVENT_SESSION_START => mk_event_bench (eb_bench e) (start_events e + 1) (end_events e) (event_rcvd e + 1)
    | POUCH_EVENT_SESSION_END => mk_event_bench (eb_bench e) (start_events e) (end_events e + 1) (event_rcvd e + 1)
    end).

(** While the test waits the work queue runs and calls the handler; without a call the
    time runs out. *)
Definition take_event_rcvd : M event_bench unit :=
  on_bench (with_node k_sleep);;
  e ← get;
  each (n_calls (bn_node (eb_bench e)))
    (λ c, match c with event_cb _ event => event_handler event | _ => mret tt end);;
  on_bench (with_node (modify (set_calls [])));;
  e ← get; zassert (0 <? event_rcvd e);;
  modify (λ e, mk_event_bench (eb_bench e) (start_events e) (end_events e) (event_rcvd e - 1)).

Definition test_start_event : M event_bench unit :=
  modify (λ e, mk_event_bench (eb_bench e) 0 (end_events e) (event_rcvd e));;
  on_bench transport_session_start;;
  take_event_rcvd;;
  e ← get; zassert (start_events e =? 1);;
  on_bench transport_session_end;;
  take_event_rcvd.

Definition test_end_event : M event_bench unit :=
  modify (λ e, mk_event_bench (eb_bench e) (start_events e) 0 (event_rcvd e));;
  on_bench transport_session_start;;
  take_event_rcvd;;
  on_bench transport_session_end;;
  take_event_rcvd;;
  e ← get; zassert (end_events e =? 1).

Definition events_passes : bool :=
  match (on_bench (with_node (init_pouch DEVICE_ID));; test_end_event;; test_start_event)
    (mk_event_bench (mk_bench power_up false) 0 0 0) with
  | Ret _ e => event_rcvd e =? 0
  | _ => false
  end.
End events_suite.

Section events_results.
#[local] Existing Instances default_config default_config_ok zephyr_ref malloc_always one_handler plain_codec.

Example events_suite_passes : events_passes = true.
Proof. by vm_compute. Qed.
End events_results.
