(* ===== verification/Gatt.v ===== *)
(** The GATT characteristics of the data path:
    [src/transport/ble_gatt/uplink_characteristic.c] and
    [src/transport/ble_gatt/downlink_characteristic.c].

    Reads of the uplink characteristic hand out the pouch in packets, starting the
    session with the first; writes of the downlink characteristic push packets into
    the receiving side. The Bluetooth stack calls the handlers with a buffer, given
    by its bytes, and uses the number they return. *)
From S2P Require Import Prelude Zephyr Config Buf Block Header Node Packetizer CryptoNone CryptoSpec.
From S2P Require Import Reference Entry Stream Uplink Session Downlink.

(** Attribute protocol errors ([zephyr/bluetooth/att.h]). *)
Definition BT_ATT_ERR_NOT_SUPPORTED : Z := 6.
Definition BT_ATT_ERR_UNLIKELY : Z := 14.
Definition BT_ATT_ERR_INSUFFICIENT_RESOURCES : Z := 17.
Definition BT_GATT_ERR (err : Z) : Z := - err.

(** ** Reading packets from a characteristic *)

(** The last part of a read handler, which the characteristics share: get a packet
    from the packetizer of the context, and drop the packetizer on an error or after
    the last packet. A context [T] holds the packetizer, and the state [S] its
    callback works on. *)
Record chrc (S T : Type) : Type := mk_chrc {
  ch_view : T → S;
  ch_update : S → T → T;
  ch_packetizer : T → option (packetizer S);
  ch_set_packetizer : option (packetizer S) → T → T;
}.
Arguments ch_view {S T} c.
Arguments ch_update {S T} c.
Arguments ch_packetizer {S T} c.
Arguments ch_set_packetizer {S T} c.

(** The parts of a context do not overlap. *)
Class ChrcOk {S T} (c : chrc S T) : Prop := {
  ch_view_update : ∀ s t, ch_view c (ch_update c s t) = s;
  ch_view_set : ∀ p t, ch_view c (ch_set_packetizer c p t) = ch_view c t;
  ch_packetizer_set : ∀ p t, ch_packetizer c (ch_set_packetizer c p t) = p;
}.

Section read.
Context `{Cfg : Config} {S T : Type} (c : chrc S T).

Definition packetizer_read (err : Z) (buf : list Z) : M T (Z * list Z) :=
  t ← get;
  '(ret, buf, buf_len, p) ← zoom (ch_view c) (ch_update c)
    (golioth_ble_gatt_packetizer_get (ch_packetizer c t) buf (zlen buf));
  modify (ch_set_packetizer c (Some p));;
  if decide (ret = GOLIOTH_BLE_GATT_PACKETIZER_ERROR) then
    zoom (ch_view c) (ch_update c) (golioth_ble_gatt_packetizer_finish (Some p));;
    modify (ch_set_packetizer c None);;
    mret (err, buf)
  else
    (if decide (ret = GOLIOTH_BLE_GATT_PACKETIZER_NO_MORE_DATA) then
       zoom (ch_view c) (ch_update c) (golioth_ble_gatt_packetizer_finish (Some p));;
       modify (ch_set_packetizer c None)
     else mret tt);;
    mret (buf_len, buf).

(** The peer reads a characteristic until a packet is marked as the last one: the
    packets, and whether the last was among them. *)
Fixpoint read_chrc (read : list Z → M T (Z * list Z)) (dsts : list (list Z))
    : M T (list (list Z) * bool) :=
  match dsts with
  | [] => mret ([], false)
  | dst :: dsts =>
      '(n, buf) ← read dst;
      let pkt := slice 0 n buf in
      i ← golioth_ble_gatt_packetizer_decode (Some pkt) (zlen pkt);
      match i with
      | inl _ => mret ([], false)
      | inr i =>
          if pi_is_last i then mret ([pkt], true) else
          '(pkts, fin) ← read_chrc read dsts; mret (pkt :: pkts, fin)
      end
  end.
End read.

(** ** The uplink characteristic *)

(** [uplink_chrc_ctx], with the node the handler works on. *)
Record uplink_chrc `{Zk : Zephyr} `{Cr : Crypto} := mk_uplink_chrc {
  uc_node : node;
  uc_packetizer : option (packetizer node);
}.
Arguments mk_uplink_chrc {_ _}.

Section uplink_chrc.
Context `{Cfg : Config} `{Zk : Zephyr} `{Mal : Malloc} `{Cr : Crypto} `{HC : HeaderCodec}.

Definition uplink_chrc_ctx : chrc node uplink_chrc :=
  mk_chrc _ _ uc_node (λ n g, mk_uplink_chrc n (uc_packetizer g))
    uc_packetizer (λ p g, mk_uplink_chrc (uc_node g) p).

#[export] Instance uplink_chrc_ok : ChrcOk uplink_chrc_ctx.
Proof. by split. Qed.

Definition on_uc_node {A} (m : M node A) : M uplink_chrc A :=
  zoom uc_node (λ n g, mk_uplink_chrc n (uc_packetizer g)) m.

(** The user argument [pouch] is the result of [pouch_uplink_start]: whether it is
    a pouch or null. [pouch_uplink_fill] looks at its argument only in an active
    session, and [pouch_uplink_finish] always. *)
Definition uplink_fill_cb (pouch : bool) : fill_cb node := λ dst_len,
  n ← get;
  '(pouch_ret, _, dst) ←
    (if pouch || negb (session_is_active (n_uplink n)) then pouch_uplink_fill dst_len else ub);
  match pouch_ret with
  | POUCH_ERROR =>
      (if pouch then pouch_uplink_finish else ub);;
      mret (GOLIOTH_BLE_GATT_PACKETIZER_ERROR, dst)
  | POUCH_NO_MORE_DATA =>
      (if pouch then pouch_uplink_finish else ub);;
      mret (GOLIOTH_BLE_GATT_PACKETIZER_NO_MORE_DATA, dst)
  | POUCH_MORE_DATA => mret (GOLIOTH_BLE_GATT_PACKETIZER_MORE_DATA, dst)
  end.

(** The part of [uplink_read] for the first packet. *)
Definition uplink_open : M uplink_chrc unit :=
  pouch ← on_uc_node pouch_uplink_start;
  p ← on_uc_node (on_mem (golioth_ble_gatt_packetizer_start_callback (uplink_fill_cb pouch)));
  modify (ch_set_packetizer uplink_chrc_ctx p).

(** The value returned, and the bytes of the buffer. *)
Definition uplink_read (buf : list Z) (offset : Z) : M uplink_chrc (Z * list Z) :=
  if negb (offset =? 0) then mret (0, buf) else
  ctx ← get;
  (match uc_packetizer ctx with None => uplink_open | Some _ => mret tt end);;
  packetizer_read uplink_chrc_ctx (BT_GATT_ERR BT_ATT_ERR_UNLIKELY) buf.
End uplink_chrc.

(** ** The downlink characteristic *)

Section downlink_chrc.
Context `{Cfg : Config} `{Zk : Zephyr} `{Mal : Malloc} `{Cr : Crypto} `{HC : HeaderCodec}.

(** [offset] and [flags] are not used. *)
Definition downlink_write (buf : list Z) (offset flags : Z) : M node Z :=
  i ← golioth_ble_gatt_packetizer_decode (Some buf) (zlen buf);
  match i with
  | inl _ => mret (BT_GATT_ERR BT_ATT_ERR_UNLIKELY)
  | inr i =>
      (if pi_is_first i then pouch_downlink_start else mret tt);;
      pouch_downlink_push (slice 0 (pi_len i) (pi_payload i));;
      (if pi_is_last i then pouch_downlink_finish else mret tt);;
      mret (zlen buf)
  end.
End downlink_chrc.

(** ** Specification *)

Section read_facts.
Context `{COk : ConfigOk} {S T : Type} (c : chrc S T) {Chok : ChrcOk c}.
Context (R : list Z → S → Prop) (D : S → Prop) (full : Prop).
(** The rest of the context, which reads leave alone. *)
Context {U : Type} (rest_of : T → U).
Context (rest_update : ∀ s t, rest_of (ch_update c s t) = rest_of t).
Context (rest_set : ∀ p t, rest_of (ch_set_packetizer c p t) = rest_of t).
Implicit Types (p : packetizer S) (dst data d : list Z) (t : T).

(** A read of a characteristic whose packetizer still has [data] gives the next
    packet, and drops the packetizer with the last. *)
Definition chrc_got p data dst t (r : Z * list Z) t' : Prop :=
  ∃ d rest (last : bool), data = d ++ rest ∧ rest_of t' = rest_of t ∧
    slice 0 r.1 r.2 = packet (pk_is_first p) last d ∧ zlen r.2 = zlen dst ∧ r.1 = 1 + zlen d ∧
    if last then ch_packetizer c t' = None ∧ rest = [] ∧ D (ch_view c t')
    else (full → zlen d = zlen dst - packet_size) ∧
      ∃ p', ch_packetizer c t' = Some p' ∧ pk_is_first p' = false ∧
        packetizer_holds R D full p' rest (ch_view c t') ∧
        ∀ f, pk_fill p = GOLIOTH_BLE_GATT_PACKETIZER_FILL_CALLBACK f → pk_fill p' = pk_fill p.

Lemma wp_packetizer_read err p data dst t :
  ch_packetizer c t = Some p → packetizer_holds R D full p data (ch_view c t) → packet_dst dst →
  wp (packetizer_read c err dst) (chrc_got p data dst t) t.
Proof.
  intros Hp Hh Hd. unfold packetizer_read. do 2 wp_step. rewrite Hp. wp_step. apply wp_zoom.
  eapply wp_mono; [by apply (wp_packet_get R D full)|].
  intros [[[ret buf] n] p'] s' (d & rest & last & -> & _ & Hpkt & Hfst & _ & Hlb & Hn & Hres).
  cbn [fst snd] in *. do 2 wp_step. unfold golioth_ble_gatt_packetizer_finish.
  destruct last.
  - destruct Hres as (-> & -> & HD). rewrite decide_False, decide_True by done.
    wp_step. wp_step. apply wp_zoom. do 2 wp_step. wp_step.
    exists d, [], true. cbn [fst snd]. rewrite ch_packetizer_set.
    rewrite !rest_set, !rest_update, !rest_set, !rest_update.
    repeat (rewrite ch_view_set || rewrite ch_view_update). by split_and!.
  - destruct Hres as (Hr & Hh' & Hfull & Hkept). rewrite decide_False by by destruct Hr as [-> | ->].
    rewrite decide_False by by destruct Hr as [-> | ->]. do 2 wp_step.
    exists d, rest, false. cbn [fst snd]. rewrite ch_view_set, ch_view_update, rest_set, rest_update.
    split_and!; try done. exists p'. by rewrite ch_packetizer_set.
Qed.

Lemma packetizer_read_ub err dst t :
  golioth_ble_gatt_packetizer_get (ch_packetizer c t) dst (zlen dst) (ch_view c t) = UB →
  packetizer_read c err dst t = UB.
Proof.
  intros Hub. unfold packetizer_read. apply ub_bind. wp_step.
  unfold mbind, M_bind, zoom at 1. by rewrite Hub.
Qed.

Lemma decode_run first last d (s : S) :
  golioth_ble_gatt_packetizer_decode (Some (packet first last d)) (zlen (packet first last d)) s =
  Ret (inr (mk_packet_info d (zlen d) first last)) s.
Proof. apply wp_run. by apply decode_packet. Qed.

(** Reading on: the packets of [data]; the whole of it when there is room. *)
Lemma wp_read_chrc read err :
  (∀ t p dst, ch_packetizer c t = Some p → packet_dst dst → read dst t = packetizer_read c err dst t) →
  ∀ dsts p data t,
  ch_packetizer c t = Some p → packetizer_holds R D full p data (ch_view c t) →
  Forall packet_dst dsts →
  wp (read_chrc read dsts) (λ r t', ∃ ds rest,
    data = concat ds ++ rest ∧ r.1 = packets (pk_is_first p) r.2 ds ∧ rest_of t' = rest_of t ∧
    (if r.2 then ds ≠ [] ∧ rest = [] ∧ ch_packetizer c t' = None ∧ D (ch_view c t')
     else ∃ p', ch_packetizer c t' = Some p' ∧ packetizer_holds R D full p' rest (ch_view c t')) ∧
    (full → zlen data < payload_room dsts → r.2 = true)) t.
Proof.
  intros Hread dsts. induction dsts as [|dst dsts IH]; intros p data t Hp Hh Hds; cbn [read_chrc].
  { wp_step. exists [], data. split_and!; [done|done|done|by exists p|].
    intros _ Hroom. cbn in Hroom. pose proof (zlen_nonneg data). lia. }
  apply Forall_cons_iff in Hds as [Hd Hds]. wp_step.
  eapply wp_same; [by eapply Hread|]. eapply wp_mono; [by apply (wp_packetizer_read err p data)|].
  intros [n buf] t1 (d & rest & last & -> & Hrest & Hpkt & _ & _ & Hres). cbn [fst snd] in *. rewrite Hpkt.
  wp_step. apply decode_packet. cbn [pi_is_last]. destruct last.
  - destruct Hres as (Hnone & -> & HD). wp_step. exists [d], []. cbn. rewrite !app_nil_r.
    by split_and!.
  - destruct Hres as (Hfull & p' & Hp' & Hf & Hh' & _). wp_step.
    eapply wp_mono; [by apply (IH p' rest)|].
    intros [pkts fin] t2 (ds & rest' & -> & Hpk & Hrest' & Hfin & Hdone). cbn [fst snd] in *. wp_step.
    exists (d :: ds), rest'. cbn [fst snd concat packets]. rewrite Hpk, Hf.
    split_and!; [by rewrite app_assoc| |congruence| |].
    + f_equal. destruct fin; [|done]. destruct Hfin as (Hne & _). by destruct ds.
    + destruct fin; [|done]. by destruct Hfin as (_ & ? & ?).
    + intros Hfu Hroom. apply Hdone; [done|]. rewrite zlen_app in Hroom.
      cbn [payload_room foldr] in Hroom. fold (payload_room dsts) in Hroom.
      specialize (Hfull Hfu). lia.
Qed.

(** A first read that opens the packetizer is a read of the opened context. *)
Lemma read_chrc_first (read : list Z → M T (Z * list Z)) dst dsts t t0 :
  read dst t = read dst t0 → read_chrc read (dst :: dsts) t = read_chrc read (dst :: dsts) t0.
Proof. intros He. cbn [read_chrc]. unfold mbind at 1 3, M_bind at 1 3. by rewrite He. Qed.
End read_facts.

Section uplink_facts.
Context `{COk : ConfigOk} `{ZS : ZephyrSpec} `{Mal : Malloc} `{Cr : Crypto}.
Context {CS : CryptoSpec Cr} `{HC : HeaderCodecSpec}.
Implicit Types (n : node) (g : uplink_chrc) (dst data : list Z).

(** What reading the uplink leaves alone. *)
Record read_frame n n' : Prop := {
  rf_entry : n_entry n' = n_entry n;
  rf_streams : n_streams n' = n_streams n;
  rf_downlink : n_downlink n' = n_downlink n;
  rf_calls : n_calls n' = n_calls n;
  rf_processing : up_processing (n_uplink n') = up_processing (n_uplink n);
}.

(** A closed pouch of which [data] is left to send. *)
Record sending n0 (lk : list nat) data n : Prop := {
  sg_inv : node_inv n lk;
  sg_crypto : crypto_ok (n_crypto n);
  sg_active : session_is_active (n_uplink n) = true;
  sg_closed : pouch_is_open (n_uplink n) = false;
  sg_tx : tx n data;
  sg_frame : read_frame n0 n;
  sg_events : n_events n = n_events n0;
}.

(** It is sent: the session has ended and the node is ready for the next. *)
Record sent n0 (lk : list nat) n : Prop := {
  st_inv : node_inv n lk;
  st_crypto : crypto_ok (n_crypto n);
  st_idle : idle n;
  st_frame : read_frame n0 n;
  st_events : n_events n = (k_msgq_put (n_events n0) POUCH_EVENT_SESSION_END).2;
}.

Lemma read_frame_trans n n' n'' : read_frame n n' → read_frame n' n'' → read_frame n n''.
Proof. intros [] []. split; congruence. Qed.

Lemma uplink_fill_serves n0 lk : serves (uplink_fill_cb true) (sending n0 lk) (sent n0 lk) True.
Proof.
  intros data k n [Hinv Hc Hact Hcl Htx Hfr Hev] Hk. unfold uplink_fill_cb. do 2 wp_step. cbn [orb].
  wp_step. eapply wp_mono; [apply (wp_uplink_fill n lk data k); try done; lia|].
  intros [[r m] out'] n1 (out & rest & _ & Hout & -> & Hle & Htx1 & Hinv1 & Hc1 & _ & Hres).
  cbn in Hout, Hres |- *. subst out'. rewrite Hcl in Hres. destruct (decide (r = POUCH_MORE_DATA)) as [->|Hr].
  - destruct Hres as (Hff & Hfull & _). wp_step. exists rest. cbn [fst snd].
    destruct Hff as [? ? ? ? ? ? ? Hfl ? ? ?]. split_and!; [done|done| |done]. split; try done.
    + unfold session_is_active. by rewrite Hfl.
    + unfold pouch_is_open. by rewrite Hfl.
    + eapply read_frame_trans; [exact Hfr|]. by split.
    + congruence.
  - destruct Hres as (-> & -> & Hte & [He Hs Hd Hca Hi Hh Hp Hfl [Hev1 _]]). wp_step.
    eapply wp_mono; [by apply (wp_uplink_finish n1 lk)|].
    intros [] n2 (Hinv2 & Hc2 & Hte2 & Hh2 & Hf2 & _ & [] & Hev2). wp_step.
    exists []. cbn [fst snd]. split_and!; [done|done|done|].
    assert (session_is_active (n_uplink n1) = false) as Hin.
    { rewrite session_is_active_bit, Hfl. apply Z.clearbit_eq. }
    rewrite Hin in Hev2. split; [done|done|by split| |].
    + eapply read_frame_trans; [exact Hfr|]. split; congruence.
    + destruct Hev2 as [-> _]. by rewrite Hev1, Hev.
Qed.

(** *** While the pouch is open *)

Lemma wp_fill_idle n k :
  session_is_active (n_uplink n) = true → pouch_is_open (n_uplink n) = true → tx_empty n → 0 < k →
  wp (pouch_uplink_fill k) (λ r n', r = (POUCH_MORE_DATA, 0, []) ∧
    ∃ q, slist_items q = [] ∧ n' = set_uplink (up_set_transport q (n_uplink n)) n) n.
Proof.
  intros Hact Hop [Hv Hq] Hk. unfold pouch_uplink_fill. do 2 wp_step. rewrite Hact. cbn [negb fill_loop].
  change (zlen []) with 0. rewrite (proj2 (Z.ltb_lt 0 k) Hk). wp_steps.
  apply wp_on_mem. unfold pouch_bufview_is_ready. rewrite Hv. wp_step. rewrite set_mem_id.
  wp_steps. apply wp_on_mem. apply wp_queue_get_empty; [done|]. intros q' Hq'. rewrite set_mem_id.
  unfold modify_uplink. wp_steps. cbn [negb]. wp_steps.
  assert (pouch_is_open (n_uplink (set_uplink (up_set_transport q' (n_uplink n)) n)) = true) as -> by done.
  do 2 wp_step. split; [done|]. by exists q'.
Qed.

Lemma started_mem n n' lk enc open xs q :
  uplink_ok n lk → started n enc open xs → slist_items q = [] →
  n_entry n' = n_entry n → n_streams n' = n_streams n → n_downlink n' = n_downlink n →
  n_crypto n' = n_crypto n → n_uplink n' = up_set_transport q (n_uplink n) →
  heap_owns (n_mem n') (owned n ++ lk) → heap (n_mem n') = heap (n_mem n) →
  uplink_ok n' lk ∧ started n' enc open xs.
Proof.
  intros [Hinv Hc Hb] [Hfl (l & Hl & Henc) Hhb [Hv Htx] Hrep Hxs] Hq He Hs Hd Hcr Hu Hm Hheap.
  assert (up_processing (n_uplink n') = up_processing (n_uplink n)) as Hp by by rewrite Hu.
  split.
  - split; [|by rewrite Hcr|].
    + unfold node_inv. eapply heap_owns_proper; [|exact Hm].
      unfold owned, uplink_owned. rewrite Hu, He, Hs, Hd. cbn. by rewrite Htx, Hq.
    + intros k x Hk Hx. rewrite Hp in Hk. apply (Hb k x Hk). revert Hx. unfold ptr_contents. by rewrite Hheap.
  - split; rewrite ?Hp.
    + by rewrite Hu.
    + exists l. rewrite Hu. split; [done|]. revert Henc. unfold ptr_contents. by rewrite Hheap.
    + by rewrite Hcr.
    + unfold tx_empty. by rewrite Hu.
    + eapply entry_rep_kept; [exact Hrep|done|by rewrite Hheap].
    + eapply holds_kept; [|exact Hxs]. intros k _. by rewrite Hheap.
Qed.

(** The callback while the pouch is open: no bytes, and more to come. *)
Definition opened n0 lk enc open xs data n : Prop :=
  data = [] ∧ uplink_ok n lk ∧ started n enc open xs ∧ n_events n = n_events n0 ∧
  n_streams n = n_streams n0 ∧ n_downlink n = n_downlink n0 ∧ n_calls n = n_calls n0.

Lemma open_fill_serves n0 lk enc open xs :
  serves (uplink_fill_cb true) (opened n0 lk enc open xs) (λ _, False) False.
Proof.
  intros data k n (-> & Hok & Hst & Hev & Hs & Hd & Hca) Hk. unfold uplink_fill_cb. do 2 wp_step. cbn [orb].
  wp_step. pose proof Hst as [Hfl _ _ Htx _ _]. eapply wp_mono.
  { apply wp_fill_idle; [| |done|lia].
    - by rewrite session_is_active_bit, Hfl.
    - by rewrite pouch_is_open_bit, Hfl. }
  intros [[r m] out] n1 ([= -> -> ->] & q & Hq & ->). wp_step. exists []. cbn [fst snd].
  split; [done|]. split; [change (zlen []) with 0; lia|]. split; [|done]. split; [done|].
  destruct (started_mem n (set_uplink (up_set_transport q (n_uplink n)) n) lk enc open xs q)
    as [? ?]; [done..|apply Hok|done|]. by split_and!.
Qed.
End uplink_facts.

Section uplink_session.
Context `{COk : ConfigOk} `{ZS : ZephyrSpec} `{Mal : Malloc} `{Cr : Crypto}.
Context {CS : CryptoSpec Cr} `{HC : HeaderCodecSpec}.
Implicit Types (n : node) (g : uplink_chrc) (dst data : list Z).

(** The first read starts the session, and gives an empty first packet. *)
Lemma wp_first_read g n1 lk enc open xs dst :
  uc_packetizer g = None → pouch_uplink_start (uc_node g) = Ret true n1 →
  malloc_obj (mallocs (n_mem n1)) = true → uplink_ok n1 lk → started n1 enc open xs →
  packet_dst dst →
  wp (uplink_read dst 0) (λ r g', slice 0 r.1 r.2 = packet true false [] ∧
    ∃ p, uc_packetizer g' = Some p ∧ pk_is_first p = false ∧
      pk_fill p = GOLIOTH_BLE_GATT_PACKETIZER_FILL_CALLBACK (uplink_fill_cb true) ∧
      opened n1 lk enc open xs [] (uc_node g')) g.
Proof.
  intros Hnone Hstart Hmal Hok Hst Hdst. unfold uplink_read. cbn [Z.eqb negb]. do 2 wp_step.
  rewrite Hnone. unfold uplink_open, golioth_ble_gatt_packetizer_start_callback, packetizer_alloc.
  wp_step. wp_step. apply wp_zoom. eapply wp_eq; [exact Hstart|].
  wp_step. apply wp_zoom. apply wp_on_mem. cbn [uc_node]. wp_steps. rewrite Hmal.
  set (n2 := set_mem (no_buf (n_mem n1)) n1).
  destruct (started_mem n1 n2 lk enc open xs (up_transport (n_uplink n1))) as [Hok2 Hst2]; try done.
  { by destruct Hst as [_ _ _ [_ ?] _ _]. }
  { by destruct n1 as [? u ? ? ? ? ? ? ?], u. }
  { apply owns_no_buf, Hok. }
  set (p := mk_packetizer (GOLIOTH_BLE_GATT_PACKETIZER_FILL_CALLBACK (uplink_fill_cb true)) true success).
  eapply wp_mono.
  { apply (wp_packetizer_read uplink_chrc_ctx (opened n1 lk enc open xs) (λ _, False) False (λ _, tt) (λ _ _, eq_refl) (λ _ _, eq_refl) _ p []); try done.
    split; [apply open_fill_serves|]. by split_and!. }
  intros r g' (d & rest & last & Hd & _ & Hpkt & _ & _ & Hres). destruct d as [|]; [|done].
  cbn in Hd. subst rest. destruct last; [by destruct Hres as (_ & _ & ?)|].
  destruct Hres as (_ & p' & Hp' & Hf & Hh & Hkept). split; [done|]. exists p'.
  assert (pk_fill p' = pk_fill p) as Hfill by by eapply Hkept.
  split_and!; [done|done|done|]. unfold packetizer_holds in Hh. rewrite Hfill in Hh. apply Hh.
Qed.

Lemma uplink_read_next g p dst :
  uc_packetizer g = Some p →
  uplink_read dst 0 g = packetizer_read uplink_chrc_ctx (BT_GATT_ERR BT_ATT_ERR_UNLIKELY) dst g.
Proof.
  intros Hp. unfold uplink_read. cbn [Z.eqb negb]. cbv [mbind M_bind get]. by rewrite Hp.
Qed.

(** Reading the characteristic from the first packet to the last, while the
    application closes the pouch after the first. *)
Definition read_session dst dsts : M uplink_chrc (list (list Z) * bool) :=
  '(n, buf) ← uplink_read dst 0;
  on_uc_node (pouch_uplink_close success;; process_blocks);;
  '(pkts, fin) ← read_chrc (λ dst, uplink_read dst 0) dsts;
  mret (slice 0 n buf :: pkts, fin).

(** C16: the uplink over GATT. On an idle node, the first read of the characteristic
    starts the session; when the application then closes the pouch, reads into
    buffers of any size of two bytes or more give packets of which the first is
    marked as first and the last as last, and which put together are exactly the
    header and what the crypto module made of the queued blocks; buffers with room
    for more than that suffice; and with the last packet the session is over, the
    packetizer is gone, and the node is ready for the next session. *)
Theorem gatt_session g n1 lk open xs dst dsts :
  uplink_ok (uc_node g) lk → entry_rep (uc_node g) open → idle (uc_node g) →
  holds (n_mem (uc_node g)) (slist_items (up_processing (n_uplink (uc_node g)))) xs →
  uc_packetizer g = None → pouch_uplink_start (uc_node g) = Ret true n1 →
  malloc_obj (mallocs (n_mem n1)) = true → Forall packet_dst (dst :: dsts) →
  wp (read_session dst dsts) (λ r g', ∃ enc ys c c', header_bytes c enc ∧
    seal_all c (xs ++ entry_blocks open) ys c' ∧
    let bytes := if decide (ys = []) then [] else enc ++ concat ys in
    (zlen bytes < payload_room dsts → r.2 = true) ∧
    (r.2 = true → wp (reassemble true r.1) (λ sent_bytes _, sent_bytes = Some bytes) g' ∧
       uc_packetizer g' = None ∧ idle (uc_node g') ∧ node_inv (uc_node g') lk)) g.
Proof.
  intros Hok Hrep Hidle Hxs Hnone Hstart Hmal [Hdst Hdsts]%Forall_cons_iff.
  pose proof (wp_start_session _ lk open xs Hok Hrep Hidle Hxs) as Hs. unfold wp in Hs. rewrite Hstart in Hs.
  destruct Hs as (Hok1 & _ & _ & enc & Hst). unfold read_session. wp_step.
  eapply wp_mono; [by apply (wp_first_read g n1 lk enc open xs)|].
  intros [k buf] g1 (Hpkt & p & Hp & Hf & Hfill & _ & Hok2 & Hst2 & Hfr). cbn [fst snd] in *. rewrite Hpkt.
  wp_step. apply wp_zoom. eapply wp_mono; [by apply (wp_close_started _ lk enc open xs)|].
  intros [] n3 (Hinv3 & Hc3 & Hact & Hcl & He & Hq & Hev & ys & Hseal & Htx).
  set (bytes := if decide (ys = []) then [] else enc ++ concat ys) in *.
  wp_step. eapply wp_mono.
  { eapply (wp_read_chrc uplink_chrc_ctx (sending n3 lk) (sent n3 lk) True (λ _, tt) (λ _ _, eq_refl) (λ _ _, eq_refl) (λ dst, uplink_read dst 0) _
        (λ t p dst Hp _, uplink_read_next t p dst Hp) _ p bytes); [done| |done].
    unfold packetizer_holds. rewrite Hfill. split; [apply uplink_fill_serves|]. by split. }
  intros [pkts fin] g4 (ds & rest & Hbytes & Hpkts & _ & Hfin & Hroom). cbn [fst snd] in *. wp_step.
  exists enc, ys, (n_crypto (uc_node g1)), (n_crypto n3). split_and!; [apply Hst2|done|by apply Hroom|].
  cbn [fst snd]. intros ->. destruct Hfin as (Hne & -> & Hnone4 & [? ? ? ? ?]). split_and!; try done.
  rewrite app_nil_r in Hbytes. rewrite Hpkts, Hf.
  destruct ds as [|d ds]; [done|].
  eapply wp_mono; [by apply (wp_reassemble true true ([] :: d :: ds))|].
  intros r g5 [-> _]. f_equal. symmetry. exact Hbytes.
Qed.

(** When the session cannot be started (the header does not fit, there is no
    memory, a session is active already), the first read of the uplink
    characteristic passes the null pouch on to the callback, which dereferences
    it. *)
Lemma read_without_session g n1 dst :
  uc_packetizer g = None → pouch_uplink_start (uc_node g) = Ret false n1 → packet_dst dst →
  uplink_read dst 0 g = UB.
Proof.
  unfold packet_dst. intros Hnone Hstart Hd. unfold uplink_read. cbn [Z.eqb negb].
  apply ub_bind. wp_step. rewrite Hnone. unfold uplink_open, golioth_ble_gatt_packetizer_start_callback, packetizer_alloc.
  apply ub_bind. wp_step. apply wp_zoom. eapply wp_eq; [exact Hstart|].
  wp_step. apply wp_zoom. apply wp_on_mem. cbn [uc_node]. wp_steps. set (g1 := mk_uplink_chrc _ _).
  apply packetizer_read_ub. unfold g1. cbn [uc_packetizer ch_packetizer ch_set_packetizer uplink_chrc_ctx].
  unfold golioth_ble_gatt_packetizer_get. apply ub_bind. apply wp_write_at; [done|rewrite zlen_singleton; lia|].
  destruct (malloc_obj _); [|done]. cbn [pk_fill pk_is_first].
  set (n := ch_view _ _). unfold packet_size. rewrite (proj2 (Z.leb_gt (zlen dst) 1)) by lia.
  unfold uplink_fill_cb. cbn [orb].
  cbv [mbind M_bind get]. destruct (session_is_active (n_uplink n)) eqn:Hact; cbn [negb]; [done|].
  unfold pouch_uplink_fill. cbv [mbind M_bind get]. by rewrite Hact.
Qed.
End uplink_session.

(** *** The downlink *)

Section downlink_writes.
Context `{Cfg : Config} `{Zk : Zephyr} `{Mal : Malloc} `{Cr : Crypto} `{HC : HeaderCodec}.

(** The peer writes one packet after the other: the values returned. *)
Fixpoint write_packets (pkts : list (list Z)) : M node (list Z) :=
  match pkts with
  | [] => mret []
  | pkt :: pkts => r ← downlink_write pkt 0 0; rs ← write_packets pkts; mret (r :: rs)
  end.

Lemma downlink_write_packet first fin d n :
  downlink_write (packet first fin d) 0 0 n =
  ((if first then pouch_downlink_start else mret tt);; pouch_downlink_push d;;
   (if fin then pouch_downlink_finish else mret tt);; mret (1 + zlen d)) n.
Proof.
  unfold downlink_write. unfold mbind at 1, M_bind at 1.
  rewrite decode_run.
  cbn [pi_is_first pi_is_last pi_len pi_payload]. rewrite slice_0_all. unfold packet. by rewrite zlen_cons.
Qed.

Lemma write_packets_run ds first n : ds ≠ [] →
  write_packets (packets first true ds) n =
  ((if first then pouch_downlink_start else mret tt);; push_chunks ds;; pouch_downlink_finish;;
   mret (map (λ d, 1 + zlen d) ds)) n.
Proof.
  revert first n. induction ds as [|d ds IH]; intros first n Hne; [done|]. cbn [packets write_packets].
  unfold mbind at 1, M_bind at 1. rewrite downlink_write_packet.
  change (push_chunks (d :: ds)) with (pouch_downlink_push d;; push_chunks ds). cbn [map].
  cbv [mbind M_bind].
  destruct ((if first then pouch_downlink_start else mret tt) n) as [[] n1| |]; [|done|done].
  destruct (pouch_downlink_push d n1) as [[] n2| |]; [|done|done].
  destruct ds as [|d' ds]; [done|]. cbn [andb]. unfold mret at 1 2, M_ret at 1 2.
  rewrite IH by done. cbv [mbind M_bind mret M_ret].
  destruct (push_chunks (d' :: ds) n2) as [[] n3| |]; [|done|done].
  by destruct (pouch_downlink_finish n3) as [[] n4| |].
Qed.

(** C18: writing the packets that carry the pieces [ds] to the downlink
    characteristic is the same as starting a pouch, pushing the pieces and
    finishing it, whatever the pieces are and whatever comes of it, each write
    returning the length of its packet; a write without the flag byte is refused
    and changes nothing. *)
Theorem downlink_writes ds n :
  (ds ≠ [] → write_packets (packets true true ds) n =
     (pouch_downlink_start;; push_chunks ds;; pouch_downlink_finish;;
      mret (map (λ d, 1 + zlen d) ds)) n) ∧
  downlink_write [] 0 0 n = Ret (BT_GATT_ERR BT_ATT_ERR_UNLIKELY) n.
Proof. split; [by intros; apply write_packets_run|done]. Qed.
End downlink_writes.

(** ** Witnesses *)

Section gatt_witnesses.
#[local] Existing Instances small_config small_config_ok zephyr_ref zephyr_ref_spec
  malloc_always crypto_none crypto_none_spec plain_codec plain_codec_spec plain_codec_canonical.

Definition chrc_i : uplink_chrc := mk_uplink_chrc node_i None.

(** The node after the start of its session. *)
Definition node_i1 : node :=
  match pouch_uplink_start node_i with Ret _ n => n | _ => node_i end.

Definition sample_mtus : list (list Z) := replicate 9 (replicate 4 170).

Lemma gatt_session_witness :
  wp (read_session [7; 7] sample_mtus) (λ r g', ∃ enc ys c c', header_bytes c enc ∧
    seal_all c ([[0; 4; 192; 1; 2; 3]] ++ entry_blocks open_i) ys c' ∧
    let bytes := if decide (ys = []) then [] else enc ++ concat ys in
    (zlen bytes < payload_room sample_mtus → r.2 = true) ∧
    (r.2 = true → wp (reassemble true r.1) (λ sent_bytes _, sent_bytes = Some bytes) g' ∧
       uc_packetizer g' = None ∧ idle (uc_node g') ∧ node_inv (uc_node g') [])) chrc_i.
Proof.
  apply (gatt_session chrc_i node_i1 [] open_i [[0; 4; 192; 1; 2; 3]]);
    [apply node_i_ok|apply node_i_rep|apply node_i_idle|apply node_i_holds|done|by vm_compute|done|].
  repeat constructor; by vm_compute.
Defined.

(** The packets of that session: an empty first one, eight full ones, and the last. *)
Example gatt_session_packets :
  wp (read_session [7; 7] sample_mtus) (λ r _, r.2 = true ∧
    r.1 = packets true true [[]; [130; 1; 130]; [0; 99; 97]; [98; 99; 0]; [4; 192; 1]; [2; 3; 0];
      [9; 192; 0]; [2; 0; 50]; [1; 46; 7]; [8]]) chrc_i.
Proof. by vm_compute. Qed.

(** A node whose device id is too long cannot start a session. *)
Definition chrc_long : uplink_chrc := mk_uplink_chrc node_long None.

Definition node_long1 : node :=
  match pouch_uplink_start node_long with Ret _ n => n | _ => node_long end.

Example read_without_session_there : uplink_read [7; 7] 0 chrc_long = UB.
Proof. apply (read_without_session chrc_long node_long1); [done|by vm_compute|by vm_compute]. Defined.

(** Two pieces written to the downlink. *)
Lemma downlink_writes_witness :
  ([[130; 1]; [130; 0; 99]] ≠ [] → write_packets (packets true true [[130; 1]; [130; 0; 99]]) node_i =
     (pouch_downlink_start;; push_chunks [[130; 1]; [130; 0; 99]];; pouch_downlink_finish;;
      mret (map (λ d, 1 + zlen d) [[130; 1]; [130; 0; 99]])) node_i) ∧
  downlink_write [] 0 0 node_i = Ret (BT_GATT_ERR BT_ATT_ERR_UNLIKELY) node_i.
Proof. apply downlink_writes. Defined.
End gatt_witnesses.
