(* ===== verification/GattCert.v ===== *)
(** The GATT characteristics of the certificates and of the device information:
    [device_cert_characteristic.c], [server_cert_characteristic.c] and
    [info_characteristic.c] of [src/transport/ble_gatt].

    The handlers work on the certificates that [src/cert.c] keeps and on their own
    static contexts. *)
From S2P Require Import Prelude Zephyr Config Platform Buf Block Header Node Cert Packetizer.
From S2P Require Import Saead SaeadSession SaeadSpec Reference SaeadReference Gatt.

(** The encoder that is generated from [info.cddl]: the room, the flags and the
    serial number; an error code, or the bytes. *)
Class InfoCodec : Type := {
  cbor_encode_golioth_ble_gatt_info : Z → Z → list Z → (Z + list Z)%type;
}.

Class InfoCodecSpec (Ic : InfoCodec) : Prop := {
  info_encode_len : ∀ room flags snr l,
    cbor_encode_golioth_ble_gatt_info room flags snr = inr l → zlen l ≤ room;
}.

(** The part of [server_cert_chrc_ctx] that its packetizer reads. *)
Record serial_ctx := mk_serial_ctx {
  sx_serial : list Z;
  sx_len : Z;
  sx_offset : Z;
}.

(** The static contexts of the three files, with the state they share: the heap and
    the certificates. [gc_disconnects] counts the calls of [bt_conn_disconnect]. *)
Record gatt_certs `{Tls : Mbedtls} := mk_gatt_certs {
  gc_mem : mem;
  gc_certs : certs;
  (* device_cert_chrc_ctx *)
  gc_device_cert : pouch_cert;
  gc_device_packetizer : option (packetizer pouch_cert);
  (* server_cert_chrc_ctx *)
  gc_server_cert : pouch_cert;
  gc_serial : serial_ctx;
  gc_serial_packetizer : option (packetizer serial_ctx);
  (* info_chrc_ctx *)
  gc_info : list Z;
  gc_info_packetizer : option (packetizer unit);
  gc_disconnects : nat;
}.
Arguments mk_gatt_certs {_}.

Section gatt_certs.
Context `{Cfg : Config} `{Mal : Malloc} `{Ps : Psa} `{Tls : Mbedtls} `{Ic : InfoCodec}.
Implicit Types (g : gatt_certs).

Definition gc_set_mem (m : mem) g : gatt_certs :=
  mk_gatt_certs m (gc_certs g) (gc_device_cert g) (gc_device_packetizer g) (gc_server_cert g)
    (gc_serial g) (gc_serial_packetizer g) (gc_info g) (gc_info_packetizer g) (gc_disconnects g).
Definition gc_set_certs (c : certs) g : gatt_certs :=
  mk_gatt_certs (gc_mem g) c (gc_device_cert g) (gc_device_packetizer g) (gc_server_cert g)
    (gc_serial g) (gc_serial_packetizer g) (gc_info g) (gc_info_packetizer g) (gc_disconnects g).
Definition gc_set_device (cert : pouch_cert) (p : option (packetizer pouch_cert)) g : gatt_certs :=
  mk_gatt_certs (gc_mem g) (gc_certs g) cert p (gc_server_cert g)
    (gc_serial g) (gc_serial_packetizer g) (gc_info g) (gc_info_packetizer g) (gc_disconnects g).
Definition gc_set_server (cert : pouch_cert) g : gatt_certs :=
  mk_gatt_certs (gc_mem g) (gc_certs g) (gc_device_cert g) (gc_device_packetizer g) cert
    (gc_serial g) (gc_serial_packetizer g) (gc_info g) (gc_info_packetizer g) (gc_disconnects g).
Definition gc_set_serial (x : serial_ctx) (p : option (packetizer serial_ctx)) g : gatt_certs :=
  mk_gatt_certs (gc_mem g) (gc_certs g) (gc_device_cert g) (gc_device_packetizer g) (gc_server_cert g)
    x p (gc_info g) (gc_info_packetizer g) (gc_disconnects g).
Definition gc_set_info (buf : list Z) (p : option (packetizer unit)) g : gatt_certs :=
  mk_gatt_certs (gc_mem g) (gc_certs g) (gc_device_cert g) (gc_device_packetizer g) (gc_server_cert g)
    (gc_serial g) (gc_serial_packetizer g) buf p (gc_disconnects g).

Definition gc_on_mem {A} (m : M mem A) : M gatt_certs A := zoom gc_mem gc_set_mem m.
Definition gc_on_certs {A} (m : M certs A) : M gatt_certs A := zoom gc_certs gc_set_certs m.

(** [bt_conn_disconnect] *)
Definition bt_conn_disconnect : M gatt_certs unit :=
  modify (λ g, mk_gatt_certs (gc_mem g) (gc_certs g) (gc_device_cert g) (gc_device_packetizer g)
    (gc_server_cert g) (gc_serial g) (gc_serial_packetizer g) (gc_info g) (gc_info_packetizer g)
    (S (gc_disconnects g))).

(** *** The device certificate *)

Definition device_cert_chrc_ctx : chrc pouch_cert gatt_certs :=
  mk_chrc _ _ gc_device_cert (λ cert g, gc_set_device cert (gc_device_packetizer g) g)
    gc_device_packetizer (λ p g, gc_set_device (gc_device_cert g) p g).

#[export] Instance device_cert_chrc_ok : ChrcOk device_cert_chrc_ctx.
Proof. by split. Qed.

(** The buffer pointer of the context moves on with each packet. *)
Definition device_cert_fill_cb : fill_cb pouch_cert := λ maxlen,
  cert ← get;
  let dst_len := Z.min maxlen (cert_size cert) in
  match cert_buffer cert with
  | None => ub
  | Some b =>
      if decide (0 ≤ dst_len ≤ zlen b) then
        modify (λ _, mk_cert (Some (drop (Z.to_nat dst_len) b)) (usz (cert_size cert - dst_len)));;
        cert' ← get;
        mret (if cert_size cert' =? 0 then GOLIOTH_BLE_GATT_PACKETIZER_NO_MORE_DATA
              else GOLIOTH_BLE_GATT_PACKETIZER_MORE_DATA, slice 0 dst_len b)
      else ub
  end.

Definition device_cert_read (buf : list Z) (offset : Z) : M gatt_certs (Z * list Z) :=
  if negb (offset =? 0) then mret (0, buf) else
  ctx ← get;
  err ←
    (match gc_device_packetizer ctx with
     | None =>
         r ← gc_on_certs pouch_device_certificate_get;
         match r with
         | inl _ => mret true
         | inr cert =>
             p ← gc_on_mem (golioth_ble_gatt_packetizer_start_callback device_cert_fill_cb);
             modify (gc_set_device cert p);;
             mret false
         end
     | Some _ => mret false
     end);
  if err : bool then mret (BT_GATT_ERR BT_ATT_ERR_NOT_SUPPORTED, buf) else
  packetizer_read device_cert_chrc_ctx (BT_GATT_ERR BT_ATT_ERR_UNLIKELY) buf.

(** *** The server certificate *)

Definition server_serial_chrc_ctx : chrc serial_ctx gatt_certs :=
  mk_chrc _ _ gc_serial (λ x g, gc_set_serial x (gc_serial_packetizer g) g)
    gc_serial_packetizer (λ p g, gc_set_serial (gc_serial g) p g).

#[export] Instance server_serial_chrc_ok : ChrcOk server_serial_chrc_ctx.
Proof. by split. Qed.

Definition server_cert_serial_fill_cb : fill_cb serial_ctx := λ maxlen,
  ctx ← get;
  let dst_len := Z.min maxlen (usz (sx_len ctx - sx_offset ctx)) in
  if decide (0 ≤ sx_offset ctx ∧ sx_offset ctx + dst_len ≤ zlen (sx_serial ctx)) then
    modify (λ _, mk_serial_ctx (sx_serial ctx) (sx_len ctx) (u8 (sx_offset ctx + dst_len)));;
    ctx' ← get;
    mret (if sx_len ctx' <=? sx_offset ctx' then GOLIOTH_BLE_GATT_PACKETIZER_NO_MORE_DATA
          else GOLIOTH_BLE_GATT_PACKETIZER_MORE_DATA, slice (sx_offset ctx) dst_len (sx_serial ctx))
  else ub.

Definition server_cert_serial_read (buf : list Z) (offset : Z) : M gatt_certs (Z * list Z) :=
  if negb (offset =? 0) then mret (0, buf) else
  ctx ← get;
  err ←
    (match gc_serial_packetizer ctx with
     | None =>
         r ← gc_on_certs (pouch_server_certificate_serial_get CERT_SERIAL_MAXLEN);
         match r with
         | inl _ => mret true
         | inr d =>
             p ← gc_on_mem (golioth_ble_gatt_packetizer_start_callback server_cert_serial_fill_cb);
             modify (gc_set_serial (mk_serial_ctx (splice 0 d (sx_serial (gc_serial ctx))) (u8 (zlen d)) 0) p);;
             mret false
         end
     | Some _ => mret false
     end);
  if err : bool then mret (BT_GATT_ERR BT_ATT_ERR_NOT_SUPPORTED, buf) else
  packetizer_read server_serial_chrc_ctx (BT_GATT_ERR BT_ATT_ERR_UNLIKELY) buf.

(** [malloc] of the buffer for the certificate; its contents are what the allocator
    left there. *)
Definition cert_malloc : M gatt_certs (option (list Z)) :=
  gc_on_mem (m ← get; modify no_buf;; mret (malloc_bytes (mallocs m) CONFIG_POUCH_SERVER_CERT_MAX_LEN)).

Definition server_cert_write (buf : list Z) (offset flags : Z) : M gatt_certs Z :=
  i ← golioth_ble_gatt_packetizer_decode (Some buf) (zlen buf);
  match i with
  | inl _ => mret (BT_GATT_ERR BT_ATT_ERR_UNLIKELY)
  | inr i =>
      if pi_len i <=? 0 then mret (BT_GATT_ERR BT_ATT_ERR_UNLIKELY) else
      (if pi_is_first i then
         b ← cert_malloc;
         modify (gc_set_server (mk_cert b 0))
       else mret tt);;
      ctx ← get;
      match cert_buffer (gc_server_cert ctx) with
      | None => mret (BT_GATT_ERR BT_ATT_ERR_INSUFFICIENT_RESOURCES)
      | Some b =>
          let size := cert_size (gc_server_cert ctx) in
          let payload := slice 0 (pi_len i) (pi_payload i) in
          if decide (0 ≤ size ∧ size + zlen payload ≤ zlen b) then
            modify (gc_set_server (mk_cert (Some (splice size payload b)) (usz (size + pi_len i))));;
            (if pi_is_last i then
               ctx ← get;
               err ← gc_on_certs (pouch_server_certificate_set (Some (gc_server_cert ctx)));
               (match err with Some _ => bt_conn_disconnect | None => mret tt end);;
               modify (λ g, gc_set_server (mk_cert None (cert_size (gc_server_cert g))) g)
             else mret tt);;
            mret (zlen buf)
          else ub
      end
  end.

(** *** Device information *)

Definition INFO_CHRC_MAX_SIZE : Z := 64.

Definition info_chrc_ctx : chrc unit gatt_certs :=
  mk_chrc _ _ (λ _, tt) (λ _ g, g)
    gc_info_packetizer (λ p g, gc_set_info (gc_info g) p g).

#[export] Instance info_chrc_ok : ChrcOk info_chrc_ctx.
Proof. split; [by intros []|done|done]. Qed.

(** An error, an error code of the encoder, or the new contents of the buffer and
    the value of [buf_len]. *)
Definition build_info_data : M gatt_certs (errno + (Z + list Z * Z)) :=
  snr ←
    (if CONFIG_POUCH_ENCRYPTION_SAEAD
     then gc_on_certs (pouch_server_certificate_serial_get CERT_SERIAL_MAXLEN)
     else mret (inr []));
  match snr with
  | inl err => mret (inl err)
  | inr snr =>
      g ← get;
      match cbor_encode_golioth_ble_gatt_info INFO_CHRC_MAX_SIZE 0 snr with
      | inl err => mret (inr (inl err))
      | inr l => mret (inr (inr (splice 0 l (gc_info g), zlen l)))
      end
  end.

(** A left result is the errno that is returned. *)
Definition info_read (buf : list Z) (offset : Z) : M gatt_certs ((errno + Z) * list Z) :=
  if 0 <? offset then mret (inr 0, buf) else
  ctx ← get;
  err ←
    (match gc_info_packetizer ctx with
     | None =>
         r ← build_info_data;
         match r with
         | inl err => mret (Some (inl err))
         | inr (inl err) => mret (Some (inr err))
         | inr (inr (d, len)) =>
             p ← gc_on_mem (golioth_ble_gatt_packetizer_start_buffer d len);
             modify (gc_set_info d p);;
             mret None
         end
     | Some _ => mret None
     end);
  match err with
  | Some err => mret (err, buf)
  | None => '(n, buf) ← packetizer_read info_chrc_ctx 0 buf; mret (inr n, buf)
  end.
End gatt_certs.

(** ** Specification *)

Section gatt_cert_facts.
Context `{COk : ConfigOk} `{Mal : Malloc} `{PS : PsaSpec} {Tls : Mbedtls} {TS : MbedtlsSpec Tls}.
Context `{Ic : InfoCodec}.
Implicit Types (g : gatt_certs) (d : list Z).

(** The context of the device certificate has [data] left to read. *)
Definition cert_left data (cert : pouch_cert) : Prop :=
  ∃ b, cert_buffer cert = Some b ∧ 0 ≤ cert_size cert ≤ zlen b ∧ cert_size cert < 2 ^ 32 ∧
    data = slice 0 (cert_size cert) b.

Lemma device_cert_serves : serves device_cert_fill_cb cert_left (λ _, True) True.
Proof.
  intros data k cert (b & Hb & Hs & Hmax & ->) Hk. unfold device_cert_fill_cb. do 2 wp_step. rewrite Hb.
  set (n := Z.min k (cert_size cert)). assert (0 ≤ n ≤ k ∧ n ≤ cert_size cert) as Hn by lia.
  rewrite decide_True by lia. do 4 wp_step. cbn [cert_size]. rewrite usz_small by lia.
  assert (zlen (slice 0 n b) = n) as Hl by (apply zlen_slice; lia).
  exists (slice n (cert_size cert - n) b). cbn [fst snd]. rewrite Hl. split_and!; [|lia|].
  { rewrite <- slice_split by lia. f_equal. lia. }
  destruct (Z.eqb_spec (cert_size cert - n) 0) as [He|He].
  - by rewrite He.
  - split; [|lia]. exists (drop (Z.to_nat n) b). cbn [cert_buffer cert_size].
    split_and!; [done|lia| |lia|].
    + unfold zlen in *. rewrite length_drop. lia.
    + unfold slice. by rewrite drop_0.
Qed.

Lemma device_cert_open g cert dst :
  gc_device_packetizer g = None → device_certificate (gc_certs g) = cert → cert_is_valid (Some cert) = true →
  malloc_obj (mallocs (gc_mem g)) = true → ∃ p g0,
  device_cert_read dst 0 g = device_cert_read dst 0 g0 ∧ gc_device_packetizer g0 = Some p ∧
  pk_is_first p = true ∧ pk_fill p = GOLIOTH_BLE_GATT_PACKETIZER_FILL_CALLBACK device_cert_fill_cb ∧
  gc_device_cert g0 = cert ∧ gc_certs g0 = gc_certs g.
Proof.
  intros Hnone Hc Hv Hm.
  set (p := mk_packetizer (GOLIOTH_BLE_GATT_PACKETIZER_FILL_CALLBACK device_cert_fill_cb) true success).
  exists p, (gc_set_device cert (Some p) (gc_set_mem (no_buf (gc_mem g)) g)).
  split; [|by split_and!]. unfold device_cert_read. cbn [Z.eqb negb].
  cbv [mbind M_bind get mret M_ret gc_on_certs gc_on_mem zoom pouch_device_certificate_get
    golioth_ble_gatt_packetizer_start_callback packetizer_alloc modify].
  rewrite Hnone, Hc, Hv. cbn [gc_mem gc_set_certs]. by rewrite Hm.
Qed.

Lemma device_cert_read_next g p dst :
  gc_device_packetizer g = Some p → device_cert_read dst 0 g =
  packetizer_read device_cert_chrc_ctx (BT_GATT_ERR BT_ATT_ERR_UNLIKELY) dst g.
Proof.
  intros Hp. unfold device_cert_read. cbn [Z.eqb negb]. cbv [mbind M_bind get]. by rewrite Hp.
Qed.

(** *** Writing the server certificate *)

(** The peer writes the packets of a certificate. *)
Fixpoint write_cert (pkts : list (list Z)) : M gatt_certs (list Z) :=
  match pkts with
  | [] => mret []
  | pkt :: pkts => r ← server_cert_write pkt 0 0; rs ← write_cert pkts; mret (r :: rs)
  end.

(** The certificate that was collected, [data], was handed to [cert_server_set], the
    peer was disconnected if that failed, and the buffer is gone. *)
Definition cert_written data g g' : Prop :=
  ∃ buf err, slice 0 (zlen data) buf = data ∧
    cert_server_set (Some (mk_cert (Some buf) (zlen data))) (gc_certs g) = Ret err (gc_certs g') ∧
    gc_disconnects g' = match err with Some _ => S (gc_disconnects g) | None => gc_disconnects g end ∧
    cert_buffer (gc_server_cert g') = None.

(** A write after the flags are decoded and, for the first, the buffer is there. *)
Definition cert_put (last : bool) (d : list Z) : M gatt_certs Z :=
  ctx ← get;
  match cert_buffer (gc_server_cert ctx) with
  | None => mret (BT_GATT_ERR BT_ATT_ERR_INSUFFICIENT_RESOURCES)
  | Some b =>
      let size := cert_size (gc_server_cert ctx) in
      if decide (0 ≤ size ∧ size + zlen d ≤ zlen b) then
        modify (gc_set_server (mk_cert (Some (splice size d b)) (usz (size + zlen d))));;
        (if last then
           ctx ← get;
           err ← gc_on_certs (pouch_server_certificate_set (Some (gc_server_cert ctx)));
           (match err with Some _ => bt_conn_disconnect | None => mret tt end);;
           modify (λ g, gc_set_server (mk_cert None (cert_size (gc_server_cert g))) g)
         else mret tt);;
        mret (1 + zlen d)
      else ub
  end.

Lemma write_piece first last d g :
  d ≠ [] → server_cert_write (packet first last d) 0 0 g =
  ((if first then b ← cert_malloc; modify (gc_set_server (mk_cert b 0)) else mret tt);;
   cert_put last d) g.
Proof.
  intros Hd. unfold server_cert_write. unfold mbind at 1, M_bind at 1. rewrite decode_run.
  cbn [pi_is_first pi_is_last pi_len pi_payload]. rewrite slice_0_all.
  assert (zlen d ≠ 0) by (intros ?%zlen_zero_nil; done). pose proof (zlen_nonneg d).
  rewrite (proj2 (Z.leb_gt _ _)) by lia. unfold packet. by rewrite zlen_cons.
Qed.

Lemma write_first last d g :
  d ≠ [] → server_cert_write (packet true last d) 0 0 g =
  cert_put last d (gc_set_server
    (mk_cert (malloc_bytes (mallocs (gc_mem g)) CONFIG_POUCH_SERVER_CERT_MAX_LEN) 0)
    (gc_set_mem (no_buf (gc_mem g)) g)).
Proof. intros Hd. by rewrite write_piece by done. Qed.

Lemma write_next last d g : d ≠ [] → server_cert_write (packet false last d) 0 0 g = cert_put last d g.
Proof. intros Hd. by rewrite write_piece by done. Qed.

(** The context has collected [data]. *)
Definition collected data g : Prop :=
  ∃ b, gc_server_cert g = mk_cert (Some b) (zlen data) ∧ slice 0 (zlen data) b = data ∧
    zlen b = CONFIG_POUCH_SERVER_CERT_MAX_LEN ∧ zlen data ≤ zlen b.

Lemma wp_cert_put last d data g :
  certs_ok (gc_certs g) → collected data g → 0 < zlen d →
  zlen (data ++ d) ≤ CONFIG_POUCH_SERVER_CERT_MAX_LEN →
  wp (cert_put last d) (λ r g', r = 1 + zlen d ∧
    if last then cert_written (data ++ d) g g'
    else collected (data ++ d) g' ∧ gc_certs g' = gc_certs g ∧ gc_disconnects g' = gc_disconnects g) g.
Proof.
  intros Hok (b & Hc & Hs & Hb & Hle) Hd Hfit. pose proof server_cert_range. pose proof (zlen_nonneg data).
  unfold cert_put. do 2 wp_step. rewrite Hc. cbn [cert_buffer cert_size]. rewrite zlen_app in Hfit.
  rewrite decide_True by lia. rewrite usz_small by lia. rewrite <- zlen_app.
  set (cert := mk_cert _ _). do 2 wp_step.
  assert (slice 0 (zlen (data ++ d)) (splice (zlen data) d b) = data ++ d) as Hs'.
  { rewrite zlen_app, slice_splice_append by lia. by rewrite Hs. }
  assert (zlen (splice (zlen data) d b) = zlen b) as Hlen by (apply zlen_splice; lia).
  destruct last; [|do 2 wp_step; split; [done|]; split; [|done]].
  2: { exists (splice (zlen data) d b). split_and!; [done|done|lia|rewrite Hlen, zlen_app; lia]. }
  wp_steps. apply wp_zoom. cbn [gc_certs gc_server_cert gc_set_server].
  assert (cert_arg (Some cert)) as Ha by (cbn; rewrite Hlen, zlen_app; lia).
  destruct (wp_inv _ _ _ (wp_server_set (Some cert) (gc_certs g) Hok Ha)) as (err & c' & Hrun & _).
  eapply wp_eq; [exact Hrun|]. unfold bt_conn_disconnect.
  destruct err as [e|]; wp_steps; (split; [done|]); eexists _, _; by split_and!.
Qed.

Lemma cert_put_overflow last d data g :
  collected data g → CONFIG_POUCH_SERVER_CERT_MAX_LEN < zlen (data ++ d) → cert_put last d g = UB.
Proof.
  intros (b & Hc & _ & Hb & _) Hbig. rewrite zlen_app in Hbig. unfold cert_put. apply ub_bind. wp_step.
  rewrite Hc. cbn [cert_buffer cert_size]. by rewrite decide_False by lia.
Qed.

Lemma cert_written_from data g g1 g' :
  gc_certs g1 = gc_certs g → gc_disconnects g1 = gc_disconnects g →
  cert_written data g1 g' → cert_written data g g'.
Proof. intros Hc Hd (buf & err & H). rewrite Hc, Hd in H. by exists buf, err. Qed.

(** The writes after the first. *)
Lemma wp_cert_rest ds data g :
  certs_ok (gc_certs g) → collected data g → ds ≠ [] → Forall (λ d, d ≠ []) ds →
  zlen (data ++ concat ds) ≤ CONFIG_POUCH_SERVER_CERT_MAX_LEN →
  wp (write_cert (packets false true ds)) (λ rs g', rs = map (λ d, 1 + zlen d) ds ∧
    cert_written (data ++ concat ds) g g') g.
Proof.
  revert data g. induction ds as [|d ds IH]; intros data g Hok Hc Hne Hds Hfit; [done|].
  apply Forall_cons_iff in Hds as [Hd Hds]. cbn [packets write_cert concat map] in *.
  rewrite app_assoc in Hfit |- *. pose proof (zlen_nonneg (concat ds)).
  assert (0 < zlen d) by (destruct d; [done|]; rewrite zlen_cons; pose proof (zlen_nonneg d); lia).
  wp_step. eapply wp_same; [by apply write_next|].
  eapply wp_mono; [apply (wp_cert_put _ d data); try done; rewrite zlen_app in Hfit; lia|].
  intros r g1 (-> & Hres). destruct ds as [|d' ds].
  - cbn [andb packets write_cert] in *. wp_steps. by rewrite app_nil_r.
  - cbn [andb] in Hres. destruct Hres as (Hc1 & Hcs & Hdis). wp_step.
    eapply wp_mono; [apply (IH (data ++ d) g1); try done; congruence|].
    intros rs g' (-> & Hw). wp_step. split; [done|]. by eapply cert_written_from.
Qed.

Lemma cert_rest_overflow ds data g :
  certs_ok (gc_certs g) → collected data g → Forall (λ d, d ≠ []) ds →
  CONFIG_POUCH_SERVER_CERT_MAX_LEN < zlen (data ++ concat ds) →
  write_cert (packets false true ds) g = UB.
Proof.
  revert data g. induction ds as [|d ds IH]; intros data g Hok Hc Hds Hbig.
  { destruct Hc as (b & _ & _ & ? & ?). rewrite app_nil_r in Hbig. lia. }
  apply Forall_cons_iff in Hds as [Hd Hds]. cbn [packets write_cert concat] in *. rewrite app_assoc in Hbig.
  unfold mbind at 1, M_bind at 1. rewrite write_next by done.
  destruct (Z.le_gt_cases (zlen (data ++ d)) CONFIG_POUCH_SERVER_CERT_MAX_LEN) as [Hle|Hgt].
  2: { by rewrite (cert_put_overflow _ d data) by (done || lia). }
  destruct ds as [|d' ds]; [rewrite app_nil_r in Hbig; lia|]. cbn [andb].
  assert (0 < zlen d) by (destruct d; [done|]; rewrite zlen_cons; pose proof (zlen_nonneg d); lia).
  destruct (wp_inv _ _ _ (wp_cert_put false d data g Hok Hc ltac:(done) Hle)) as (r & g1 & -> & _ & Hc1 & Hcs & _).
  unfold mbind at 1, M_bind at 1. rewrite (IH (data ++ d) g1); [done|congruence|done..].
Qed.

(** Without a buffer every piece is refused. *)
Lemma cert_no_buffer ds g :
  Forall (λ d, d ≠ []) ds → cert_buffer (gc_server_cert g) = None →
  write_cert (packets false true ds) g =
  Ret (map (λ _, BT_GATT_ERR BT_ATT_ERR_INSUFFICIENT_RESOURCES) ds) g.
Proof.
  intros Hds Hb. induction Hds as [|d ds Hd Hds IH]; [done|]. cbn [packets write_cert map].
  unfold mbind at 1, M_bind at 1. rewrite write_next by done. unfold cert_put.
  unfold mbind at 1, M_bind at 1, get at 1. rewrite Hb. unfold mret at 1, M_ret at 1.
  unfold mbind, M_bind. by rewrite IH.
Qed.
End gatt_cert_facts.

(** ** Properties *)

Section gatt_cert_theorems.
Context `{COk : ConfigOk} `{Mal : Malloc} `{PS : PsaSpec} {Tls : Mbedtls} {TS : MbedtlsSpec Tls}.
Context `{Ic : InfoCodec}.
Implicit Types (g : gatt_certs) (d : list Z).

(** C17: a server certificate that the peer writes in packets (none of them without
    payload) reaches [cert_server_set] byte for byte, and the peer is disconnected
    if it is refused; when there is no memory every packet is refused and nothing
    changes; but a certificate of more than CONFIG_POUCH_SERVER_CERT_MAX_LEN bytes,
    which no check stops, is written past the end of the buffer. *)
Theorem server_cert_written ds g :
  certs_ok (gc_certs g) → ds ≠ [] → Forall (λ d, d ≠ []) ds →
  match malloc_bytes (mallocs (gc_mem g)) CONFIG_POUCH_SERVER_CERT_MAX_LEN with
  | None => wp (write_cert (packets true true ds)) (λ rs g',
      rs = map (λ _, BT_GATT_ERR BT_ATT_ERR_INSUFFICIENT_RESOURCES) ds ∧
      gc_certs g' = gc_certs g ∧ gc_disconnects g' = gc_disconnects g) g
  | Some _ =>
      if decide (zlen (concat ds) ≤ CONFIG_POUCH_SERVER_CERT_MAX_LEN)
      then wp (write_cert (packets true true ds)) (λ rs g', rs = map (λ d, 1 + zlen d) ds ∧
        cert_written (concat ds) g g') g
      else write_cert (packets true true ds) g = UB
  end.
Proof.
  intros Hok Hne Hds. destruct ds as [|d ds]; [done|]. pose proof Hds as [Hd Hds']%Forall_cons_iff.
  set (g0 := gc_set_server (mk_cert (malloc_bytes (mallocs (gc_mem g)) CONFIG_POUCH_SERVER_CERT_MAX_LEN) 0)
    (gc_set_mem (no_buf (gc_mem g)) g)).
  assert (write_cert (packets true true (d :: ds)) g = write_cert (packets false true (d :: ds)) g0) as Hrun.
  { cbn [packets write_cert]. unfold mbind at 1 3, M_bind at 1 3. by rewrite write_first, write_next by done. }
  destruct (malloc_bytes _ _) as [b|] eqn:Hb.
  - pose proof server_cert_range.
    assert (collected [] g0) as Hc.
    { exists b. split_and!; [done|done|eapply malloc_bytes_len; [lia|done]|apply zlen_nonneg]. }
    case_decide as Hfit.
    + eapply wp_as; [exact Hrun|]. eapply wp_mono; [by apply (wp_cert_rest (d :: ds) [] g0)|].
      intros rs g' [-> Hw]. split; [done|]. by eapply cert_written_from.
    + rewrite Hrun. apply (cert_rest_overflow _ [] g0); [done|done|done|]. cbn [app]. lia.
  - eapply wp_as; [exact Hrun|]. eapply wp_eq; [by apply cert_no_buffer|]. done.
Qed.

(** Reading the device certificate characteristic into buffers of any size of
    two bytes or more gives packets that put together are the certificate; room for
    more than the certificate is enough; and after the last packet the next read
    starts over with the same certificate. *)
Lemma device_cert_reads g b n dst dsts :
  device_certificate (gc_certs g) = mk_cert (Some b) n → 0 < n ≤ zlen b → n < 2 ^ 32 →
  gc_device_packetizer g = None → malloc_obj (mallocs (gc_mem g)) = true →
  Forall packet_dst (dst :: dsts) →
  wp (read_chrc (λ dst, device_cert_read dst 0) (dst :: dsts)) (λ r g',
    (n < payload_room (dst :: dsts) → r.2 = true) ∧ gc_certs g' = gc_certs g ∧
    (r.2 = true → gc_device_packetizer g' = None ∧
      wp (reassemble true r.1) (λ cert _, cert = Some (slice 0 n b)) g')) g.
Proof.
  intros Hc Hn Hmax Hnone Hmal Hdsts.
  assert (∃ p g0, device_cert_read dst 0 g = device_cert_read dst 0 g0 ∧ gc_device_packetizer g0 = Some p ∧
    pk_is_first p = true ∧ pk_fill p = GOLIOTH_BLE_GATT_PACKETIZER_FILL_CALLBACK device_cert_fill_cb ∧
    gc_device_cert g0 = mk_cert (Some b) n ∧ gc_certs g0 = gc_certs g) as (p & g0 & Hrun & Hp & Hf & Hfill & Hc0 & Hcs).
  { apply device_cert_open; try done. cbn. apply Z.ltb_lt; lia. }
  eapply wp_as; [by apply read_chrc_first|].
  eapply wp_mono.
  { eapply (wp_read_chrc device_cert_chrc_ctx cert_left (λ _, True) True gc_certs (λ _ _, eq_refl) (λ _ _, eq_refl)
      (λ dst, device_cert_read dst 0) _
      (λ t p dst Hp _, device_cert_read_next t p dst Hp) _ p (slice 0 n b)); [exact Hp| |done].
    unfold packetizer_holds. rewrite Hfill. split; [apply device_cert_serves|]. exists b.
    change (ch_view device_cert_chrc_ctx g0) with (gc_device_cert g0). rewrite Hc0. cbn [cert_buffer cert_size].
    split_and!; [done|lia|lia|done|done]. }
  intros [pkts fin] g' (ds & rest & Hd & Hpk & Hcs' & Hfin & Hroom). cbn [fst snd] in *.
  assert (zlen (slice 0 n b) = n) as Hl by (apply zlen_slice; lia). rewrite Hl in Hroom.
  split; [by apply Hroom|]. split; [congruence|]. intros ->. destruct Hfin as (Hne & -> & Hnone' & _).
  split; [done|]. rewrite Hpk, Hf, app_nil_r in *. rewrite Hd.
  eapply wp_mono; [by apply (wp_reassemble true true ds)|]. by intros r g'' [-> _].
Qed.
End gatt_cert_theorems.

Section gatt_cert_witnesses.
#[local] Existing Instances saead_config saead_config_ok malloc_always psa_toy psa_toy_spec
  mbedtls_toy mbedtls_toy_spec.

(** An encoder that writes the flags and the serial number. *)
Definition info_ref : InfoCodec :=
  {| cbor_encode_golioth_ble_gatt_info room flags snr :=
       if zlen snr + 1 <=? room then inr (flags :: snr) else inl 1 |}.
#[local] Existing Instance info_ref.

(** A provisioned device with its contexts in their initial state. *)
Definition gatt_0 : gatt_certs :=
  mk_gatt_certs init_mem (set_device (mk_cert (Some [1; 2; 3; 4; 5]) 5) init_certs)
    (mk_cert None 0) None (mk_cert None 0) (mk_serial_ctx (replicate 20 0) 0 0) None
    (replicate 64 0) None 0.

Lemma gatt_0_ok : certs_ok (gc_certs gatt_0).
Proof. destruct init_certs_ok. by split. Qed.

(** The certificate of [Cert.sample_cert], in two packets. *)
Definition sample_pieces : list (list Z) := [[2; 1; 5; 6]; [10; 11]].

Lemma server_cert_written_witness :
  match malloc_bytes (mallocs (gc_mem gatt_0)) CONFIG_POUCH_SERVER_CERT_MAX_LEN with
  | None => wp (write_cert (packets true true sample_pieces)) (λ rs g',
      rs = map (λ _, BT_GATT_ERR BT_ATT_ERR_INSUFFICIENT_RESOURCES) sample_pieces ∧
      gc_certs g' = gc_certs gatt_0 ∧ gc_disconnects g' = gc_disconnects gatt_0) gatt_0
  | Some _ =>
      if decide (zlen (concat sample_pieces) ≤ CONFIG_POUCH_SERVER_CERT_MAX_LEN)
      then wp (write_cert (packets true true sample_pieces)) (λ rs g',
        rs = map (λ d, 1 + zlen d) sample_pieces ∧ cert_written (concat sample_pieces) gatt_0 g') gatt_0
      else write_cert (packets true true sample_pieces) gatt_0 = UB
  end.
Proof.
  apply (server_cert_written sample_pieces gatt_0); [apply gatt_0_ok|done|by repeat constructor].
Defined.

(** That certificate is taken over, and its serial number can be read. *)
Example sample_cert_stored :
  wp (write_cert (packets true true sample_pieces);; server_cert_serial_read [7; 7; 7; 7; 7] 0)
    (λ r g', r = (3, packet true true [5; 6] ++ [7; 7]) ∧ gc_disconnects g' = 0%nat) gatt_0.
Proof. by vm_compute. Qed.

(** A certificate of 65 bytes for a buffer of 64. *)
Example long_cert_overflows : write_cert (packets true true [replicate 40 1; replicate 25 1]) gatt_0 = UB.
Proof. by vm_compute. Qed.

Definition sample_reads : list (list Z) := [[0; 0; 0]; [0; 0]; [0; 0; 0; 0; 0]].

Lemma device_cert_reads_witness :
  wp (read_chrc (λ dst, device_cert_read dst 0) sample_reads) (λ r g',
    (5 < payload_room sample_reads → r.2 = true) ∧ gc_certs g' = gc_certs gatt_0 ∧
    (r.2 = true → gc_device_packetizer g' = None ∧
      wp (reassemble true r.1) (λ cert _, cert = Some (slice 0 5 [1; 2; 3; 4; 5])) g')) gatt_0.
Proof.
  apply (device_cert_reads gatt_0 [1; 2; 3; 4; 5] 5 [0; 0; 0] [[0; 0]; [0; 0; 0; 0; 0]]);
    [done|by vm_compute|by vm_compute|done|done|].
  repeat constructor; by vm_compute.
Defined.

Example device_cert_packets :
  wp (read_chrc (λ dst, device_cert_read dst 0) sample_reads)
    (λ r _, r = (packets true true [[1; 2]; [3]; [4; 5]], true)) gatt_0.
Proof. by vm_compute. Qed.
End gatt_cert_witnesses.
