(* ===== verification/Zcbor.v ===== *)
(** CBOR maps: [lib/zcbor_utils].

    The zcbor library is not part of the repository: [Zcbor] lists the decoding
    functions that the sources call, and [ZcborSpec] what is relied on of them. *)
From S2P Require Import Prelude Zephyr Config Buf Block Header Node.

(** ** The zcbor decoder, as an interface *)

(** [struct zcbor_string]: the bytes it points to, and the 32 bits of the pointer
    that share their place with the [u32] of a map key. *)
Record zcbor_string := mk_zstr { zs_value : list Z; zs_low : Z }.

Definition zs_len (s : zcbor_string) : Z := zlen (zs_value s).

(** A decoding function returns whether it succeeded, here with its result, and the
    state it leaves. [zsd_payload] is what the payload pointer points to, up to the
    end of the input. *)
Class Zcbor : Type := {
  zcbor_state_t : Type;
  (* ZCBOR_STATE_D(zsd, num_backups, data, len, 1, 0) *)
  zcbor_state_d : nat → list Z → zcbor_state_t;
  zsd_payload : zcbor_state_t → list Z;
  zsd_elem_count : zcbor_state_t → Z;
  zsd_indefinite : zcbor_state_t → bool;
  zcbor_map_start_decode : zcbor_state_t → bool * zcbor_state_t;
  zcbor_map_end_decode : zcbor_state_t → bool * zcbor_state_t;
  zcbor_list_start_decode : zcbor_state_t → bool * zcbor_state_t;
  zcbor_list_map_end_force_decode : zcbor_state_t → bool * zcbor_state_t;
  zcbor_any_skip : zcbor_state_t → bool * zcbor_state_t;
  zcbor_nil_expect : zcbor_state_t → bool * zcbor_state_t;
  zcbor_tstr_decode : zcbor_state_t → option zcbor_string * zcbor_state_t;
  zcbor_uint32_decode : zcbor_state_t → option Z * zcbor_state_t;
  zcbor_int32_decode : zcbor_state_t → option Z * zcbor_state_t;
  zcbor_int64_decode : zcbor_state_t → option Z * zcbor_state_t;
  (* the bits of the double *)
  zcbor_float_decode : zcbor_state_t → option Z * zcbor_state_t;
  zcbor_bool_decode : zcbor_state_t → option bool * zcbor_state_t;
}.

(** Major types, and [ZCBOR_MAJOR_TYPE] of a byte. *)
Definition ZCBOR_MAJOR_TYPE_PINT : Z := 0.
Definition ZCBOR_MAJOR_TYPE_NINT : Z := 1.
Definition ZCBOR_MAJOR_TYPE_TSTR : Z := 3.
Definition ZCBOR_MAJOR_TYPE_SIMPLE : Z := 7.
Definition ZCBOR_MAJOR_TYPE (b : Z) : Z := Z.shiftr b 5.

(** ** [zcbor_utils.c] *)

(** [struct zcbor_map_key]: its union holds a [u32], or the pointer of a text string
    (the [u32] then being the bits it shares with it); the length of the string
    lies behind and is left alone when the [u32] is written. *)
Inductive key_type := ZCBOR_MAP_KEY_TYPE_U32 | ZCBOR_MAP_KEY_TYPE_TSTR.
Inductive key_word := word_u32 (n : Z) | word_ptr (value : list Z) (low : Z).

Record zcbor_map_key := mk_map_key {
  key_typ : key_type;
  key_val : key_word;
  key_len : Z;
}.

Definition key_u32 (k : zcbor_map_key) : Z :=
  match key_val k with word_u32 n => n | word_ptr _ low => low end.

(** [struct zcbor_map_entry]: the callback has its [value] argument built in; it
    works on the decoder and on the state [V] that the values are part of. *)
Record zcbor_map_entry `{Zc : Zcbor} (V : Type) := mk_map_entry {
  ent_key : zcbor_map_key;
  ent_decode : M (zcbor_state_t * V) rc;
}.
Arguments mk_map_entry {_ V} ent_key ent_decode.
Arguments ent_key {_ V} z.
Arguments ent_decode {_ V} z.

Section zcbor_utils.
Context `{Zc : Zcbor} {V : Type}.
Implicit Types (zsd : zcbor_state_t) (key : zcbor_map_key).

(** Calling the library. *)
Definition zcbor {A} (f : zcbor_state_t → A * zcbor_state_t) : M (zcbor_state_t * V) A :=
  λ t, let '(a, zsd) := f t.1 in Ret a (zsd, t.2).

(** [*zsd->payload]: there is nothing to read at the end of the input. *)
Definition payload_byte : M (zcbor_state_t * V) Z :=
  t ← get; match zsd_payload t.1 with b :: _ => mret b | [] => ub end.

(** [ZCBOR_U32_MAP_ENTRY], [ZCBOR_TSTR_LIT_MAP_ENTRY]; the length of a [u32] key and
    the pointer bits of a literal are not looked at. *)
Definition ZCBOR_U32_MAP_ENTRY (n : Z) (decode : M (zcbor_state_t * V) rc) : zcbor_map_entry V :=
  mk_map_entry (mk_map_key ZCBOR_MAP_KEY_TYPE_U32 (word_u32 n) 0) decode.
Definition ZCBOR_TSTR_LIT_MAP_ENTRY (lit : list Z) (decode : M (zcbor_state_t * V) rc)
    : zcbor_map_entry V :=
  mk_map_entry (mk_map_key ZCBOR_MAP_KEY_TYPE_TSTR (word_ptr lit 0) (zlen lit)) decode.

(** [memcmp] of the strings of two keys over the length of the second; a key whose
    word is not a pointer cannot be read from. *)
Definition key_memcmp (key entry : zcbor_map_key) : M (zcbor_state_t * V) bool :=
  match key_val key, key_val entry with
  | word_ptr a _, word_ptr b _ =>
      if decide (key_len entry ≤ zlen a ∧ key_len entry ≤ zlen b)
      then mret (bool_decide (slice 0 (key_len entry) b = slice 0 (key_len entry) a)) else ub
  | _, _ => ub
  end.

Fixpoint map_entry_get (entries : list (zcbor_map_entry V)) (key : zcbor_map_key)
    : M (zcbor_state_t * V) (option (zcbor_map_entry V)) :=
  match entries with
  | [] => mret None
  | entry :: entries =>
      found ←
        (match key_typ (ent_key entry) with
         | ZCBOR_MAP_KEY_TYPE_U32 => mret (key_u32 (ent_key entry) =? key_u32 key)
         | ZCBOR_MAP_KEY_TYPE_TSTR =>
             if key_len key =? key_len (ent_key entry) then key_memcmp key (ent_key entry)
             else mret false
         end);
      if found : bool then mret (Some entry) else map_entry_get entries key
  end.

(** The value callbacks; [set] stores through the [value] pointer. *)
Definition zcbor_map_value {A} (decode : zcbor_state_t → option A * zcbor_state_t) (set : A → V → V)
    : M (zcbor_state_t * V) rc :=
  r ← zcbor decode;
  match r with
  | None => mret (Some EBADMSG)
  | Some x => modify (λ t, (t.1, set x t.2));; mret success
  end.

Definition zcbor_map_int64_decode (set : Z → V → V) : M (zcbor_state_t * V) rc :=
  zcbor_map_value zcbor_int64_decode set.
Definition zcbor_map_int32_decode (set : Z → V → V) : M (zcbor_state_t * V) rc :=
  zcbor_map_value zcbor_int32_decode set.
Definition zcbor_map_tstr_decode (set : zcbor_string → V → V) : M (zcbor_state_t * V) rc :=
  zcbor_map_value zcbor_tstr_decode set.

(** The key is left as it was when decoding fails. *)
Definition zcbor_map_key_decode (key : zcbor_map_key) : M (zcbor_state_t * V) (rc * zcbor_map_key) :=
  b ← payload_byte;
  let major_type := ZCBOR_MAJOR_TYPE b in
  if major_type =? ZCBOR_MAJOR_TYPE_TSTR then
    ok ← zcbor zcbor_tstr_decode;
    match ok with
    | None => mret (Some EBADMSG, key)
    | Some s => mret (success, mk_map_key ZCBOR_MAP_KEY_TYPE_TSTR (word_ptr (zs_value s) (zs_low s)) (zs_len s))
    end
  else if major_type =? ZCBOR_MAJOR_TYPE_PINT then
    ok ← zcbor zcbor_uint32_decode;
    match ok with
    | None => mret (Some EBADMSG, key)
    | Some n => mret (success, mk_map_key ZCBOR_MAP_KEY_TYPE_U32 (word_u32 n) (key_len key))
    end
  else mret (Some EBADMSG, key).

(** [zcbor_utils.h] *)
Definition zcbor_list_or_map_end : M (zcbor_state_t * V) bool :=
  t ← get;
  if zsd_indefinite t.1 then b ← payload_byte; mret (b =? 255)
  else mret (zsd_elem_count t.1 =? 0).

(** The loop of [zcbor_map_decode]: an error, or the number of entries decoded. *)
Fixpoint map_decode_loop (fuel : nat) (entries : list (zcbor_map_entry V)) (num_decoded : Z)
    (key : zcbor_map_key) : M (zcbor_state_t * V) (errno + Z) :=
  match fuel with
  | O => nofuel
  | S fuel =>
      if num_decoded <? zlen entries then
        at_end ← zcbor_list_or_map_end;
        if at_end : bool then mret (inr num_decoded) else
        '(err, key) ← zcbor_map_key_decode key;
        match err with
        | Some e => mret (inl e)
        | None =>
            entry ← map_entry_get entries key;
            match entry with
            | Some entry =>
                err ← ent_decode entry;
                match err with
                | Some e => mret (inl e)
                | None => map_decode_loop fuel entries (num_decoded + 1) key
                end
            | None =>
                ok ← zcbor zcbor_any_skip;
                if ok : bool then map_decode_loop fuel entries num_decoded key
                else mret (inl EBADMSG)
            end
        end
      else mret (inr num_decoded)
  end.

(** [key] is what the local variable of that name holds at first. Every turn of the
    loop takes a key off the input. *)
Definition zcbor_map_decode (key : zcbor_map_key) (entries : list (zcbor_map_entry V))
    : M (zcbor_state_t * V) rc :=
  ok ← zcbor zcbor_map_start_decode;
  if negb ok then mret (Some EBADMSG) else
  t ← get;
  r ← map_decode_loop (S (length (zsd_payload t.1))) entries 0 key;
  match r with
  | inl e => mret (Some e)
  | inr num_decoded =>
      if negb (num_decoded =? 0) && (num_decoded <? zlen entries) then mret (Some EBADMSG) else
      ok ← zcbor zcbor_list_map_end_force_decode;
      mret (if negb ok then Some EBADMSG
            else if num_decoded =? 0 then Some ENOENT else success)
  end.
End zcbor_utils.

(** ** What is relied on *)

#[local] Unset Elimination Schemes.

(** CBOR data items, as far as the sources tell them apart; [IOther] is a byte
    string, a tag, or another simple value, by its major type. *)
Inductive item :=
  | IInt (n : Z)
  | ITstr (s : list Z)
  | IList (l : list item)
  | IMap (l : list (item * item))
  | INil
  | IBool (b : bool)
  | IFloat (bits : Z)
  | IOther (major : Z).

#[local] Set Elimination Schemes.

Definition item_major (x : item) : Z :=
  match x with
  | IInt n => if n <? 0 then ZCBOR_MAJOR_TYPE_NINT else ZCBOR_MAJOR_TYPE_PINT
  | ITstr _ => ZCBOR_MAJOR_TYPE_TSTR
  | IList _ => 4
  | IMap _ => 5
  | INil | IBool _ | IFloat _ => ZCBOR_MAJOR_TYPE_SIMPLE
  | IOther m => m
  end.

(** What the decoding functions accept of an item. *)
Definition as_tstr (x : item) : option (list Z) := match x with ITstr s => Some s | _ => None end.
Definition as_int (lo hi : Z) (x : item) : option Z :=
  match x with IInt n => if (lo <=? n) && (n <? hi) then Some n else None | _ => None end.
Definition as_uint32 : item → option Z := as_int 0 (2 ^ 32).
Definition as_int32 : item → option Z := as_int (- 2 ^ 31) (2 ^ 31).
Definition as_int64 : item → option Z := as_int (- 2 ^ 63) (2 ^ 63).
Definition as_float (x : item) : option Z := match x with IFloat b => Some b | _ => None end.
Definition as_bool (x : item) : option bool := match x with IBool b => Some b | _ => None end.
Definition as_nil (x : item) : option unit := match x with INil => Some tt | _ => None end.

Definition flatten (l : list (item * item)) : list item := concat (map (λ kv, [kv.1; kv.2]) l).

(** A decoding function takes the next item if it accepts it, and leaves it there
    otherwise. *)
Definition takes {S A} (reads : nat → S → list item → list (list item) → Prop)
    (decode : S → option A * S) (accept : item → option A) : Prop :=
  ∀ n s x r o, reads n s (x :: r) o → (decode s).1 = accept x ∧
    reads n (decode s).2 (match accept x with Some _ => r | None => x :: r end) o.

(** [zsd_reads n zsd cur outer]: [n] more containers can be opened; the items [cur]
    are left in the innermost open container, and those of [outer] in the ones
    around it. It speaks of documents whose containers have definite lengths: ending
    a container by force leaves the final byte of an indefinite one behind. *)
Class ZcborSpec (Zc : Zcbor) : Type := {
  cbor_encodes : list Z → item → Prop;
  zsd_reads : nat → zcbor_state_t → list item → list (list item) → Prop;
  reads_new : ∀ n data x, cbor_encodes data x → zsd_reads n (zcbor_state_d n data) [x] [];
  reads_major : ∀ n s x r o, zsd_reads n s (x :: r) o →
    ∃ b rest, zsd_payload s = b :: rest ∧ ZCBOR_MAJOR_TYPE b = item_major x;
  reads_end : ∀ n s cur o, zsd_reads n s cur o →
    zsd_indefinite s = false ∧ (zsd_elem_count s = 0 ↔ cur = []);
  map_start_reads : ∀ n s x r o, zsd_reads n s (x :: r) o →
    match x, n with
    | IMap l, S n => (zcbor_map_start_decode s).1 = true ∧
        zsd_reads n (zcbor_map_start_decode s).2 (flatten l) (r :: o)
    | _, _ => (zcbor_map_start_decode s).1 = false
    end;
  list_start_reads : ∀ n s x r o, zsd_reads n s (x :: r) o →
    match x, n with
    | IList l, S n => (zcbor_list_start_decode s).1 = true ∧
        zsd_reads n (zcbor_list_start_decode s).2 l (r :: o)
    | _, _ => (zcbor_list_start_decode s).1 = false
    end;
  map_end_reads : ∀ n s r o, zsd_reads n s [] (r :: o) →
    (zcbor_map_end_decode s).1 = true ∧ zsd_reads (S n) (zcbor_map_end_decode s).2 r o;
  force_end_reads : ∀ n s cur r o, zsd_reads n s cur (r :: o) →
    (zcbor_list_map_end_force_decode s).1 = true ∧
    (cur = [] → zsd_reads (S n) (zcbor_list_map_end_force_decode s).2 r o);
  any_skip_reads : ∀ n s x r o, zsd_reads n s (x :: r) o →
    (zcbor_any_skip s).1 = true ∧ zsd_reads n (zcbor_any_skip s).2 r o;
  nil_reads : takes zsd_reads (λ s, let '(ok, s) := zcbor_nil_expect s in
    (if ok : bool then Some tt else None, s)) as_nil;
  tstr_reads : takes zsd_reads (λ s, let '(t, s) := zcbor_tstr_decode s in (zs_value <$> t, s)) as_tstr;
  uint32_reads : takes zsd_reads zcbor_uint32_decode as_uint32;
  int32_reads : takes zsd_reads zcbor_int32_decode as_int32;
  int64_reads : takes zsd_reads zcbor_int64_decode as_int64;
  float_reads : takes zsd_reads zcbor_float_decode as_float;
  bool_reads : takes zsd_reads zcbor_bool_decode as_bool;
  (* whatever the input is, decoding a key or a value uses it up *)
  tstr_shorter : ∀ s, is_Some (zcbor_tstr_decode s).1 →
    (length (zsd_payload (zcbor_tstr_decode s).2) < length (zsd_payload s))%nat;
  uint32_shorter : ∀ s, is_Some (zcbor_uint32_decode s).1 →
    (length (zsd_payload (zcbor_uint32_decode s).2) < length (zsd_payload s))%nat;
  tstr_length : ∀ s, (length (zsd_payload (zcbor_tstr_decode s).2) ≤ length (zsd_payload s))%nat;
  int32_length : ∀ s, (length (zsd_payload (zcbor_int32_decode s).2) ≤ length (zsd_payload s))%nat;
  int64_length : ∀ s, (length (zsd_payload (zcbor_int64_decode s).2) ≤ length (zsd_payload s))%nat;
  map_start_length : ∀ s, (length (zsd_payload (zcbor_map_start_decode s).2) ≤ length (zsd_payload s))%nat;
  list_start_length : ∀ s, (length (zsd_payload (zcbor_list_start_decode s).2) ≤ length (zsd_payload s))%nat;
  force_end_length : ∀ s, (length (zsd_payload (zcbor_list_map_end_force_decode s).2) ≤ length (zsd_payload s))%nat;
  float_length : ∀ s, (length (zsd_payload (zcbor_float_decode s).2) ≤ length (zsd_payload s))%nat;
  bool_length : ∀ s, (length (zsd_payload (zcbor_bool_decode s).2) ≤ length (zsd_payload s))%nat;
  nil_length : ∀ s, (length (zsd_payload (zcbor_nil_expect s).2) ≤ length (zsd_payload s))%nat;
  map_end_length : ∀ s, (length (zsd_payload (zcbor_map_end_decode s).2) ≤ length (zsd_payload s))%nat;
  any_skip_length : ∀ s, (length (zsd_payload (zcbor_any_skip s).2) ≤ length (zsd_payload s))%nat;
}.

(** ** Decoding maps *)

Section map_spec.
Context `{Zc : Zcbor} {V : Type}.
Implicit Types (e : zcbor_map_entry V) (x : item) (kvs : list (item * item)) (v : V).

(** A map with text keys, or with integer keys, and entries of the same kind. *)
Definition key_ok (text : bool) x : Prop :=
  if text then ∃ s, x = ITstr s else ∃ n, x = IInt n ∧ 0 ≤ n < 2 ^ 32.
Definition entry_ok (text : bool) e : Prop :=
  if text then ∃ lit low, ent_key e = mk_map_key ZCBOR_MAP_KEY_TYPE_TSTR (word_ptr lit low) (zlen lit)
  else ∃ n len, ent_key e = mk_map_key ZCBOR_MAP_KEY_TYPE_U32 (word_u32 n) len.

Definition key_matches x e : bool :=
  match x, key_val (ent_key e) with
  | ITstr s, word_ptr lit _ => bool_decide (lit = s)
  | IInt n, word_u32 m => m =? n
  | _, _ => false
  end.

(** The pairs of a map that an entry asks for, in the order of the map. *)
Definition hits (entries : list (zcbor_map_entry V)) kvs : list (zcbor_map_entry V * item) :=
  omap (λ kv, (λ e, (e, kv.2)) <$> find (key_matches kv.1) entries) kvs.

(** [sem e x]: what the callback of [e] makes of the item [x]. *)
Fixpoint apply_hits (sem : zcbor_map_entry V → item → V → rc * V)
    (hs : list (zcbor_map_entry V * item)) v : rc * V :=
  match hs with
  | [] => (success, v)
  | (e, x) :: hs =>
      match sem e x v with
      | (None, v) => apply_hits sem hs v
      | (err, v) => (err, v)
      end
  end.

(** An item that can be a key. *)
Definition is_key x : bool :=
  match x with ITstr _ => true | IInt n => (0 <=? n) && (n <? 2 ^ 32) | _ => false end.

(** The pairs before the first whose key is not one. *)
Fixpoint keyed kvs : list (item * item) :=
  match kvs with
  | kv :: kvs => if is_key kv.1 then kv :: keyed kvs else []
  | [] => []
  end.

Lemma keyed_all text kvs : Forall (λ kv, key_ok text kv.1) kvs → keyed kvs = kvs.
Proof.
  induction 1 as [|[k x] kvs Hk _ IH]; cbn [keyed fst] in *; [done|]. rewrite IH.
  destruct text; [by destruct Hk as [s ->]|]. destruct Hk as (n & -> & Hn). cbn.
  by rewrite (proj2 (Z.leb_le _ _)), (proj2 (Z.ltb_lt _ _)) by lia.
Qed.

(** The last pair of the map is asked for, or not all entries are there: the whole
    map is read. *)
Definition read_whole (entries : list (zcbor_map_entry V)) kvs : Prop :=
  ∀ kvs' kv, kvs = kvs' ++ [kv] → (length (hits entries kvs') < length entries)%nat.

Definition payload_length (t : zcbor_state_t * V) : nat := length (zsd_payload t.1).
End map_spec.

Section map_facts.
Context `{ZcS : ZcborSpec} {V : Type}.
Implicit Types (e : zcbor_map_entry V) (x : item) (kvs : list (item * item)) (v : V).
Implicit Types (t : zcbor_state_t * V) (entries : list (zcbor_map_entry V)).

(** The callback of [e] behaves as [sem] says, and takes its item, where [n] more
    containers can be opened. *)
Definition entry_sem (n : nat) (sem : item → V → rc * V) e : Prop :=
  ∀ s x r o v, zsd_reads n s (x :: r) o →
    wp (ent_decode e) (λ err t, (err, t.2) = sem x v ∧
      (payload_length t ≤ length (zsd_payload s))%nat ∧
      (err = success → zsd_reads n t.1 r o)) (s, v).

Lemma wp_zcbor {A} (f : zcbor_state_t → A * zcbor_state_t) Q t :
  Q (f t.1).1 ((f t.1).2, t.2) → wp (zcbor f) Q t.
Proof. unfold wp, zcbor. by destruct (f t.1) as [a s]. Qed.

Lemma wp_at_end n s cur o v Q :
  zsd_reads n s cur o → Q (bool_decide (cur = [])) (s, v) → wp zcbor_list_or_map_end Q (s, v).
Proof.
  intros Hr HQ. unfold zcbor_list_or_map_end. do 2 wp_step. cbn [fst].
  destruct (reads_end _ _ _ _ Hr) as [-> He].
  wp_step. replace (zsd_elem_count s =? 0) with (bool_decide (cur = [])); [done|].
  case_bool_decide as Hc; symmetry; [apply Z.eqb_eq|apply Z.eqb_neq]; tauto.
Qed.

(** The key that a well-formed key item is decoded to. *)
Definition decoded_key (key : zcbor_map_key) x (low : Z) : zcbor_map_key :=
  match x with
  | ITstr s => mk_map_key ZCBOR_MAP_KEY_TYPE_TSTR (word_ptr s low) (zlen s)
  | IInt n => mk_map_key ZCBOR_MAP_KEY_TYPE_U32 (word_u32 n) (key_len key)
  | _ => key
  end.

Lemma wp_key_decode n s x r o v key text Q :
  zsd_reads n s (x :: r) o → key_ok text x →
  (∀ s' low, zsd_reads n s' r o → (length (zsd_payload s') < length (zsd_payload s))%nat →
     Q (success, decoded_key key x low) (s', v)) →
  wp (zcbor_map_key_decode key) Q (s, v).
Proof.
  intros Hr Hk HQ. destruct (reads_major _ _ _ _ _ Hr) as (b & rest & Hp & Hb).
  unfold zcbor_map_key_decode, payload_byte. wp_steps. cbn [fst]. rewrite Hp. wp_steps.
  rewrite Hb. destruct text.
  - destruct Hk as [str ->]. cbn [item_major]. rewrite Z.eqb_refl.
    pose proof (tstr_reads _ _ _ _ _ Hr) as [Hv Hr']. pose proof (tstr_shorter s) as Hs.
    wp_step. apply wp_zcbor. cbn [fst snd].
    destruct (zcbor_tstr_decode s) as [[z|] s']; cbn in *; [|done]. injection Hv as <-.
    wp_step. apply (HQ s' (zs_low z)); [done|]. by apply Hs.
  - destruct Hk as (m & -> & Hm). cbn [item_major].
    rewrite (proj2 (Z.ltb_ge m 0)) by lia.
    change (ZCBOR_MAJOR_TYPE_PINT =? ZCBOR_MAJOR_TYPE_TSTR) with false. rewrite Z.eqb_refl.
    pose proof (uint32_reads _ _ _ _ _ Hr) as [Hv Hr']. pose proof (uint32_shorter s) as Hs.
    assert (as_uint32 (IInt m) = Some m) as Ha.
    { cbn. rewrite (proj2 (Z.leb_le 0 m)), (proj2 (Z.ltb_lt m (2 ^ 32))) by lia. done. }
    rewrite Ha in *. wp_step. apply wp_zcbor. cbn [fst snd].
    destruct (zcbor_uint32_decode s) as [[z|] s']; cbn in *; [|done]. injection Hv as ->.
    wp_step. apply (HQ s' 0); [done|]. by apply Hs.
Qed.

Lemma wp_entry_get entries x key low text t Q :
  key_ok text x → Forall (entry_ok text) entries →
  Q (find (key_matches x) entries) t → wp (map_entry_get entries (decoded_key key x low)) Q t.
Proof.
  intros Hx He. induction He as [|e entries He _ IH]; intros HQ; cbn [map_entry_get find] in *; [by wp_step|].
  assert (wp (match key_typ (ent_key e) with
         | ZCBOR_MAP_KEY_TYPE_U32 => mret (key_u32 (ent_key e) =? key_u32 (decoded_key key x low))
         | ZCBOR_MAP_KEY_TYPE_TSTR =>
             if key_len (decoded_key key x low) =? key_len (ent_key e)
             then key_memcmp (decoded_key key x low) (ent_key e) else mret false
         end) (λ found t', found = key_matches x e ∧ t' = t) t) as Hf.
  { unfold key_matches. destruct text.
    - destruct Hx as [s ->], He as (lit & lo & ->). cbn.
      destruct (Z.eqb_spec (zlen s) (zlen lit)) as [Hl|Hl].
      + unfold key_memcmp. cbn. rewrite decide_True by lia. wp_step. split; [|done].
        rewrite slice_0_all, <- Hl, slice_0_all. done.
      + wp_step. split; [|done]. rewrite bool_decide_false; [done|]. congruence.
    - destruct Hx as (m & -> & _), He as (k & len & ->). cbn. by wp_step. }
  wp_step. eapply wp_mono; [exact Hf|]. intros found t' [-> ->].
  destruct (key_matches x e); [by wp_step|by apply IH].
Qed.

Lemma hits_cons entries k x kvs :
  hits entries ((k, x) :: kvs) =
  match find (key_matches k) entries with
  | Some e => (e, x) :: hits entries kvs
  | None => hits entries kvs
  end.
Proof. unfold hits. cbn. by destruct (find _ _). Qed.

(** What is neither a text string nor a 32-bit number is not a key. *)
Lemma wp_bad_key n s x r o v key Q :
  zsd_reads n s (x :: r) o → is_key x = false →
  (∀ s', Q (Some EBADMSG, key) (s', v)) → wp (zcbor_map_key_decode key) Q (s, v).
Proof.
  intros Hr Hk HQ. destruct (reads_major _ _ _ _ _ Hr) as (b & rest & Hp & Hb).
  unfold zcbor_map_key_decode, payload_byte. wp_steps. cbn [fst]. rewrite Hp. wp_steps. rewrite Hb.
  destruct (item_major x =? ZCBOR_MAJOR_TYPE_TSTR); [|destruct (item_major x =? ZCBOR_MAJOR_TYPE_PINT)].
  - pose proof (tstr_reads _ _ _ _ _ Hr) as [Hv _]. assert (as_tstr x = None) as Hx by by destruct x.
    wp_step. apply wp_zcbor. cbn [fst snd].
    destruct (zcbor_tstr_decode s) as [[z|] s']; cbn in *; [by rewrite Hx in Hv|]. wp_step. apply HQ.
  - pose proof (uint32_reads _ _ _ _ _ Hr) as [Hv _].
    assert (as_uint32 x = None) as Hx.
    { destruct x as [m| | | | | | |]; try done. cbn in Hk |- *. by rewrite Hk. }
    wp_step. apply wp_zcbor. cbn [fst snd].
    destruct (zcbor_uint32_decode s) as [[z|] s']; cbn in *; [by rewrite Hx in Hv|]. wp_step. apply HQ.
  - wp_step. apply HQ.
Qed.

Lemma key_ok_is_key text x : key_ok text x → is_key x = true.
Proof.
  destruct text; [by intros [s ->]|]. intros (n & -> & Hn). cbn.
  by rewrite (proj2 (Z.leb_le _ _)), (proj2 (Z.ltb_lt _ _)) by lia.
Qed.

(** The loop takes the first [num] pairs that are asked for, and stops there, or at a key
    that is not one. *)
Lemma wp_map_decode_loop sem text entries fuel done_ key kvs n s r o v :
  Forall (entry_ok text) entries → Forall (λ e, entry_sem n (sem e) e) entries →
  Forall (λ kv, key_ok text kv.1) (keyed kvs) → (length (zsd_payload s) < fuel)%nat →
  zsd_reads n s (flatten kvs) (r :: o) → 0 ≤ done_ ≤ zlen entries →
  let hs := take (Z.to_nat (zlen entries - done_)) (hits entries (keyed kvs)) in
  wp (map_decode_loop fuel entries done_ key) (λ res t,
    t.2 = (apply_hits sem hs v).2 ∧
    match (apply_hits sem hs v).1 with
    | Some e => res = inl e
    | None =>
        if decide (done_ + zlen hs < zlen entries ∧ (length (keyed kvs) < length kvs)%nat) then res = inl EBADMSG
        else res = inr (done_ + zlen hs) ∧ ∃ pre post, kvs = pre ++ post ∧
        zsd_reads n t.1 (flatten post) (r :: o) ∧
        (done_ + zlen (hits entries pre) < zlen entries → post = [])
    end) (s, v).
Proof.
  intros Hent Hsem. revert done_ key kvs s v.
  induction fuel as [|fuel IH]; intros done_ key kvs s v Hks Hfuel Hr Hd hs; [lia|]. cbn [map_decode_loop].
  destruct (Z.ltb_spec done_ (zlen entries)) as [Hlt|Hge].
  2: { unfold hs. replace (zlen entries - done_) with 0 by lia. wp_step. cbn. split; [done|].
       rewrite Z.add_0_r, decide_False by lia.
       split; [done|]. exists [], kvs. split_and!; [done|done|change (zlen (hits entries [])) with 0; lia]. }
  wp_step. eapply wp_at_end; [done|]. destruct kvs as [|[k x] kvs].
  { rewrite bool_decide_true by done. wp_step. unfold hs, hits. cbn. rewrite take_nil. cbn.
    rewrite Z.add_0_r. split; [done|]. rewrite decide_False by lia. split; [done|]. by exists [], []. }
  rewrite bool_decide_false by done. change (flatten ((k, x) :: kvs)) with (k :: x :: flatten kvs) in Hr.
  unfold hs in *. cbn [keyed fst] in *. destruct (is_key k) eqn:Hik.
  2: { wp_step. eapply wp_bad_key; [exact Hr|exact Hik|]. intros s'. wp_step.
       change (hits entries []) with (@nil (zcbor_map_entry V * item)). rewrite take_nil. cbn [apply_hits fst snd].
       split; [done|]. rewrite decide_True; [done|]. change (zlen []) with 0. cbn. lia. }
  apply Forall_cons_iff in Hks as [Hk Hks]. cbn [fst] in Hk.
  wp_step. eapply wp_key_decode; [exact Hr|exact Hk|]. intros s1 low Hr1 Hs1.
  wp_step. eapply wp_entry_get; [done|done|].
  rewrite hits_cons. destruct (find (key_matches k) entries) as [e|] eqn:Hf.
  - assert (entry_sem n (sem e) e) as He.
    { eapply Forall_forall in Hsem; [exact Hsem|]. by apply find_some in Hf as [? _]. }
    replace (Z.to_nat (zlen entries - done_)) with (S (Z.to_nat (zlen entries - (done_ + 1)))) by lia.
    cbn [take apply_hits]. wp_step. eapply wp_mono; [by eapply He|].
    intros err [s2 v2] ([= Hsv] & Hlen & Hr2). cbn in *. rewrite <- Hsv.
    destruct err as [e'|]; [by wp_step|].
    eapply wp_mono; [apply (IH (done_ + 1) _ kvs s2 v2); [done|unfold payload_length in Hlen; cbn in Hlen; lia|auto|lia]|].
    intros res t [-> Hres]. split; [done|]. destruct (apply_hits _ _ _).1; [done|]. rewrite zlen_cons.
    case_decide as Hc; [rewrite decide_True by (cbn [length]; lia); done|].
    rewrite decide_False by (cbn [length]; lia).
    destruct Hres as (-> & pre & post & -> & Hr3 & Hpost). split; [f_equal; lia|].
    exists ((k, x) :: pre), post. split_and!; [done|done|]. rewrite hits_cons, Hf, zlen_cons.
    intros ?. apply Hpost. lia.
  - wp_step. apply wp_zcbor. cbn [fst snd]. pose proof (any_skip_length s1) as Hlen.
    destruct (any_skip_reads _ _ _ _ _ Hr1) as [-> Hr2].
    eapply wp_mono; [apply (IH done_ _ kvs); [done|lia|done|lia]|].
    intros res t [-> Hres]. split; [done|]. destruct (apply_hits _ _ _).1; [done|].
    case_decide as Hc; [rewrite decide_True by (cbn [length]; lia); done|].
    rewrite decide_False by (cbn [length]; lia).
    destruct Hres as (-> & pre & post & -> & Hr3 & Hpost). split; [done|].
    exists ((k, x) :: pre), post. split_and!; [done|done|]. by rewrite hits_cons, Hf.
Qed.

(** What decoding a map reports, once the callbacks of the pairs found were called: [found]
    of them out of [wanted]; [cut] tells that a key that is not one follows. *)
Definition map_result (found wanted : nat) (cut : bool) : rc :=
  if decide ((found < wanted)%nat ∧ cut = true) then Some EBADMSG
  else if decide (found = O) then Some ENOENT
  else if decide (found < wanted)%nat then Some EBADMSG else success.

Lemma wp_map_decode_any sem text entries key kvs n s r o v :
  Forall (entry_ok text) entries → Forall (λ e, entry_sem n (sem e) e) entries →
  Forall (λ kv, key_ok text kv.1) (keyed kvs) → zsd_reads (S n) s (IMap kvs :: r) o →
  let hs := take (length entries) (hits entries (keyed kvs)) in
  wp (zcbor_map_decode key entries) (λ err t, t.2 = (apply_hits sem hs v).2 ∧
    err = match (apply_hits sem hs v).1 with
          | Some e => Some e
          | None => map_result (length hs) (length entries) (bool_decide (length (keyed kvs) < length kvs)%nat)
          end ∧
    (err = success → read_whole entries kvs → zsd_reads (S n) t.1 r o)) (s, v).
Proof.
  intros Hent Hsem Hks Hr hs. unfold zcbor_map_decode.
  destruct (map_start_reads _ _ _ _ _ Hr) as [Hok Hr1]. wp_step. apply wp_zcbor. cbn [fst snd].
  rewrite Hok. cbn [negb]. do 3 wp_step. cbn [fst].
  eapply wp_mono; [apply (wp_map_decode_loop sem text entries _ 0 key kvs n _ r o v); try done; [lia|split; [done|apply zlen_nonneg]]|].
  assert (take (Z.to_nat (zlen entries - 0)) (hits entries (keyed kvs)) = hs) as ->.
  { unfold hs, zlen. f_equal. lia. }
  intros res [s2 v2] [Hv Hres]. cbn in Hv. destruct (apply_hits sem hs v).1 as [e|].
  { subst res. wp_step. by split_and!. }
  unfold map_result. rewrite Z.add_0_l in Hres. case_decide as Hcut.
  { subst res. wp_step. split; [done|]. rewrite decide_True; [done|]. unfold zlen in Hcut.
    split; [lia|apply bool_decide_true; lia]. }
  rewrite (decide_False (P := _ ∧ bool_decide _ = true)).
  2: { intros [? ?%bool_decide_eq_true]. apply Hcut. unfold zlen. lia. }
  destruct Hres as (-> & pre & post & -> & Hr2 & Hpost). cbn [fst snd] in *. rewrite Z.add_0_l in *.
  assert (∀ b : bool, b = negb (zlen hs =? 0) && (zlen hs <? zlen entries) →
    b = bool_decide (length hs ≠ O ∧ (length hs < length entries)%nat)) as Hb.
  { intros b ->. unfold zlen. case_bool_decide as Hc; lia. }
  rewrite (Hb _ eq_refl). case_bool_decide as Hc.
  { wp_step. cbn. rewrite decide_False, decide_True by tauto. by split_and!. }
  destruct (force_end_reads _ _ _ _ _ Hr2) as [Hf Hr3]. wp_step. apply wp_zcbor. cbn [fst snd].
  rewrite Hf. wp_step. cbn [negb].
  assert (post = [] ∨ ∃ pre' kv, pre ++ post = pre' ++ [kv] ∧ (zlen entries ≤ zlen (hits entries pre'))) as Hwhole.
  { destruct (Z.lt_ge_cases (zlen (hits entries pre)) (zlen entries)) as [Hl|Hl]; [left; by apply Hpost|].
    destruct post as [|kv post _] using rev_ind; [by left|]. right. exists (pre ++ post), kv.
    split; [by rewrite app_assoc|]. unfold hits in *. rewrite omap_app, zlen_app.
    match goal with |- _ ≤ _ + zlen ?l => pose proof (zlen_nonneg l) end. lia. }
  split; [done|]. split.
  - unfold zlen. destruct (decide (length hs = O)) as [->|Hne]; [done|].
    rewrite (proj2 (Z.eqb_neq _ _)) by lia. rewrite decide_False; [done|tauto].
  - intros _ Hrw. apply Hr3. destruct Hwhole as [->|(pre' & kv & He & Hl)]; [done|].
    specialize (Hrw pre' kv He). unfold zlen in Hl. lia.
Qed.

(** Any item; containers can be opened [n] deep. *)
Lemma wp_map_decode_item sem text entries key x n s r o v :
  Forall (entry_ok text) entries → (∀ m, n = S m → Forall (λ e, entry_sem m (sem e) e) entries) →
  (∀ kvs, x = IMap kvs → Forall (λ kv, key_ok text kv.1) (keyed kvs)) → zsd_reads n s (x :: r) o →
  wp (zcbor_map_decode key entries) (λ err t,
    match x, n with
    | IMap kvs, S _ =>
        let hs := take (length entries) (hits entries (keyed kvs)) in
        t.2 = (apply_hits sem hs v).2 ∧
        err = match (apply_hits sem hs v).1 with
              | Some e => Some e
              | None => map_result (length hs) (length entries) (bool_decide (length (keyed kvs) < length kvs)%nat)
              end ∧
        (err = success → read_whole entries kvs → zsd_reads n t.1 r o)
    | _, _ => err = Some EBADMSG ∧ t.2 = v
    end) (s, v).
Proof.
  intros Hent Hsem Hks Hr. pose proof (map_start_reads _ _ _ _ _ Hr) as Hs.
  assert ((zcbor_map_start_decode s).1 = false →
    wp (zcbor_map_decode key entries) (λ err t, err = Some EBADMSG ∧ t.2 = v) (s, v)) as Hbad.
  { intros Hf. unfold zcbor_map_decode. wp_step. apply wp_zcbor. cbn [fst snd]. rewrite Hf. cbn [negb]. by wp_step. }
  destruct x as [| | |kvs| | | |]; try by apply Hbad. destruct n as [|n]; [by apply Hbad|].
  apply (wp_map_decode_any sem text); [done|by apply Hsem|by apply Hks|done].
Qed.

Lemma wp_map_decode sem text entries key kvs n s r o v :
  Forall (entry_ok text) entries → Forall (λ e, entry_sem n (sem e) e) entries →
  Forall (λ kv, key_ok text kv.1) kvs → zsd_reads (S n) s (IMap kvs :: r) o →
  let hs := take (length entries) (hits entries kvs) in
  wp (zcbor_map_decode key entries) (λ err t, t.2 = (apply_hits sem hs v).2 ∧
    err = match (apply_hits sem hs v).1 with
          | Some e => Some e
          | None => if decide (hs = []) then Some ENOENT
                    else if decide (length hs < length entries)%nat then Some EBADMSG else success
          end ∧
    (err = success → read_whole entries kvs → zsd_reads (S n) t.1 r o)) (s, v).
Proof.
  intros Hent Hsem Hks Hr hs. pose proof (keyed_all text kvs Hks) as Hk.
  eapply wp_mono; [apply (wp_map_decode_any sem text entries key kvs n s r o v); [done|done|by rewrite Hk|done]|].
  rewrite Hk. fold hs. intros err t (Ht & -> & Hr'). split_and!; [done| |done].
  destruct (apply_hits sem hs v).1; [done|]. unfold map_result. rewrite bool_decide_false by lia.
  rewrite decide_False by (by intros [_ ?]). by destruct hs.
Qed.
End map_facts.

(** ** Any input *)

Section map_end.
Context `{ZcS : ZcborSpec} {V : Type}.
Implicit Types (t : zcbor_state_t * V) (entries : list (zcbor_map_entry V)).

(** A step that does not move the payload pointer back. *)
Definition forward {A} (m : M (zcbor_state_t * V) A) : Prop :=
  ∀ t, wlp m (λ _ t', (payload_length t' ≤ payload_length t)%nat) t.

Lemma wlp_zcbor {A} (f : zcbor_state_t → A * zcbor_state_t) Q t :
  Q (f t.1).1 ((f t.1).2, t.2) → wlp (zcbor f) Q t.
Proof. unfold wlp, zcbor. by destruct (f t.1) as [a s]. Qed.

Lemma wlp_payload_byte Q t : (∀ b, Q b t) → wlp payload_byte Q t.
Proof.
  intros HQ. unfold payload_byte. apply wlp_bind, wlp_get.
  destruct (zsd_payload t.1); [apply wlp_ub|by apply wlp_ret].
Qed.

Lemma wlp_at_end Q t : (∀ b, Q b t) → wlp zcbor_list_or_map_end Q t.
Proof.
  intros HQ. unfold zcbor_list_or_map_end. apply wlp_bind, wlp_get. destruct (zsd_indefinite t.1).
  - apply wlp_bind, wlp_payload_byte. intros b. by apply wlp_ret.
  - by apply wlp_ret.
Qed.

Lemma wlp_key_decode key Q t :
  (∀ e key' t', Q (Some e, key') t') →
  (∀ key' t', (payload_length t' < payload_length t)%nat → Q (success, key') t') →
  wlp (zcbor_map_key_decode key) Q t.
Proof.
  intros HF HS. unfold zcbor_map_key_decode. apply wlp_bind, wlp_payload_byte. intros b. cbn zeta.
  destruct (_ =? _); [|destruct (_ =? _); [|by apply wlp_ret]].
  - apply wlp_bind, wlp_zcbor. pose proof (tstr_shorter t.1) as Hs. destruct (zcbor_tstr_decode t.1) as [[z|] s].
    + apply wlp_ret, HS. by apply Hs.
    + by apply wlp_ret.
  - apply wlp_bind, wlp_zcbor. pose proof (uint32_shorter t.1) as Hs. destruct (zcbor_uint32_decode t.1) as [[z|] s].
    + apply wlp_ret, HS. by apply Hs.
    + by apply wlp_ret.
Qed.

Lemma wlp_entry_get key Q entries t :
  (Q None t) → (∀ e, e ∈ entries → Q (Some e) t) → wlp (map_entry_get entries key) Q t.
Proof.
  induction entries as [|e entries IH]; intros HN HQ; cbn [map_entry_get]; [by apply wlp_ret|].
  apply wlp_bind. apply (wlp_mono _ (λ _ t', t' = t)).
  - destruct (key_typ (ent_key e)); [by apply wlp_ret|]. destruct (_ =? _); [|by apply wlp_ret].
    unfold key_memcmp. destruct (key_val key); [apply wlp_ub|]. destruct (key_val (ent_key e)); [apply wlp_ub|].
    case_decide; [by apply wlp_ret|apply wlp_ub].
  - intros [|] t' ->; [apply wlp_ret, HQ; set_solver|]. apply IH; [done|]. intros; apply HQ; set_solver.
Qed.

Lemma map_value_forward {A} (decode : zcbor_state_t → option A * zcbor_state_t) (set : A → V → V) :
  (∀ s, (length (zsd_payload (decode s).2) ≤ length (zsd_payload s))%nat) → forward (zcbor_map_value decode set).
Proof.
  intros Hl t. unfold zcbor_map_value. apply wlp_bind, wlp_zcbor. specialize (Hl t.1). unfold payload_length.
  destruct (decode t.1) as [[x|] s]; [|by apply wlp_ret]. by apply wlp_bind, wlp_modify, wlp_ret.
Qed.

(** The loop never moves back, and moves on when it finds an entry. *)
Lemma wlp_map_decode_loop entries fuel num key t :
  Forall (λ e, forward (ent_decode e)) entries → (payload_length t < fuel)%nat →
  wlp (map_decode_loop fuel entries num key) (λ r t', match r with
    | inr num' => num ≤ num' ∧ (payload_length t' ≤ payload_length t)%nat ∧
                  (num < num' → (payload_length t' < payload_length t)%nat)
    | inl _ => True
    end) t.
Proof.
  intros He. revert num key t. induction fuel as [|fuel IH]; intros num key t Hf; [lia|].
  cbn [map_decode_loop]. destruct (_ <? _); [|apply wlp_ret; split_and!; [done|done|lia]].
  apply wlp_bind, wlp_at_end. intros [|]; [apply wlp_ret; split_and!; [done|done|lia]|].
  apply wlp_bind, wlp_key_decode; [by intros; apply wlp_ret|]. intros key' t1 H1.
  apply wlp_bind, wlp_entry_get.
  - apply wlp_bind, wlp_zcbor. pose proof (any_skip_length t1.1) as Hs.
    destruct (zcbor_any_skip t1.1) as [[|] s]; [|by apply wlp_ret].
    eapply wlp_mono; [apply IH; unfold payload_length in *; cbn in *; lia|].
    intros [e|num'] t' Hn; [done|]. unfold payload_length in *. cbn in *. lia.
  - intros e Hin. apply wlp_bind. eapply Forall_forall in He; [|by apply list_elem_of_In].
    eapply wlp_mono; [apply He|]. intros [err|] t2 H2; [by apply wlp_ret|].
    eapply wlp_mono; [apply IH; lia|]. intros [e'|num'] t' Hn; [done|]. lia.
Qed.

Lemma wlp_map_decode entries key t :
  Forall (λ e, forward (ent_decode e)) entries →
  wlp (zcbor_map_decode key entries)
    (λ err t', err = success → (payload_length t' < payload_length t)%nat) t.
Proof.
  intros He. unfold zcbor_map_decode. apply wlp_bind, wlp_zcbor. pose proof (map_start_length t.1) as Hs.
  destruct (zcbor_map_start_decode t.1) as [[|] s]; [|by apply wlp_ret]. cbn [negb fst snd] in *.
  apply wlp_bind, wlp_get. apply wlp_bind. eapply wlp_mono; [apply wlp_map_decode_loop; [done|]|].
  { unfold payload_length. lia. }
  intros [e|num] t1 Hn; [by apply wlp_ret|]. destruct (_ && _); [by apply wlp_ret|].
  apply wlp_bind, wlp_zcbor, wlp_ret. pose proof (force_end_length t1.1) as Hf.
  destruct (zcbor_list_map_end_force_decode t1.1) as [[|] s']; [|done]. cbn [negb fst snd] in *.
  destruct (Z.eqb_spec num 0) as [->|Hne]; [done|]. intros _. unfold payload_length in *. cbn in *. lia.
Qed.

Lemma map_decode_ends entries key t :
  Forall (λ e, forward (ent_decode e)) entries → zcbor_map_decode key entries t ≠ NoFuel.
Proof. intros He. by eapply wlp_fuel, wlp_map_decode. Qed.
End map_end.

(** ** A reference decoder *)

(** It parses its input as a whole (definite lengths only), and walks the items. *)
Definition be_value (l : list Z) : Z := foldl (λ v b, v * 256 + b) 0 l.

(** The major type, the additional information, the argument, and the rest. *)
Definition parse_head (l : list Z) : option (Z * Z * Z * list Z) :=
  match l with
  | [] => None
  | b :: l =>
      let info := Z.land b 31 in
      let n := if info <? 24 then O else if info =? 24 then 1%nat else if info =? 25 then 2%nat
               else if info =? 26 then 4%nat else 8%nat in
      Some (Z.shiftr b 5, info, if info <? 24 then info else be_value (take n l), drop n l)
  end.

Fixpoint parse_item (fuel : nat) (l : list Z) : option (item * list Z) :=
  match fuel with
  | O => None
  | S fuel =>
      '(major, info, arg, l) ← parse_head l;
      let items := fix items (n : nat) (l : list Z) : option (list item * list Z) :=
        match n with
        | O => Some ([], l)
        | S n => '(x, l) ← parse_item fuel l; '(xs, l) ← items n l; Some (x :: xs, l)
        end in
      let pairs := fix pairs (n : nat) (l : list Z) : option (list (item * item) * list Z) :=
        match n with
        | O => Some ([], l)
        | S n => '(k, l) ← parse_item fuel l; '(x, l) ← parse_item fuel l;
                 '(xs, l) ← pairs n l; Some ((k, x) :: xs, l)
        end in
      if major =? 0 then Some (IInt arg, l)
      else if major =? 1 then Some (IInt (-1 - arg), l)
      else if major =? 3 then Some (ITstr (take (Z.to_nat arg) l), drop (Z.to_nat arg) l)
      else if major =? 4 then '(xs, l) ← items (Z.to_nat arg) l; Some (IList xs, l)
      else if major =? 5 then '(xs, l) ← pairs (Z.to_nat arg) l; Some (IMap xs, l)
      else if major =? 7 then
        Some (if info =? 20 then IBool false else if info =? 21 then IBool true
              else if info =? 22 then INil else if 25 <=? info then IFloat arg else IOther 7, l)
      else Some (IOther major, drop (Z.to_nat arg) l)
  end.

(** The first byte of each item, for the payload. *)
Fixpoint item_bytes (x : item) : list Z :=
  item_major x * 32 ::
  match x with
  | IList l => concat (map item_bytes l)
  | IMap l => concat (map (λ kv, item_bytes kv.1 ++ item_bytes kv.2) l)
  | _ => []
  end.

Record toy_state := mk_toy { toy_cur : list item; toy_outer : list (list item); toy_room : nat }.

Definition toy_take {A} (accept : item → option A) (s : toy_state) : option A * toy_state :=
  match toy_cur s with
  | x :: r => match accept x with
              | Some a => (Some a, mk_toy r (toy_outer s) (toy_room s))
              | None => (None, s)
              end
  | [] => (None, s)
  end.

Definition toy_start (inner : item → option (list item)) (s : toy_state) : bool * toy_state :=
  match toy_cur s, toy_room s with
  | x :: r, S n => match inner x with
                   | Some l => (true, mk_toy l (r :: toy_outer s) n)
                   | None => (false, s)
                   end
  | _, _ => (false, s)
  end.

Definition toy_end (force : bool) (s : toy_state) : bool * toy_state :=
  match toy_outer s with
  | r :: o => if force || bool_decide (toy_cur s = []) then (true, mk_toy r o (S (toy_room s))) else (false, s)
  | [] => (false, s)
  end.

Definition toy_test {A} (r : option A * toy_state) : bool * toy_state :=
  (match r.1 with Some _ => true | None => false end, r.2).

Definition zcbor_toy : Zcbor := {|
  zcbor_state_t := toy_state;
  zcbor_state_d n data :=
    mk_toy (match parse_item (length data) data with Some (x, _) => [x] | None => [] end) [] n;
  zsd_payload s := concat (map item_bytes (toy_cur s)) ++ concat (map (λ l, concat (map item_bytes l)) (toy_outer s));
  zsd_elem_count s := zlen (toy_cur s);
  zsd_indefinite _ := false;
  zcbor_map_start_decode := toy_start (λ x, match x with IMap l => Some (flatten l) | _ => None end);
  zcbor_map_end_decode := toy_end false;
  zcbor_list_start_decode := toy_start (λ x, match x with IList l => Some l | _ => None end);
  zcbor_list_map_end_force_decode := toy_end true;
  zcbor_any_skip s := toy_test (toy_take Some s);
  zcbor_nil_expect s := toy_test (toy_take as_nil s);
  zcbor_tstr_decode s :=
    let '(t, s) := toy_take as_tstr s in ((λ t, mk_zstr t 0) <$> t, s);
  zcbor_uint32_decode := toy_take as_uint32;
  zcbor_int32_decode := toy_take as_int32;
  zcbor_int64_decode := toy_take as_int64;
  zcbor_float_decode := toy_take as_float;
  zcbor_bool_decode := toy_take as_bool;
|}.

Lemma item_bytes_cons x : ∃ l, item_bytes x = item_major x * 32 :: l.
Proof. destruct x; by eexists. Qed.

Lemma toy_take_length {A} (accept : item → option A) s :
  let s' := (toy_take accept s).2 in
  (length (zsd_payload (Zcbor := zcbor_toy) s') ≤ length (zsd_payload (Zcbor := zcbor_toy) s))%nat ∧
  (is_Some (toy_take accept s).1 →
   (length (zsd_payload (Zcbor := zcbor_toy) s') < length (zsd_payload (Zcbor := zcbor_toy) s))%nat).
Proof.
  unfold toy_take. destruct s as [[|x cur] outer room]; cbn; [split; [done|by intros []]|].
  destruct (accept x); cbn; [|split; [done|by intros []]].
  destruct (item_bytes_cons x) as [l ->]. cbn. rewrite !length_app. split; [lia|intros _; lia].
Qed.

Lemma flatten_bytes l :
  concat (map item_bytes (flatten l)) = concat (map (λ kv, item_bytes kv.1 ++ item_bytes kv.2) l).
Proof.
  unfold flatten. induction l as [|[k x] l IH]; cbn; [done|]. by rewrite IH, app_assoc.
Qed.

Lemma toy_start_length inner s :
  (∀ x l, inner x = Some l → (length (concat (map item_bytes l)) ≤ length (item_bytes x))%nat) →
  (length (zsd_payload (Zcbor := zcbor_toy) (toy_start inner s).2) ≤ length (zsd_payload (Zcbor := zcbor_toy) s))%nat.
Proof.
  intros Hi. unfold toy_start. destruct s as [[|x r] o [|n]]; cbn -[item_bytes]; [done|done|done|].
  destruct (inner x) as [l|] eqn:Hx; cbn -[item_bytes]; [|done]. specialize (Hi _ _ Hx). rewrite !length_app. lia.
Qed.

Lemma toy_end_length force s :
  (length (zsd_payload (Zcbor := zcbor_toy) (toy_end force s).2) ≤ length (zsd_payload (Zcbor := zcbor_toy) s))%nat.
Proof.
  unfold toy_end. destruct s as [cur [|r o] n]; cbn; [done|]. destruct (_ || _); cbn; [|done].
  rewrite !length_app. lia.
Qed.

Lemma toy_takes {A} (accept : item → option A) :
  takes (λ n s cur o, s = mk_toy cur o n) (toy_take accept) accept.
Proof. intros n s x r o ->. unfold toy_take. cbn. by destruct (accept x). Qed.

Definition zcbor_toy_spec : ZcborSpec zcbor_toy.
Proof.
  refine {| cbor_encodes data x := ∃ r, parse_item (length data) data = Some (x, r);
    zsd_reads := λ n (s : zcbor_state_t (Zcbor := zcbor_toy)) cur o, s = mk_toy cur o n |}.
  - intros n data x [r Hp]. cbn. by rewrite Hp.
  - intros n s x r o ->. destruct (item_bytes_cons x) as [l Hl]. cbn. rewrite Hl. eexists _, _. split; [done|].
    unfold ZCBOR_MAJOR_TYPE. rewrite Z.shiftr_div_pow2 by done. by rewrite Z.div_mul.
  - intros n s cur o ->. cbn. split; [done|]. split; [apply zlen_zero_nil|by intros ->].
  - intros n s x r o ->. by destruct x, n.
  - intros n s x r o ->. by destruct x, n.
  - by intros n s r o ->.
  - intros n s cur r o ->. split; [done|]. by intros ->.
  - by intros n s x r o ->.
  - intros n s x r o ->. cbn. unfold toy_test, toy_take. cbn. by destruct (as_nil x) as [[]|].
  - intros n s x r o ->. cbn. unfold toy_take. cbn. by destruct (as_tstr x).
  - apply toy_takes.
  - apply toy_takes.
  - apply toy_takes.
  - apply toy_takes.
  - apply toy_takes.
  - intros s Hs. pose proof (proj2 (toy_take_length as_tstr s)) as Hl. cbn in Hs |- *.
    destruct (toy_take as_tstr s) as [[t|] s']; [by apply Hl|by destruct Hs].
  - intros s. apply toy_take_length.
  - intros s. pose proof (proj1 (toy_take_length as_tstr s)) as Hl. cbn. by destruct (toy_take as_tstr s).
  - intros s. apply toy_take_length.
  - intros s. apply toy_take_length.
  - intros s. apply toy_start_length. intros [] k [= <-]. cbn. rewrite flatten_bytes. lia.
  - intros s. apply toy_start_length. intros [] k [= <-]. cbn. lia.
  - intros s. apply toy_end_length.
  - intros s. apply toy_take_length.
  - intros s. apply toy_take_length.
  - intros s. apply (toy_take_length as_nil).
  - intros s. apply toy_end_length.
  - intros s. apply (toy_take_length Some).
Defined.

(** ** Properties *)

Section zcbor_theorems.
Context `{ZcS : ZcborSpec} {V : Type}.
Implicit Types (v : V) (entries : list (zcbor_map_entry V)).

(** The callbacks of [zcbor_utils.c] store an item of their type and report
    [EBADMSG] for any other. *)
Lemma map_value_sem {A} (decode : zcbor_state_t → option A * zcbor_state_t) accept (set : A → V → V) key n :
  takes zsd_reads decode accept →
  (∀ s, (length (zsd_payload (decode s).2) ≤ length (zsd_payload s))%nat) →
  entry_sem n (λ x v, match accept x with Some a => (success, set a v) | None => (Some EBADMSG, v) end)
    (mk_map_entry key (zcbor_map_value decode set)).
Proof.
  intros Ht Hl s x r o v Hr. destruct (Ht _ _ _ _ _ Hr) as [Hv Hr']. specialize (Hl s). cbn [ent_decode].
  unfold zcbor_map_value. wp_step. apply wp_zcbor. cbn [fst snd]. destruct (decode s) as [res s']. cbn in *.
  subst res. destruct (accept x); wp_steps; by split_and!.
Qed.

(** C12: what decoding an item as a map gives. An item that is not a map, or lies deeper
    than the decoder may go, is [EBADMSG], and nothing is changed. Of a map, the
    callbacks of the entries are called on the values of the pairs that they ask for,
    in the order of the map, until as many pairs were found as there are entries; an
    error of a callback is returned at once. When the map has ended no pair found is
    [ENOENT], and fewer than there are entries is [EBADMSG]; pairs nobody asks for are
    skipped. A key that is neither a text string nor a 32-bit number, reached before
    enough pairs were found, is [EBADMSG]. After a success the decoder stands behind the
    map if no pair followed the last one needed. (The items are well-formed and their
    containers have definite lengths; the entries and the keys of the map are all
    strings or all numbers, [int_key_is_dereferenced] is about the others. A pair that
    occurs twice is counted twice, and may hide that another is missing.) *)
Theorem map_decode_outcomes sem text entries key x n s r o v :
  Forall (entry_ok text) entries → (∀ m, n = S m → Forall (λ e, entry_sem m (sem e) e) entries) →
  (∀ kvs, x = IMap kvs → Forall (λ kv, key_ok text kv.1) (keyed kvs)) → zsd_reads n s (x :: r) o →
  wp (zcbor_map_decode key entries) (λ err t,
    match x, n with
    | IMap kvs, S _ =>
        let hs := take (length entries) (hits entries (keyed kvs)) in
        t.2 = (apply_hits sem hs v).2 ∧
        err = match (apply_hits sem hs v).1 with
              | Some e => Some e
              | None => map_result (length hs) (length entries) (bool_decide (length (keyed kvs) < length kvs)%nat)
              end ∧
        (err = success → read_whole entries kvs → zsd_reads n t.1 r o)
    | _, _ => err = Some EBADMSG ∧ t.2 = v
    end) (s, v).
Proof. apply wp_map_decode_item. Qed.

(** C31: in a map that mixes the kinds of its keys, an integer key behind a text key
    that is as long as the first text key asked for is used as a pointer: the length
    of the text key is still there, and the integer has overwritten its pointer. *)
Theorem int_key_is_dereferenced key entries lit low decode (a : list Z) x k y kvs n s r o v :
  zsd_reads (S n) s (IMap ((ITstr a, x) :: (IInt k, y) :: kvs) :: r) o →
  Forall (entry_ok true) (mk_map_entry (mk_map_key ZCBOR_MAP_KEY_TYPE_TSTR (word_ptr lit low) (zlen lit)) decode :: entries) →
  zlen a = zlen lit → find (key_matches (ITstr a)) (mk_map_entry (mk_map_key ZCBOR_MAP_KEY_TYPE_TSTR (word_ptr lit low) (zlen lit)) decode :: entries) = None →
  0 ≤ k < 2 ^ 32 →
  zcbor_map_decode key (mk_map_entry (mk_map_key ZCBOR_MAP_KEY_TYPE_TSTR (word_ptr lit low) (zlen lit)) decode :: entries)
    (s, v) = UB.
Proof.
  set (e := mk_map_entry _ decode). intros Hr He Hl Hf Hk.
  destruct (map_start_reads _ _ _ _ _ Hr) as [Hok Hr1].
  change (flatten _) with (ITstr a :: x :: IInt k :: y :: flatten kvs) in Hr1.
  unfold zcbor_map_decode. apply ub_bind. apply wp_zcbor. cbn [fst snd]. rewrite Hok. cbn [negb].
  apply ub_bind. wp_step. unfold mbind, M_bind. cbn [fst].
  assert (∀ fuel s1, (2 ≤ fuel)%nat → zsd_reads n s1 (ITstr a :: x :: IInt k :: y :: flatten kvs) (r :: o) →
    map_decode_loop fuel (e :: entries) 0 key (s1, v) = UB) as Hloop.
  2: { rewrite Hloop; [done| |done]. pose proof (reads_major _ _ _ _ _ Hr1) as (b & rest & -> & _). cbn. lia. }
  clear s Hr Hok Hr1. intros [|[|fuel]] s1 Hfuel Hr1; [lia|lia|]. cbn [map_decode_loop].
  pose proof (zlen_nonneg entries). rewrite !zlen_cons. rewrite (proj2 (Z.ltb_lt 0 _)) by lia.
  apply ub_bind. eapply wp_at_end; [exact Hr1|]. rewrite bool_decide_false by done.
  apply ub_bind. eapply (wp_key_decode n s1 _ _ _ v key true); [exact Hr1|by eexists|]. intros s2 low' Hr2 _.
  apply ub_bind. eapply (wp_entry_get _ (ITstr a) key low' true); [by eexists|exact He|]. rewrite Hf.
  destruct (any_skip_reads _ _ _ _ _ Hr2) as [Hs Hr3].
  apply ub_bind. apply wp_zcbor. cbn [fst snd]. rewrite Hs.
  apply ub_bind. eapply wp_at_end; [exact Hr3|]. rewrite bool_decide_false by done.
  apply ub_bind. eapply (wp_key_decode n _ _ _ _ v _ false); [exact Hr3|by exists k|]. intros s3 low3 Hr4 _.
  unfold mbind, M_bind. cbn. by rewrite Hl, Z.eqb_refl.
Qed.
End zcbor_theorems.

(** ** Witnesses *)

Section zcbor_witnesses.
#[local] Existing Instances zcbor_toy zcbor_toy_spec.

(** The entries ["a"] and ["b"], both integers. *)
Definition sample_sem (e : zcbor_map_entry (Z * Z)) (x : item) (v : Z * Z) : rc * (Z * Z) :=
  match as_int64 x with
  | Some n => (success, if key_matches (ITstr [97]) e then (n, v.2) else (v.1, n))
  | None => (Some EBADMSG, v)
  end.

Definition sample_entries : list (zcbor_map_entry (Z * Z)) :=
  [ZCBOR_TSTR_LIT_MAP_ENTRY [97] (zcbor_map_int64_decode (λ n v, (n, v.2)));
   ZCBOR_TSTR_LIT_MAP_ENTRY [98] (zcbor_map_int64_decode (λ n v, (v.1, n)))].

(** [{"b": 7, "c": [1], "a": 9}] *)
Definition sample_cbor : list Z := [163; 97; 98; 7; 97; 99; 129; 1; 97; 97; 9].
Definition sample_map : list (item * item) :=
  [(ITstr [98], IInt 7); (ITstr [99], IList [IInt 1]); (ITstr [97], IInt 9)].

Lemma sample_entries_ok : Forall (entry_ok true) sample_entries.
Proof. repeat constructor; by eexists _, 0. Qed.

Definition key_0 : zcbor_map_key := mk_map_key ZCBOR_MAP_KEY_TYPE_U32 (word_u32 0) 0.

Lemma map_decode_outcomes_witness :
  wp (zcbor_map_decode key_0 sample_entries) (λ err t,
    let hs := take (length sample_entries) (hits sample_entries (keyed sample_map)) in
    t.2 = (apply_hits sample_sem hs (0, 0)).2 ∧
    err = match (apply_hits sample_sem hs (0, 0)).1 with
          | Some e => Some e
          | None => map_result (length hs) (length sample_entries) (bool_decide (length (keyed sample_map) < length sample_map)%nat)
          end ∧
    (err = success → read_whole sample_entries sample_map → zsd_reads 1 t.1 [] []))
    (zcbor_state_d 1 sample_cbor, (0, 0)).
Proof.
  apply (map_decode_outcomes sample_sem true sample_entries key_0 (IMap sample_map) 1 _ [] [] (0, 0)).
  - apply sample_entries_ok.
  - intros m [= <-]. repeat constructor; apply (map_value_sem zcbor_int64_decode as_int64);
      [apply int64_reads|apply int64_length|apply int64_reads|apply int64_length].
  - intros kvs [= <-]. repeat constructor; by eexists.
  - apply reads_new. by eexists.
Defined.

Example sample_decoded :
  wp (zcbor_map_decode key_0 sample_entries) (λ err t, err = success ∧ t.2 = (9, 7))
    (zcbor_state_d 1 sample_cbor, (0, 0)).
Proof. by vm_compute. Qed.

(** [{-1: 2}] has a key that is none; [{"c": 1}] has no pair that is asked for. *)
Example sample_refused :
  wp (zcbor_map_decode key_0 sample_entries) (λ err t, err = Some EBADMSG ∧ t.2 = (0, 0))
    (zcbor_state_d 1 [161; 32; 2], (0, 0)) ∧
  wp (zcbor_map_decode key_0 sample_entries) (λ err t, err = Some ENOENT ∧ t.2 = (0, 0))
    (zcbor_state_d 1 [161; 97; 99; 1], (0, 0)).
Proof. by vm_compute. Qed.

(** [{"a": 1, "a": 2}] is a success, although ["b"] is missing. *)
Example twice_the_same_key :
  wp (zcbor_map_decode key_0 sample_entries) (λ err t, err = success ∧ t.2 = (2, 0))
    (zcbor_state_d 1 [162; 97; 97; 1; 97; 97; 2], (0, 0)).
Proof. by vm_compute. Qed.

(** [{"c": 1, 5: 2}] *)
Lemma int_key_is_dereferenced_witness :
  zcbor_map_decode key_0 sample_entries (zcbor_state_d 1 [162; 97; 99; 1; 5; 2], (0, 0)) = UB.
Proof.
  apply (int_key_is_dereferenced key_0 (tail sample_entries) [97] 0 (zcbor_map_int64_decode (λ n v, (n, v.2)))
    [99] (IInt 1) 5 (IInt 2) [] 0 _ [] [] (0, 0)).
  - apply reads_new. by eexists.
  - apply sample_entries_ok.
  - done.
  - done.
  - done.
Defined.
End zcbor_witnesses.
