(* ===== verification/Dispatch.v ===== *)
(** Routing of received entries and streams to services:
    [golioth_sdk/dispatch.c] and [dispatch.h].

    [S] is the state that the callbacks of the services work on. *)
From S2P Require Import Prelude Zephyr Config Buf Block Header Node.

Definition DOWNLINK_ID_INVALID : Z := -1.

(** [golioth_downlink_id_t] is [int]; stream ids are [unsigned int]. *)
Definition golioth_downlink_id (stream_id : Z) : Z := (stream_id + 2 ^ 31) mod 2 ^ 32 - 2 ^ 31.

Lemma downlink_id_small id : 0 ≤ id < 2 ^ 31 → golioth_downlink_id id = id.
Proof. intros. unfold golioth_downlink_id. rewrite Z.mod_small by lia. lia. Qed.

(** [struct golioth_downlink_service]; its [data] is part of the state. A path is
    given without its terminator. *)
Record golioth_downlink_service (S : Type) := mk_service {
  svc_path : list Z;
  svc_start : option (Z → option (list Z) → M S unit);
  svc_data : Z → option (list Z) → Z → bool → M S unit;
}.
Arguments mk_service {S} svc_path svc_start svc_data.
Arguments svc_path {S} g.
Arguments svc_start {S} g.
Arguments svc_data {S} g.

(** [last_seen], the [downlink_id] of each service, and the state of the services. *)
Record dispatch (S : Type) := mk_dispatch {
  dp_last_seen : option nat;
  dp_ids : list Z;
  dp_app : S;
}.
Arguments mk_dispatch {S} dp_last_seen dp_ids dp_app.
Arguments dp_last_seen {S} d.
Arguments dp_ids {S} d.
Arguments dp_app {S} d.

Module Dispatch.
Section dispatch.
Context {S : Type} (services : list (golioth_downlink_service S)).
Implicit Types (d : dispatch S) (svc : golioth_downlink_service S) (path data : list Z).

Definition on_app {A} (m : M S A) : M (dispatch S) A :=
  zoom dp_app (λ s d, mk_dispatch (dp_last_seen d) (dp_ids d) s) m.

Definition set_last_seen (i : option nat) : M (dispatch S) unit :=
  modify (λ d, mk_dispatch i (dp_ids d) (dp_app d)).

Definition set_downlink_id (i : nat) (id : Z) : M (dispatch S) unit :=
  modify (λ d, mk_dispatch (dp_last_seen d) (<[i := id]> (dp_ids d)) (dp_app d)).

(** [service->data->downlink_id == stream_id], a comparison of unsigned numbers. *)
Definition id_is d (i : nat) (stream_id : Z) : bool :=
  match dp_ids d !! i with Some id => u32 id =? u32 stream_id | None => false end.

(** Whether a service takes a path ([strncmp] of the path of the service, without a
    final star, with the beginning of the path): whether the star is there, and
    the length compared. The path of a service is not empty. *)
Definition service_match svc path : option (option (bool * Z)) :=
  match list.last (svc_path svc) with
  | None => None
  | Some c =>
      let partial := c =? 42 in
      let path_len := if partial then zlen (svc_path svc) - 1 else zlen (svc_path svc) in
      Some (if decide (slice 0 path_len (svc_path svc) = slice 0 path_len path)
            then Some (partial, path_len) else None)
  end.

(** The loop of [pouch_downlink_start] from service [i] on. *)
Fixpoint start_loop (svcs : list (golioth_downlink_service S)) (i : nat) (stream_id : Z) path
    : M (dispatch S) unit :=
  match svcs with
  | [] => mret tt
  | service :: svcs =>
      match service_match service path with
      | None => ub
      | Some None => start_loop svcs (i + 1) stream_id path
      | Some (Some (partial, path_len)) =>
          set_last_seen (Some i);;
          set_downlink_id i (golioth_downlink_id stream_id);;
          match svc_start service with
          | Some cb =>
              let rest := drop (Z.to_nat path_len) path in
              let path_remainder := if partial && (0 <? zlen rest) then Some rest else None in
              on_app (cb (golioth_downlink_id stream_id) path_remainder)
          | None => mret tt
          end
      end
  end.

Definition pouch_downlink_start (stream_id : Z) path (content_type : Z) : M (dispatch S) unit :=
  start_loop services 0 stream_id path.

(** The first service from [i] on that has the stream. *)
Fixpoint find_id d (n i : nat) (stream_id : Z) : option nat :=
  match n with
  | O => None
  | Datatypes.S n => if id_is d i stream_id then Some i else find_id d n (i + 1) stream_id
  end.

Definition active_service d (stream_id : Z) : option nat :=
  let search := find_id d (length services) 0 stream_id in
  match dp_last_seen d with
  | Some i => if id_is d i stream_id then Some i else search
  | None => search
  end.

Definition pouch_downlink_data (stream_id : Z) (data : option (list Z)) (len : Z) (is_last : bool)
    : M (dispatch S) unit :=
  d ← get;
  match active_service d stream_id with
  | None => mret tt
  | Some i =>
      match services !! i with
      | None => ub
      | Some active_service =>
          on_app (svc_data active_service (golioth_downlink_id stream_id) data len is_last);;
          (if is_last : bool then
             set_downlink_id i DOWNLINK_ID_INVALID;;
             set_last_seen None
           else mret tt)
      end
  end.

(** The handler is registered with pouch ([POUCH_DOWNLINK_HANDLER]) as handler [h]:
    what it does on the callbacks that pouch makes. The path of a start callback is
    a C string. *)
Definition handle (h : nat) (c : callback) : M (dispatch S) unit :=
  match c with
  | start_cb h' stream_id path content_type =>
      if decide (h' = h) then pouch_downlink_start stream_id (c_string path) content_type else mret tt
  | data_cb h' stream_id data len is_last =>
      if decide (h' = h) then pouch_downlink_data stream_id data len is_last else mret tt
  | event_cb _ _ => mret tt
  end.

Fixpoint handle_all (h : nat) (cs : list callback) : M (dispatch S) unit :=
  match cs with
  | [] => mret tt
  | c :: cs => handle h c;; handle_all h cs
  end.

Lemma handle_all_app h cs cs' d : handle_all h (cs ++ cs') d = (handle_all h cs;; handle_all h cs') d.
Proof.
  revert d. induction cs as [|c cs IH]; intros d; [done|]. cbn [app handle_all]. rewrite <- seq_assoc.
  cbv [mbind M_bind]. destruct (handle h c d) as [[] d'| |]; [apply IH|done|done].
Qed.

(** No service has a stream. *)
Definition init_dispatch (s : S) : dispatch S :=
  mk_dispatch None (replicate (length services) DOWNLINK_ID_INVALID) s.
End dispatch.

(** ** Uplink services *)

(** [golioth_sync_to_cloud]: the registered uplink services in turn, then the pouch is
    closed; what closing returns is not looked at. *)
Definition golioth_sync_to_cloud {T} (uplink_services : list (option (M T unit)))
    (pouch_uplink_close : M T rc) : M T rc :=
  foldr (λ cb k, (match cb with Some uplink_cb => uplink_cb | None => mret tt end);; k)
    (pouch_uplink_close;; mret success) uplink_services.
End Dispatch.

(** ** Specification *)

(** Routing without the cache and the loops: each service owns at most one stream, the
    one that started last on a path that it is the first to take. *)
Section routing.
Context {S : Type} (services : list (golioth_downlink_service S)).
Implicit Types (d : dispatch S) (svc : golioth_downlink_service S) (path : list Z).
Implicit Types (own : list (option Z)).

(** A final star takes any path with the rest as prefix; so does a path without star. *)
Definition wildcard svc : bool := bool_decide (list.last (svc_path svc) = Some 42).
Definition svc_prefix svc : list Z :=
  if wildcard svc then take (length (svc_path svc) - 1) (svc_path svc) else svc_path svc.

Definition remainder svc path : option (list Z) :=
  match drop (length (svc_prefix svc)) path with
  | [] => None
  | rest => if wildcard svc then Some rest else None
  end.

Fixpoint first_match (svcs : list (golioth_downlink_service S)) (i : nat) path
    : option (nat * golioth_downlink_service S) :=
  match svcs with
  | [] => None
  | svc :: svcs => if decide (svc_prefix svc `prefix_of` path) then Some (i, svc) else first_match svcs (i + 1) path
  end.

Definition ref_on {A} (m : M S A) : M (list (option Z) * S) A := zoom snd (λ s t, (t.1, s)) m.

Definition ref_handle (h : nat) (c : callback) : M (list (option Z) * S) unit :=
  match c with
  | start_cb h' id path _ =>
      if decide (h' = h) then
        match first_match services 0 (c_string path) with
        | None => mret tt
        | Some (i, svc) =>
            modify (λ t, (<[i := Some id]> t.1, t.2));;
            match svc_start svc with
            | Some cb => ref_on (cb id (remainder svc (c_string path)))
            | None => mret tt
            end
        end
      else mret tt
  | data_cb h' id data len is_last =>
      if decide (h' = h) then
        t ← get;
        match list_find (λ o, o = Some id) t.1 with
        | None => mret tt
        | Some (i, _) =>
            match services !! i with
            | None => mret tt
            | Some svc =>
                ref_on (svc_data svc id data len is_last);;
                if is_last : bool then modify (λ t, (<[i := None]> t.1, t.2)) else mret tt
            end
        end
      else mret tt
  | event_cb _ _ => mret tt
  end.

Fixpoint ref_handle_all (h : nat) (cs : list callback) : M (list (option Z) * S) unit :=
  match cs with
  | [] => mret tt
  | c :: cs => ref_handle h c;; ref_handle_all h cs
  end.

(** What the owners are after a callback. *)
Definition own_after (h : nat) (c : callback) own : list (option Z) :=
  match c with
  | start_cb h' id path _ =>
      if decide (h' = h) then
        match first_match services 0 (c_string path) with Some (i, _) => <[i := Some id]> own | None => own end
      else own
  | data_cb h' id _ _ is_last =>
      if decide (h' = h) then
        match list_find (λ o, o = Some id) own with
        | Some (i, _) => if is_last : bool then <[i := None]> own else own
        | None => own
        end
      else own
  | event_cb _ _ => own
  end.

(** Stream ids are small, and a stream does not start while another service still owns
    one with its id. *)
Definition fresh_start (h : nat) (c : callback) own : Prop :=
  match c with
  | start_cb h' id path _ => h' = h → 0 ≤ id < 2 ^ 31 ∧
      ∀ i svc j, first_match services 0 (c_string path) = Some (i, svc) →
        own !! j = Some (Some id) → j = i
  | data_cb h' id _ _ _ => h' = h → 0 ≤ id < 2 ^ 31
  | event_cb _ _ => True
  end.

Fixpoint fresh_starts (h : nat) (cs : list callback) own : Prop :=
  match cs with
  | [] => True
  | c :: cs => fresh_start h c own ∧ fresh_starts h cs (own_after h c own)
  end.

(** The owners that the ids of the services stand for. *)
Record owns_rep own d : Prop := {
  or_length : length own = length services;
  or_ids : dp_ids d = map (default DOWNLINK_ID_INVALID) own;
  or_range : ∀ i id, own !! i = Some (Some id) → 0 ≤ id < 2 ^ 31;
  or_unique : ∀ i j id, own !! i = Some (Some id) → own !! j = Some (Some id) → i = j;
}.

Context (paths_ok : Forall (λ svc, svc_path svc ≠ []) services).

Lemma id_is_own own d i id : owns_rep own d → 0 ≤ id < 2 ^ 31 →
  Dispatch.id_is d i id = true ↔ own !! i = Some (Some id).
Proof.
  intros [Hl Hi Hr _] Hid. unfold Dispatch.id_is. rewrite Hi.
  change (map (default DOWNLINK_ID_INVALID) own) with (default DOWNLINK_ID_INVALID <$> own).
  rewrite list_lookup_fmap.
  destruct (own !! i) as [[k|]|] eqn:Ho; cbn; [|split; [|done]|done].
  - specialize (Hr _ _ Ho). unfold u32. rewrite !Z.mod_small by lia. rewrite Z.eqb_eq. naive_solver.
  - unfold DOWNLINK_ID_INVALID, u32. rewrite (Z.mod_small id) by lia.
    change (-1 mod 2 ^ 32) with 4294967295. intros ?%Z.eqb_eq. lia.
Qed.

Lemma match_prefix svc path :
  svc_path svc ≠ [] →
  Dispatch.service_match svc path =
  Some (if decide (svc_prefix svc `prefix_of` path)
        then Some (wildcard svc, zlen (svc_prefix svc)) else None).
Proof.
  intros Hne. unfold Dispatch.service_match, svc_prefix, wildcard.
  destruct (list.last (svc_path svc)) as [c|] eqn:Hl; [|by apply last_None in Hl].
  assert (∀ n, n <= length (svc_path svc) →
    slice 0 (Z.of_nat n) (svc_path svc) = slice 0 (Z.of_nat n) path ↔ take n (svc_path svc) `prefix_of` path)%nat as Hs.
  { intros n Hn. unfold slice. rewrite !drop_0, Nat2Z.id. split.
    - intros ->. eexists. symmetry. apply take_drop.
    - intros [r ->]. rewrite take_app_le by (rewrite length_take; lia).
      rewrite take_take. f_equal. lia. }
  assert (length (svc_path svc) ≠ 0%nat) by by destruct (svc_path svc).
  destruct (Z.eqb_spec c 42) as [->|Hc].
  - rewrite bool_decide_true by done.
    replace (zlen (svc_path svc) - 1) with (Z.of_nat (length (svc_path svc) - 1)) by (unfold zlen; lia).
    replace (zlen (take _ _)) with (Z.of_nat (length (svc_path svc) - 1)) by (unfold zlen; rewrite length_take; lia).
    f_equal. by apply decide_ext, Hs; lia.
  - rewrite bool_decide_false by congruence. f_equal.
    apply decide_ext. unfold zlen. rewrite Hs by lia. by rewrite take_ge by lia.
Qed.

Lemma start_loop_first (svcs : list (golioth_downlink_service S)) i id path d :
  Forall (λ svc, svc_path svc ≠ []) svcs →
  Dispatch.start_loop svcs i id path d =
  match first_match svcs i path with
  | None => Ret tt d
  | Some (i, svc) =>
      (Dispatch.set_last_seen (Some i);;
       Dispatch.set_downlink_id i (golioth_downlink_id id);;
       match svc_start svc with
       | Some cb => Dispatch.on_app (cb (golioth_downlink_id id) (remainder svc path))
       | None => mret tt
       end) d
  end.
Proof.
  intros Hne. revert i. induction Hne as [|svc svcs Hp _ IH]; intros i; cbn [Dispatch.start_loop first_match]; [done|].
  rewrite match_prefix by done. case_decide; [|apply IH].
  unfold remainder, zlen. rewrite Nat2Z.id. destruct (drop _ path) as [|c rest], (wildcard svc); try done.
Qed.

Lemma find_id_spec d n i id :
  match Dispatch.find_id d n i id with
  | Some j => (i ≤ j < i + n)%nat ∧ Dispatch.id_is d j id = true
  | None => ∀ j, (i ≤ j < i + n)%nat → Dispatch.id_is d j id = false
  end.
Proof.
  revert i. induction n as [|n IH]; intros i; cbn [Dispatch.find_id]; [lia|].
  destruct (Dispatch.id_is d i id) eqn:Hi; [split; [lia|done]|].
  specialize (IH (i + 1)%nat). destruct (Dispatch.find_id _ _ _ _) as [j|]; [split; [lia|tauto]|].
  intros j Hj. destruct (decide (j = i)) as [->|]; [done|]. apply IH. lia.
Qed.

(** The cache does not change which service is found: at most one owns the stream. *)
Lemma active_service_owner own d id : owns_rep own d → 0 ≤ id < 2 ^ 31 →
  Dispatch.active_service services d id = fst <$> list_find (λ o, o = Some id) own.
Proof.
  intros Hrep Hid.
  assert (∀ i, own !! i = Some (Some id) → list_find (λ o, o = Some id) own = Some (i, Some id)) as Hfind.
  { intros i Hi. apply list_find_Some. split_and!; [done|done|]. intros j y Hj Hlt ->.
    pose proof (or_unique _ _ Hrep _ _ _ Hi Hj). lia. }
  assert (Dispatch.find_id d (length services) 0 id = fst <$> list_find (λ o, o = Some id) own) as Hsearch.
  { pose proof (find_id_spec d (length services) 0 id) as Hs.
    destruct (Dispatch.find_id _ _ _ _) as [i|].
    - destruct Hs as [_ Hi%(id_is_own own)]; [|done|done]. by rewrite (Hfind _ Hi).
    - destruct (list_find _ own) as [[i o]|] eqn:Hf; [|done]. apply list_find_Some in Hf as (Hi & -> & _).
      pose proof (proj2 (id_is_own _ _ i id Hrep Hid) Hi) as Ht.
      rewrite Hs in Ht; [done|]. apply lookup_lt_Some in Hi. rewrite (or_length _ _ Hrep) in Hi. lia. }
  unfold Dispatch.active_service. rewrite Hsearch. destruct (dp_last_seen d) as [i|]; [|done].
  destruct (Dispatch.id_is d i id) eqn:Hi; [|done].
  apply (id_is_own own) in Hi; [|done|done]. by rewrite (Hfind _ Hi).
Qed.

Abbreviation agree := (outcome_rel (λ _ d t, owns_rep t.1 d ∧ dp_app d = t.2)).

Lemma owns_rep_app own d s : owns_rep own d → owns_rep own (mk_dispatch (dp_last_seen d) (dp_ids d) s).
Proof. by intros []. Qed.

Lemma owns_rep_start own d i id : owns_rep own d → 0 ≤ id < 2 ^ 31 →
  (∀ j, own !! j = Some (Some id) → j = i) →
  owns_rep (<[i := Some id]> own) (mk_dispatch (Some i) (<[i := id]> (dp_ids d)) (dp_app d)).
Proof.
  intros [Hl Hi Hr Hu] Hid Hfresh. split; cbn [dp_ids].
  - by rewrite length_insert.
  - rewrite Hi. symmetry. apply (list_fmap_insert (default DOWNLINK_ID_INVALID)).
  - intros j k [(-> & [= ->] & _)|[_ Hj]]%list_lookup_insert_Some; [done|by eapply Hr].
  - intros j k id' [(<- & [= ->] & _)|[Hne Hj]]%list_lookup_insert_Some [(<- & Hk & _)|[Hne' Hk]]%list_lookup_insert_Some.
    + done.
    + symmetry. by apply Hfresh.
    + injection Hk as ->. by apply Hfresh.
    + by eapply Hu.
Qed.

Lemma owns_rep_last own d i seen : owns_rep own d →
  owns_rep (<[i := None]> own) (mk_dispatch seen (<[i := DOWNLINK_ID_INVALID]> (dp_ids d)) (dp_app d)).
Proof.
  intros [Hl Hi Hr Hu]. split; cbn [dp_ids].
  - by rewrite length_insert.
  - rewrite Hi. symmetry. apply (list_fmap_insert (default DOWNLINK_ID_INVALID)).
  - intros j k [(-> & [=] & _)|[_ Hj]]%list_lookup_insert_Some. by eapply Hr.
  - intros j k id' [(<- & [=] & _)|[_ Hj]]%list_lookup_insert_Some [(<- & [=] & _)|[_ Hk]]%list_lookup_insert_Some.
    by eapply Hu.
Qed.

(** Calling into the services, on both sides. *)
Lemma agree_app own d (m : M S unit) : owns_rep own d →
  outcome_rel (λ _ d t, owns_rep own d ∧ t.1 = own ∧ dp_app d = t.2)
    (Dispatch.on_app m d) (ref_on m (own, dp_app d)).
Proof.
  intros Hrep. unfold Dispatch.on_app, ref_on, zoom. cbn [snd].
  destruct (m (dp_app d)) as [a s| |]; cbn; [|done|done]. split_and!; [done|by apply owns_rep_app|done|done].
Qed.

Lemma handle_agrees h c own d : owns_rep own d → fresh_start h c own →
  outcome_rel (λ _ d t, owns_rep t.1 d ∧ t.1 = own_after h c own ∧ dp_app d = t.2)
    (Dispatch.handle services h c d) (ref_handle h c (own, dp_app d)).
Proof.
  intros Hrep Hf. destruct c as [h' id path ct|h' id data len is_last|h' ev]; cbn [Dispatch.handle ref_handle own_after].
  - case_decide as Hh; [|done]. destruct (Hf Hh) as [Hid Hfresh]. unfold Dispatch.pouch_downlink_start.
    rewrite start_loop_first by done.
    destruct (first_match services 0 (c_string path)) as [[i svc]|] eqn:Hm; [|done].
    rewrite downlink_id_small by done.
    pose proof (owns_rep_start _ _ i _ Hrep Hid (λ j, Hfresh _ _ j eq_refl)) as Hrep'.
    destruct (svc_start svc) as [cb|]; [|done].
    eapply outcome_rel_mono; [apply (agree_app _ _ (cb id (remainder svc (c_string path))) Hrep')|].
    by intros _ d' t (? & -> & ?).
  - case_decide as Hh; [|done]. pose proof (Hf Hh) as Hid. unfold Dispatch.pouch_downlink_data.
    cbv [mbind M_bind get]. cbn [fst]. rewrite (active_service_owner own) by done.
    destruct (list_find _ own) as [[i o]|] eqn:Ho; cbn [fmap option_fmap option_map fst]; [|done].
    apply list_find_Some in Ho as (Hi & -> & _).
    destruct (services !! i) as [svc|] eqn:Hs.
    2: { apply lookup_ge_None in Hs. apply lookup_lt_Some in Hi. rewrite (or_length _ _ Hrep) in Hi. lia. }
    rewrite downlink_id_small by done.
    apply (outcome_rel_bind (λ _ d t, owns_rep own d ∧ t.1 = own ∧ dp_app d = t.2)); [by apply agree_app|].
    intros _ d' [own' s] (Hrep' & Hown & Happ). cbn in Hown, Happ. subst own' s.
    destruct is_last; [|done]. split_and!; [done|exact (owns_rep_last own d' i None Hrep')|done|done].
  - done.
Qed.

Lemma handle_all_agrees h cs own d : owns_rep own d → fresh_starts h cs own →
  agree (Dispatch.handle_all services h cs d) (ref_handle_all h cs (own, dp_app d)).
Proof.
  revert own d. induction cs as [|c cs IH]; intros own d Hrep; cbn [fresh_starts]; [done|].
  intros [Hf Hfs]. cbn [Dispatch.handle_all ref_handle_all].
  apply (outcome_rel_bind (λ _ d t, owns_rep t.1 d ∧ t.1 = own_after h c own ∧ dp_app d = t.2)); [by apply handle_agrees|].
  intros _ d' [own' s] (Hrep' & Hown & Happ). cbn in *. subst own' s. by apply IH.
Qed.
End routing.

(** ** Properties *)

(** C14: dispatching the callbacks of pouch, with the cache of the service seen last and
    the search for an id, is routing by ownership: whatever the services do, as long
    as no stream starts under an id that another service still holds, each data
    callback goes to the service that took the start of its stream, data of a stream
    nobody took is dropped, and the services end in the same state. *)
Theorem dispatch_routes_by_owner {S : Type} (services : list (golioth_downlink_service S)) h cs own d :
  Forall (λ svc, svc_path svc ≠ []) services → owns_rep services own d → fresh_starts services h cs own →
  outcome_rel (λ _ d t, owns_rep services t.1 d ∧ dp_app d = t.2)
    (Dispatch.handle_all services h cs d) (ref_handle_all services h cs (own, dp_app d)).
Proof. intros. by apply handle_all_agrees. Qed.

Lemma init_owns {S : Type} (services : list (golioth_downlink_service S)) s :
  owns_rep services (replicate (length services) None) (Dispatch.init_dispatch services s).
Proof.
  split; cbn [Dispatch.init_dispatch dp_ids].
  - apply length_replicate.
  - induction services as [|svc svcs IH]; cbn; [done|]. by rewrite IH.
  - by intros i id [? _]%lookup_replicate_1.
  - by intros i j id [? _]%lookup_replicate_1.
Qed.

(** Two services, on [/a*] and on [/b]; both log the data they get. *)
Section dispatch_witnesses.
Definition log_service (path : list Z) (tag : Z) : golioth_downlink_service (list Z) :=
  mk_service path None (λ _ data _ _, modify (λ log, log ++ tag :: default [] data)).

Definition log_services : list (golioth_downlink_service (list Z)) :=
  [log_service [47; 97; 42] 1000; log_service [47; 98] 2000].

(** Streams 1 on [/ax] and 2 on [/b], interleaved, and 3 on [/c]. *)
Definition log_calls : list callback :=
  [start_cb 0 1 [47; 97; 120; 0] 0; data_cb 0 1 (Some [5]) 1 false;
   start_cb 0 2 [47; 98; 0] 0; start_cb 0 3 [47; 99; 0] 0;
   data_cb 0 1 (Some [6]) 1 true; data_cb 0 3 (Some [7]) 1 true; data_cb 0 2 (Some [8]) 1 true].

Lemma dispatch_routes_by_owner_witness :
  outcome_rel (λ _ d t, owns_rep log_services t.1 d ∧ dp_app d = t.2)
    (Dispatch.handle_all log_services 0 log_calls (Dispatch.init_dispatch log_services []))
    (ref_handle_all log_services 0 log_calls ([None; None], [])).
Proof.
  apply (dispatch_routes_by_owner log_services 0 log_calls [None; None] (Dispatch.init_dispatch log_services [])).
  - by repeat constructor.
  - apply init_owns.
  - cbn [fresh_starts log_calls fresh_start].
    split_and!; try done; intros _; split_and?; try done; intros i svc j Hm Hj; vm_compute in Hm;
      try discriminate Hm; injection Hm as <- _; destruct j as [|[|j]]; vm_compute in Hj; congruence.
Defined.

Example log_routed :
  wp (Dispatch.handle_all log_services 0 log_calls) (λ _ d, dp_app d = [1000; 5; 1000; 6; 2000; 8])
    (Dispatch.init_dispatch log_services []).
Proof. by vm_compute. Qed.

(** Stream 1 on [/a] never ends; a new stream gets its id, on [/b]: once another
    stream starts, on [/c], the data of the new one goes to the service on [/a*]. *)
Example stale_id_misroutes :
  wp (Dispatch.handle_all (log_services ++ [log_service [47; 99] 3000]) 0
        [start_cb 0 1 [47; 97; 0] 0; data_cb 0 1 (Some [5]) 1 false;
         start_cb 0 1 [47; 98; 0] 0; data_cb 0 1 (Some [6]) 1 false;
         start_cb 0 2 [47; 99; 0] 0; data_cb 0 1 (Some [7]) 1 true])
    (λ _ d, dp_app d = [1000; 5; 2000; 6; 1000; 7])
    (Dispatch.init_dispatch (log_services ++ [log_service [47; 99] 3000]) []).
Proof. by vm_compute. Qed.
End dispatch_witnesses.
