(* ===== verification/ZcborOut.v ===== *)
(** CBOR encoding: the functions of the zcbor library that the uplinks of
    [golioth_sdk] call, as an interface ([ZcborEncoder]), what is relied on
    ([ZcborEncoderSpec]), and the encoding of one map in a buffer.

    zcbor is not part of the repository. *)
From S2P Require Import Prelude Zephyr Config Buf Block Header Node Zcbor.

(** An encoding function returns whether it succeeded, and the state it leaves; what
    is in the buffer up to the payload pointer is [zse_output]. *)
Class ZcborEncoder : Type := {
  zse_t : Type;
  (* the number of backups, the size of the buffer *)
  zcbor_new_encode_state : nat → Z → zse_t;
  zcbor_map_start_encode : zse_t → bool * zse_t;
  zcbor_map_end_encode : zse_t → bool * zse_t;
  (* also [zcbor_tstr_put_lit] and [zcbor_tstr_put_term]: the characters *)
  zcbor_tstr_put : list Z → zse_t → bool * zse_t;
  zcbor_uint32_put : Z → zse_t → bool * zse_t;
  zcbor_int64_put : Z → zse_t → bool * zse_t;
  zcbor_nil_put : zse_t → bool * zse_t;
  zse_output : zse_t → list Z;
}.

(** Encoding [x] succeeds if there is room for it. *)
Definition puts {S} (holds : S → Z → list item → Prop) (open_length : list item → Z)
    (put : S → bool * S) (x : item) : Prop :=
  ∀ s cap l, holds s cap l →
    (put s).1 = bool_decide (open_length (l ++ [x]) ≤ cap) ∧
    (open_length (l ++ [x]) ≤ cap → holds (put s).2 cap (l ++ [x])).

(** [zse_holds s cap l]: a map was started in a buffer of [cap] bytes, and [l] are the
    keys and values put into it. *)
Class ZcborEncoderSpec (Ze : ZcborEncoder) : Type := {
  cbor_encode : item → list Z;
  open_length : list item → Z;
  zse_holds : zse_t → Z → list item → Prop;
  open_length_le : ∀ kvs l, l `prefix_of` flatten kvs → open_length l ≤ zlen (cbor_encode (IMap kvs));
  map_start_holds : ∀ n cap, (0 < n)%nat →
    (zcbor_map_start_encode (zcbor_new_encode_state n cap)).1 = bool_decide (open_length [] ≤ cap) ∧
    (open_length [] ≤ cap → zse_holds (zcbor_map_start_encode (zcbor_new_encode_state n cap)).2 cap []);
  tstr_puts : ∀ str, puts zse_holds open_length (zcbor_tstr_put str) (ITstr str);
  uint32_puts : ∀ n, 0 ≤ n < 2 ^ 32 → puts zse_holds open_length (zcbor_uint32_put n) (IInt n);
  int64_puts : ∀ n, - 2 ^ 63 ≤ n < 2 ^ 63 → puts zse_holds open_length (zcbor_int64_put n) (IInt n);
  nil_puts : puts zse_holds open_length zcbor_nil_put INil;
  map_end_encodes : ∀ s cap kvs, zse_holds s cap (flatten kvs) →
    (zcbor_map_end_encode s).1 = bool_decide (zlen (cbor_encode (IMap kvs)) ≤ cap) ∧
    (zlen (cbor_encode (IMap kvs)) ≤ cap → zse_output (zcbor_map_end_encode s).2 = cbor_encode (IMap kvs));
}.

(** Encoding steps one after the other, up to the first that fails. *)
Definition put_all `{Ze : ZcborEncoder} (puts : list (zse_t → bool * zse_t)) (zse : zse_t) : bool * zse_t :=
  foldl (λ r put, if r.1 : bool then put r.2 else r) (true, zse) puts.

Section encode.
Context `{ZeS : ZcborEncoderSpec}.

Lemma put_all_app ps ps' s :
  put_all (ps ++ ps') s = if (put_all ps s).1 then put_all ps' (put_all ps s).2 else put_all ps s.
Proof.
  unfold put_all. rewrite foldl_app. destruct (foldl _ _ ps) as [[|] s']; cbn; [done|].
  by induction ps'.
Qed.

Lemma put_all_cons p ps s : put_all (p :: ps) s = if (p s).1 then put_all ps (p s).2 else p s.
Proof. rewrite (put_all_app [p] ps). unfold put_all at 1 2 4. cbn. by destruct (p s) as [[|] ?]. Qed.

(** Putting the keys and values of a map one by one, into a map that was started. *)
Lemma put_pairs ps l kvs cap l0 s :
  Forall2 (puts zse_holds open_length) ps l → l0 ++ l = flatten kvs → zse_holds s cap l0 →
  zlen (cbor_encode (IMap kvs)) ≤ cap →
  (put_all ps s).1 = true ∧ zse_holds (put_all ps s).2 cap (flatten kvs).
Proof.
  intros Hps. revert l0 s. induction Hps as [|p x ps l Hp _ IH]; intros l0 s Hl Hs Hcap.
  { rewrite app_nil_r in Hl. by rewrite <- Hl. }
  assert (open_length (l0 ++ [x]) ≤ cap) as Hx.
  { etrans; [apply (open_length_le kvs); exists l; by rewrite <- app_assoc|done]. }
  destruct (Hp _ _ _ Hs) as [Hok Hs']. rewrite put_all_cons, Hok, bool_decide_true by done.
  apply (IH (l0 ++ [x])); [by rewrite <- app_assoc|by apply Hs'|done].
Qed.

Lemma put_some ps l cap l0 s :
  Forall2 (puts zse_holds open_length) ps l → zse_holds s cap l0 → (put_all ps s).1 = true →
  zse_holds (put_all ps s).2 cap (l0 ++ l).
Proof.
  intros Hps. revert l0 s. induction Hps as [|p x ps l Hp _ IH]; intros l0 s Hs H1; [by rewrite app_nil_r|].
  destruct (Hp _ _ _ Hs) as [Hok Hs']. rewrite put_all_cons, Hok in H1 |- *.
  case_bool_decide as Hx; [|by rewrite Hok in H1].
  change (x :: l) with ([x] ++ l). rewrite app_assoc. by apply IH; [apply Hs'|].
Qed.

(** The whole of a map; it fails exactly if the encoding does not fit. *)
Lemma put_map ps n cap kvs :
  (0 < n)%nat → Forall2 (puts zse_holds open_length) ps (flatten kvs) →
  let r := put_all ([zcbor_map_start_encode] ++ ps ++ [zcbor_map_end_encode]) (zcbor_new_encode_state n cap) in
  r.1 = bool_decide (zlen (cbor_encode (IMap kvs)) ≤ cap) ∧
  (r.1 = true → zse_output r.2 = cbor_encode (IMap kvs)).
Proof.
  intros Hn Hps r. destruct (map_start_holds n cap Hn) as [Hok Hs].
  destruct (decide (zlen (cbor_encode (IMap kvs)) ≤ cap)) as [Hle|Hgt].
  - assert (open_length [] ≤ cap) as H0 by (etrans; [apply (open_length_le kvs), prefix_nil|done]).
    destruct (put_pairs ps (flatten kvs) kvs cap [] _ Hps eq_refl (Hs H0) Hle) as [Hps1 Hps2].
    destruct (map_end_encodes _ _ _ Hps2) as [He1 He2].
    unfold r. change ([?x] ++ ?l) with (x :: l). rewrite put_all_cons, Hok, bool_decide_true by done.
    rewrite put_all_app, Hps1. change (put_all [zcbor_map_end_encode] ?x) with (zcbor_map_end_encode x).
    rewrite He1. split; [done|]. intros _. by apply He2.
  - rewrite bool_decide_false by done. enough (r.1 = false) as -> by done. unfold r.
    change ([?x] ++ ?l) with (x :: l). rewrite put_all_cons, Hok.
    case_bool_decide as H0; [|by rewrite Hok].
    rewrite put_all_app. destruct (put_all ps _).1 eqn:Hps1; [|done].
    change (put_all [zcbor_map_end_encode] ?x) with (zcbor_map_end_encode x).
    enough (zse_holds (put_all ps (zcbor_map_start_encode (zcbor_new_encode_state n cap)).2).2 cap (flatten kvs)) as Hps2.
    { destruct (map_end_encodes _ _ _ Hps2) as [-> _]. by apply bool_decide_false. }
    by apply (put_some ps (flatten kvs) cap [] _ Hps (Hs H0)).
Qed.
End encode.

(** ** A reference encoder *)

Fixpoint be_bytes (n : nat) (v : Z) : list Z :=
  match n with O => [] | S n => be_bytes n (v / 256) ++ [v mod 256] end.

Definition toy_head (major n : Z) : list Z :=
  if n <? 24 then [major * 32 + n]
  else if n <? 256 then [major * 32 + 24; n]
  else if n <? 65536 then (major * 32 + 25) :: be_bytes 2 n
  else if n <? 2 ^ 32 then (major * 32 + 26) :: be_bytes 4 n
  else (major * 32 + 27) :: be_bytes 8 n.

Fixpoint toy_encode (x : item) : list Z :=
  match x with
  | IInt n => if n <? 0 then toy_head 1 (-1 - n) else toy_head 0 n
  | ITstr s => toy_head 3 (zlen s) ++ s
  | IList l => toy_head 4 (zlen l) ++ concat (map toy_encode l)
  | IMap l => toy_head 5 (zlen l) ++ concat (map (λ kv, toy_encode kv.1 ++ toy_encode kv.2) l)
  | INil => [246]
  | IBool b => [if b then 245 else 244]
  | IFloat bits => 251 :: be_bytes 8 bits
  | IOther major => [major * 32]
  end.

Record toy_zse := mk_zse { te_cap : Z; te_items : list item; te_output : list Z }.

(** While a map is open there is one byte for its head. *)
Definition toy_open_length (l : list item) : Z := 1 + zlen (concat (map toy_encode l)).

Definition toy_put (x : item) (s : toy_zse) : bool * toy_zse :=
  if toy_open_length (te_items s ++ [x]) <=? te_cap s
  then (true, mk_zse (te_cap s) (te_items s ++ [x]) []) else (false, s).

Definition toy_map_end (s : toy_zse) : bool * toy_zse :=
  let out := toy_head 5 (zlen (te_items s) / 2) ++ concat (map toy_encode (te_items s)) in
  if zlen out <=? te_cap s then (true, mk_zse (te_cap s) [] out) else (false, s).

Definition zcbor_toy_encoder : ZcborEncoder := {|
  zse_t := toy_zse;
  zcbor_new_encode_state _ cap := mk_zse cap [] [];
  zcbor_map_start_encode s := (1 <=? te_cap s, s);
  zcbor_map_end_encode := toy_map_end;
  zcbor_tstr_put str := toy_put (ITstr str);
  zcbor_uint32_put n := toy_put (IInt n);
  zcbor_int64_put n := toy_put (IInt n);
  zcbor_nil_put := toy_put INil;
  zse_output := te_output;
|}.

Lemma toy_head_pos major n : 1 ≤ zlen (toy_head major n).
Proof.
  enough (toy_head major n ≠ []).
  { destruct (toy_head major n) as [|b l]; [done|]. rewrite zlen_cons. pose proof (zlen_nonneg l). lia. }
  unfold toy_head. by repeat case_match.
Qed.

Lemma toy_encode_flatten kvs :
  toy_encode (IMap kvs) = toy_head 5 (zlen kvs) ++ concat (map toy_encode (flatten kvs)).
Proof.
  cbn [toy_encode]. f_equal. unfold flatten. induction kvs as [|[k x] kvs IH]; cbn; [done|].
  by rewrite IH, app_assoc.
Qed.

Lemma toy_puts x : puts (λ s cap l, s = mk_zse cap l []) toy_open_length (toy_put x) x.
Proof.
  intros s cap l ->. unfold toy_put. cbn. case_bool_decide as Hc.
  - rewrite (proj2 (Z.leb_le _ _)) by done. by split.
  - rewrite (proj2 (Z.leb_gt _ _)) by lia. by split.
Qed.

Lemma zlen_flatten kvs : zlen (flatten kvs) = 2 * zlen kvs.
Proof. unfold flatten. induction kvs as [|kv kvs IH]; cbn; [done|]. rewrite !zlen_cons. unfold zlen in *. rewrite IH. lia. Qed.

Definition zcbor_toy_encoder_spec : ZcborEncoderSpec zcbor_toy_encoder.
Proof.
  refine {| cbor_encode := toy_encode; open_length := toy_open_length;
            zse_holds := λ (s : zse_t (ZcborEncoder := zcbor_toy_encoder)) cap l, s = mk_zse cap l [] |}.
  - intros kvs l [l' Hl]. rewrite toy_encode_flatten, Hl, map_app, concat_app, !zlen_app.
    unfold toy_open_length. pose proof (toy_head_pos 5 (zlen kvs)).
    pose proof (zlen_nonneg (concat (map toy_encode l'))). lia.
  - intros n cap _. cbn. split; [|done]. change (toy_open_length []) with 1.
    case_bool_decide; [by apply Z.leb_le|apply Z.leb_gt; lia].
  - intros str. apply toy_puts.
  - intros n _. apply toy_puts.
  - intros n _. apply toy_puts.
  - apply toy_puts.
  - intros s cap kvs ->. cbn [zcbor_map_end_encode zcbor_toy_encoder zse_output]. unfold toy_map_end.
    cbn [te_items te_cap]. rewrite zlen_flatten, Z.mul_comm, Z.div_mul, <- toy_encode_flatten by done.
    case_bool_decide as Hc.
    + by rewrite (proj2 (Z.leb_le _ _)) by done.
    + by rewrite (proj2 (Z.leb_gt _ _)) by lia.
Defined.
