(* ===== verification/Ota.v ===== *)
(** The lower half of the OTA service: [golioth_sdk/ota.c] and [ota.h].

    It decodes manifests and hands component data on; the upper half ([OtaUpper])
    and [hex2bin] ([zephyr/sys/util.h], not part of the repository) are interfaces
    here. Characters that are passed as a pointer to an array are the whole array;
    string literals and pointers into a longer string come without terminator. *)
From S2P Require Import Prelude Zephyr Config Buf Block Header Node Zcbor ZcborOut Names Dispatch.

(** ** Data *)

Class OtaConfig : Type := {
  CONFIG_GOLIOTH_OTA_MAX_PACKAGE_NAME_LEN : Z;
  CONFIG_GOLIOTH_OTA_MAX_VERSION_LEN : Z;
}.

(** Arrays of these sizes are declared. *)
Class OtaConfigOk (Oc : OtaConfig) : Prop := {
  package_name_range : 0 ≤ CONFIG_GOLIOTH_OTA_MAX_PACKAGE_NAME_LEN;
  version_range : 1 ≤ CONFIG_GOLIOTH_OTA_MAX_VERSION_LEN;
}.

(** The bytes of the first characters given, and how many were asked for: what
    [hex2bin] returns and what it writes into a buffer of the given size. *)
Class HexDecoder : Type := { hex2bin : list Z → Z → Z * list Z }.

Definition GOLIOTH_OTA_COMPONENT_HASH_BIN_LEN : Z := 32.
Definition GOLIOTH_OTA_COMPONENT_HASH_HEX_LEN : Z := 64.

Inductive golioth_ota_state :=
  | GOLIOTH_OTA_STATE_IDLE | GOLIOTH_OTA_STATE_DOWNLOADING | GOLIOTH_OTA_STATE_DOWNLOADED
  | GOLIOTH_OTA_STATE_UPDATING.

#[export] Instance golioth_ota_state_eq_dec : EqDecision golioth_ota_state.
Proof. solve_decision. Defined.

Definition ota_state_number (s : golioth_ota_state) : Z :=
  match s with
  | GOLIOTH_OTA_STATE_IDLE => 0
  | GOLIOTH_OTA_STATE_DOWNLOADING => 1
  | GOLIOTH_OTA_STATE_DOWNLOADED => 2
  | GOLIOTH_OTA_STATE_UPDATING => 3
  end.

(** [types.h] *)
Definition POUCH_CONTENT_TYPE_CBOR : Z := 60.

Definition MANIFEST_KEY_COMPONENTS : Z := 3.
Definition COMPONENT_KEY_PACKAGE : Z := 1.
Definition COMPONENT_KEY_VERSION : Z := 2.
Definition COMPONENT_KEY_HASH : Z := 3.
Definition COMPONENT_KEY_SIZE : Z := 4.

(** [struct golioth_ota_component]: two character arrays, the hash, the size. *)
Record golioth_ota_component := mk_component {
  c_package : list Z;
  c_version : list Z;
  c_hash : list Z;
  c_size : Z;
}.

(** [component_download] *)
Record component_download := mk_download {
  cd_downlink_id : Z;
  cd_offset : Z;
  cd_name : list Z;
  cd_version : list Z;
}.

(** What [golioth_ota_get_status] tells of a component: its name, its version, the
    target version and its state. *)
Definition ota_status : Type := list Z * list Z * list Z * golioth_ota_state.

(** [ota.h]: the functions the upper half implements, on its state. *)
Class OtaUpper (U : Type) : Type := {
  golioth_ota_manifest_receive_one : golioth_ota_component → M U rc;
  golioth_ota_manifest_complete : M U unit;
  golioth_ota_receive_component : list Z → list Z → Z → option (list Z) → Z → bool → M U rc;
  golioth_ota_get_status : Z → M U (option ota_status);
}.

(** The state of both halves. *)
Record ota (U : Type) := mk_ota { ot_download : component_download; ot_upper : U }.
Arguments mk_ota {U} ot_download ot_upper.
Arguments ot_download {U} o.
Arguments ot_upper {U} o.

(** The local variables that the entries of a component are decoded to. *)
Record component_locals := mk_locals { ml_component : golioth_ota_component; ml_hash_str : list Z }.

Definition set_package (s : list Z) (l : component_locals) : component_locals :=
  let c := ml_component l in mk_locals (mk_component s (c_version c) (c_hash c) (c_size c)) (ml_hash_str l).
Definition set_version (s : list Z) (l : component_locals) : component_locals :=
  let c := ml_component l in mk_locals (mk_component (c_package c) s (c_hash c) (c_size c)) (ml_hash_str l).
Definition set_size (n : Z) (l : component_locals) : component_locals :=
  let c := ml_component l in mk_locals (mk_component (c_package c) (c_version c) (c_hash c) n) (ml_hash_str l).
Definition set_hash_str (s : list Z) (l : component_locals) : component_locals :=
  mk_locals (ml_component l) s.

(** Decoding into local variables, next to the state [V]. *)
Definition with_locals `{Zc : Zcbor} {V L A} (l : L) (m : M (zcbor_state_t * L) A)
    : M (zcbor_state_t * V) (A * L) := λ t,
  match m (t.1, l) with
  | Ret a t' => Ret (a, t'.2) (t'.1, t.2)
  | UB => UB
  | NoFuel => NoFuel
  end.

(** ** [ota.c] *)

Section ota.
Context `{Cfg : Config} `{Oc : OtaConfig} `{Hd : HexDecoder} `{Zc : Zcbor} {U : Type} `{Up : OtaUpper U}.
(** What is left on the stack where local variables are not initialised. *)
Context (stack_key : zcbor_map_key) (stack_hash : list Z).

Definition component_entry_decode_value {L : Type} (value : L → list Z) (set_value : list Z → L → L)
    (value_len : Z) : M (zcbor_state_t * L) rc :=
  tstr ← zcbor zcbor_tstr_decode;
  match tstr with
  | None => mret (Some EBADMSG)
  | Some tstr =>
      if value_len <? zs_len tstr then mret (Some ENOMEM) else
      modify (λ t, (t.1, set_value (splice 0 (zs_value tstr ++ [0]) (value t.2)) t.2));;
      mret success
  end.

(** The size of the arrays, less the terminator. *)
Definition map_entries : list (zcbor_map_entry component_locals) :=
  [ZCBOR_U32_MAP_ENTRY COMPONENT_KEY_PACKAGE
     (component_entry_decode_value (λ l, c_package (ml_component l)) set_package
        CONFIG_GOLIOTH_OTA_MAX_PACKAGE_NAME_LEN);
   ZCBOR_U32_MAP_ENTRY COMPONENT_KEY_VERSION
     (component_entry_decode_value (λ l, c_version (ml_component l)) set_version
        CONFIG_GOLIOTH_OTA_MAX_VERSION_LEN);
   ZCBOR_U32_MAP_ENTRY COMPONENT_KEY_SIZE (zcbor_map_int32_decode set_size);
   ZCBOR_U32_MAP_ENTRY COMPONENT_KEY_HASH
     (component_entry_decode_value ml_hash_str set_hash_str GOLIOTH_OTA_COMPONENT_HASH_HEX_LEN)].

Definition init_component : golioth_ota_component :=
  mk_component (replicate (Z.to_nat (CONFIG_GOLIOTH_OTA_MAX_PACKAGE_NAME_LEN + 1)) 0)
    (replicate (Z.to_nat (CONFIG_GOLIOTH_OTA_MAX_VERSION_LEN + 1)) 0)
    (replicate (Z.to_nat GOLIOTH_OTA_COMPONENT_HASH_BIN_LEN) 0) 0.

(** The hash of the component, if the hexadecimal digits are right. *)
Definition component_hash (l : component_locals) : option golioth_ota_component :=
  let c := ml_component l in
  let '(hash_buf_len, bin) :=
    hex2bin (slice 0 GOLIOTH_OTA_COMPONENT_HASH_HEX_LEN (ml_hash_str l)) (zlen (c_hash c)) in
  if negb (hash_buf_len =? GOLIOTH_OTA_COMPONENT_HASH_BIN_LEN) then None
  else Some (mk_component (c_package c) (c_version c) (splice 0 bin (c_hash c)) (c_size c)).

Definition on_upper {A} (m : M U A) : M (zcbor_state_t * U) A := zoom snd (λ u t, (t.1, u)) m.

(** The list of components; [false] when the function returns early. *)
Fixpoint components_loop (fuel : nat) : M (zcbor_state_t * U) bool :=
  match fuel with
  | O => nofuel
  | S fuel =>
      at_end ← zcbor_list_or_map_end;
      if at_end : bool then mret true else
      '(err, l) ← with_locals (mk_locals init_component stack_hash) (zcbor_map_decode stack_key map_entries);
      match err with
      | Some _ => mret false
      | None =>
          match component_hash l with
          | None => mret false
          | Some component =>
              on_upper (golioth_ota_manifest_receive_one component);;
              components_loop fuel
          end
      end
  end.

Fixpoint manifest_loop (fuel : nat) : M (zcbor_state_t * U) unit :=
  match fuel with
  | O => nofuel
  | S fuel =>
      at_end ← zcbor_list_or_map_end;
      if at_end : bool then mret tt else
      key ← zcbor zcbor_uint32_decode;
      match key with
      | None => mret tt
      | Some key =>
          if MANIFEST_KEY_COMPONENTS =? key then
            ok ← zcbor zcbor_list_start_decode;
            if negb ok then mret tt else
            t ← get;
            ok ← components_loop (S (length (zsd_payload t.1)));
            if negb ok then mret tt else
            on_upper golioth_ota_manifest_complete;;
            ok ← zcbor_list_or_map_end;
            if negb ok then mret tt else manifest_loop fuel
          else
            ok ← zcbor zcbor_any_skip;
            if negb ok then mret tt else manifest_loop fuel
      end
  end.

(** [len] bytes at [data]; with a null pointer there are none. *)
Definition ota_receive_manifest (id : Z) (data : option (list Z)) (len : Z) (is_last : bool) : M U unit := λ u,
  match data with
  | None => if len =? 0 then Ret tt u else UB
  | Some data =>
      match (ok ← zcbor zcbor_map_start_decode;
             if negb ok then mret tt else
             t ← get;
             manifest_loop (S (length (zsd_payload t.1))))
            (zcbor_state_d 3 (slice 0 len data), u) with
      | Ret _ t => Ret tt t.2
      | UB => UB
      | NoFuel => NoFuel
      end
  end.

(** [strchr]: the characters before the first ['@'], and the ones behind it. *)
Fixpoint at_sign (s : list Z) : option (list Z * list Z) :=
  match s with
  | [] => None
  | c :: s => if c =? 64 then Some ([], s) else '(a, b) ← at_sign s; Some (c :: a, b)
  end.

(** A name that does not fit is written over the end of its array. *)
Definition ota_receive_component_start (id : Z) (path_remainder : option (list Z)) : M (ota U) unit :=
  match path_remainder with
  | None => ub
  | Some path_remainder =>
      o ← get;
      let d := ot_download o in
      match at_sign path_remainder with
      | Some (name, version) =>
          let name_len := zlen name in
          if CONFIG_GOLIOTH_OTA_MAX_PACKAGE_NAME_LEN <? name_len then ub else
          let version_size := CONFIG_GOLIOTH_OTA_MAX_VERSION_LEN + 1 in
          modify (λ o, mk_ota (mk_download id 0
            (splice 0 (strncpy name_len path_remainder ++ [0]) (cd_name d))
            (splice (version_size - 1) [0] (splice 0 (strncpy version_size version) (cd_version d))))
            (ot_upper o))
      | None =>
          modify (λ o, mk_ota (mk_download DOWNLINK_ID_INVALID (cd_offset d) (cd_name d) (cd_version d))
            (ot_upper o))
      end
  end.

Definition ota_receive_component_data (id : Z) (data : option (list Z)) (len : Z) (is_last : bool)
    : M (ota U) unit :=
  o ← get;
  let d := ot_download o in
  if DOWNLINK_ID_INVALID =? cd_downlink_id d then mret tt else
  zoom ot_upper (λ u o, mk_ota (ot_download o) u)
    (golioth_ota_receive_component (cd_name d) (cd_version d) (cd_offset d) data len is_last);;
  modify (λ o, let d := ot_download o in
    mk_ota (mk_download (cd_downlink_id d) (usz (cd_offset d + len)) (cd_name d) (cd_version d)) (ot_upper o)).

Definition init_download : component_download :=
  mk_download DOWNLINK_ID_INVALID 0 (replicate (Z.to_nat (CONFIG_GOLIOTH_OTA_MAX_PACKAGE_NAME_LEN + 1)) 0)
    (replicate (Z.to_nat (CONFIG_GOLIOTH_OTA_MAX_VERSION_LEN + 1)) 0).
End ota.

(** *** Uplink *)

Section ota_uplink.
Context `{Oc : OtaConfig} `{Ze : ZcborEncoder} {U N : Type} `{Up : OtaUpper U}.
(** Writing an entry: path, content type, data, and its length. *)
Context (pouch_uplink_entry_write : list Z → Z → list Z → Z → M N rc).

(** The encoding of a status, in steps each of which ends the function if it fails;
    the target version, an array, is left out of an idle component, and read beyond
    its end when it has no terminator. *)
Definition encode_status (st : ota_status) : option (bool * zse_t) :=
  let '(name, current_version, target_version, state) := st in
  let '(ok, zse) := put_all
    [zcbor_map_start_encode;
     zcbor_tstr_put key_s; zcbor_uint32_put (ota_state_number state);
     zcbor_tstr_put key_r; zcbor_uint32_put 0;
     zcbor_tstr_put key_pkg; zcbor_tstr_put (c_string name);
     zcbor_tstr_put key_v; zcbor_tstr_put (c_string current_version)] (zcbor_new_encode_state 1 64) in
  if negb ok then Some (false, zse) else
  if decide (state = GOLIOTH_OTA_STATE_IDLE) then Some (zcbor_map_end_encode zse) else
  let '(ok, zse) := zcbor_tstr_put key_t zse in
  if negb ok then Some (false, zse) else
  if decide (0 ∈ target_version)
  then Some (put_all [zcbor_tstr_put (c_string target_version); zcbor_map_end_encode] zse) else None.

(** The local array [path]. *)
Definition status_path (name : list Z) : list Z :=
  let path := GOLIOTH_OTA_COMPONENT_PATH_PREFIX ++
    replicate (Z.to_nat (CONFIG_GOLIOTH_OTA_MAX_PACKAGE_NAME_LEN + 1)) 0 in
  splice (zlen (c_string path)) (strncpy CONFIG_GOLIOTH_OTA_MAX_PACKAGE_NAME_LEN name) path.

Fixpoint ota_uplink_loop (fuel : nat) (component_idx : Z) : M (U * N) unit :=
  match fuel with
  | O => nofuel
  | S fuel =>
      st ← zoom fst (λ u t, (u, t.2)) (golioth_ota_get_status component_idx);
      match st with
      | None => mret tt
      | Some st =>
          match encode_status st with
          | None => ub
          | Some (false, _) => mret tt
          | Some (true, zse) =>
              let '(name, _, _, _) := st in
              zoom snd (λ n t, (t.1, n))
                (pouch_uplink_entry_write (c_string (status_path name)) POUCH_CONTENT_TYPE_CBOR
                   (zse_output zse) (zlen (zse_output zse)));;
              ota_uplink_loop fuel (component_idx + 1)
          end
      end
  end.

Definition ota_uplink (fuel : nat) : M (U * N) unit := ota_uplink_loop fuel 0.
End ota_uplink.
