(* ===== verification/OtaManifest.v ===== *)
(** OTA manifests: what [ota_receive_manifest] makes of the items of a manifest, and
    that it ends on any input. *)
From S2P Require Import Prelude Zephyr Config Buf Block Header Node Zcbor Ota.

(** ** Specification of the manifest *)

Section manifest.
Context `{Oc : OtaConfig} `{Hd : HexDecoder} `{ZcS : ZcborSpec} {U : Type} `{Up : OtaUpper U}.
Context (stack_key : zcbor_map_key) (stack_hash : list Z).
Implicit Types (u : U) (x : item) (kvs : list (item * item)) (l : component_locals).

(** What an entry of a component map makes of its value. *)
Definition array_sem (value : component_locals → list Z) set_value (value_len : Z) x l : rc * component_locals :=
  match as_tstr x with
  | None => (Some EBADMSG, l)
  | Some s => if value_len <? zlen s then (Some ENOMEM, l)
              else (success, set_value (splice 0 (s ++ [0]) (value l)) l)
  end.

Definition field_sem (key : Z) x l : rc * component_locals :=
  if key =? COMPONENT_KEY_PACKAGE then
    array_sem (λ l, c_package (ml_component l)) set_package CONFIG_GOLIOTH_OTA_MAX_PACKAGE_NAME_LEN x l
  else if key =? COMPONENT_KEY_VERSION then
    array_sem (λ l, c_version (ml_component l)) set_version CONFIG_GOLIOTH_OTA_MAX_VERSION_LEN x l
  else if key =? COMPONENT_KEY_SIZE then
    match as_int32 x with Some n => (success, set_size n l) | None => (Some EBADMSG, l) end
  else array_sem ml_hash_str set_hash_str GOLIOTH_OTA_COMPONENT_HASH_HEX_LEN x l.

Definition component_sem (e : zcbor_map_entry component_locals) : item → component_locals → rc * component_locals :=
  field_sem (key_u32 (ent_key e)).

(** The component that an item of the list stands for. *)
Definition ref_component x : option golioth_ota_component :=
  match x with
  | IMap kvs =>
      let hs := take 4 (hits map_entries kvs) in
      match apply_hits component_sem hs (mk_locals init_component stack_hash) with
      | (None, l) => if decide (length hs = 4%nat) then component_hash l else None
      | _ => None
      end
  | _ => None
  end.

(** The components are handed on up to the first that is not right. *)
Fixpoint ref_components (xs : list item) : M U bool :=
  match xs with
  | [] => mret true
  | x :: xs =>
      match ref_component x with
      | Some component => golioth_ota_manifest_receive_one component;; ref_components xs
      | None => mret false
      end
  end.

(** The first list of components counts; a key that is no number ends the manifest,
    and so does the list. *)
Fixpoint ref_manifest_map kvs : M U unit :=
  match kvs with
  | [] => mret tt
  | (k, x) :: kvs =>
      match as_uint32 k with
      | None => mret tt
      | Some key =>
          if MANIFEST_KEY_COMPONENTS =? key then
            match x with
            | IList xs => ok ← ref_components xs;
                          if ok : bool then golioth_ota_manifest_complete else mret tt
            | _ => mret tt
            end
          else ref_manifest_map kvs
      end
  end.

Definition ref_manifest x : M U unit :=
  match x with IMap kvs => ref_manifest_map kvs | _ => mret tt end.

(** Components whose keys are small numbers, with no key behind the fourth that is
    asked for: the decoder does not step over that one. *)
Definition component_ok x : Prop :=
  match x with
  | IMap kvs => Forall (λ kv, key_ok false kv.1) kvs ∧ read_whole map_entries kvs
  | _ => True
  end.

Definition manifest_ok x : Prop :=
  match x with
  | IMap kvs => Forall (λ kv, match kv.2 with IList xs => Forall component_ok xs | _ => True end) kvs
  | _ => True
  end.

Lemma map_entries_ok : Forall (entry_ok false) map_entries.
Proof. repeat constructor; by eexists _, 0. Qed.

Lemma array_entry_sem n key (value : component_locals → list Z) set_value value_len :
  entry_sem n (array_sem value set_value value_len)
    (mk_map_entry key (component_entry_decode_value value set_value value_len)).
Proof.
  intros s x r o l Hr. pose proof (tstr_reads _ _ _ _ _ Hr) as [Hv Hr']. pose proof (tstr_length s) as Hl.
  cbn [ent_decode]. unfold component_entry_decode_value, array_sem. wp_step. apply wp_zcbor. cbn [fst snd].
  destruct (zcbor_tstr_decode s) as [[z|] s']; cbn in *; rewrite <- Hv in *; [|wp_step; by split_and!].
  unfold zs_len. destruct (_ <? _); wp_steps; [|by split_and!]. split_and!; [done|done|done].
Qed.

Lemma map_entries_sem n : Forall (λ e, entry_sem n (component_sem e) e) map_entries.
Proof.
  repeat constructor; try apply array_entry_sem.
  apply (map_value_sem zcbor_int32_decode as_int32); [apply int32_reads|apply int32_length].
Qed.

Lemma map_entries_forward : Forall (λ e : zcbor_map_entry component_locals, forward (ent_decode e)) map_entries.
Proof.
  assert (∀ value set_value n key, forward (ent_decode (mk_map_entry key
    (component_entry_decode_value (L := component_locals) value set_value n)))) as Ha.
  { intros value set_value n key t. cbn [ent_decode]. unfold component_entry_decode_value.
    apply wlp_bind, wlp_zcbor. pose proof (tstr_length t.1) as Hl. unfold payload_length.
    destruct (zcbor_tstr_decode t.1) as [[z|] s]; cbn [fst snd] in *; [|by apply wlp_ret].
    destruct (n <? zs_len z); [by apply wlp_ret|]. by apply wlp_bind, wlp_modify, wlp_ret. }
  repeat constructor; try apply Ha. apply map_value_forward. apply int32_length.
Qed.

Lemma wp_with_locals {L A} (l : L) (m : M (zcbor_state_t * L) A) Q (t : zcbor_state_t * U) :
  wp m (λ a t', Q (a, t'.2) (t'.1, t.2)) (t.1, l) → wp (with_locals l m) Q t.
Proof. unfold wp, with_locals. by destruct (m (t.1, l)). Qed.

(** Decoding one item of the list. *)
Lemma wp_decode_component n s x r o u (Q : rc * component_locals → zcbor_state_t * U → Prop) :
  component_ok x → zsd_reads (S n) s (x :: r) o →
  (∀ err l s', (match err with None => component_hash l | Some _ => None end) = ref_component x →
     (err = success → zsd_reads (S n) s' r o ∧ (length (zsd_payload s') < length (zsd_payload s))%nat) →
     Q (err, l) (s', u)) →
  wp (with_locals (mk_locals init_component stack_hash) (zcbor_map_decode stack_key map_entries)) Q (s, u).
Proof.
  intros Hok Hr HQ. apply wp_with_locals. cbn [fst snd].
  assert (∀ P, zcbor_map_start_decode s = (false, P) → ref_component x = None →
    wp (zcbor_map_decode stack_key map_entries) (λ a t', Q (a, t'.2) (t'.1, u))
      (s, mk_locals init_component stack_hash)) as Hbad.
  { intros s' Hs Hx. unfold zcbor_map_decode. wp_step. apply wp_zcbor. cbn [fst snd]. rewrite Hs. cbn [fst snd negb]. wp_step.
    by apply HQ. }
  destruct x as [| | |kvs| | | |]; try (by pose proof (map_start_reads _ _ _ _ _ Hr) as Hs;
    cbn in Hs; destruct (zcbor_map_start_decode s) as [ok s'] eqn:He; cbn in Hs; subst ok; eapply Hbad).
  destruct Hok as [Hks Hrw].
  eapply wp_mono; [apply wp_and_wlp; [by apply (wp_map_decode component_sem false map_entries stack_key kvs n s r o);
    [apply map_entries_ok|apply map_entries_sem|..]|apply wlp_map_decode, map_entries_forward]|].
  intros err [s' l] ((Hl & He & Hreads) & Hlen). cbn in Hl |- *. apply HQ; [|intros; split; [by apply Hreads|by apply Hlen]].
  cbn [ref_component]. change (take (length map_entries) (hits map_entries kvs)) with (take 4 (hits map_entries kvs)) in *.
  set (hs := take 4 (hits map_entries kvs)) in *.
  destruct (apply_hits component_sem hs _) as [[e|] l']; cbn [fst snd] in Hl, He; subst l err; [done|].
  assert (length hs ≤ 4)%nat by (unfold hs; rewrite length_take; lia).
  destruct (decide (hs = [])) as [->|Hne]; [done|].
  change (length map_entries) with 4%nat in *. destruct (decide (length hs < 4)%nat).
  - rewrite decide_False by lia. done.
  - rewrite decide_True by lia. done.
Qed.

Lemma components_agree n s xs o fuel u :
  Forall component_ok xs → (length (zsd_payload s) < fuel)%nat → zsd_reads (S n) s xs o →
  outcome_rel (λ ok t u, t.2 = u ∧ (ok = true → zsd_reads (S n) t.1 [] o))
    (components_loop stack_key stack_hash fuel (s, u)) (ref_components xs u).
Proof.
  revert s xs u. induction fuel as [|fuel IH]; intros s xs u Hok Hf Hr; [lia|]. cbn [components_loop].
  apply outcome_rel_left. eapply wp_at_end; [exact Hr|]. destruct xs as [|x xs].
  { rewrite bool_decide_true by done. done. }
  rewrite bool_decide_false by done. apply Forall_cons_iff in Hok as [Hx Hxs]. cbn [ref_components].
  apply outcome_rel_left. eapply wp_decode_component; [exact Hx|exact Hr|]. intros err l s' Hc Hr'.
  rewrite <- Hc. destruct err as [e|]; [done|]. destruct (component_hash l) as [c|]; [|done].
  apply (outcome_rel_bind (λ _ t u, t = (s', u))); [by apply outcome_rel_zoom|].
  intros _ _ u' ->. apply IH; [done| |by apply Hr']. destruct (Hr' eq_refl). lia.
Qed.

Lemma manifest_agree s kvs o fuel u :
  manifest_ok (IMap kvs) → (length (zsd_payload s) < fuel)%nat → zsd_reads 2 s (flatten kvs) o →
  outcome_rel (λ _ t u, t.2 = u) (manifest_loop stack_key stack_hash fuel (s, u)) (ref_manifest_map kvs u).
Proof.
  revert s kvs. induction fuel as [|fuel IH]; intros s kvs Hok Hf Hr; [lia|]. cbn [manifest_loop].
  apply outcome_rel_left. eapply wp_at_end; [exact Hr|]. destruct kvs as [|[k x] kvs].
  { by rewrite bool_decide_true. }
  rewrite bool_decide_false by done. apply Forall_cons_iff in Hok as [Hx Hok]. cbn [snd] in Hx.
  change (flatten ((k, x) :: kvs)) with (k :: x :: flatten kvs) in Hr. cbn [ref_manifest_map].
  destruct (uint32_reads _ _ _ _ _ Hr) as [Hk Hr1]. pose proof (uint32_shorter s) as Hs.
  apply outcome_rel_left, wp_zcbor. cbn [fst snd]. rewrite Hk in *. destruct (as_uint32 k) as [key|]; [|done].
  specialize (Hs (ex_intro _ _ eq_refl)). set (s1 := (zcbor_uint32_decode s).2) in *.
  destruct (MANIFEST_KEY_COMPONENTS =? key).
  - apply outcome_rel_left, wp_zcbor. cbn [fst snd]. pose proof (list_start_reads _ _ _ _ _ Hr1) as Hl.
    destruct x as [| |xs| | | | |]; try by rewrite Hl. destruct Hl as [-> Hr2]. cbn [negb].
    apply outcome_rel_left, wp_get. cbn [fst].
    eapply outcome_rel_bind; [apply (components_agree 0 _ xs); [exact Hx|lia|exact Hr2]|].
    intros [|] [s3 u3] u' [Hu Hr3]; cbn in Hu; subst u3; [|done]. cbn [negb].
    specialize (Hr3 eq_refl). cbn [fst] in Hr3. rewrite <- (seq_ret golioth_ota_manifest_complete).
    apply (outcome_rel_bind (λ _ t u, t = (s3, u))); [by apply outcome_rel_zoom|]. intros _ _ u4 ->.
    apply outcome_rel_ret.
    wp_step. eapply wp_at_end; [exact Hr3|]. rewrite bool_decide_true by done. cbn [negb].
    destruct fuel as [|fuel]; [lia|]. cbn [manifest_loop]. wp_step. eapply wp_at_end; [exact Hr3|].
    rewrite bool_decide_true by done. by wp_step.
  - apply outcome_rel_left, wp_zcbor. cbn [fst snd]. pose proof (any_skip_length s1) as Hs1.
    destruct (any_skip_reads _ _ _ _ _ Hr1) as [-> Hr2]. cbn [negb]. apply IH; [done|lia|done].
Qed.

(** The callback of the service on a manifest. *)
Lemma receive_manifest_agrees id data x is_last u :
  cbor_encodes data x → manifest_ok x →
  ota_receive_manifest stack_key stack_hash id (Some data) (zlen data) is_last u = ref_manifest x u.
Proof.
  intros Hx Hok. pose proof (reads_new 3 data x Hx) as Hr. unfold ota_receive_manifest. rewrite slice_0_all.
  set (m := (ok ← _; _)).
  enough (outcome_rel (λ _ t u, t.2 = u) (m (zcbor_state_d 3 data, u)) (ref_manifest x u)) as He.
  { destruct (m _) as [[] t| |], (ref_manifest x u) as [[] u'| |]; try done. by destruct He as [_ ->]. }
  unfold m. apply outcome_rel_left, wp_zcbor. cbn [fst snd]. pose proof (map_start_reads _ _ _ _ _ Hr) as Hs.
  destruct x as [| | |kvs| | | |]; try by rewrite Hs. destruct Hs as [-> Hr1]. cbn [negb].
  apply outcome_rel_left, wp_get. cbn [fst]. eapply manifest_agree; [done|lia|exact Hr1].
Qed.
End manifest.

(** *** The fields of a component *)

Section fields.
Context `{OcOk : OtaConfigOk} `{Hd : HexDecoder} `{Zc : Zcbor}.
Context (stack_hash pkg ver hash bin : list Z) (size : Z).
Context (pkg_fits : zlen pkg ≤ CONFIG_GOLIOTH_OTA_MAX_PACKAGE_NAME_LEN).
Context (ver_fits : zlen ver ≤ CONFIG_GOLIOTH_OTA_MAX_VERSION_LEN).
Context (size_fits : - 2 ^ 31 ≤ size < 2 ^ 31).
Context (hash_length : zlen hash = GOLIOTH_OTA_COMPONENT_HASH_HEX_LEN).
Context (hash_hex : hex2bin hash GOLIOTH_OTA_COMPONENT_HASH_BIN_LEN = (GOLIOTH_OTA_COMPONENT_HASH_BIN_LEN, bin)).
Context (bin_length : zlen bin = GOLIOTH_OTA_COMPONENT_HASH_BIN_LEN).

Definition field_pairs : list (item * item) :=
  [(IInt COMPONENT_KEY_PACKAGE, ITstr pkg); (IInt COMPONENT_KEY_VERSION, ITstr ver);
   (IInt COMPONENT_KEY_SIZE, IInt size); (IInt COMPONENT_KEY_HASH, ITstr hash)].

(** A string at the start of an array of zeros. *)
Definition array_of (n : Z) (s : list Z) : list Z := splice 0 (s ++ [0]) (replicate (Z.to_nat (n + 1)) 0).

(** The entry that a key finds, and what it does. *)
Lemma field_steps : ∃ E1 E2 E3 E4 : zcbor_map_entry component_locals,
  (∀ x kvs, hits map_entries ((IInt COMPONENT_KEY_PACKAGE, x) :: kvs) = (E1, x) :: hits map_entries kvs) ∧
  (∀ x kvs, hits map_entries ((IInt COMPONENT_KEY_VERSION, x) :: kvs) = (E2, x) :: hits map_entries kvs) ∧
  (∀ x kvs, hits map_entries ((IInt COMPONENT_KEY_SIZE, x) :: kvs) = (E3, x) :: hits map_entries kvs) ∧
  (∀ x kvs, hits map_entries ((IInt COMPONENT_KEY_HASH, x) :: kvs) = (E4, x) :: hits map_entries kvs) ∧
  (∀ l, component_sem E1 (ITstr pkg) l = (success, set_package (splice 0 (pkg ++ [0]) (c_package (ml_component l))) l)) ∧
  (∀ l, component_sem E2 (ITstr ver) l = (success, set_version (splice 0 (ver ++ [0]) (c_version (ml_component l))) l)) ∧
  (∀ l, component_sem E3 (IInt size) l = (success, set_size size l)) ∧
  (∀ l, component_sem E4 (ITstr hash) l = (success, set_hash_str (splice 0 (hash ++ [0]) (ml_hash_str l)) l)).
Proof.
  do 4 eexists. repeat apply conj; try (intros x kvs; rewrite hits_cons; reflexivity); intros l;
    unfold component_sem, field_sem, array_sem; cbn -[Z.pow].
  - by rewrite (proj2 (Z.ltb_ge _ _)).
  - by rewrite (proj2 (Z.ltb_ge _ _)).
  - by rewrite (proj2 (Z.leb_le _ _)), (proj2 (Z.ltb_lt _ _)) by lia.
  - by rewrite (proj2 (Z.ltb_ge _ _)) by lia.
Qed.

Lemma fields_hash :
  component_hash (mk_locals (mk_component (array_of CONFIG_GOLIOTH_OTA_MAX_PACKAGE_NAME_LEN pkg)
    (array_of CONFIG_GOLIOTH_OTA_MAX_VERSION_LEN ver) (c_hash init_component) size) (splice 0 (hash ++ [0]) stack_hash)) =
  Some (mk_component (array_of CONFIG_GOLIOTH_OTA_MAX_PACKAGE_NAME_LEN pkg)
    (array_of CONFIG_GOLIOTH_OTA_MAX_VERSION_LEN ver) bin size).
Proof.
  unfold component_hash. cbn [ml_hash_str ml_component c_hash c_package c_version c_size init_component].
  unfold splice at 1. rewrite take_0, app_nil_l, <- app_assoc, <- hash_length, slice_prefix.
  change (zlen (replicate _ 0)) with GOLIOTH_OTA_COMPONENT_HASH_BIN_LEN. rewrite hash_hex, Z.eqb_refl. cbn [negb].
  unfold splice. rewrite take_0, drop_ge; [by rewrite app_nil_l, app_nil_r|].
  rewrite length_replicate. unfold zlen in bin_length. lia.
Qed.

(** The four fields, in any order, are the component. *)
Lemma fields_any_order kvs : kvs ≡ₚ field_pairs →
  ref_component stack_hash (IMap kvs) =
  Some (mk_component (array_of CONFIG_GOLIOTH_OTA_MAX_PACKAGE_NAME_LEN pkg)
          (array_of CONFIG_GOLIOTH_OTA_MAX_VERSION_LEN ver) bin size).
Proof.
  intros Hp%Permutation_sym%permutations_Permutation.
  destruct field_steps as (E1 & E2 & E3 & E4 & Hh1 & Hh2 & Hh3 & Hh4 & Hs1 & Hs2 & Hs3 & Hs4).
  rewrite list_elem_of_In in Hp. cbn in Hp. unfold ref_component.
  repeat destruct Hp as [<-|Hp]; [..|done];
    do 4 rewrite ?Hh1, ?Hh2, ?Hh3, ?Hh4;
    change (hits map_entries []) with (@nil (zcbor_map_entry component_locals * item)); cbn [take apply_hits];
    do 4 (rewrite ?Hs1, ?Hs2, ?Hs3, ?Hs4; cbn iota beta); (destruct (decide _) as [_|Hn]; [|by destruct Hn]); unfold set_package, set_version, set_size, set_hash_str; cbn [ml_component ml_hash_str c_package c_version c_size c_hash init_component]; exact fields_hash.
Qed.
End fields.

(** A component as a manifest announces it: the four fields, the hash as text and as the
    bytes that the text stands for. *)
Record announced := mk_announced {
  an_package : list Z;
  an_version : list Z;
  an_size : Z;
  an_hash_text : list Z;
  an_hash : list Z;
}.

Section announced.
Context `{OcOk : OtaConfigOk} `{Hd : HexDecoder} `{Zc : Zcbor}.

Record announced_ok (a : announced) : Prop := {
  ao_package : zlen (an_package a) ≤ CONFIG_GOLIOTH_OTA_MAX_PACKAGE_NAME_LEN;
  ao_version : zlen (an_version a) ≤ CONFIG_GOLIOTH_OTA_MAX_VERSION_LEN;
  ao_size : - 2 ^ 31 ≤ an_size a < 2 ^ 31;
  ao_text : zlen (an_hash_text a) = 64;
  ao_hex : hex2bin (an_hash_text a) 32 = (32, an_hash a);
  ao_hash : zlen (an_hash a) = 32;
}.

(** Its entries in the map of an item are those with the keys 1 to 4, in any order; entries
    with other keys may be in between. *)
Definition announced_pairs (a : announced) : list (item * item) :=
  [(IInt 1, ITstr (an_package a)); (IInt 2, ITstr (an_version a)); (IInt 4, IInt (an_size a));
   (IInt 3, ITstr (an_hash_text a))].

Definition field_key (kv : item * item) : bool :=
  match kv.1 with IInt n => (1 <=? n) && (n <=? 4) | _ => false end.

Definition item_announces (x : item) (a : announced) : Prop :=
  announced_ok a ∧ ∃ kvs, x = IMap kvs ∧ List.filter field_key kvs ≡ₚ announced_pairs a ∧
    Forall (λ kv, key_ok false kv.1) kvs.

(** What the decoder makes of it. *)
Definition announced_component (a : announced) : golioth_ota_component :=
  mk_component (array_of CONFIG_GOLIOTH_OTA_MAX_PACKAGE_NAME_LEN (an_package a))
    (array_of CONFIG_GOLIOTH_OTA_MAX_VERSION_LEN (an_version a)) (an_hash a) (an_size a).

Lemma hits_field_keys kvs :
  Forall (λ kv, key_ok false kv.1) kvs → hits map_entries kvs = hits map_entries (List.filter field_key kvs).
Proof.
  induction 1 as [|[k x] kvs (n & Hn & _) _ IH]; [done|]. cbn [fst] in Hn. subst k.
  cbn [List.filter]. rewrite hits_cons, IH. destruct (field_key (IInt n, x)) eqn:Hf; [by rewrite hits_cons|].
  unfold field_key in Hf. cbn [fst] in Hf. assert (∀ m, 1 ≤ m ≤ 4 → (m =? n) = false) as Hm by lia.
  cbn -[Z.eqb]. by rewrite !Hm by done.
Qed.

Lemma ref_component_announced stack_hash x a :
  item_announces x a → ref_component stack_hash x = Some (announced_component a).
Proof.
  intros ([] & kvs & -> & Hp & Hk). pose proof (hits_field_keys kvs Hk) as Hh.
  etrans; [|apply (fields_any_order stack_hash (an_package a) (an_version a) (an_hash_text a) (an_hash a) (an_size a)); [done..|exact Hp]].
  unfold ref_component. by rewrite Hh.
Qed.

Lemma c_string_array_of n s : c_string (array_of n s) = c_string s.
Proof.
  unfold array_of, splice. rewrite take_0, app_nil_l, <- app_assoc. cbn [app].
  set (k := drop _ _). clearbody k. induction s as [|x s IH]; cbn [app c_string]; [done|]. destruct (x =? 0); [done|]. by rewrite IH.
Qed.
End announced.

(** *** Any input *)

Section manifest_ends.
Context `{Oc : OtaConfig} `{Hd : HexDecoder} `{ZcS : ZcborSpec} {U : Type} `{Up : OtaUpper U}.
Context (stack_key : zcbor_map_key) (stack_hash : list Z).
Context (receive_one_ends : ∀ c u, golioth_ota_manifest_receive_one c u ≠ NoFuel).
Context (complete_ends : ∀ u, golioth_ota_manifest_complete u ≠ NoFuel).
Implicit Types (t : zcbor_state_t * U).

Lemma wlp_on_upper {A} (m : M U A) Q t :
  (∀ u, m u ≠ NoFuel) → (∀ a t', t'.1 = t.1 → Q a t') → wlp (on_upper m) Q t.
Proof.
  intros Hm HQ. unfold on_upper. apply wlp_zoom. specialize (Hm t.2). unfold wlp.
  destruct (m t.2); [by apply HQ|done|done].
Qed.

Lemma wlp_decode_component Q t :
  (∀ err l t', (err = success → (payload_length t' < payload_length t)%nat) → Q (err, l) t') →
  wlp (with_locals (mk_locals init_component stack_hash) (zcbor_map_decode stack_key map_entries)) Q t.
Proof.
  intros HQ. pose proof (wlp_map_decode map_entries stack_key
    (t.1, mk_locals init_component stack_hash) map_entries_forward) as Hw.
  unfold wlp, with_locals in *. destruct (zcbor_map_decode _ _ _) as [err t'| |]; [|done|done]. by apply HQ.
Qed.

Lemma wlp_components fuel t : (payload_length t < fuel)%nat →
  wlp (components_loop stack_key stack_hash fuel)
    (λ ok t', ok = true → (payload_length t' ≤ payload_length t)%nat) t.
Proof.
  revert t. induction fuel as [|fuel IH]; intros t Hf; [lia|]. cbn [components_loop].
  apply wlp_bind, wlp_at_end. intros [|]; [by apply wlp_ret|].
  apply wlp_bind, wlp_decode_component. intros [e|] l t1 H1; [by apply wlp_ret|]. specialize (H1 eq_refl).
  destruct (component_hash l) as [c|]; [|by apply wlp_ret].
  apply wlp_bind, wlp_on_upper; [done|]. intros _ t2 H2.
  assert (payload_length t2 = payload_length t1) as Hp by (unfold payload_length; by rewrite H2).
  eapply wlp_mono; [apply IH; lia|]. intros ok t3 H3 Hok. specialize (H3 Hok). lia.
Qed.

Lemma wlp_manifest fuel t : (payload_length t < fuel)%nat →
  wlp (manifest_loop stack_key stack_hash fuel) (λ _ _, True) t.
Proof.
  revert t. induction fuel as [|fuel IH]; intros t Hf; [lia|]. cbn [manifest_loop].
  apply wlp_bind, wlp_at_end. intros [|]; [by apply wlp_ret|].
  apply wlp_bind, wlp_zcbor. pose proof (uint32_shorter t.1) as Hs.
  destruct (zcbor_uint32_decode t.1) as [[key|] s]; cbn [fst snd] in *; [|by apply wlp_ret].
  specialize (Hs (ex_intro _ _ eq_refl)). destruct (_ =? _).
  - apply wlp_bind, wlp_zcbor. cbn [fst snd]. pose proof (list_start_length s) as Hl.
    destruct (zcbor_list_start_decode s) as [[|] s1]; cbn [fst snd negb] in *; [|by apply wlp_ret].
    apply wlp_bind, wlp_get, wlp_bind. eapply wlp_mono; [apply wlp_components; unfold payload_length; cbn [fst]; lia|].
    intros [|] t2 H2; cbn [negb]; [|by apply wlp_ret]. specialize (H2 eq_refl).
    apply wlp_bind, wlp_on_upper; [done|]. intros _ t3 H3.
    apply wlp_bind, wlp_at_end. intros [|]; cbn [negb]; [|by apply wlp_ret].
    apply IH. unfold payload_length in *. rewrite H3. cbn [fst] in *. lia.
  - apply wlp_bind, wlp_zcbor. cbn [fst snd]. pose proof (any_skip_length s) as Hl.
    destruct (zcbor_any_skip s) as [[|] s1]; cbn [fst snd negb] in *; [|by apply wlp_ret].
    apply IH. unfold payload_length in *. cbn [fst] in *. lia.
Qed.

Lemma receive_manifest_ends id data len is_last u :
  ota_receive_manifest stack_key stack_hash id data len is_last u ≠ NoFuel.
Proof.
  unfold ota_receive_manifest. destruct data as [data|]; [|by destruct (_ =? _)].
  set (m := (ok ← _; _)). enough (m (zcbor_state_d 3 (slice 0 len data), u) ≠ NoFuel) by by destruct (m _).
  apply (wlp_fuel _ (λ _ _, True)). unfold m. apply wlp_bind, wlp_zcbor.
  destruct (zcbor_map_start_decode _) as [[|] s]; cbn [fst snd negb]; [|by apply wlp_ret].
  apply wlp_bind, wlp_get, wlp_manifest. unfold payload_length. cbn [fst]. lia.
Qed.
End manifest_ends.

(** ** Examples *)

(** Hexadecimal digits, as [hex2bin] reads them: none at all if one is wrong or there
    is no room. *)
Definition hex_digit (c : Z) : option Z :=
  if (48 <=? c) && (c <=? 57) then Some (c - 48)
  else if (97 <=? c) && (c <=? 102) then Some (c - 87)
  else if (65 <=? c) && (c <=? 70) then Some (c - 55) else None.

Fixpoint hex_bytes (s : list Z) : option (list Z) :=
  match s with
  | [] => Some []
  | [_] => None
  | a :: b :: s => a ← hex_digit a; b ← hex_digit b; s ← hex_bytes s; Some (16 * a + b :: s)
  end.

Definition hex_ref : HexDecoder := {|
  hex2bin s n := match hex_bytes s with
                 | Some l => if zlen l <=? n then (zlen l, l) else (0, [])
                 | None => (0, [])
                 end;
|}.

Definition ota_default : OtaConfig := {|
  CONFIG_GOLIOTH_OTA_MAX_PACKAGE_NAME_LEN := 32;
  CONFIG_GOLIOTH_OTA_MAX_VERSION_LEN := 32;
|}.

Definition ota_default_ok : OtaConfigOk ota_default.
Proof. by split. Qed.

(** An upper half that counts the components, and the manifests. *)
Definition counting : OtaUpper (Z * Z) := {|
  golioth_ota_manifest_receive_one _ := modify (λ u, (u.1 + 1, u.2));; mret success;
  golioth_ota_manifest_complete := modify (λ u, (u.1, u.2 + 1));
  golioth_ota_receive_component _ _ _ _ _ _ := mret success;
  golioth_ota_get_status _ := mret None;
|}.

(** As many pairs as there are entries: the last one is needed. *)
Lemma hits_length {V} `{Zc : Zcbor} (entries : list (zcbor_map_entry V)) kvs :
  (length (hits entries kvs) ≤ length kvs)%nat.
Proof.
  unfold hits. induction kvs as [|kv kvs IH]; cbn; [done|].
  destruct (find _ _); cbn; lia.
Qed.

Lemma short_read_whole {V} `{Zc : Zcbor} (entries : list (zcbor_map_entry V)) kvs :
  (length kvs ≤ length entries)%nat → read_whole entries kvs.
Proof.
  intros Hl kvs' kv ->. rewrite length_app in Hl. cbn in Hl. pose proof (hits_length entries kvs'). lia.
Qed.

(** The manifest [{1: 5, 3: [{1: "fw", 2: "2.0", 4: 9, 3: "00..."}]}]. *)
Definition sample_hash : list Z := replicate 64 48.
Definition sample_component : item :=
  IMap [(IInt 1, ITstr [102; 119]); (IInt 2, ITstr [50; 46; 48]); (IInt 4, IInt 9); (IInt 3, ITstr sample_hash)].
Definition sample_manifest : list Z :=
  [162; 1; 5; 3; 129; 164; 1; 98; 102; 119; 2; 99; 50; 46; 48; 4; 9; 3; 120; 64] ++ sample_hash.

(** ** Property *)

(** C27: whatever bytes a manifest consists of, receiving it ends: its loops, and the
    loop that decodes each of its components, take bytes off the input in every
    turn. (It may read beyond the end of a manifest that was cut off.) *)
Theorem manifest_ends `{Oc : OtaConfig} `{Hd : HexDecoder} `{ZcS : ZcborSpec} {U : Type} `{Up : OtaUpper U}
    stack_key stack_hash id data len is_last (u : U) :
  (∀ c u, golioth_ota_manifest_receive_one c u ≠ NoFuel) → (∀ u, golioth_ota_manifest_complete u ≠ NoFuel) →
  ota_receive_manifest stack_key stack_hash id data len is_last u ≠ NoFuel.
Proof. intros H1 H2. by apply receive_manifest_ends. Qed.

Section manifest_witnesses.
#[local] Existing Instances zcbor_toy zcbor_toy_spec hex_ref ota_default counting.

Lemma manifest_ends_witness :
  ota_receive_manifest key_0 sample_hash 1 (Some sample_manifest) (zlen sample_manifest) true (0, 0) ≠ NoFuel.
Proof. apply (manifest_ends key_0 sample_hash); done. Defined.

Example sample_manifest_counted :
  ota_receive_manifest key_0 sample_hash 1 (Some sample_manifest) (zlen sample_manifest) true (0, 0) = Ret tt (1, 1).
Proof. by vm_compute. Qed.

(** Without the hash, the component is not right, and the manifest is given up. *)
Example no_hash_no_manifest :
  ota_receive_manifest key_0 sample_hash 1
    (Some [161; 3; 129; 163; 1; 98; 102; 119; 2; 99; 50; 46; 48; 4; 9]) 15 true (0, 0) = Ret tt (0, 0).
Proof. by vm_compute. Qed.

(** A repeated key makes up for the missing hash: the hash is what was on the stack. *)
Example no_hash_but_two_sizes :
  ota_receive_manifest key_0 sample_hash 1
    (Some [161; 3; 129; 164; 1; 98; 102; 119; 2; 99; 50; 46; 48; 4; 9; 4; 9]) 17 true (0, 0) = Ret tt (1, 1).
Proof. by vm_compute. Qed.
End manifest_witnesses.
