(* ===== verification/OtaUpper.v ===== *)
(** The upper half of the OTA service: the registered components and their state,
    [golioth_sdk/ota_upper.c] and [include/golioth/ota.h].

    [A] is the state that the callbacks of the application work on, next to that of
    the components: a callback may call the public functions. *)
From S2P Require Import Prelude Zephyr Config Buf Block Header Node Ota.

(** [struct golioth_ota_registered_component_data]; [target] is an array. *)
Record golioth_ota_registered_component_data := mk_data {
  target : list Z;
  target_hash : list Z;
  size : Z;
  state : golioth_ota_state;
}.

(** The data of the components in the order of their registration. *)
Record upper (A : Type) := mk_upper { up_data : list golioth_ota_registered_component_data; up_app : A }.
Arguments mk_upper {A} up_data up_app.
Arguments up_data {A} u.
Arguments up_app {A} u.

(** [struct golioth_ota_manifest_component] *)
Record golioth_ota_manifest_component := mk_manifest_component {
  mc_name : list Z;
  mc_current : list Z;
  mc_target : list Z;
  mc_target_hash : list Z;
  mc_size : Z;
}.

(** [struct golioth_ota_registered_component]; [receive] is given the data, its
    offset, its length, and whether it is the last. *)
Record golioth_ota_registered_component (A : Type) := mk_registered {
  name : list Z;
  version : list Z;
  receive : option (list Z) → Z → Z → bool → M (upper A) unit;
}.
Arguments mk_registered {A} name version receive.
Arguments name {A} g.
Arguments version {A} g.
Arguments receive {A} g.

(** The components and manifest handlers that the application registers. *)
Class OtaApp (A : Type) : Type := {
  components : list (golioth_ota_registered_component A);
  manifest_handlers : list (list golioth_ota_manifest_component → M (upper A) unit);
}.

Section ota_upper.
Context `{Cfg : Config} `{Oc : OtaConfig} {A : Type} `{App : OtaApp A}.

Definition modify_data (i : nat) (f : golioth_ota_registered_component_data → golioth_ota_registered_component_data)
    : M (upper A) unit :=
  modify (λ u, mk_upper (alter f i (up_data u)) (up_app u)).

Definition set_state (s : golioth_ota_state) (d : golioth_ota_registered_component_data)
    : golioth_ota_registered_component_data :=
  mk_data (target d) (target_hash d) (size d) s.

(** The loop over the components from number [i] on. *)
Fixpoint set_status_loop (cs : list (golioth_ota_registered_component A)) (i : nat) (nm : list Z)
    (st : golioth_ota_state) : M (upper A) rc :=
  match cs with
  | [] => mret (Some ENOENT)
  | component :: cs =>
      if str_eq (name component) nm then modify_data i (set_state st);; mret success
      else set_status_loop cs (i + 1) nm st
  end.

Definition golioth_ota_set_status (nm : list Z) (st : golioth_ota_state) : M (upper A) rc :=
  set_status_loop components 0 nm st.

Definition golioth_ota_mark_for_download (nm : list Z) : M (upper A) rc :=
  golioth_ota_set_status nm GOLIOTH_OTA_STATE_DOWNLOADING.
Definition golioth_ota_mark_idle (nm : list Z) : M (upper A) rc :=
  golioth_ota_set_status nm GOLIOTH_OTA_STATE_IDLE.
Definition golioth_ota_mark_updating (nm : list Z) : M (upper A) rc :=
  golioth_ota_set_status nm GOLIOTH_OTA_STATE_UPDATING.

(** The array [target] is as long as the limit of versions, its last character is
    the terminator; the size becomes a [size_t]. *)
Definition set_target (component : golioth_ota_component) (d : golioth_ota_registered_component_data)
    : golioth_ota_registered_component_data :=
  let n := CONFIG_GOLIOTH_OTA_MAX_VERSION_LEN in
  mk_data (splice (n - 1) [0] (splice 0 (strncpy n (c_version component)) (target d)))
    (splice 0 (slice 0 GOLIOTH_OTA_COMPONENT_HASH_BIN_LEN (c_hash component)) (target_hash d))
    (usz (c_size component)) (state d).

Fixpoint receive_one_loop (cs : list (golioth_ota_registered_component A)) (i : nat)
    (component : golioth_ota_component) : M (upper A) unit :=
  match cs with
  | [] => mret tt
  | registered :: cs =>
      (if str_eq (c_package component) (name registered) then modify_data i (set_target component) else mret tt);;
      receive_one_loop cs (i + 1) component
  end.

Definition manifest_receive_one (component : golioth_ota_component) : M (upper A) rc :=
  receive_one_loop components 0 component;;
  mret success.

(** The array of the components that the handlers get. *)
Definition manifest_components (u : upper A) : list golioth_ota_manifest_component :=
  zip_with (λ registered d,
    mk_manifest_component (name registered) (version registered) (target d) (target_hash d) (size d))
    components (up_data u).

Definition manifest_complete : M (upper A) unit :=
  u ← get;
  foldr (λ handler k, handler (manifest_components u);; k) (mret tt) manifest_handlers.

Fixpoint receive_loop (cs : list (golioth_ota_registered_component A)) (i : nat) (nm : list Z) (offset : Z)
    (data : option (list Z)) (len : Z) (is_last : bool) : M (upper A) rc :=
  match cs with
  | [] => mret success
  | registered :: cs =>
      if str_eq (name registered) nm then
        u ← get;
        match up_data u !! i with
        | None => ub
        | Some d =>
            if decide (state d = GOLIOTH_OTA_STATE_DOWNLOADING) then
              receive registered data offset len is_last;;
              receive_loop cs (i + 1) nm offset data len is_last
            else mret (Some EINVAL)
        end
      else receive_loop cs (i + 1) nm offset data len is_last
  end.

Definition receive_component (nm ver : list Z) (offset : Z) (data : option (list Z)) (len : Z) (is_last : bool)
    : M (upper A) rc :=
  receive_loop components 0 nm offset data len is_last.

Definition get_status (component_idx : Z) : M (upper A) (option ota_status) :=
  if zlen components <=? component_idx then mret None else
  u ← get;
  match components !! Z.to_nat component_idx, up_data u !! Z.to_nat component_idx with
  | Some component, Some d => mret (Some (name component, version component, target d, state d))
  | _, _ => ub
  end.

(** The interface to the lower half. *)
#[export] Instance ota_upper : OtaUpper (upper A) := {|
  golioth_ota_manifest_receive_one := manifest_receive_one;
  golioth_ota_manifest_complete := manifest_complete;
  golioth_ota_receive_component := receive_component;
  golioth_ota_get_status := get_status;
|}.

(** [GOLIOTH_OTA_COMPONENT]: the target is the version at first. *)
Definition init_data (component : golioth_ota_registered_component A) : golioth_ota_registered_component_data :=
  mk_data (strncpy CONFIG_GOLIOTH_OTA_MAX_VERSION_LEN (version component))
    (replicate (Z.to_nat GOLIOTH_OTA_COMPONENT_HASH_BIN_LEN) 0) 0 GOLIOTH_OTA_STATE_IDLE.

Definition init_upper (a : A) : upper A := mk_upper (map init_data components) a.
End ota_upper.

(** ** Specification *)

Section upper_spec.
Context `{COk : ConfigOk} `{OcOk : OtaConfigOk} {A : Type} `{App : OtaApp A}.
Implicit Types (u : upper A) (nm : list Z).

(** The first component of a name, with its number. *)
Definition component_named (cs : list (golioth_ota_registered_component A)) nm
    : option (nat * golioth_ota_registered_component A) :=
  list_find (λ c, c_string (name c) = c_string nm) cs.

Lemma component_named_cons c cs nm :
  component_named (c :: cs) nm =
  if str_eq (name c) nm then Some (0%nat, c) else prod_map S id <$> component_named cs nm.
Proof. unfold component_named, str_eq. cbn [list_find]. by case_bool_decide; [rewrite decide_True|rewrite decide_False]. Qed.

Lemma set_status_loop_run cs i nm st u :
  set_status_loop cs i nm st u =
  match component_named cs nm with
  | None => Ret (Some ENOENT) u
  | Some (j, _) => Ret success (mk_upper (alter (set_state st) (i + j)%nat (up_data u)) (up_app u))
  end.
Proof.
  revert i. induction cs as [|c cs IH]; intros i; cbn [set_status_loop]; [done|].
  rewrite component_named_cons. destruct (str_eq _ _); [cbn; by rewrite Nat.add_0_r|].
  rewrite IH. destruct (component_named cs nm) as [[j c']|]; cbn; [|done]. by rewrite <- Nat.add_assoc.
Qed.

(** Nothing is done for a name that no component has. *)
Lemma receive_loop_none cs i nm off data len is_last u :
  component_named cs nm = None → receive_loop cs i nm off data len is_last u = Ret success u.
Proof.
  revert i. induction cs as [|c cs IH]; intros i; cbn [receive_loop]; [done|].
  rewrite component_named_cons. destruct (str_eq _ _); [done|]. intros Hn. apply IH.
  by destruct (component_named cs nm).
Qed.

Definition names_distinct (cs : list (golioth_ota_registered_component A)) : Prop :=
  NoDup ((λ c, c_string (name c)) <$> cs).

Lemma receive_loop_run cs i nm off data len is_last u :
  names_distinct cs →
  receive_loop cs i nm off data len is_last u =
  match component_named cs nm with
  | None => Ret success u
  | Some (j, c) =>
      match up_data u !! (i + j)%nat with
      | None => UB
      | Some d =>
          if decide (state d = GOLIOTH_OTA_STATE_DOWNLOADING)
          then (receive c data off len is_last;; mret success) u else Ret (Some EINVAL) u
      end
  end.
Proof.
  revert i. induction cs as [|c cs IH]; intros i; cbn [receive_loop]; [done|].
  intros [Hc Hcs]%list.NoDup_cons. rewrite component_named_cons. destruct (str_eq _ _) eqn:He.
  - rewrite Nat.add_0_r. cbv [mbind M_bind get]. destruct (up_data u !! i) as [d|]; [|done].
    case_decide; [|done]. destruct (receive c data off len is_last u) as [a u'| |]; [|done|done].
    apply receive_loop_none. apply list_find_None. apply Forall_forall. intros c' Hin%list_elem_of_In Hn.
    apply bool_decide_eq_true in He. apply Hc. rewrite He, <- Hn. by apply (list_elem_of_fmap_2 (λ c, c_string (name c))).
  - rewrite IH by done. destruct (component_named cs nm) as [[j c']|]; cbn; [|done]. by rewrite <- Nat.add_assoc.
Qed.

Definition target_of (c : golioth_ota_component) (r : golioth_ota_registered_component A)
    (d : golioth_ota_registered_component_data) : golioth_ota_registered_component_data :=
  if str_eq (c_package c) (name r) then set_target c d else d.

(** A component of a manifest sets the target of all components of its name. *)
Definition apply_component (c : golioth_ota_component) u : upper A :=
  mk_upper (zip_with (target_of c) components (up_data u))
    (up_app u).

Lemma receive_one_loop_run cs pre ds c a :
  length ds = length cs →
  receive_one_loop cs (length pre) c (mk_upper (pre ++ ds) a) =
  Ret tt (mk_upper (pre ++ zip_with (target_of c) cs ds) a).
Proof.
  revert pre ds. induction cs as [|r cs IH]; intros pre [|d ds] Hl; try done. injection Hl as Hl.
  cbn [receive_one_loop zip_with]. cbv [mbind M_bind].
  assert (∀ d', receive_one_loop cs (length pre + 1) c (mk_upper (pre ++ d' :: ds) a) =
    Ret tt (mk_upper (pre ++ d' :: zip_with (target_of c) cs ds) a)) as Hd.
  { intros d'. specialize (IH (pre ++ [d']) ds Hl). rewrite <- !app_assoc, length_app in IH. exact IH. }
  assert (target_of c r d = if str_eq (c_package c) (name r) then set_target c d else d) as -> by done.
  destruct (str_eq _ _).
  - cbv [modify_data modify]. cbn [up_data up_app].
    rewrite (list.alter_app_r_alt _ pre (d :: ds) (length pre)) by lia.
    rewrite Nat.sub_diag. apply Hd.
  - apply Hd.
Qed.

Lemma receive_one_run c u :
  length (up_data u) = length components → manifest_receive_one c u = Ret success (apply_component c u).
Proof.
  intros Hl. destruct u as [ds a]. unfold manifest_receive_one. cbv [mbind M_bind].
  pose proof (receive_one_loop_run components [] ds c a Hl) as Hr. cbn [app length] in Hr. by rewrite Hr.
Qed.

Lemma apply_component_length c u :
  length (up_data u) = length components → length (up_data (apply_component c u)) = length components.
Proof. intros Hl. cbn. rewrite length_zip_with, Hl. lia. Qed.

(** Only targets change. *)
Lemma apply_components_keep ms u :
  length (up_data u) = length components →
  let u' := foldl (λ u m, apply_component m u) u ms in
  up_app u' = up_app u ∧ map state (up_data u') = map state (up_data u).
Proof.
  revert u. induction ms as [|m ms IH]; intros u Hl; [done|]. cbn [foldl].
  destruct (IH _ (apply_component_length m u Hl)) as [-> ->]. split; [done|]. cbn [up_data apply_component].
  revert Hl. generalize (up_data u) as ds. generalize components as cs.
  induction cs as [|c cs IHc]; intros [|d ds] Hl; try done. injection Hl as Hl.
  cbn [zip_with map]. rewrite (IHc ds Hl). f_equal. unfold target_of. by destruct (str_eq _ _).
Qed.
End upper_spec.
