(* ===== verification/OtaTransfer.v ===== *)
(** What the OTA service does as a whole: the two halves together, behind the
    dispatcher.

    Receiving a component: the data of the stream reach the component that the path
    names, with their offsets. Receiving a manifest: the targets of the components
    it lists are set, and the handlers called. Reporting: an entry per component. *)
From S2P Require Import Prelude Zephyr Config Buf Block Header Node Entry Stream.
From S2P Require Import Zcbor ZcborOut Names Dispatch Ota OtaManifest OtaUpper.

(** ** Character arrays *)

Lemma c_string_app_l l k : Forall (λ c, c ≠ 0) l → c_string (l ++ k) = l ++ c_string k.
Proof.
  induction 1 as [|x l Hx _ IH]; [done|]. cbn [app c_string].
  rewrite (proj2 (Z.eqb_neq _ _)) by done. by rewrite IH.
Qed.

Lemma take_strncpy n m s : 0 ≤ n ≤ m → take (Z.to_nat n) (strncpy m s) = strncpy n s.
Proof.
  intros Hn. unfold strncpy. rewrite take_take, Nat.min_l by lia.
  destruct (Nat.le_gt_cases (Z.to_nat n) (length (c_string s))) as [Hle|Hgt].
  - by rewrite !take_app_le.
  - rewrite !take_app_ge, !take_replicate by lia. f_equal. f_equal. lia.
Qed.

Lemma splice_all (d l : list Z) : zlen d = zlen l → splice 0 d l = d.
Proof.
  unfold zlen. intros Hl. unfold splice. change (Z.to_nat 0) with 0%nat.
  rewrite take_0, drop_ge by lia. cbn. by rewrite app_nil_r.
Qed.

(** A string copied into an array of one character more than [n], and terminated. *)
Lemma strncpy_terminated n s (l : list Z) : 0 ≤ n → zlen l = n + 1 →
  splice n [0] (splice 0 (strncpy (n + 1) s) l) = strncpy n s ++ [0].
Proof.
  intros Hn Hl. rewrite splice_all by (rewrite zlen_strncpy; lia). unfold splice.
  rewrite take_strncpy by lia. f_equal. rewrite drop_ge; [done|].
  pose proof (zlen_strncpy (n + 1) s). unfold zlen in *. cbn [length]. lia.
Qed.

Lemma c_string_splice_0 s (l : list Z) : Forall (λ c, c ≠ 0) s → c_string (splice 0 (s ++ [0]) l) = s.
Proof. intros Hs. unfold splice. rewrite take_0, <- app_assoc. by apply c_string_app. Qed.

(** ** Receiving a component *)

Section lower.
Context `{COk : ConfigOk} `{OcOk : OtaConfigOk} {U : Type} `{Up : OtaUpper U}.
Implicit Types (o : ota U) (u : U) (nm ver : list Z).

(** What the upper half is told: the pieces with their offsets. *)
Fixpoint transfer nm ver (off : Z) (pieces : list (option (list Z) * Z * bool)) : M U unit :=
  match pieces with
  | [] => mret tt
  | (data, len, is_last) :: pieces =>
      golioth_ota_receive_component nm ver off data len is_last;;
      transfer nm ver (usz (off + len)) pieces
  end.

Fixpoint receive_all (id : Z) (pieces : list (option (list Z) * Z * bool)) : M (ota U) unit :=
  match pieces with
  | [] => mret tt
  | (data, len, is_last) :: pieces =>
      ota_receive_component_data id data len is_last;; receive_all id pieces
  end.

Lemma receive_all_transfers id pieces o :
  cd_downlink_id (ot_download o) ≠ DOWNLINK_ID_INVALID →
  let d := ot_download o in
  outcome_rel (λ _ o' u, ot_upper o' = u)
    (receive_all id pieces o) (transfer (cd_name d) (cd_version d) (cd_offset d) pieces (ot_upper o)).
Proof.
  revert o. induction pieces as [|[[data len] is_last] pieces IH]; intros [d u] Hid; [done|].
  cbn [receive_all transfer ot_download ot_upper] in *.
  unfold ota_receive_component_data. cbv [mbind M_bind get zoom modify]. cbn [ot_download ot_upper].
  rewrite (proj2 (Z.eqb_neq _ _)) by congruence. cbv [mbind M_bind]. cbn [ot_download ot_upper].
  destruct (golioth_ota_receive_component _ _ _ _ _ _ u) as [r u'| |]; [|done|done].
  cbn [ot_download ot_upper]. exact (IH (mk_ota (mk_download _ _ _ _) u') Hid).
Qed.

(** Splitting the remainder of a path. *)
Lemma at_sign_split nm ver : 64 ∉ nm → at_sign (nm ++ 64 :: ver) = Some (nm, ver).
Proof.
  induction nm as [|c nm IH]; intros Hn; cbn [app at_sign]; [done|].
  destruct (Z.eqb_spec c 64) as [->|]; [set_solver|]. by rewrite IH by set_solver.
Qed.

(** Arrays of the size they are declared with. *)
Definition download_wf (d : component_download) : Prop :=
  zlen (cd_name d) = CONFIG_GOLIOTH_OTA_MAX_PACKAGE_NAME_LEN + 1 ∧
  zlen (cd_version d) = CONFIG_GOLIOTH_OTA_MAX_VERSION_LEN + 1.

(** The name and version of the path, the version cut off to fit. *)
Lemma component_start id nm ver o Q :
  download_wf (ot_download o) → 64 ∉ nm → Forall (λ c, c ≠ 0) nm →
  zlen nm ≤ CONFIG_GOLIOTH_OTA_MAX_PACKAGE_NAME_LEN →
  (∀ d, cd_downlink_id d = id → cd_offset d = 0 → c_string (cd_name d) = nm →
     c_string (cd_version d) = take (Z.to_nat CONFIG_GOLIOTH_OTA_MAX_VERSION_LEN) (c_string ver) →
     download_wf d → Q tt (mk_ota d (ot_upper o))) →
  wp (ota_receive_component_start id (Some (nm ++ 64 :: ver))) Q o.
Proof.
  intros [Hn Hv] Hat Hnz Hlen HQ. pose proof version_range as Hvr. pose proof (zlen_nonneg nm).
  unfold ota_receive_component_start. wp_step. wp_step. rewrite at_sign_split by done.
  rewrite (proj2 (Z.ltb_ge _ _)) by done. wp_step. cbn [ot_upper].
  assert (strncpy (zlen nm) (nm ++ 64 :: ver) = nm) as ->.
  { unfold strncpy. rewrite c_string_app_l by done. unfold zlen. rewrite Nat2Z.id, <- app_assoc. apply take_app_length. }
  rewrite Z.add_simpl_r, strncpy_terminated by lia.
  apply HQ; cbn [cd_downlink_id cd_offset cd_name cd_version]; [done|done| | |split].
  - by apply c_string_splice_0.
  - apply c_string_strncpy. lia.
  - cbn [cd_name]. rewrite zlen_splice; [done|done|]. rewrite zlen_app, zlen_singleton. lia.
  - cbn [cd_version]. rewrite zlen_app, zlen_singleton, zlen_strncpy by lia. done.
Qed.
End lower.

(** ** Reporting *)

(** What the upper half promises of its statuses: reading them changes nothing. *)
Class OtaUpperSpec (U : Type) {Up : OtaUpper U} : Type := {
  upper_ok : U → Prop;
  ota_statuses : U → list ota_status;
  get_status_spec : ∀ u idx, upper_ok u → 0 ≤ idx →
    golioth_ota_get_status idx u = Ret (ota_statuses u !! Z.to_nat idx) u;
}.

Section report.
Context `{OcOk : OtaConfigOk} `{ZeS : ZcborEncoderSpec} {U N : Type} `{UpS : OtaUpperSpec U}.
Context (pouch_uplink_entry_write : list Z → Z → list Z → Z → M N rc).
Implicit Types (st : ota_status) (u : U) (n : N).

(** The states as numbers, and the map of a report: ["s"] the state, ["r"] a reason that is
    always 0, ["pkg"] the name, ["v"] the version, and unless idle ["t"] the target. *)
Definition state_code (s : golioth_ota_state) : Z :=
  match s with
  | GOLIOTH_OTA_STATE_IDLE => 0
  | GOLIOTH_OTA_STATE_DOWNLOADING => 1
  | GOLIOTH_OTA_STATE_DOWNLOADED => 2
  | GOLIOTH_OTA_STATE_UPDATING => 3
  end.

Definition status_map st : list (item * item) :=
  let '(name, current_version, target_version, state) := st in
  [(ITstr [115], IInt (state_code state)); (ITstr [114], IInt 0);
   (ITstr [112; 107; 103], ITstr (c_string name)); (ITstr [118], ITstr (c_string current_version))] ++
  (if decide (state = GOLIOTH_OTA_STATE_IDLE) then [] else [(ITstr [116], ITstr (c_string target_version))]).

(** The entry that reports a status: its path is [".u/c/"] and the name, cut off to fit. *)
Definition report_path st : list Z :=
  [46; 117; 47; 99; 47] ++
  take (Z.to_nat CONFIG_GOLIOTH_OTA_MAX_PACKAGE_NAME_LEN) (c_string st.1.1.1).

(** Reports go out up to the first that does not fit in 64 bytes. *)
Fixpoint ref_report (sts : list ota_status) : M N unit :=
  match sts with
  | [] => mret tt
  | st :: sts =>
      let data := cbor_encode (IMap (status_map st)) in
      if decide (zlen data ≤ 64) then
        pouch_uplink_entry_write (report_path st) 60 data (zlen data);;
        ref_report sts
      else mret tt
  end.

(** The target version of a component that is not idle is terminated. *)
Definition status_ok st : Prop := st.2 = GOLIOTH_OTA_STATE_IDLE ∨ 0 ∈ st.1.2.

Lemma status_path_string name : c_string (status_path name) =
  GOLIOTH_OTA_COMPONENT_PATH_PREFIX ++ take (Z.to_nat CONFIG_GOLIOTH_OTA_MAX_PACKAGE_NAME_LEN) (c_string name).
Proof.
  pose proof package_name_range as Hr. unfold status_path. set (L := CONFIG_GOLIOTH_OTA_MAX_PACKAGE_NAME_LEN) in *.
  set (P := GOLIOTH_OTA_COMPONENT_PATH_PREFIX).
  assert (Forall (λ c, c ≠ 0) P) as HP by solve_bytes.
  replace (replicate (Z.to_nat (L + 1)) 0) with (replicate (Z.to_nat L) 0 ++ [0]).
  2: { rewrite Z2Nat.inj_add, replicate_add by lia. done. }
  assert (∀ k, c_string (P ++ replicate k 0) = P) as Hc.
  { intros [|k]; [rewrite app_nil_r; by apply c_string_id|by apply c_string_app]. }
  rewrite app_assoc. unfold splice.
  assert (c_string ((P ++ replicate (Z.to_nat L) 0) ++ [0]) = P) as ->.
  { rewrite <- app_assoc. change [0] with (replicate 1 0). by rewrite <- replicate_add. }
  unfold zlen. rewrite Nat2Z.id, <- app_assoc, take_app_length.
  pose proof (zlen_strncpy L name Hr) as Hl. unfold zlen in Hl.
  rewrite drop_app_ge by lia. rewrite Nat.add_comm, Nat.add_sub, drop_app_ge by (rewrite length_replicate; lia).
  rewrite length_replicate. replace (_ - _)%nat with 0%nat by lia. cbn [drop].
  rewrite c_string_app_l by done. by rewrite c_string_strncpy.
Qed.

Lemma ota_state_number_range state : 0 ≤ ota_state_number state < 2 ^ 32.
Proof. by destruct state. Qed.

Lemma encode_status_run st : status_ok st →
  ∃ zse, encode_status st = Some (bool_decide (zlen (cbor_encode (IMap (status_map st))) ≤ 64), zse) ∧
    (zlen (cbor_encode (IMap (status_map st))) ≤ 64 → zse_output zse = cbor_encode (IMap (status_map st))).
Proof.
  destruct st as [[[nm cur] tgt] state]. intros Hst.
  set (ps := [zcbor_tstr_put key_s; zcbor_uint32_put (ota_state_number state); zcbor_tstr_put key_r; zcbor_uint32_put 0;
    zcbor_tstr_put key_pkg; zcbor_tstr_put (c_string nm); zcbor_tstr_put key_v; zcbor_tstr_put (c_string cur)]).
  set (ps' := if decide (state = GOLIOTH_OTA_STATE_IDLE) then []
              else [zcbor_tstr_put key_t; zcbor_tstr_put (c_string tgt)]).
  destruct (put_map (ps ++ ps') 1 64 (status_map (nm, cur, tgt, state))) as [Hok Hout]; [lia| |].
  { change (status_map (nm, cur, tgt, state)) with ([(ITstr key_s, IInt (ota_state_number state)); (ITstr key_r, IInt 0);
      (ITstr key_pkg, ITstr (c_string nm)); (ITstr key_v, ITstr (c_string cur))] ++
      (if decide (state = GOLIOTH_OTA_STATE_IDLE) then [] else [(ITstr key_t, ITstr (c_string tgt))])).
    unfold ps, ps'. pose proof (ota_state_number_range state).
    destruct (decide _); repeat apply Forall2_cons_2; first [apply tstr_puts|by apply uint32_puts|done]. }
  exists (put_all ([zcbor_map_start_encode] ++ (ps ++ ps') ++ [zcbor_map_end_encode]) (zcbor_new_encode_state 1 64)).2.
  rewrite <- Hok. split; [|intros Hd; apply Hout; rewrite Hok; by apply bool_decide_true].
  unfold encode_status. fold ps. rewrite <- app_assoc, app_assoc, put_all_app.
  change ([zcbor_map_start_encode] ++ ps) with (zcbor_map_start_encode :: ps).
  destruct (put_all (zcbor_map_start_encode :: ps) (zcbor_new_encode_state 1 64)) as [[|] zse]; [|done]. cbn [negb fst snd].
  unfold ps'. destruct (decide (state = GOLIOTH_OTA_STATE_IDLE)) as [He|He].
  { change (put_all ([] ++ [zcbor_map_end_encode]) zse) with (zcbor_map_end_encode zse). by destruct (zcbor_map_end_encode zse). }
  change ([?a; ?b] ++ [?c]) with ([a] ++ [b; c]). rewrite put_all_app.
  change (put_all [zcbor_tstr_put key_t] zse) with (zcbor_tstr_put key_t zse).
  destruct (zcbor_tstr_put key_t zse) as [[|] zse']; [|done]. cbn [negb fst snd].
  rewrite decide_True by by destruct Hst. by destruct (put_all _ zse').
Qed.

Lemma uplink_reports u n idx fuel :
  upper_ok u → Forall status_ok (ota_statuses u) → 0 ≤ idx →
  (length (drop (Z.to_nat idx) (ota_statuses u)) < fuel)%nat →
  outcome_rel (λ _ t n, t = (u, n)) (ota_uplink_loop pouch_uplink_entry_write fuel idx (u, n))
    (ref_report (drop (Z.to_nat idx) (ota_statuses u)) n).
Proof.
  intros Hu Hok. revert idx n. induction fuel as [|fuel IH]; intros idx n Hidx Hf; [lia|].
  cbn [ota_uplink_loop]. apply outcome_rel_left, wp_zoom. cbn [fst snd].
  eapply wp_eq; [by apply get_status_spec|]. cbn [fst snd].
  destruct (ota_statuses u !! Z.to_nat idx) as [st|] eqn:Hst.
  2: { rewrite drop_ge; [done|]. by apply lookup_ge_None. }
  rewrite (drop_S _ _ _ Hst) in Hf |- *. cbn [ref_report length] in *.
  destruct (encode_status_run st) as (zse & -> & Hout); [by eapply (Forall_lookup_1 status_ok)|].
  destruct (decide (zlen _ ≤ 64)) as [Hd|Hd]; [|by rewrite bool_decide_false].
  rewrite bool_decide_true by done. rewrite Hout by done. destruct st as [[[nm cur] tgt] state].
  rewrite status_path_string. unfold report_path. cbn [fst].
  apply (outcome_rel_bind (λ _ t n, t = (u, n))); [by apply outcome_rel_zoom|]. intros _ _ n' ->.
  replace (S (Z.to_nat idx)) with (Z.to_nat (idx + 1)) in * by lia. apply IH; lia.
Qed.
End report.

(** ** Both halves *)

Lemma bind_as {S X Y} (m m' : M S X) (k : X → M S Y) s : m s = m' s → (m ≫= k) s = (m' ≫= k) s.
Proof. unfold mbind, M_bind. by intros ->. Qed.

Section whole.
Context `{COk : ConfigOk} `{OcOk : OtaConfigOk} `{Hex : HexDecoder} `{ZcS : ZcborSpec} {A : Type} `{App : OtaApp A}.
Implicit Types (u : upper A) (c : golioth_ota_registered_component A).

#[export] Instance upper_statuses : OtaUpperSpec (upper A).
Proof.
  refine {| upper_ok := λ u : upper A, length (up_data u) = length components;
            ota_statuses := λ u : upper A, zip_with (λ c d, (name c, version c, target d, state d)) components (up_data u) |}.
  intros u idx Hl Hidx. cbn [golioth_ota_get_status ota_upper]. unfold get_status.
  rewrite lookup_zip_with. destruct (Z.leb_spec (zlen components) idx) as [Hge|Hlt].
  - rewrite (proj2 (lookup_ge_None components _)); [done|]. unfold zlen in Hge. lia.
  - unfold zlen in Hlt. cbv [mbind M_bind get].
    destruct (lookup_lt_is_Some_2 components (Z.to_nat idx)) as [c Hc]; [lia|].
    destruct (lookup_lt_is_Some_2 (up_data u) (Z.to_nat idx)) as [d Hd]; [lia|]. by rewrite Hc, Hd.
Defined.

(** *** A component *)

(** The pieces of a stream as the dispatcher passes them on. *)
Fixpoint chunk_pieces (ds : list (list Z)) : list (option (list Z) * Z * bool) :=
  match ds with
  | [] => []
  | d :: ds => (Some d, zlen d, bool_decide (ds = [])) :: chunk_pieces ds
  end.

(** The calls of the callback of a component: the pieces at their offsets. *)
Fixpoint deliver c (off : Z) (ds : list (list Z)) : M (upper A) unit :=
  match ds with
  | [] => mret tt
  | d :: ds =>
      receive c (Some d) off (zlen d) (bool_decide (ds = []));;
      deliver c (off + zlen d) ds
  end.

Definition downloading (i : nat) u : Prop := state <$> up_data u !! i = Some GOLIOTH_OTA_STATE_DOWNLOADING.

(** The callback leaves its component marked for download before the last piece. *)
Definition keeps_downloading (i : nat) c : Prop :=
  ∀ data off len u, downloading i u →
    match receive c data off len false u with Ret _ u' => downloading i u' | _ => True end.

Lemma transfer_delivers i c nm ver off ds u :
  names_distinct components → component_named components nm = Some (i, c) → keeps_downloading i c →
  downloading i u → 0 ≤ off → off + zlen (concat ds) < 2 ^ 32 →
  transfer nm ver off (chunk_pieces ds) u = deliver c off ds u.
Proof.
  intros Hd Hn Hk. revert off u. induction ds as [|d ds IH]; intros off u Hu Hoff Htot; [done|].
  cbn [chunk_pieces transfer deliver concat] in *. rewrite zlen_app in Htot.
  pose proof (zlen_nonneg d). pose proof (zlen_nonneg (concat ds)).
  rewrite usz_small by lia. cbn [golioth_ota_receive_component ota_upper]. unfold receive_component.
  rewrite (bind_as _ (receive c (Some d) off (zlen d) (bool_decide (ds = []));; mret success)).
  2: { rewrite receive_loop_run, Hn, Nat.add_0_l by done. unfold downloading in Hu.
       destruct (up_data u !! i) as [dt|]; [|done]. injection Hu as Hu. by rewrite decide_True. }
  cbv [mbind M_bind mret M_ret]. specialize (Hk (Some d) off (zlen d) u Hu). destruct ds as [|d' ds].
  - by destruct (receive c (Some d) off (zlen d) (bool_decide ([] = [])) u).
  - rewrite bool_decide_false by done. destruct (receive c (Some d) off (zlen d) false u) as [a u'| |]; [|done|done].
    apply IH; [done|lia|lia].
Qed.

(** *** A manifest *)

Lemma ref_components_run stack_hash xs (ms : list golioth_ota_component) u :
  length (up_data u) = length components →
  Forall2 (λ x m, ref_component stack_hash x = Some m) xs ms →
  ref_components stack_hash xs u = Ret true (foldl (λ u m, apply_component m u) u ms).
Proof.
  intros Hl Hxs. revert u Hl. induction Hxs as [|x m xs ms Hx _ IH]; intros u Hl; cbn [ref_components foldl]; [done|].
  rewrite Hx. pose proof (receive_one_run m u Hl : golioth_ota_manifest_receive_one m u = _) as Hr.
  rewrite (bind_run _ _ _ _ _ Hr). by apply IH, apply_component_length.
Qed.

(** A key of a manifest that is passed over. *)
Definition other_key (kv : item * item) : Prop := ∃ n, as_uint32 kv.1 = Some n ∧ n ≠ MANIFEST_KEY_COMPONENTS.

Lemma ref_manifest_run stack_hash pre k xs post ms u :
  Forall other_key pre → as_uint32 k = Some MANIFEST_KEY_COMPONENTS →
  length (up_data u) = length components →
  Forall2 (λ x m, ref_component stack_hash x = Some m) xs ms →
  ref_manifest stack_hash (IMap (pre ++ (k, IList xs) :: post)) u =
  manifest_complete (foldl (λ u m, apply_component m u) u ms).
Proof.
  intros Hpre Hk Hl Hxs. cbn [ref_manifest].
  induction Hpre as [|[k' x] pre (n & Hn & Hne) _ IH]; cbn [app ref_manifest_map].
  - rewrite Hk, Z.eqb_refl. by rewrite (bind_run _ _ _ _ _ (ref_components_run _ _ _ _ Hl Hxs)).
  - cbn [fst] in Hn. rewrite Hn, (proj2 (Z.eqb_neq _ _)) by done. apply IH.
Qed.

(** The arrays have the sizes they are declared with. *)
Definition data_wf (d : golioth_ota_registered_component_data) : Prop :=
  zlen (target d) = CONFIG_GOLIOTH_OTA_MAX_VERSION_LEN ∧ zlen (target_hash d) = 32.

Definition upper_wf u : Prop := length (up_data u) = length components ∧ Forall data_wf (up_data u).

(** What a list of announced components makes of a registered one: the last one of its name
    counts. *)
Definition targets_set (announced : list announced) c (d d' : golioth_ota_registered_component_data) : Prop :=
  state d' = state d ∧
  match list.last (List.filter (λ a, bool_decide (c_string (an_package a) = c_string (name c))) announced) with
  | None => d' = d
  | Some a =>
      c_string (target d') = take (Z.to_nat (CONFIG_GOLIOTH_OTA_MAX_VERSION_LEN - 1)) (c_string (an_version a)) ∧
      target_hash d' = an_hash a ∧ size d' = usz (an_size a)
  end.

(** The target keeps one character less than the manifest may give. *)
Lemma target_version m (d : golioth_ota_registered_component_data) :
  zlen (target d) = CONFIG_GOLIOTH_OTA_MAX_VERSION_LEN →
  c_string (target (set_target m d)) = take (Z.to_nat (CONFIG_GOLIOTH_OTA_MAX_VERSION_LEN - 1)) (c_string (c_version m)).
Proof.
  intros Hl. pose proof version_range. cbn [target set_target].
  set (L := CONFIG_GOLIOTH_OTA_MAX_VERSION_LEN) in *.
  replace (strncpy L (c_version m)) with (strncpy (L - 1 + 1) (c_version m)) by (f_equal; lia).
  rewrite strncpy_terminated by lia. apply c_string_strncpy. lia.
Qed.

Lemma target_of_announced c (d : golioth_ota_registered_component_data) a :
  announced_ok a → data_wf d →
  data_wf (target_of (announced_component a) c d) ∧ targets_set [a] c d (target_of (announced_component a) c d).
Proof.
  intros [Hpkg Hver Hsz Htxt Hhex Hhash] Hd. unfold target_of, targets_set, str_eq. cbn [List.filter announced_component c_package].
  rewrite c_string_array_of. case_bool_decide as Hn; [|done]. cbn [list.last state set_target].
  pose proof Hd as [Ht Hh]. pose proof version_range as Hv.
  assert (splice 0 (slice 0 GOLIOTH_OTA_COMPONENT_HASH_BIN_LEN (an_hash a)) (target_hash d) = an_hash a) as He.
  { change GOLIOTH_OTA_COMPONENT_HASH_BIN_LEN with 32. rewrite <- Hhash, slice_0_all. apply splice_all. congruence. }
  split; [split|split; [done|split_and!]].
  - cbn [target set_target]. set (s := strncpy _ _). assert (zlen s = zlen (target d)) as Hs.
    { unfold s. rewrite zlen_strncpy; lia. }
    rewrite !zlen_splice; [done|lia|lia|lia|]. rewrite zlen_splice, zlen_singleton; lia.
  - cbn [target_hash set_target announced_component c_hash]. by rewrite He.
  - etrans; [by apply target_version|]. cbn [announced_component c_version]. by rewrite c_string_array_of.
  - done.
  - done.
Qed.

Lemma targets_set_cons a ms c (d d1 d' : golioth_ota_registered_component_data) :
  targets_set [a] c d d1 → targets_set ms c d1 d' → targets_set (a :: ms) c d d'.
Proof.
  unfold targets_set. cbn [List.filter]. intros [Hs1 H1] [Hs2 H2]. split; [congruence|].
  set (f := List.filter _ ms) in *. destruct (bool_decide _); cbn [list.last] in H1.
  - rewrite list.last_cons. destruct (list.last f) as [b|]; [done|]. by subst d'.
  - subst d1. done.
Qed.

Lemma components_set (announced : list announced) u :
  Forall announced_ok announced → upper_wf u →
  let u' := foldl (λ u m, apply_component m u) u (map announced_component announced) in
  up_app u' = up_app u ∧ upper_wf u' ∧ length (manifest_components u') = length components ∧
  ∀ i r d, components !! i = Some r → up_data u !! i = Some d →
    ∃ d', up_data u' !! i = Some d' ∧ targets_set announced r d d' ∧
      manifest_components u' !! i = Some (mk_manifest_component (name r) (version r) (target d') (target_hash d') (size d')).
Proof.
  intros Hms. revert u. induction Hms as [|a ms Ha Hms IH]; intros u [Hl Hd]; cbn [map foldl].
  - split_and!; [done|done| |].
    + unfold manifest_components. rewrite length_zip_with. lia.
    + intros i r d Hr Hi. exists d. split_and!; [done|done|].
      unfold manifest_components. by rewrite lookup_zip_with, Hr, Hi.
  - assert (upper_wf (apply_component (announced_component a) u)) as Hwf.
    { split; [by apply apply_component_length|]. cbn [up_data apply_component].
      apply Forall_lookup. intros i d1 (r & d & -> & Hr & Hi)%lookup_zip_with_Some.
      apply target_of_announced; [done|by eapply (Forall_lookup_1 data_wf)]. }
    destruct (IH _ Hwf) as (Happ & Hwf' & Hlen & Hset). split_and!; [done|done|done|].
    intros i r d Hr Hi. assert (data_wf d) as Hdi by by eapply (Forall_lookup_1 data_wf).
    destruct (target_of_announced r d a Ha Hdi) as [_ Hone].
    destruct (Hset i r (target_of (announced_component a) r d) Hr) as (d' & Hd' & Hts & Hmc).
    { cbn [up_data apply_component]. by rewrite lookup_zip_with, Hr, Hi. }
    exists d'. split_and!; [done|by eapply targets_set_cons|done].
Qed.

Lemma announced_components stack_hash xs (ms : list announced) :
  Forall2 item_announces xs ms →
  Forall announced_ok ms ∧
  Forall2 (λ x m, ref_component stack_hash x = Some m) xs (map announced_component ms).
Proof.
  induction 1 as [|x a xs ms Ha _ [IH1 IH2]]; [done|]. split; [by constructor; [apply Ha|]|].
  constructor; [by apply ref_component_announced|done].
Qed.
End whole.

(** ** Properties *)

Section transfer_theorems.
Context `{COk : ConfigOk} `{OcOk : OtaConfigOk} `{Hex : HexDecoder} `{ZcS : ZcborSpec} {A : Type} `{App : OtaApp A}.

(** C11: a manifest whose list of components is in order (every item has the fields
    package, version, size and hash once, of the right types and sizes, in any order,
    with other numeric keys in between, the last one being a field) sets the target of
    every registered component that it names: the target version is the one announced,
    cut to one character less than the limit for versions, the hash is what the text
    announced stands for, and the size is the one announced; when a name occurs more
    than once, the last counts. A component that is not named keeps its target, and all
    keep their states. Then every manifest handler is called, once and in order, with
    name, version and target of all registered components. Other numeric keys before
    the list are passed over, and what comes behind it is ignored. (Containers have
    definite lengths.) *)
Theorem manifest_sets_targets stack_key stack_hash id data pre k xs post announced is_last (u : upper A) :
  cbor_encodes data (IMap (pre ++ (k, IList xs) :: post)) → manifest_ok (IMap (pre ++ (k, IList xs) :: post)) →
  Forall other_key pre → as_uint32 k = Some 3 →
  Forall2 item_announces xs announced → upper_wf u →
  ∃ (u' : upper A) cs,
    ota_receive_manifest stack_key stack_hash id (Some data) (zlen data) is_last u =
      (foldr (λ handler k, handler cs;; k) (mret tt) manifest_handlers) u' ∧
    up_app u' = up_app u ∧ upper_wf u' ∧ length cs = length components ∧
    ∀ i r d, components !! i = Some r → up_data u !! i = Some d →
      ∃ d', up_data u' !! i = Some d' ∧ targets_set announced r d d' ∧
        cs !! i = Some (mk_manifest_component (name r) (version r) (target d') (target_hash d') (size d')).
Proof.
  intros Hx Hok Hpre Hk Hxs Hwf. destruct Hwf as [Hl Hd].
  destruct (announced_components stack_hash xs announced Hxs) as [Hann Hms].
  exists (foldl (λ u m, apply_component m u) u (map announced_component announced)).
  eexists. split; [|by apply components_set].
  by rewrite (receive_manifest_agrees _ _ _ _ _ _ _ Hx Hok), (ref_manifest_run _ _ _ _ _ _ _ Hpre Hk Hl Hms).
Qed.

(** A component path without a name and version, and one whose name is too long. *)
Lemma component_path_undefined {U : Type} id nm ver (o : ota U) :
  CONFIG_GOLIOTH_OTA_MAX_PACKAGE_NAME_LEN < zlen nm → 64 ∉ nm →
  ota_receive_component_start id None o = UB ∧
  ota_receive_component_start id (Some (nm ++ 64 :: ver)) o = UB.
Proof.
  intros Hlen Hat. split; [done|]. unfold ota_receive_component_start. cbv [mbind M_bind get].
  by rewrite at_sign_split, (proj2 (Z.ltb_lt _ _)).
Qed.
End transfer_theorems.

Section transfer_witnesses.
#[local] Existing Instances default_config default_config_ok zcbor_toy zcbor_toy_spec hex_ref ota_default ota_default_ok.

(** One component, ["fw"] at version ["1.0"], and a handler that notes the sizes. *)
#[local] Instance one_component : OtaApp (list Z) := {|
  components := [mk_registered [102; 119] [49; 46; 48]
    (λ data off len is_last, modify (λ u, mk_upper (up_data u) (up_app u ++ off :: default [] data)))];
  manifest_handlers := [λ cs, modify (λ u, mk_upper (up_data u) (up_app u ++ map mc_size cs))];
|}.

Definition sample_announced : announced :=
  mk_announced [102; 119] [50; 46; 48] 9 sample_hash (replicate 32 0).

Lemma manifest_sets_targets_witness :
  ∃ (u' : upper (list Z)) cs,
    ota_receive_manifest key_0 sample_hash 1 (Some sample_manifest) (zlen sample_manifest) true (init_upper []) =
      (foldr (λ handler k, handler cs;; k) (mret tt) manifest_handlers) u' ∧
    up_app u' = up_app (init_upper []) ∧ upper_wf u' ∧ length cs = length components ∧
    ∀ i r d, components !! i = Some r → up_data (init_upper []) !! i = Some d →
      ∃ d', up_data u' !! i = Some d' ∧ targets_set [sample_announced] r d d' ∧
        cs !! i = Some (mk_manifest_component (name r) (version r) (target d') (target_hash d') (size d')).
Proof.
  apply (manifest_sets_targets key_0 sample_hash 1 sample_manifest [(IInt 1, IInt 5)] (IInt 3) [sample_component] []
    [sample_announced] true (init_upper [])).
  - exists []. by vm_compute.
  - constructor; [done|]. constructor; [|done]. constructor; [|done]. split; [|by apply short_read_whole].
    repeat constructor; by eexists.
  - repeat constructor. by exists 1.
  - done.
  - constructor; [|done]. split; [by split|]. eexists. split_and!; [done|done|]. repeat constructor; by eexists.
  - split; [done|]. repeat constructor.
Defined.

Example sample_manifest_received :
  wp (ota_receive_manifest key_0 sample_hash 1 (Some sample_manifest) (zlen sample_manifest) true)
    (λ _ u, up_app u = [9] ∧ map (λ d, c_string (target d)) (up_data u) = [[50; 46; 48]]) (init_upper []).
Proof. by vm_compute. Qed.

(** The name and both versions of a component may fill their arrays; its report then
    does not fit in the buffer, and neither it nor those behind it are sent. *)
Example long_status_not_reported :
  let st := (replicate 32 97, replicate 32 98, replicate 31 99 ++ [0], GOLIOTH_OTA_STATE_DOWNLOADING) in
  option_map fst (encode_status (Ze := zcbor_toy_encoder) st) = Some false.
Proof. by vm_compute. Qed.
End transfer_witnesses.
