(* ===== verification/Settings.v ===== *)
(** The settings service: [golioth_sdk/settings.c], [settings.h] and
    [settings_callbacks.c], with the types of [include/golioth].

    [W] is the state that the callbacks of the application work on. A key is a
    string without terminator where it is a literal, an array where the service
    passes one on. *)
From S2P Require Import Prelude Zephyr Config Buf Block Header Node Zcbor ZcborOut Names Dispatch Ota.

(** ** Data *)

Definition GOLIOTH_SETTINGS_MAX_NAME_LEN : Z := 31.

(** [settings_types.h] *)
Inductive golioth_setting_value_type :=
  | GOLIOTH_SETTING_VALUE_TYPE_UNKNOWN | GOLIOTH_SETTING_VALUE_TYPE_INT
  | GOLIOTH_SETTING_VALUE_TYPE_BOOL | GOLIOTH_SETTING_VALUE_TYPE_FLOAT
  | GOLIOTH_SETTING_VALUE_TYPE_STRING.

#[export] Instance golioth_setting_value_type_eq_dec : EqDecision golioth_setting_value_type.
Proof. solve_decision. Defined.

(** [struct setting_value]: the union with its type; a [double] is its bits. *)
Inductive setting_union :=
  | int_val (n : Z)
  | bool_val (b : bool)
  | float_val (bits : Z)
  | str_val (s : list Z).

Record setting_value := mk_setting { sv_key : list Z; sv_val : setting_union }.

Definition value_type (v : setting_union) : golioth_setting_value_type :=
  match v with
  | int_val _ => GOLIOTH_SETTING_VALUE_TYPE_INT
  | bool_val _ => GOLIOTH_SETTING_VALUE_TYPE_BOOL
  | float_val _ => GOLIOTH_SETTING_VALUE_TYPE_FLOAT
  | str_val _ => GOLIOTH_SETTING_VALUE_TYPE_STRING
  end.

(** The callback of a handler; its type gives the type of the setting. *)
Inductive setting_cb (W : Type) :=
  | int_cb (f : Z → M W rc)
  | bool_cb (f : bool → M W rc)
  | float_cb (f : Z → M W rc)
  | string_cb (f : list Z → M W rc).
Arguments int_cb {W} f.
Arguments bool_cb {W} f.
Arguments float_cb {W} f.
Arguments string_cb {W} f.

(** [GOLIOTH_SETTINGS_HANDLER] *)
Record golioth_settings_handler (W : Type) := mk_settings_handler { sh_key : list Z; sh_cb : setting_cb W }.
Arguments mk_settings_handler {W} sh_key sh_cb.
Arguments sh_key {W} g.
Arguments sh_cb {W} g.

Definition handler_type {W} (h : golioth_settings_handler W) : golioth_setting_value_type :=
  match sh_cb h with
  | int_cb _ => GOLIOTH_SETTING_VALUE_TYPE_INT
  | bool_cb _ => GOLIOTH_SETTING_VALUE_TYPE_BOOL
  | float_cb _ => GOLIOTH_SETTING_VALUE_TYPE_FLOAT
  | string_cb _ => GOLIOTH_SETTING_VALUE_TYPE_STRING
  end.

(** [settings_version], and the state of the callbacks. *)
Record settings (W : Type) := mk_settings { settings_version : Z; st_world : W }.
Arguments mk_settings {W} settings_version st_world.
Arguments settings_version {W} s.
Arguments st_world {W} s.

Definition set_settings_version {W} (n : Z) (s : settings W) : settings W := mk_settings n (st_world s).
Definition set_world {W} (w : W) (s : settings W) : settings W := mk_settings (settings_version s) w.

(** ** [settings_callbacks.c] *)

Section receive_one.
Context {W : Type}.

(** The loop over the handlers. *)
Fixpoint receive_one_loop (handlers : list (golioth_settings_handler W)) (value : setting_value) : M W rc :=
  match handlers with
  | [] => mret (Some ENOENT)
  | setting :: handlers =>
      if str_eq (sh_key setting) (sv_key value) then
        if decide (handler_type setting ≠ value_type (sv_val value)) then mret (Some EINVAL) else
        match sh_cb setting, sv_val value with
        | int_cb cb, int_val n => cb n
        | bool_cb cb, bool_val b => cb b
        | float_cb cb, float_val bits => cb bits
        | string_cb cb, str_val s => cb s
        | _, _ => receive_one_loop handlers value
        end
      else receive_one_loop handlers value
  end.
End receive_one.

(** ** [settings.c] *)

Section settings.
Context `{Zc : Zcbor} `{Ze : ZcborEncoder} {W : Type} (handlers : list (golioth_settings_handler W)).
(** What is left on the stack where a local variable is not initialised. *)
Context (stack_key : zcbor_map_key).

Definition golioth_settings_receive_one (value : setting_value) : M W rc := receive_one_loop handlers value.

(** The local array [key]. *)
Definition label_key (label : list Z) : list Z :=
  splice 0 (slice 0 (Z.min GOLIOTH_SETTINGS_MAX_NAME_LEN (zlen label)) label)
    (replicate (Z.to_nat (GOLIOTH_SETTINGS_MAX_NAME_LEN + 1)) 0).

(** The value behind a label, by its major type; nothing if it is not supported. *)
Definition decode_value : M (zcbor_state_t * settings W) (option setting_union) :=
  b ← payload_byte;
  let major_type := ZCBOR_MAJOR_TYPE b in
  if major_type =? ZCBOR_MAJOR_TYPE_TSTR then
    str ← zcbor zcbor_tstr_decode; mret ((λ str, str_val (zs_value str)) <$> str)
  else if (major_type =? ZCBOR_MAJOR_TYPE_PINT) || (major_type =? ZCBOR_MAJOR_TYPE_NINT) then
    n ← zcbor zcbor_int32_decode; mret (int_val <$> n)
  else if major_type =? ZCBOR_MAJOR_TYPE_SIMPLE then
    f ← zcbor zcbor_float_decode;
    match f with
    | Some bits => mret (Some (float_val bits))
    | None => b ← zcbor zcbor_bool_decode; mret (bool_val <$> b)
    end
  else mret None.

(** The loop over the settings, and the end of their map. *)
Fixpoint settings_loop (fuel : nat) : M (zcbor_state_t * settings W) rc :=
  match fuel with
  | O => nofuel
  | S fuel =>
      at_end ← zcbor_list_or_map_end;
      if at_end : bool then
        ok ← zcbor zcbor_map_end_decode;
        mret (if negb ok then Some EBADMSG else success)
      else
        label ← zcbor zcbor_tstr_decode;
        match label with
        | None => mret (Some EBADMSG)
        | Some label =>
            value ← decode_value;
            match value with
            | Some value =>
                zoom (λ t, st_world t.2) (λ w t, (t.1, set_world w t.2))
                  (golioth_settings_receive_one (mk_setting (label_key (zs_value label)) value));;
                settings_loop fuel
            | None =>
                ok ← zcbor zcbor_any_skip;
                if negb ok then mret (Some EBADMSG) else settings_loop fuel
            end
        end
  end.

Definition settings_decode : M (zcbor_state_t * settings W) rc :=
  nil ← zcbor zcbor_nil_expect;
  if nil : bool then mret (Some ENOENT) else
  ok ← zcbor zcbor_map_start_decode;
  if negb ok then mret (Some EBADMSG) else
  t ← get;
  settings_loop (S (length (zsd_payload t.1))).

Definition settings_entries : list (zcbor_map_entry (settings W)) :=
  [ZCBOR_TSTR_LIT_MAP_ENTRY key_settings settings_decode;
   ZCBOR_TSTR_LIT_MAP_ENTRY key_version (zcbor_map_int64_decode set_settings_version)].

Definition settings_downlink (id : Z) (data : option (list Z)) (len : Z) (is_last : bool)
    : M (settings W) unit := λ s,
  match data with
  | None => if len =? 0 then Ret tt s else UB
  | Some data =>
      match zcbor_map_decode stack_key settings_entries (zcbor_state_d 2 (slice 0 len data), s) with
      | Ret _ t => Ret tt t.2
      | UB => UB
      | NoFuel => NoFuel
      end
  end.

Definition init_settings (w : W) : settings W := mk_settings (-1) w.

(** The steps of the encoding of the version. *)
Definition version_puts (settings_version : Z) : list (zse_t → bool * zse_t) :=
  [zcbor_map_start_encode; zcbor_tstr_put key_version;
   (if 0 <=? settings_version then zcbor_int64_put settings_version else zcbor_nil_put);
   zcbor_map_end_encode].

(** Writing an entry: path, content type, data, and its length. *)
Definition settings_uplink {N : Type} (pouch_uplink_entry_write : list Z → Z → list Z → Z → M N rc)
    : M (settings W * N) unit :=
  t ← get;
  let '(ok, zse) := put_all (version_puts (settings_version t.1)) (zcbor_new_encode_state 3 64) in
  if negb ok then mret tt else
  zoom snd (λ n t, (t.1, n))
    (pouch_uplink_entry_write SETTINGS_UPLINK_PATH POUCH_CONTENT_TYPE_CBOR (zse_output zse)
       (zlen (zse_output zse)));;
  mret tt.
End settings.

(** ** Specification *)

Section settings_spec.
Context `{ZcS : ZcborSpec} {W : Type} (handlers : list (golioth_settings_handler W)).
Context (stack_key : zcbor_map_key).
Implicit Types (w : W) (x : item) (kvs : list (item * item)) (s : settings W).

(** The callbacks return. *)
Definition cb_returns (cb : setting_cb W) : Prop :=
  match cb with
  | int_cb f => ∀ n w, wp (f n) (λ _ _, True) w
  | bool_cb f => ∀ b w, wp (f b) (λ _ _, True) w
  | float_cb f => ∀ bits w, wp (f bits) (λ _ _, True) w
  | string_cb f => ∀ str w, wp (f str) (λ _ _, True) w
  end.
Context (callbacks_return : Forall (λ h, cb_returns (sh_cb h)) handlers).

(** The value of a setting. *)
Definition ref_value x : option setting_union :=
  match x with
  | ITstr str => Some (str_val str)
  | IInt _ => int_val <$> as_int32 x
  | IFloat bits => Some (float_val bits)
  | IBool b => Some (bool_val b)
  | _ => None
  end.

(** The name that is looked up: up to a terminator in the label, and 31 characters at most. *)
Definition setting_name (label : list Z) : list Z := take 31 (c_string label).

(** A value goes to the first handler of its name if that is one for values of its type, and
    nowhere otherwise; what the callback returns is not looked at. *)
Definition ref_set (nm : list Z) (v : setting_union) : M W unit :=
  match List.find (λ h, bool_decide (c_string (sh_key h) = nm)) handlers with
  | None => mret tt
  | Some h =>
      match sh_cb h, v with
      | int_cb f, int_val n => f n;; mret tt
      | bool_cb f, bool_val b => f b;; mret tt
      | float_cb f, float_val bits => f bits;; mret tt
      | string_cb f, str_val str => f str;; mret tt
      | _, _ => mret tt
      end
  end.

(** A map of settings. *)
Fixpoint ref_settings_map kvs : M W rc :=
  match kvs with
  | [] => mret success
  | (k, x) :: kvs =>
      match as_tstr k with
      | None => mret (Some EBADMSG)
      | Some label =>
          match ref_value x with
          | Some value => ref_set (setting_name label) value;; ref_settings_map kvs
          | None => ref_settings_map kvs
          end
      end
  end.

Definition ref_settings x : M W rc :=
  match x with
  | INil => mret (Some ENOENT)
  | IMap kvs => ref_settings_map kvs
  | _ => mret (Some EBADMSG)
  end.

(** Running a program that returns. *)
Definition run {A} (d : A) (m : M W A) w : A * W := match m w with Ret a w' => (a, w') | _ => (d, w) end.

Definition settings_sem x s : rc * settings W :=
  let '(err, w) := run success (ref_settings x) (st_world s) in (err, mk_settings (settings_version s) w).

(** The characters of "settings" and "version". *)
Definition text_settings : list Z := [115; 101; 116; 116; 105; 110; 103; 115].
Definition text_version : list Z := [118; 101; 114; 115; 105; 111; 110].

(** The document: the settings and the version in the order they come, up to the
    first error, and two at most. *)
Fixpoint ref_pairs (left : nat) kvs s : settings W :=
  match left, kvs with
  | S left', (k, x) :: kvs =>
      if decide (as_tstr k = Some text_settings) then
        match settings_sem x s with
        | (None, s) => ref_pairs left' kvs s
        | (Some _, s) => s
        end
      else if decide (as_tstr k = Some text_version) then
        match as_int64 x with
        | Some n => ref_pairs left' kvs (mk_settings n (st_world s))
        | None => s
        end
      else ref_pairs left kvs s
  | _, _ => s
  end.

(** *** The name and the handler *)

Lemma c_string_take n (l : list Z) : c_string (take n l) = take n (c_string l).
Proof.
  revert n. induction l as [|x l IH]; intros [|n]; [done..|]. cbn [take c_string].
  destruct (x =? 0); [done|]. cbn [take]. by rewrite IH.
Qed.

Lemma label_key_name label : c_string (label_key label) = setting_name label.
Proof.
  unfold label_key, setting_name. change (Z.to_nat (GOLIOTH_SETTINGS_MAX_NAME_LEN + 1)) with 32%nat.
  assert (slice 0 (Z.min GOLIOTH_SETTINGS_MAX_NAME_LEN (zlen label)) label = take 31 label) as ->.
  { unfold slice, zlen. rewrite drop_0. change GOLIOTH_SETTINGS_MAX_NAME_LEN with 31.
    destruct (Nat.le_gt_cases (length label) 31).
    - rewrite !take_ge by lia. done.
    - by replace (Z.to_nat (Z.min 31 (Z.of_nat (length label)))) with 31%nat by lia. }
  rewrite <- c_string_take. set (l := take 31 label). assert (length l ≤ 31)%nat as Hl.
  { unfold l. rewrite length_take. lia. }
  unfold splice. rewrite take_0, app_nil_l. change (Z.to_nat 0 + length l)%nat with (length l).
  rewrite drop_replicate. replace (32 - length l)%nat with (S (31 - length l)) by lia. cbn [replicate].
  generalize (replicate (31 - length l) 0). clearbody l. clear Hl. intros k.
  induction l as [|x l IH]; cbn [app c_string]; [done|]. destruct (x =? 0); [done|]. by rewrite IH.
Qed.

Lemma receive_one_loop_set (hs : list (golioth_settings_handler W)) (value : setting_value) :
  (receive_one_loop hs value;; mret tt : M W unit) =
  match List.find (λ h, bool_decide (c_string (sh_key h) = c_string (sv_key value))) hs with
  | None => mret tt
  | Some h =>
      match sh_cb h, sv_val value with
      | int_cb f, int_val n => f n;; mret tt
      | bool_cb f, bool_val b => f b;; mret tt
      | float_cb f, float_val bits => f bits;; mret tt
      | string_cb f, str_val str => f str;; mret tt
      | _, _ => mret tt
      end
  end.
Proof.
  induction hs as [|h hs IH]; [done|]. cbn [receive_one_loop List.find]. fold (str_eq (sh_key h) (sv_key value)).
  destruct (str_eq _ _); [|done]. unfold handler_type. by destruct (sh_cb h), (sv_val value).
Qed.

(** Handing a value on is what the reference says, whatever the callback returns. *)
Lemma receive_one_set label v w err w' :
  golioth_settings_receive_one handlers (mk_setting (label_key label) v) w = Ret err w' →
  ref_set (setting_name label) v w = Ret tt w'.
Proof.
  intros He. pose proof (receive_one_loop_set handlers (mk_setting (label_key label) v)) as Hl.
  cbn [sv_key sv_val] in Hl. rewrite label_key_name in Hl.
  assert ((receive_one_loop handlers (mk_setting (label_key label) v);; mret tt) w = Ret tt w') as Hr
    by by rewrite (bind_run _ _ _ _ _ He).
  by rewrite Hl in Hr.
Qed.

(** *** Any input *)

Lemma wlp_decode_value Q t :
  (∀ v t', t'.2 = t.2 → (payload_length t' ≤ payload_length t)%nat → Q v t') →
  wlp (decode_value (W := W)) Q t.
Proof.
  intros HQ. unfold decode_value. apply wlp_bind, wlp_payload_byte. intros b. cbn zeta.
  repeat case_match; try (apply wlp_ret, HQ; done).
  - apply wlp_bind, wlp_zcbor, wlp_ret, HQ; [done|]. apply tstr_length.
  - apply wlp_bind, wlp_zcbor, wlp_ret, HQ; [done|]. apply int32_length.
  - apply wlp_bind, wlp_zcbor. pose proof (float_length t.1) as Hf.
    destruct (zcbor_float_decode t.1) as [[bits|] s']; cbn [fst snd] in *; [by apply wlp_ret, HQ|].
    apply wlp_bind, wlp_zcbor, wlp_ret, HQ; [done|]. pose proof (bool_length s').
    unfold payload_length in *. cbn [fst snd] in *. lia.
Qed.

Lemma wp_receive_loop hs value w :
  Forall (λ h, cb_returns (sh_cb h)) hs → wp (receive_one_loop hs value) (λ _ _, True) w.
Proof.
  induction 1 as [|h hs Hh _ IH]; cbn [receive_one_loop]; [by apply wp_ret|].
  destruct (str_eq _ _); [|done]. case_decide; [by apply wp_ret|].
  by destruct (sh_cb h), (sv_val value); try apply IH; try apply Hh.
Qed.

Lemma wlp_receive_one value Q w :
  (∀ err w', Q err w') → wlp (golioth_settings_receive_one handlers value) Q w.
Proof. intros HQ. eapply wlp_mono; [by apply wp_wlp, wp_receive_loop|]. auto. Qed.

Lemma wlp_settings_loop fuel t : (payload_length t < fuel)%nat →
  wlp (settings_loop handlers fuel) (λ _ t', (payload_length t' ≤ payload_length t)%nat) t.
Proof.
  revert t. induction fuel as [|fuel IH]; intros t Hf; [lia|]. cbn [settings_loop].
  apply wlp_bind, wlp_at_end. intros [|].
  { apply wlp_bind, wlp_zcbor, wlp_ret. apply map_end_length. }
  apply wlp_bind, wlp_zcbor. pose proof (tstr_shorter t.1) as Hs. pose proof (tstr_length t.1) as Hl.
  destruct (zcbor_tstr_decode t.1) as [[label|] s1]; cbn [fst snd] in *; [|by apply wlp_ret].
  specialize (Hs (ex_intro _ _ eq_refl)).
  apply wlp_bind, wlp_decode_value. intros [v|] t2 _ H2; unfold payload_length in H2; cbn [fst snd] in H2.
  - apply wlp_bind, wlp_zoom, wlp_receive_one. intros err w'.
    eapply wlp_mono; [apply IH|]; unfold payload_length in *; cbn [fst snd]; [lia|]. intros _ t3 H3. cbn in H3. lia.
  - apply wlp_bind, wlp_zcbor. pose proof (any_skip_length t2.1).
    destruct (zcbor_any_skip t2.1) as [[|] s3]; cbn [fst snd negb] in *.
    + eapply wlp_mono; [apply IH|]; unfold payload_length in *; cbn [fst snd]; [lia|]. intros _ t3 H3. cbn in H3. lia.
    + apply wlp_ret. unfold payload_length. cbn [fst snd]. lia.
Qed.

Lemma settings_decode_forward : forward (settings_decode handlers).
Proof.
  intros t. unfold settings_decode. apply wlp_bind, wlp_zcbor. pose proof (nil_length t.1).
  destruct (zcbor_nil_expect t.1) as [[|] s1]; cbn [fst snd] in *; [by apply wlp_ret|].
  apply wlp_bind, wlp_zcbor. cbn [fst snd]. pose proof (map_start_length s1).
  destruct (zcbor_map_start_decode s1) as [[|] s2]; cbn [fst snd negb] in *.
  - apply wlp_bind, wlp_get. eapply wlp_mono; [apply wlp_settings_loop|]; unfold payload_length; cbn [fst snd]; [lia|].
    intros _ t3 H3. cbn in H3. lia.
  - apply wlp_ret. unfold payload_length. cbn [fst snd]. lia.
Qed.

Lemma settings_downlink_ends id data len is_last s :
  settings_downlink handlers stack_key id data len is_last s ≠ NoFuel.
Proof.
  unfold settings_downlink. destruct data as [data|]; [|by destruct (_ =? _)].
  pose proof (map_decode_ends (settings_entries handlers) stack_key (zcbor_state_d 2 (slice 0 len data), s)) as He.
  destruct (zcbor_map_decode _ _ _); [done|done|]. exfalso. apply He; [|done].
  repeat constructor; [apply settings_decode_forward|apply map_value_forward, int64_length].
Qed.

(** *** A document *)

Lemma wp_decode_value n z x r o s Q :
  zsd_reads n z (x :: r) o →
  (∀ z', zsd_reads n z' (match ref_value x with Some _ => r | None => x :: r end) o → Q (ref_value x) (z', s)) →
  wp decode_value Q (z, s).
Proof.
  intros Hr HQ. destruct (reads_major _ _ _ _ _ Hr) as (b & rest & Hp & Hb).
  unfold decode_value, payload_byte. wp_steps. cbn [fst]. rewrite Hp. wp_steps. rewrite Hb. cbn zeta.
  pose proof (tstr_reads _ _ _ _ _ Hr) as [Ht Hrt]. pose proof (int32_reads _ _ _ _ _ Hr) as [Hi Hri].
  pose proof (float_reads _ _ _ _ _ Hr) as [Hf Hrf].
  assert (wp (str ← zcbor zcbor_tstr_decode; mret ((λ str, str_val (zs_value str)) <$> str))
    (λ v t, v = str_val <$> as_tstr x ∧ t.2 = s ∧
      zsd_reads n t.1 (match as_tstr x with Some _ => r | None => x :: r end) o) (z, s)) as Htstr.
  { wp_step. apply wp_zcbor. wp_step. cbn [fst snd].
    destruct (zcbor_tstr_decode z) as [str z']; cbn in Ht, Hrt |- *. rewrite <- Ht in *.
    by destruct str. }
  assert (wp (m ← zcbor zcbor_int32_decode; mret (int_val <$> m))
    (λ v t, v = int_val <$> as_int32 x ∧ t.2 = s ∧
      zsd_reads n t.1 (match as_int32 x with Some _ => r | None => x :: r end) o) (z, s)) as Hint.
  { wp_step. apply wp_zcbor. wp_step. cbn [fst snd]. by rewrite Hi. }
  assert (wp (f ← zcbor zcbor_float_decode;
    match f with
    | Some bits => mret (Some (float_val bits))
    | None => b ← zcbor zcbor_bool_decode; mret (bool_val <$> b)
    end) (λ v t, v = (match as_float x with Some f => Some (float_val f) | None => bool_val <$> as_bool x end) ∧
      t.2 = s ∧ zsd_reads n t.1 (match as_float x, as_bool x with None, None => x :: r | _, _ => r end) o) (z, s)) as Hsimple.
  { wp_step. apply wp_zcbor. cbn [fst snd]. rewrite Hf. destruct (as_float x); [by wp_step|].
    pose proof (bool_reads _ _ _ _ _ Hrf) as [Hbo Hrb].
    wp_step. apply wp_zcbor. wp_step. cbn [fst snd]. by rewrite Hbo. }
  assert (∀ m v l, wp m (λ v' t, v' = v ∧ t.2 = s ∧ zsd_reads n t.1 l o) (z, s) →
    v = ref_value x → l = (match ref_value x with Some _ => r | None => x :: r end) → wp m Q (z, s)) as Hdone.
  { intros m v l Hm -> ->. eapply wp_mono; [exact Hm|]. intros v' [z' s'] (-> & Hs & Hr'). cbn in Hs. subst s'. by apply HQ. }
  destruct x as [m|str|l|l| |b'|bits|major]; cbn [item_major].
  - destruct (m <? 0); (eapply Hdone; [exact Hint|done|cbn [ref_value]; by destruct (as_int32 (IInt m))]).
  - by eapply Hdone; [exact Htstr|..].
  - change (wp (mret None) Q (z, s)). wp_step. by apply HQ.
  - change (wp (mret None) Q (z, s)). wp_step. by apply HQ.
  - by eapply Hdone; [exact Hsimple|..].
  - by eapply Hdone; [exact Hsimple|..].
  - by eapply Hdone; [exact Hsimple|..].
  - destruct (_ =? _); [by eapply Hdone; [exact Htstr|..]|].
    destruct (_ || _); [by eapply Hdone; [exact Hint|..]|].
    destruct (_ =? _); [by eapply Hdone; [exact Hsimple|..]|]. wp_step. by apply HQ.
Qed.

Lemma wp_receive_one value Q w :
  (∀ err w', golioth_settings_receive_one handlers value w = Ret err w' → Q err w') →
  wp (golioth_settings_receive_one handlers value) Q w.
Proof.
  intros HQ. destruct (wp_inv _ _ _ (wp_receive_loop handlers value w callbacks_return)) as (err & w' & He & _).
  eapply wp_eq; [exact He|]. by apply HQ.
Qed.

Lemma wp_settings_loop n z kvs r o fuel s :
  (length (zsd_payload z) < fuel)%nat → zsd_reads n z (flatten kvs) (r :: o) →
  wp (settings_loop handlers fuel) (λ err t, settings_version t.2 = settings_version s ∧
    ref_settings_map kvs (st_world s) = Ret err (st_world t.2) ∧
    (err = success → zsd_reads (S n) t.1 r o)) (z, s).
Proof.
  revert z kvs s. induction fuel as [|fuel IH]; intros z kvs s Hf Hr; [lia|]. cbn [settings_loop].
  wp_step. eapply wp_at_end; [exact Hr|]. destruct kvs as [|[k x] kvs].
  { rewrite bool_decide_true by done. destruct (map_end_reads _ _ _ _ Hr) as [He Hr'].
    wp_step. apply wp_zcbor. wp_step. cbn [fst snd]. by rewrite He. }
  rewrite bool_decide_false by done. change (flatten ((k, x) :: kvs)) with (k :: x :: flatten kvs) in Hr.
  destruct (tstr_reads _ _ _ _ _ Hr) as [Hk Hr1]. pose proof (tstr_shorter z) as Hs. cbn [ref_settings_map].
  wp_step. apply wp_zcbor. cbn [fst snd].
  destruct (zcbor_tstr_decode z) as [[label|] z1]; cbn in Hk, Hr1, Hs |- *; rewrite <- Hk in *; [|by wp_step].
  specialize (Hs (ex_intro _ _ eq_refl)). apply wp_bind.
  eapply (wp_mono _ _ _ _ (wp_and_wlp _ _ _ _ (wp_decode_value n z1 x _ _ s
    (λ v t, v = ref_value x ∧ t.2 = s ∧
       zsd_reads n t.1 (match ref_value x with Some _ => flatten kvs | None => x :: flatten kvs end) (r :: o)) Hr1 _)
    (wlp_decode_value (λ _ t', (payload_length t' ≤ payload_length (z1, s))%nat) _ _))).
  { intros v [z2 s2] [(-> & Hs2 & Hr2) Hlen]. cbn in Hs2. subst s2. unfold payload_length in Hlen. cbn [fst snd] in *.
    destruct (ref_value x) as [v|].
    - wp_step. apply wp_zoom. cbn [snd]. apply wp_receive_one. intros err w' He. cbn [fst snd].
      eapply wp_mono; [apply (IH z2 kvs); [lia|done]|]. cbn [settings_version set_world st_world].
      intros err' t (Hv & Hw & Hr3). split_and!; [done| |done].
      by rewrite (bind_run _ _ _ _ _ (receive_one_set _ _ _ _ _ He)).
    - destruct (any_skip_reads _ _ _ _ _ Hr2) as [Ha Hr3]. pose proof (any_skip_length z2).
      wp_step. apply wp_zcbor. cbn [fst snd]. rewrite Ha. cbn [negb]. apply (IH _ kvs); [lia|done]. }
Unshelve.
  - done.
  - done.
Qed.

Lemma settings_entry_sem n key : entry_sem (S n) settings_sem (mk_map_entry key (settings_decode handlers)).
Proof.
  intros z x r o s Hr. cbn [ent_decode].
  assert (wp (settings_decode handlers) (λ err t, settings_version t.2 = settings_version s ∧
    ref_settings x (st_world s) = Ret err (st_world t.2) ∧ (err = success → zsd_reads (S n) t.1 r o)) (z, s)) as Hw.
  { unfold settings_decode. destruct (nil_reads _ _ _ _ _ Hr) as [Hn Hr1].
    wp_step. apply wp_zcbor. cbn [fst snd]. destruct (zcbor_nil_expect z) as [nil z1]; cbn in Hn, Hr1 |- *.
    destruct nil; [destruct x; try done; by wp_step|].
    replace (match as_nil x with Some _ => r | None => x :: r end) with (x :: r) in Hr1 by by destruct x.
    pose proof (map_start_reads _ _ _ _ _ Hr1) as Hm. wp_step. apply wp_zcbor. cbn [fst snd].
    destruct x as [m|str|l|kvs| |b'|bits|major]; try (rewrite Hm; cbn [negb]; by wp_step).
    destruct Hm as [-> Hr2]. change (if negb true then ?a else ?b) with b. do 2 wp_step.
    lazymatch goal with |- wp _ ?Q ?t => change (wp (settings_loop handlers (S (length (zsd_payload t.1)))) Q t) end.
    apply (wp_settings_loop n _ kvs r o _ s); [apply Nat.lt_succ_diag_r|exact Hr2]. }
  eapply wp_mono; [apply wp_and_wlp; [exact Hw|apply settings_decode_forward]|].
  intros err [z' [v w]] [(Hv & He & Hr') Hlen]. cbn in Hv, He. split_and!; [|done|done].
  unfold settings_sem, run. rewrite He. cbn. by subst v.
Qed.

Definition entries_sem (e : zcbor_map_entry (settings W)) x s : rc * settings W :=
  match key_val (ent_key e) with
  | word_ptr lit _ =>
      if decide (lit = key_settings) then settings_sem x s
      else match as_int64 x with Some n => (success, set_settings_version n s) | None => (Some EBADMSG, s) end
  | word_u32 _ => (success, s)
  end.

Lemma ref_pairs_hits left kvs s : Forall (λ kv, key_ok true kv.1) kvs →
  ref_pairs left kvs s =
  (apply_hits entries_sem
     (take left (hits (settings_entries handlers) kvs)) s).2.
Proof.
  intros Hk. revert left s. induction Hk as [|[k x] kvs [str Hstr] _ IH]; intros left s.
  { destruct left; [done|]. unfold hits. cbn. done. }
  cbn [fst] in Hstr. subst k. rewrite hits_cons.
  destruct left as [|left]; [done|]. cbn [ref_pairs as_tstr].
  destruct (decide (Some str = Some key_settings)) as [[= ->]|Hs].
  { change (find _ _) with (Some (ZCBOR_TSTR_LIT_MAP_ENTRY key_settings (settings_decode handlers))).
    cbn [take apply_hits]. change (entries_sem _ x s) with (settings_sem x s).
    destruct (settings_sem x s) as [[e|] s']; [done|]. apply IH. }
  destruct (decide (Some str = Some key_version)) as [[= ->]|Hv].
  { change (find _ _) with (Some (ZCBOR_TSTR_LIT_MAP_ENTRY key_version (zcbor_map_int64_decode (set_settings_version (W := W))))).
    cbn [take apply_hits]. change (entries_sem _ x s) with
      (match as_int64 x with Some n => (success, set_settings_version n s) | None => (Some EBADMSG, s) end).
    destruct (as_int64 x); [|done]. apply IH. }
  cbn [find key_matches settings_entries ZCBOR_TSTR_LIT_MAP_ENTRY ent_key key_val].
  rewrite !bool_decide_false by congruence. rewrite !decide_False by done. apply IH.
Qed.

Lemma settings_downlink_document id data kvs is_last s :
  cbor_encodes data (IMap kvs) → Forall (λ kv, key_ok true kv.1) kvs →
  settings_downlink handlers stack_key id (Some data) (zlen data) is_last s = Ret tt (ref_pairs 2 kvs s).
Proof.
  intros Hx Hk. pose proof (reads_new 2 data _ Hx) as Hr. unfold settings_downlink. rewrite slice_0_all.
  eassert (wp (zcbor_map_decode stack_key (settings_entries handlers)) _ (zcbor_state_d 2 data, s)) as Hw.
  { apply (wp_map_decode entries_sem true _ stack_key kvs 1 _ [] [] s); [| |done|exact Hr].
    - repeat constructor; by eexists _, 0.
    - repeat constructor.
      + apply settings_entry_sem.
      + apply (map_value_sem zcbor_int64_decode as_int64); [apply int64_reads|apply int64_length]. }
  destruct (wp_inv _ _ _ Hw) as (err & [z' s'] & -> & Hs & _). cbn in Hs. cbn. subst s'.
  by rewrite ref_pairs_hits.
Qed.
End settings_spec.

(** *** Reporting the version *)

Section settings_report.
Context `{ZeS : ZcborEncoderSpec} {W N : Type}.
Context (pouch_uplink_entry_write : list Z → Z → list Z → Z → M N rc).

Definition version_map (v : Z) : list (item * item) :=
  [(ITstr text_version, if 0 <=? v then IInt v else INil)].

Lemma settings_uplink_run v (s : settings W) n :
  settings_version s = v → - 2 ^ 63 ≤ v < 2 ^ 63 →
  let data := cbor_encode (IMap (version_map v)) in
  outcome_rel (λ _ t n, t = (s, n)) (settings_uplink pouch_uplink_entry_write (s, n))
    ((if decide (zlen data ≤ 64)
      then pouch_uplink_entry_write SETTINGS_UPLINK_PATH POUCH_CONTENT_TYPE_CBOR data (zlen data);; mret tt
      else mret tt) n).
Proof.
  intros Hs Hv data. unfold settings_uplink. apply outcome_rel_left, wp_get. cbn [fst]. rewrite Hs.
  destruct (put_map [zcbor_tstr_put key_version; if 0 <=? v then zcbor_int64_put v else zcbor_nil_put]
    3 64 (version_map v)) as [Hok Hout]; [lia| |].
  { apply Forall2_cons_2; [apply tstr_puts|]. apply Forall2_cons_2; [|done].
    destruct (0 <=? v); [by apply int64_puts|apply nil_puts]. }
  change (_ ++ _) with (version_puts v) in Hok, Hout.
  destruct (put_all (version_puts v) (zcbor_new_encode_state 3 64)) as [ok zse]. cbn [fst snd] in Hok, Hout. subst ok.
  fold data in Hout.
  destruct (decide (zlen data ≤ 64)) as [Hd|Hd]; [|by rewrite bool_decide_false].
  rewrite bool_decide_true by done. cbn [negb]. rewrite Hout by by apply bool_decide_true.
  apply (outcome_rel_bind (λ _ t n, t = (s, n))); [by apply outcome_rel_zoom|]. by intros _ t n' ->.
Qed.
End settings_report.

(** ** Properties *)

(** C13: a settings document whose keys are texts is taken pair by pair: the settings
    and the version, in the order they come, up to the first error and two at most.
    Of the settings, each supported value goes to the first handler of its name, cut
    off at 31 characters, if the types agree, and to none otherwise (what the callback
    returns is not looked at); unsupported values are passed over, a key that is no text ends them with an error, and [nil] is an error, too: the
    version behind it is not looked at. (Containers have definite lengths.) *)
Theorem settings_document `{ZcS : ZcborSpec} {W : Type} (handlers : list (golioth_settings_handler W)) stack_key
    id data kvs is_last (s : settings W) :
  Forall (λ h, cb_returns (sh_cb h)) handlers → cbor_encodes data (IMap kvs) →
  Forall (λ kv, key_ok true kv.1) kvs →
  settings_downlink handlers stack_key id (Some data) (zlen data) is_last s = Ret tt (ref_pairs handlers 2 kvs s).
Proof. intros Hh. by apply settings_downlink_document. Qed.

Section settings_witnesses.
#[local] Existing Instances zcbor_toy zcbor_toy_spec.

(** Settings ["a"], an integer, and ["b"], a string. *)
Definition sample_handlers : list (golioth_settings_handler (list Z)) :=
  [mk_settings_handler [97] (int_cb (λ n, modify (λ w, w ++ [n]);; mret success));
   mk_settings_handler [98] (string_cb (λ s, modify (λ w, w ++ s);; mret success))].

(** [{"settings": {"a": 7, "b": "xy", "a": true, "c": [1]}, "version": 3}] *)
Definition sample_settings : list Z :=
  [162; 104] ++ key_settings ++ [164; 97; 97; 7; 97; 98; 98; 120; 121; 97; 97; 245; 97; 99; 129; 1; 103] ++ key_version ++ [3].
Definition sample_settings_items : list (item * item) :=
  [(ITstr key_settings, IMap [(ITstr [97], IInt 7); (ITstr [98], ITstr [120; 121]); (ITstr [97], IBool true);
                              (ITstr [99], IList [IInt 1])]);
   (ITstr key_version, IInt 3)].

Lemma settings_document_witness :
  settings_downlink sample_handlers key_0 1 (Some sample_settings) (zlen sample_settings) true (init_settings []) =
  Ret tt (ref_pairs sample_handlers 2 sample_settings_items (init_settings [])).
Proof.
  apply (settings_document sample_handlers key_0 1 sample_settings sample_settings_items true (init_settings [])).
  - by repeat constructor.
  - exists []. by vm_compute.
  - repeat constructor; by eexists.
Defined.

Example sample_settings_set :
  settings_downlink sample_handlers key_0 1 (Some sample_settings) (zlen sample_settings) true (init_settings []) =
  Ret tt (mk_settings 3 [7; 120; 121]).
Proof. by vm_compute. Qed.

(** [{"settings": nil, "version": 3}] leaves the version as it was;
    [{"version": 3, "settings": nil}] does not. *)
Example nil_hides_version :
  settings_downlink sample_handlers key_0 1 (Some ([162; 104] ++ key_settings ++ [246; 103] ++ key_version ++ [3]))
    20 true (init_settings []) = Ret tt (mk_settings (-1) []) ∧
  settings_downlink sample_handlers key_0 1 (Some ([162; 103] ++ key_version ++ [3; 104] ++ key_settings ++ [246]))
    20 true (init_settings []) = Ret tt (mk_settings 3 []).
Proof. by vm_compute. Qed.

(** A name of 32 characters reaches the handler of its first 31. *)
Example long_name_is_cut :
  let handlers := [mk_settings_handler (replicate 31 97) (int_cb (λ n, modify (λ w : list Z, w ++ [n]);; mret success))] in
  ref_pairs handlers 2 [(ITstr key_settings, IMap [(ITstr (replicate 32 97), IInt 7)])] (init_settings []) =
  mk_settings (-1) [7].
Proof. by vm_compute. Qed.
End settings_witnesses.
