(* ===== verification/Golioth.v ===== *)
(** The Golioth SDK as a whole: the services that [ota.c] and [settings.c] register,
    behind [dispatch.c], over pouch.

    [A] is the state of the callbacks of the application. *)
From S2P Require Import Prelude Zephyr Config Buf Block Header Node CryptoNone Reference Entry Stream Uplink.
From S2P Require Import Zcbor ZcborOut Names Dispatch Ota OtaManifest OtaUpper OtaTransfer Settings.

(** The static variables of the SDK: [component_download], [settings_version], and
    the data of the components with the state of the application. *)
Record golioth (A : Type) := mk_golioth {
  gl_download : component_download;
  gl_version : Z;
  gl_upper : upper A;
}.
Arguments mk_golioth {A} gl_download gl_version gl_upper.
Arguments gl_download {A} g.
Arguments gl_version {A} g.
Arguments gl_upper {A} g.

Section golioth.
Context `{Cfg : Config} `{Oc : OtaConfig} `{Hex : HexDecoder} `{Zc : Zcbor} {A : Type} `{App : OtaApp A}.
Context (handlers : list (golioth_settings_handler (upper A))).
(** What is left on the stack where local variables are not initialised. *)
Context (stack_key : zcbor_map_key) (stack_hash : list Z).

Definition on_ota {B} (m : M (ota (upper A)) B) : M (golioth A) B :=
  zoom (λ g, mk_ota (gl_download g) (gl_upper g))
    (λ o g, mk_golioth (ot_download o) (gl_version g) (ot_upper o)) m.
Definition on_ota_upper {B} (m : M (upper A) B) : M (golioth A) B :=
  zoom gl_upper (λ u g, mk_golioth (gl_download g) (gl_version g) u) m.
Definition on_settings {B} (m : M (settings (upper A)) B) : M (golioth A) B :=
  zoom (λ g, mk_settings (gl_version g) (gl_upper g))
    (λ s g, mk_golioth (gl_download g) (settings_version s) (st_world s)) m.

(** [GOLIOTH_DOWNLINK_HANDLER] of [ota.c] and [settings.c], in the order of their names. *)
Definition ota_component : golioth_downlink_service (golioth A) :=
  mk_service GOLIOTH_OTA_COMPONENT_PATH
    (Some (λ id path_remainder, on_ota (ota_receive_component_start id path_remainder)))
    (λ id data len is_last, on_ota (ota_receive_component_data id data len is_last)).
Definition ota_manifest : golioth_downlink_service (golioth A) :=
  mk_service GOLIOTH_OTA_MANIFEST_PATH None
    (λ id data len is_last, on_ota_upper (ota_receive_manifest stack_key stack_hash id data len is_last)).
Definition settings_service : golioth_downlink_service (golioth A) :=
  mk_service SETTINGS_DOWNLINK_PATH None
    (λ id data len is_last, on_settings (settings_downlink handlers stack_key id data len is_last)).

Definition downlink_services : list (golioth_downlink_service (golioth A)) :=
  [ota_component; ota_manifest; settings_service].

Definition init_golioth (a : A) : golioth A := mk_golioth init_download (-1) (init_upper a).
End golioth.

(** [golioth_sync_to_cloud] with the uplink services of [ota.c] and [settings.c]; what
    locking the entry block gives is [lock]. *)
Section sync.
Context `{Cfg : Config} `{Zk : Zephyr} `{Mal : Malloc} `{Cr : Crypto} `{Hnd : Handlers}.
Context `{Oc : OtaConfig} `{Ze : ZcborEncoder} {A : Type} `{App : OtaApp A} (lock : rc).

Definition write_entry_to_pouch (path : list Z) (content_type : Z) (data : list Z) (len : Z) : M node rc :=
  pouch_uplink_entry_write lock (Some path) content_type (Some data) len.

Definition ota_status_service : M (golioth A * node) unit :=
  zoom (λ t, (gl_upper t.1, t.2))
    (λ un t, (mk_golioth (gl_download t.1) (gl_version t.1) un.1, un.2))
    (ota_uplink write_entry_to_pouch (S (length components))).
Definition settings_status_service : M (golioth A * node) unit :=
  zoom (λ t, (mk_settings (gl_version t.1) (gl_upper t.1), t.2))
    (λ sn t, (mk_golioth (gl_download t.1) (settings_version sn.1) (st_world sn.1), sn.2))
    (settings_uplink write_entry_to_pouch).

Definition sync_to_cloud : M (golioth A * node) rc :=
  Dispatch.golioth_sync_to_cloud [Some ota_status_service; Some settings_status_service]
    (zoom snd (λ n t, (t.1, n)) (pouch_uplink_close lock)).
End sync.

(** ** A component received over pouch *)

Section receive.
Context `{COk : ConfigOk} `{OcOk : OtaConfigOk} `{Hex : HexDecoder} `{Zc : Zcbor} `{Hnd : Handlers}.
Context {A : Type} `{App : OtaApp A}.
Context (handlers : list (golioth_settings_handler (upper A))) (stack_key : zcbor_map_key) (stack_hash : list Z).
Abbreviation services := (downlink_services handlers stack_key stack_hash).
Implicit Types (d : dispatch (golioth A)).

(** The first service has the stream. *)
Definition holds id d : Prop :=
  dp_last_seen d = Some 0%nat ∧ dp_ids d !! 0%nat = Some id.

Definition ota_of (g : golioth A) : ota (upper A) := mk_ota (gl_download g) (gl_upper g).

(** What the application sees of both runs. *)
Definition same_ota (v : Z) (d : dispatch (golioth A)) (o : ota (upper A)) : Prop :=
  ota_of (dp_app d) = o ∧ gl_version (dp_app d) = v.

Lemma data_to_component id data len is_last d :
  0 ≤ id < 2 ^ 31 → holds id d →
  Dispatch.pouch_downlink_data services id data len is_last d =
  (Dispatch.on_app (on_ota (ota_receive_component_data id data len is_last));;
   if is_last then Dispatch.set_downlink_id 0 DOWNLINK_ID_INVALID;; Dispatch.set_last_seen None
   else mret tt) d.
Proof.
  intros Hid [Hl Hi]. unfold Dispatch.pouch_downlink_data. cbv [mbind M_bind get].
  unfold Dispatch.active_service. rewrite Hl. unfold Dispatch.id_is. rewrite Hi, Z.eqb_refl.
  cbn [lookup list_lookup downlink_services]. by rewrite downlink_id_small.
Qed.

Lemma on_ota_agrees d (m : M (ota (upper A)) unit) v o :
  same_ota v d o →
  outcome_rel (λ _ d' o', same_ota v d' o' ∧ dp_last_seen d' = dp_last_seen d ∧ dp_ids d' = dp_ids d)
    (Dispatch.on_app (on_ota m) d) (m o).
Proof.
  intros [<- <-]. unfold Dispatch.on_app, on_ota, zoom. change (mk_ota _ _) with (ota_of (dp_app d)).
  destruct (m (ota_of (dp_app d))) as [[] [dl u]| |]; by cbn.
Qed.

Lemma stream_to_component id ds d v o :
  pouch_downlink_handlers = [0%nat] → 0 ≤ id < 2 ^ 31 → holds id d → same_ota v d o →
  outcome_rel (λ _ d' o', same_ota v d' o')
    (Dispatch.handle_all services 0 (stream_data_calls id ds) d) (receive_all id (chunk_pieces ds) o).
Proof.
  intros Hh Hid. revert d o. induction ds as [|x ds IH]; intros d o Hd Ho; [done|].
  cbn [stream_data_calls chunk_pieces receive_all]. rewrite Hh. cbn [map app Dispatch.handle_all Dispatch.handle].
  rewrite decide_True by done. rewrite (bind_as _ _ _ _ (data_to_component id (Some x) (zlen x) _ d Hid Hd)), <- seq_assoc.
  apply (outcome_rel_bind (λ _ d' o', same_ota v d' o' ∧ dp_last_seen d' = dp_last_seen d ∧ dp_ids d' = dp_ids d));
    [by apply on_ota_agrees|]. intros _ d' o' (Ho' & Hl & Hi).
  case_bool_decide as Hlast.
  - subst ds. done.
  - apply IH; [|done]. unfold holds in *. by rewrite Hl, Hi.
Qed.

Lemma path_to_component id nm ver ct d Q :
  0 ≤ id < 2 ^ 31 → Forall (λ c, c ≠ 0) nm → Forall (λ c, c ≠ 0) ver →
  wp (on_ota (ota_receive_component_start id (Some (nm ++ 64 :: ver))))
    (λ _ g, Q tt (mk_dispatch (Some 0%nat) (<[0%nat := id]> (dp_ids d)) g)) (dp_app d) →
  wp (Dispatch.handle services 0 (start_cb 0 id (47 :: GOLIOTH_OTA_COMPONENT_PATH_PREFIX ++ nm ++ 64 :: ver) ct)) Q d.
Proof.
  intros Hid Hn Hv HQ. cbn [Dispatch.handle]. rewrite decide_True by done.
  unfold Dispatch.pouch_downlink_start. rewrite c_string_id.
  2: { repeat constructor; try done. rewrite Forall_app, Forall_cons_iff. by split_and!. }
  assert (∀ l, Dispatch.service_match (ota_component (A := A)) (47 :: GOLIOTH_OTA_COMPONENT_PATH_PREFIX ++ l) =
    Some (Some (true, 6))) as Hm.
  { intros l. unfold Dispatch.service_match. done. }
  cbn [downlink_services Dispatch.start_loop]. rewrite Hm. unfold Dispatch.set_last_seen, Dispatch.set_downlink_id. do 4 wp_step. cbn [svc_start ota_component].
  change (drop (Z.to_nat 6) _) with (nm ++ 64 :: ver).
  rewrite (proj2 (Z.ltb_lt 0 (zlen (nm ++ 64 :: ver)))). 2: { rewrite zlen_app, zlen_cons. pose proof (zlen_nonneg nm). pose proof (zlen_nonneg ver). lia. }
  cbn [andb]. unfold Dispatch.on_app. apply wp_zoom. rewrite downlink_id_small by done.
  eapply wp_mono; [exact HQ|]. by intros [] g ?.
Qed.

(** A manifest that arrives as one entry. *)
Lemma manifest_received id ct data d Q :
  0 ≤ id < 2 ^ 31 → (1 < length (dp_ids d))%nat →
  wp (ota_receive_manifest stack_key stack_hash id (Some data) (zlen data) true)
    (λ _ u, ∀ seen ids, length ids = length (dp_ids d) →
       Q tt (mk_dispatch seen ids (mk_golioth (gl_download (dp_app d)) (gl_version (dp_app d)) u)))
    (gl_upper (dp_app d)) →
  wp (Dispatch.handle_all services 0
        [start_cb 0 id GOLIOTH_OTA_MANIFEST_PATH ct; data_cb 0 id (Some data) (zlen data) true]) Q d.
Proof.
  intros Hid Hlen HQ. cbn [Dispatch.handle_all Dispatch.handle]. rewrite !decide_True by done.
  apply wp_bind. unfold Dispatch.pouch_downlink_start. change (c_string GOLIOTH_OTA_MANIFEST_PATH) with GOLIOTH_OTA_MANIFEST_PATH.
  unfold downlink_services. cbn [Dispatch.start_loop].
  change (Dispatch.service_match (ota_component (A := A)) GOLIOTH_OTA_MANIFEST_PATH) with (Some (@None (bool * Z))).
  change (Dispatch.service_match (ota_manifest (A := A) stack_key stack_hash) GOLIOTH_OTA_MANIFEST_PATH) with (Some (Some (false, 11))). cbn beta iota.
  unfold Dispatch.set_last_seen, Dispatch.set_downlink_id. do 4 wp_step. cbn [svc_start ota_manifest]. wp_step. wp_step.
  unfold Dispatch.pouch_downlink_data. wp_step. wp_step. unfold Dispatch.active_service. cbn [dp_last_seen].
  unfold Dispatch.id_is. cbn [dp_ids Nat.add]. rewrite list.list_lookup_insert_eq, downlink_id_small by lia. rewrite Z.eqb_refl.
  match goal with |- context [?l !! 1%nat] => change (l !! 1%nat) with (Some (ota_manifest (A := A) stack_key stack_hash)) end.
  cbn beta iota. wp_step. unfold Dispatch.on_app. cbn [svc_data ota_manifest]. do 2 apply wp_zoom.
  eapply wp_mono; [exact HQ|]. intros [] u Hu. unfold Dispatch.set_downlink_id, Dispatch.set_last_seen. do 4 wp_step.
  apply Hu. cbn [dp_ids]. by rewrite !length_insert.
Qed.

(** A stream on the path of a component. *)
Lemma component_download_run id nm ver ct ds i c d :
  pouch_downlink_handlers = [0%nat] → dp_ids d ≠ [] → 0 ≤ id < 2 ^ 31 →
  download_wf (gl_download (dp_app d)) → 64 ∉ nm → Forall (λ c, c ≠ 0) nm → Forall (λ c, c ≠ 0) ver →
  zlen nm ≤ CONFIG_GOLIOTH_OTA_MAX_PACKAGE_NAME_LEN →
  names_distinct components → component_named components nm = Some (i, c) → keeps_downloading i c →
  downloading i (gl_upper (dp_app d)) → zlen (concat ds) < 2 ^ 32 →
  outcome_rel (λ _ d' u, gl_upper (dp_app d') = u ∧ gl_version (dp_app d') = gl_version (dp_app d))
    (Dispatch.handle_all services 0
       (start_cb 0 id (47 :: GOLIOTH_OTA_COMPONENT_PATH_PREFIX ++ nm ++ 64 :: ver) ct :: stream_data_calls id ds) d)
    (deliver c 0 ds (gl_upper (dp_app d))).
Proof.
  intros Hh Hids Hid Hwf Hat Hn Hv Hlen Hdist Hc Hk Hdl Htot. cbn [Dispatch.handle_all].
  apply outcome_rel_left, path_to_component; [done|done|done|]. unfold on_ota. apply wp_zoom.
  apply component_start; [done|done|done|done|]. intros dl Hdid Hdoff Hdn _ _. cbn [ot_download ot_upper].
  set (d1 := mk_dispatch _ _ _).
  assert (holds id d1) as Hd1.
  { split; [done|]. cbn [dp_ids d1]. destruct (dp_ids d); done. }
  pose proof (stream_to_component id ds d1 (gl_version (dp_app d)) _ Hh Hid Hd1 (conj eq_refl eq_refl)) as Hs.
  assert (cd_downlink_id (ot_download (ota_of (dp_app d1))) ≠ DOWNLINK_ID_INVALID) as Hne.
  { cbn. rewrite Hdid. unfold DOWNLINK_ID_INVALID. lia. }
  pose proof (receive_all_transfers id (chunk_pieces ds) (ota_of (dp_app d1)) Hne) as Ht.
  cbn [ot_download ota_of dp_app d1 gl_download gl_upper ot_upper] in Ht. rewrite Hdoff in Ht.
  rewrite (transfer_delivers i c) in Ht; [|done| |done|done|lia|lia].
  2: { unfold component_named in *. rewrite Hdn. by rewrite (c_string_id nm) in Hc. }
  revert Hs Ht. unfold outcome_rel, d1. cbn [dp_app].
  destruct (Dispatch.handle_all _ _ _ _) as [a d'| |], (receive_all _ _ _) as [a' o'| |], (deliver _ _ _ _) as [a'' u'| |];
    try done. intros [-> [<- Hver]] [-> <-]. by split_and!.
Qed.
End receive.

(** ** Synchronising with the cloud *)

Lemma outcome_rel_zoom_left {S S' T X} (g : S' → S) p (m : M S X) (R : X → S' → T → Prop) s (o : outcome T X) :
  outcome_rel (λ a s' t, R a (p s' s) t) (m (g s)) o → outcome_rel R (zoom g p m s) o.
Proof. unfold zoom. by destruct (m (g s)). Qed.

Section sync_spec.
Context `{COk : ConfigOk} `{Zk : Zephyr} `{Mal : Malloc} `{Cr : Crypto} `{Hnd : Handlers}.
Context `{OcOk : OtaConfigOk} `{ZeS : ZcborEncoderSpec} {A : Type} `{App : OtaApp A} (lock : rc).
Implicit Types (g : golioth A) (n : node).

(** The reports of the components, up to the first status that does not fit, then the
    version of the settings on [".c/status"], then the pouch is closed. *)
Definition ref_sync g : M node rc :=
  ref_report (λ path content_type data len, pouch_uplink_entry_write lock (Some path) content_type (Some data) len)
    (ota_statuses (gl_upper g));;
  (let data := cbor_encode (IMap (version_map (gl_version g))) in
   if decide (zlen data ≤ 64)
   then pouch_uplink_entry_write lock (Some [46; 99; 47; 115; 116; 97; 116; 117; 115]) 60 (Some data) (zlen data);; mret tt
   else mret tt);;
  pouch_uplink_close lock;;
  mret success.

(** Synchronising returns 0 whatever came of it, and leaves the SDK as it was. *)
Lemma sync_to_cloud_run g n :
  length (up_data (gl_upper g)) = length components → Forall status_ok (ota_statuses (gl_upper g)) →
  - 2 ^ 63 ≤ gl_version g < 2 ^ 63 →
  outcome_rel (λ _ t n', t = (g, n')) (sync_to_cloud lock (g, n)) (ref_sync g n).
Proof.
  intros Hl Hst Hv. unfold sync_to_cloud, ref_sync, Dispatch.golioth_sync_to_cloud. cbn [foldr].
  apply (outcome_rel_bind (λ _ t n', t = (g, n'))).
  { unfold ota_status_service. apply outcome_rel_zoom_left. cbn [fst snd]. unfold ota_uplink.
    eapply outcome_rel_mono; [apply (uplink_reports _ (gl_upper g) n 0); [exact Hl|exact Hst|done|]|].
    - rewrite drop_0. cbn. rewrite length_zip_with. lia.
    - intros [] t n' ->. cbn. by destruct g. }
  intros _ _ n1 ->. apply (outcome_rel_bind (λ _ t n', t = (g, n'))).
  { unfold settings_status_service. apply outcome_rel_zoom_left. cbn [fst snd].
    eapply outcome_rel_mono; [by apply (settings_uplink_run (write_entry_to_pouch lock) (gl_version g))|]. intros [] t n' ->. cbn. by destruct g. }
  intros _ _ n2 ->. apply (outcome_rel_bind (λ _ t n', t = (g, n'))).
  { by apply outcome_rel_zoom. }
  by intros _ _ n3 ->.
Qed.
End sync_spec.

(** ** Properties *)

(** C4: a component sent over pouch as a stream, in any pieces, reaches its callback
    whole: behind the dispatcher the callback of the registered component that the
    path names is called once per piece, in order, with the piece and its offset, the
    last call alone marked last; nothing else of the application is touched. The
    component has to be marked for download, and stay so until the last piece; its
    name must fit. *)
Theorem component_download `{COk : ConfigOk} `{OcOk : OtaConfigOk} `{Hex : HexDecoder} `{Zc : Zcbor} `{Hnd : Handlers}
    {A : Type} `{App : OtaApp A} handlers stack_key stack_hash id nm ver ct ds i c (d : dispatch (golioth A)) :
  pouch_downlink_handlers = [0%nat] → dp_ids d ≠ [] → 0 ≤ id < 2 ^ 31 →
  download_wf (gl_download (dp_app d)) → 64 ∉ nm → Forall (λ c, c ≠ 0) nm → Forall (λ c, c ≠ 0) ver →
  zlen nm ≤ CONFIG_GOLIOTH_OTA_MAX_PACKAGE_NAME_LEN →
  names_distinct components → component_named components nm = Some (i, c) → keeps_downloading i c →
  downloading i (gl_upper (dp_app d)) → zlen (concat ds) < 2 ^ 32 →
  outcome_rel (λ _ d' u, gl_upper (dp_app d') = u ∧ gl_version (dp_app d') = gl_version (dp_app d))
    (Dispatch.handle_all (downlink_services handlers stack_key stack_hash) 0
       (start_cb 0 id (47 :: GOLIOTH_OTA_COMPONENT_PATH_PREFIX ++ nm ++ 64 :: ver) ct :: stream_data_calls id ds) d)
    (deliver c 0 ds (gl_upper (dp_app d))).
Proof. intros. by eapply component_download_run. Qed.

Section golioth_witnesses.
#[local] Existing Instances small_config small_config_ok zephyr_ref malloc_always crypto_none one_handler
  zcbor_toy hex_ref ota_default ota_default_ok zcbor_toy_encoder zcbor_toy_encoder_spec one_component.

(** The component marked for download, and the piece ["fw@1.0"]. *)
Definition marked : golioth (list Z) :=
  mk_golioth init_download (-1) (mk_upper (map (λ c, set_state GOLIOTH_OTA_STATE_DOWNLOADING (init_data c)) components) []).
Definition marked_dispatch : dispatch (golioth (list Z)) :=
  Dispatch.init_dispatch (downlink_services [] key_0 []) marked.

Lemma component_download_witness :
  ∃ c, component_named (components (A := list Z)) [102; 119] = Some (0%nat, c) ∧
  outcome_rel (λ _ d' u, gl_upper (dp_app d') = u ∧ gl_version (dp_app d') = -1)
    (Dispatch.handle_all (downlink_services [] key_0 []) 0
       (start_cb 0 5 (47 :: GOLIOTH_OTA_COMPONENT_PATH_PREFIX ++ [102; 119] ++ 64 :: [49; 46; 48]) 42 ::
        stream_data_calls 5 [[1; 2]; [3]]) marked_dispatch)
    (deliver c 0 [[1; 2]; [3]] (gl_upper marked)).
Proof.
  eexists. split; [done|].
  eapply (component_download [] key_0 [] 5 [102; 119] [49; 46; 48] 42 [[1; 2]; [3]] 0 _ marked_dispatch); try done.
  - set_solver by lia.
  - by repeat constructor.
  - by repeat constructor.
  - by apply (bool_decide_unpack _).
  - by intros data off len u.
Defined.

Example marked_downloaded :
  wp (Dispatch.handle_all (downlink_services [] key_0 []) 0
       (start_cb 0 5 (47 :: GOLIOTH_OTA_COMPONENT_PATH_PREFIX ++ [102; 119] ++ 64 :: [49; 46; 48]) 42 ::
        stream_data_calls 5 [[1; 2]; [3]]))
    (λ _ d, up_app (gl_upper (dp_app d)) = [0; 1; 2; 2; 3]) marked_dispatch.
Proof. by vm_compute. Qed.

Example marked_syncs :
  outcome_rel (λ _ t n', t = (marked, n')) (sync_to_cloud success (marked, node_0)) (ref_sync success marked node_0).
Proof.
  apply (sync_to_cloud_run success marked node_0); [done| |done].
  constructor; [right; by apply (bool_decide_unpack _)|done].
Defined.
End golioth_witnesses.
