(* ===== verification/Firmware.v ===== *)
(** Firmware updates: the component [main] of the example application,
    [examples/ble_gatt/src/fw_update.c], on top of the OTA service.

    The flash image writer ([zephyr/dfu/flash_img.h]), the boot loader interface
    ([zephyr/dfu/mcuboot.h]) and the version of the application ([app_version.h], a
    generated file) are parameters. *)
From S2P Require Import Prelude Zephyr Config Buf Block Header Node CryptoNone Reference Entry Stream Uplink.
From S2P Require Import Zcbor ZcborOut Names Dispatch Ota OtaManifest OtaUpper OtaTransfer Settings Golioth.

(** ** Flash and boot loader *)

(** [flash_img_context] with the image slot behind it and the mark that the boot
    loader finds. The results are error codes; the upgrade asked for is permanent. *)
Class Flash : Type := {
  flash_st : Type;
  flash_img_init : flash_st → Z * flash_st;
  (* data, length, whether to flush *)
  flash_img_buffered_write : option (list Z) → Z → bool → flash_st → Z * flash_st;
  boot_request_upgrade : flash_st → Z * flash_st;
  APP_VERSION_STRING : list Z;
}.

(** Bytes written are added to those taken since the start of the image, and are in the
    slot after a flush; an upgrade that was requested is what the slot holds. *)
Class FlashSpec (Fl : Flash) : Type := {
  flash_taken : flash_st → list Z;
  flash_slot : flash_st → list Z;
  flash_upgrade : flash_st → bool;
  img_init_ok : ∀ f f', flash_img_init f = (0, f') → flash_taken f' = [];
  img_write_ok : ∀ d flush f f', flash_img_buffered_write (Some d) (zlen d) flush f = (0, f') →
    flash_taken f' = flash_taken f ++ d ∧ (flush = true → flash_slot f' = flash_taken f ++ d);
  boot_upgrade_ok : ∀ f f', boot_request_upgrade f = (0, f') →
    flash_slot f' = flash_slot f ∧ flash_upgrade f' = true;
}.

(** ** [fw_update.c] *)

(** [flash_context], and whether the device has been reset: what runs behind
    [sys_reboot] in the model does not run on the device, and changes memory only. *)
Record firmware `{Fl : Flash} := mk_firmware { fw_flash : flash_st; fw_rebooted : bool }.
Arguments mk_firmware {_}.

Section fw_update.
Context `{Cfg : Config} `{Oc : OtaConfig} `{Fl : Flash}.

Definition on_flash {A} (f : flash_st → A * flash_st) : M (upper firmware) A := λ u,
  let '(a, fl) := f (fw_flash (up_app u)) in
  Ret a (mk_upper (up_data u) (mk_firmware fl (fw_rebooted (up_app u)))).

Definition sys_reboot : M (upper firmware) unit :=
  modify (λ u, mk_upper (up_data u) (mk_firmware (fw_flash (up_app u)) true)).

(** [fatal_error.c]: the log is written out, and the device reset. *)
Definition k_sys_fatal_error_handler : M (upper firmware) unit := sys_reboot.

Definition ota_main_receive (data : option (list Z)) (offset len : Z) (is_last : bool) : M (upper firmware) unit :=
  err ← (if 0 =? offset then on_flash flash_img_init else mret 0);
  if negb (err =? 0) then mret tt else
  err ← on_flash (flash_img_buffered_write data len is_last);
  if negb (err =? 0) then mret tt else
  if is_last then
    err ← on_flash boot_request_upgrade;
    if negb (err =? 0) then mret tt else sys_reboot
  else mret tt.

Definition main : golioth_ota_registered_component firmware :=
  mk_registered component_main APP_VERSION_STRING ota_main_receive.

(** The registered components and manifest handlers. *)
Definition fw_ota (handlers : list (list golioth_ota_manifest_component → M (upper firmware) unit)) : OtaApp firmware :=
  {| components := [main]; manifest_handlers := handlers |}.

(** [strcmp] of a string with an array: whether they differ; nothing if the end of the
    array is passed. *)
Definition differs_from_array (s array : list Z) : option bool :=
  if decide (0 ∈ array) then Some (negb (str_eq s array))
  else if decide (slice 0 (zlen array) (c_string s) = array) then None else Some true.

(** The loop over the components; marking one does not need the handlers. *)
Fixpoint ota_manifest_receive (components : list golioth_ota_manifest_component) : M (upper firmware) unit :=
  match components with
  | [] => mret tt
  | component :: components =>
      match differs_from_array (mc_current component) (mc_target component) with
      | None => ub
      | Some differs =>
          (if differs : bool then golioth_ota_mark_for_download (App := fw_ota []) (mc_name component);; mret tt
           else mret tt);;
          ota_manifest_receive components
      end
  end.

#[export] Instance fw_app : OtaApp firmware := fw_ota [ota_manifest_receive].
End fw_update.

(** ** Specification *)

Section installing.
Context `{COk : ConfigOk} `{OcOk : OtaConfigOk} `{FlS : FlashSpec}.
Implicit Types (f : flash_st) (u : upper firmware) (ds : list (list Z)).

Definition ok (r : Z * flash_st) : option flash_st := if r.1 =? 0 then Some r.2 else None.

(** Writing the pieces of an image, when every call succeeds. *)
Fixpoint write_pieces (off : Z) ds f : option flash_st :=
  match ds with
  | [] => Some f
  | d :: ds =>
      f ← (if 0 =? off then ok (flash_img_init f) else Some f);
      f ← ok (flash_img_buffered_write (Some d) (zlen d) (bool_decide (ds = [])) f);
      write_pieces (off + zlen d) ds f
  end.

Definition install ds f : option flash_st := f ← write_pieces 0 ds f; ok (boot_request_upgrade f).

Lemma ok_inv r f : ok r = Some f → r = (0, f).
Proof. unfold ok. destruct r as [z f']. cbn. by destruct (Z.eqb_spec z 0) as [->|]; [intros [= ->]|]. Qed.

Lemma write_pieces_slot pre ds f f' :
  ds ≠ [] → write_pieces (zlen pre) ds f = Some f' → (pre ≠ [] → flash_taken f = pre) →
  flash_slot f' = pre ++ concat ds.
Proof.
  revert pre f. induction ds as [|d ds IH]; intros pre f Hne; [done|]. cbn [write_pieces concat].
  intros (f1 & H1 & (f2 & H2%ok_inv & H3)%bind_Some)%bind_Some Hpre.
  assert (flash_taken f1 = pre) as Ht.
  { destruct (Z.eqb_spec 0 (zlen pre)) as [Hz|Hz].
    - apply ok_inv, img_init_ok in H1. rewrite H1. symmetry. by apply zlen_zero_nil.
    - injection H1 as <-. apply Hpre. by intros ->. }
  apply img_write_ok in H2 as [Htaken Hslot]. rewrite Ht in *. case_bool_decide as Hds.
  - subst ds. cbn in H3. injection H3 as <-. cbn. by rewrite app_nil_r, Hslot.
  - rewrite <- zlen_app in H3. rewrite (IH _ _ Hds H3); [by rewrite <- app_assoc|done].
Qed.

(** The image is in the slot, and the boot loader will take it. *)
Lemma install_image ds f f' :
  ds ≠ [] → install ds f = Some f' → flash_slot f' = concat ds ∧ flash_upgrade f' = true.
Proof.
  intros Hne (f1 & H1 & H2%ok_inv%boot_upgrade_ok)%bind_Some. destruct H2 as [-> ->]. split; [|done].
  by apply (write_pieces_slot [] ds f f1).
Qed.

(** The calls of the callback, when they succeed. *)
Lemma deliver_main off ds f f1 f2 rb dts :
  ds ≠ [] → write_pieces off ds f = Some f1 → ok (boot_request_upgrade f1) = Some f2 →
  deliver main off ds (mk_upper dts (mk_firmware f rb)) = Ret tt (mk_upper dts (mk_firmware f2 true)).
Proof.
  revert off f. induction ds as [|d ds IH]; intros off f Hne; [done|]. cbn [write_pieces deliver].
  intros (f3 & H3 & (f4 & H4%ok_inv & H5)%bind_Some)%bind_Some Hboot.
  cbv [mbind M_bind]. cbn [receive main]. unfold ota_main_receive. cbv [mbind M_bind].
  assert ((if 0 =? off then on_flash flash_img_init else mret 0) (mk_upper dts (mk_firmware f rb)) =
    Ret 0 (mk_upper dts (mk_firmware f3 rb))) as ->.
  { destruct (0 =? off); [|by injection H3 as <-]. apply ok_inv in H3. unfold on_flash. cbn. by rewrite H3. }
  cbn [Z.eqb negb]. unfold on_flash at 1. cbn [up_app fw_flash up_data fw_rebooted]. rewrite H4. cbn [Z.eqb negb].
  case_bool_decide as Hds.
  - subst ds. cbn in H5. injection H5 as ->. apply ok_inv in Hboot. unfold on_flash. cbn. by rewrite Hboot.
  - by apply IH.
Qed.

Lemma main_keeps_downloading i : keeps_downloading i main.
Proof.
  intros data off len u Hu. cbn [receive main]. unfold ota_main_receive. cbv [mbind M_bind].
  assert (∀ A (g : flash_st → A * flash_st) u, downloading i u →
    match on_flash g u with Ret _ u' => downloading i u' | _ => False end) as Hf.
  { intros A g v Hv. unfold on_flash. by destruct (g _). }
  assert (∀ v, downloading i v → match (if 0 =? off then on_flash flash_img_init else mret 0) v with
    Ret _ u' => downloading i u' | _ => False end) as Hi.
  { intros v Hv. destruct (0 =? off); [by apply Hf|done]. }
  specialize (Hi u Hu). destruct (_ u) as [e v| |]; [|done|done]. destruct (negb _); [done|].
  specialize (Hf _ (flash_img_buffered_write data len false) v Hi). destruct (on_flash _ v) as [e' v'| |]; [|done|done].
  by destruct (negb _).
Qed.
End installing.

(** ** The manifest and the image *)

Section update.
Context `{COk : ConfigOk} `{OcOk : OtaConfigOk} `{Hex : HexDecoder} `{ZcS : ZcborSpec} `{Hnd : Handlers} `{FlS : FlashSpec}.
Context (handlers : list (golioth_settings_handler (upper firmware))) (stack_key : zcbor_map_key) (stack_hash : list Z).
Abbreviation services := (downlink_services handlers stack_key stack_hash).
Implicit Types (d : dispatch (golioth firmware)) (m : golioth_ota_component).

(** A manifest with one component, [m]. *)
Record offers (doc : item) m : Prop := {
  of_ok : manifest_ok doc;
  of_doc : ∃ pre k x post, doc = IMap (pre ++ (k, IList [x]) :: post) ∧ Forall other_key pre ∧
    as_uint32 k = Some MANIFEST_KEY_COMPONENTS ∧ ref_component stack_hash x = Some m;
}.

(** Arrays of the sizes they are declared with, and one id per service. *)
Record sdk_ready d : Prop := {
  rd_ids : length (dp_ids d) = length services;
  rd_download : download_wf (gl_download (dp_app d));
  rd_target : ∃ dt, up_data (gl_upper (dp_app d)) = [dt] ∧ zlen (target dt) = CONFIG_GOLIOTH_OTA_MAX_VERSION_LEN;
}.

(** The target version that is left of a version. *)
Definition kept_version m : list Z :=
  take (Z.to_nat (CONFIG_GOLIOTH_OTA_MAX_VERSION_LEN - 1)) (c_string (c_version m)).

Definition firmware_path (ver : list Z) : list Z :=
  47 :: GOLIOTH_OTA_COMPONENT_PATH_PREFIX ++ component_main ++ 64 :: ver.

(** The target differs from the current version: the component is marked. *)
Lemma manifest_marks_main m dt a :
  zlen (target dt) = CONFIG_GOLIOTH_OTA_MAX_VERSION_LEN → c_string (c_package m) = component_main →
  c_string APP_VERSION_STRING ≠ kept_version m →
  manifest_complete (apply_component m (mk_upper [dt] a)) =
  Ret tt (mk_upper [set_state GOLIOTH_OTA_STATE_DOWNLOADING (set_target m dt)] a).
Proof.
  intros Hl Hm Hv. pose proof version_range as Hr.
  assert (apply_component m (mk_upper [dt] a) = mk_upper [set_target m dt] a) as ->.
  { unfold apply_component. cbn. unfold target_of, str_eq. by rewrite bool_decide_true by (by rewrite Hm). }
  assert (0 ∈ target (set_target m dt)) as H0.
  { cbn [target set_target]. set (L := CONFIG_GOLIOTH_OTA_MAX_VERSION_LEN) in *.
    replace (strncpy L (c_version m)) with (strncpy (L - 1 + 1) (c_version m)) by (f_equal; lia).
    rewrite strncpy_terminated by lia. set_solver. }
  assert (differs_from_array APP_VERSION_STRING (target (set_target m dt)) = Some true) as Hd.
  { unfold differs_from_array, str_eq. rewrite decide_True by done. by rewrite bool_decide_false by (by rewrite target_version). }
  unfold manifest_complete. cbv [mbind M_bind get].
  cbn [manifest_handlers fw_app fw_ota foldr manifest_components components zip_with up_data ota_manifest_receive main
    mc_current mc_target mc_name version]. rewrite Hd. cbv [mbind M_bind]. by cbn.
Qed.

Lemma update_run doc data m id ct id' ver ct' ds f d :
  pouch_downlink_handlers = [0%nat] → 0 ≤ id < 2 ^ 31 → 0 ≤ id' < 2 ^ 31 → sdk_ready d →
  cbor_encodes data doc → offers doc m → c_string (c_package m) = component_main →
  zlen component_main ≤ CONFIG_GOLIOTH_OTA_MAX_PACKAGE_NAME_LEN →
  c_string APP_VERSION_STRING ≠ kept_version m → Forall (λ c, c ≠ 0) ver →
  ds ≠ [] → zlen (concat ds) < 2 ^ 32 →
  install ds (fw_flash (up_app (gl_upper (dp_app d)))) = Some f →
  wp (Dispatch.handle_all services 0
        ([start_cb 0 id GOLIOTH_OTA_MANIFEST_PATH ct; data_cb 0 id (Some data) (zlen data) true] ++
         start_cb 0 id' (firmware_path ver) ct' :: stream_data_calls id' ds))
    (λ _ d', up_app (gl_upper (dp_app d')) = mk_firmware f true) d.
Proof.
  intros Hh Hid Hid' [Hids Hwf (dt & Hup & Ht)] Hx [Hok (pre & k & x & post & -> & Hpre & Hk & Hm)] Hpkg Hmain Hcur Hver
    Hne Htot (f1 & Hw & Hb)%bind_Some.
  destruct (gl_upper (dp_app d)) as [dts [fl rb]] eqn:Hu. cbn [up_data] in Hup. subst dts.
  eapply wp_same; [apply Dispatch.handle_all_app|]. apply wp_bind, manifest_received; [done|rewrite Hids; cbn; lia|].
  eapply wp_eq.
  { rewrite (receive_manifest_agrees _ _ _ _ _ _ _ Hx Hok), Hu.
    rewrite (ref_manifest_run _ _ _ _ _ [m] _ Hpre Hk); [by apply manifest_marks_main|done|by repeat constructor]. }
  intros seen ids Hl. eapply wp_mono.
  - eapply outcome_rel_wp. rewrite <- (deliver_main 0 ds fl f1 f rb
      [set_state GOLIOTH_OTA_STATE_DOWNLOADING (set_target m dt)] Hne Hw Hb).
    eapply (component_download_run handlers stack_key stack_hash id' component_main ver ct' ds 0 main
      (mk_dispatch seen ids (mk_golioth _ _ _))); try done.
    + cbn [dp_ids]. rewrite Hids in Hl. by destruct ids.
    + unfold component_main. set_solver by lia.
    + by repeat constructor.
    + repeat constructor. set_solver.
    + apply main_keeps_downloading.
  - intros [] d' (_ & Hd' & _). by rewrite Hd'.
Qed.
End update.

(** ** The callbacks of an update *)

(** A firmware update, from the manifest to the reset: when a manifest that offers
    another version of the component [main] and then an image arrive over pouch, the
    image in any pieces, and no call of the flash writer fails, the device ends up
    reset, with exactly the bytes of the image in the slot and the upgrade requested.
    (The version of the path, and the size and hash of the manifest, are not compared
    with the image.) *)
Lemma firmware_update `{COk : ConfigOk} `{OcOk : OtaConfigOk} `{Hex : HexDecoder} `{ZcS : ZcborSpec} `{Hnd : Handlers}
    `{FlS : FlashSpec} handlers stack_key stack_hash doc data m id ct id' ver ct' ds (d : dispatch (golioth firmware)) :
  pouch_downlink_handlers = [0%nat] → 0 ≤ id < 2 ^ 31 → 0 ≤ id' < 2 ^ 31 → sdk_ready handlers stack_key stack_hash d →
  cbor_encodes data doc → offers stack_hash doc m → c_string (c_package m) = component_main →
  zlen component_main ≤ CONFIG_GOLIOTH_OTA_MAX_PACKAGE_NAME_LEN →
  c_string APP_VERSION_STRING ≠ kept_version m → Forall (λ c, c ≠ 0) ver →
  ds ≠ [] → zlen (concat ds) < 2 ^ 32 → is_Some (install ds (fw_flash (up_app (gl_upper (dp_app d))))) →
  wp (Dispatch.handle_all (downlink_services handlers stack_key stack_hash) 0
        ([start_cb 0 id GOLIOTH_OTA_MANIFEST_PATH ct; data_cb 0 id (Some data) (zlen data) true] ++
         start_cb 0 id' (firmware_path ver) ct' :: stream_data_calls id' ds))
    (λ _ d', let fw := up_app (gl_upper (dp_app d')) in
       flash_slot (fw_flash fw) = concat ds ∧ flash_upgrade (fw_flash fw) = true ∧ fw_rebooted fw = true) d.
Proof.
  intros ???????????? [f Hf]. eapply wp_mono; [by eapply update_run|]. intros [] d' ->. cbn zeta.
  destruct (install_image _ _ _ ltac:(done) Hf). by split_and!.
Qed.

(** ** Examples *)

(** A flash with the bytes taken, the slot, the request, and the results of the writes
    to come: [true] for an error. *)
Record toy_flash := mk_toy_flash { tf_taken : list Z; tf_slot : list Z; tf_upgrade : bool; tf_errors : list bool }.

Definition flash_toy : Flash := {|
  flash_st := toy_flash;
  flash_img_init f := (0, mk_toy_flash [] (tf_slot f) (tf_upgrade f) (tf_errors f));
  flash_img_buffered_write data len flush f :=
    let taken := tf_taken f ++ slice 0 len (default [] data) in
    match tf_errors f with
    | true :: errors => (-5, mk_toy_flash (tf_taken f) (tf_slot f) (tf_upgrade f) errors)
    | errors => (0, mk_toy_flash taken (if flush then taken else tf_slot f) (tf_upgrade f) (tail errors))
    end;
  boot_request_upgrade f := (0, mk_toy_flash (tf_taken f) (tf_slot f) true (tf_errors f));
  APP_VERSION_STRING := [49; 46; 48];
|}.

Definition flash_toy_spec : FlashSpec flash_toy.
Proof.
  refine {| flash_taken := tf_taken : flash_st (Flash := flash_toy) → _; flash_slot := tf_slot; flash_upgrade := tf_upgrade |}.
  - by intros f f' [= <-].
  - intros d flush f f'. cbn. rewrite slice_0_all. destruct (tf_errors f) as [|[|] errors]; intros [= <-]; by destruct flush.
  - by intros f f' [= <-].
Defined.

Section firmware_witnesses.
#[local] Existing Instances small_config small_config_ok one_handler zcbor_toy zcbor_toy_spec
  hex_ref ota_default ota_default_ok flash_toy flash_toy_spec.

Definition fresh_firmware (errors : list bool) : dispatch (golioth firmware) :=
  Dispatch.init_dispatch (downlink_services [] key_0 [])
    (init_golioth (mk_firmware (mk_toy_flash [] [] false errors) false)).

(** The manifest [{3: [{1: "main", 2: "2.0", 4: 9, 3: "00..."}]}]. *)
Definition main_item : item :=
  IMap [(IInt 1, ITstr component_main); (IInt 2, ITstr [50; 46; 48]); (IInt 4, IInt 9); (IInt 3, ITstr sample_hash)].
Definition main_manifest : list Z :=
  [161; 3; 129; 164; 1; 100; 109; 97; 105; 110; 2; 99; 50; 46; 48; 4; 9; 3; 120; 64] ++ sample_hash.
Definition main_offered : golioth_ota_component :=
  mk_component (array_of 32 component_main) (array_of 32 [50; 46; 48]) (replicate 32 0) 9.

Definition update_calls (ds : list (list Z)) : list callback :=
  [start_cb 0 1 GOLIOTH_OTA_MANIFEST_PATH 60; data_cb 0 1 (Some main_manifest) (zlen main_manifest) true] ++
  start_cb 0 2 (firmware_path [50; 46; 48]) 42 :: stream_data_calls 2 ds.

Example firmware_update_there :
  wp (Dispatch.handle_all (downlink_services [] key_0 []) 0 (update_calls [[1; 2]; [3]; [4; 5]]))
    (λ _ d', let fw := up_app (gl_upper (dp_app d')) in
       flash_slot (fw_flash fw) = concat [[1; 2]; [3]; [4; 5]] ∧ flash_upgrade (fw_flash fw) = true ∧ fw_rebooted fw = true)
    (fresh_firmware []).
Proof.
  unfold update_calls. apply (firmware_update [] key_0 [] (IMap [(IInt 3, IList [main_item])]) main_manifest main_offered 1 60 2
    [50; 46; 48] 42 [[1; 2]; [3]; [4; 5]] (fresh_firmware [])); try done.
  - split; [done|done|by eexists].
  - exists []. by vm_compute.
  - split.
    + constructor; [|done]. constructor; [|done]. split; [|by apply short_read_whole]. repeat constructor; by eexists.
    + exists [], (IInt 3), main_item, []. split_and!; [done|done|done|by vm_compute].
  - by repeat constructor.
Qed.

(** A write that fails is forgotten: the device asks for the upgrade, and resets, with a
    piece of the image missing. *)
Example failed_write_is_forgotten :
  wp (Dispatch.handle_all (downlink_services [] key_0 []) 0 (update_calls [[1; 2]; [3]; [4; 5]]))
    (λ _ d', up_app (gl_upper (dp_app d')) = mk_firmware (mk_toy_flash [1; 2; 4; 5] [1; 2; 4; 5] true []) true)
    (fresh_firmware [false; true]).
Proof. by vm_compute. Qed.

(** The same version is not downloaded, and an image that nobody asked for is refused. *)
Example unasked_image_refused :
  wp (Dispatch.handle_all (downlink_services [] key_0 []) 0 (drop 2 (update_calls [[1; 2]; [3]])))
    (λ _ d', up_app (gl_upper (dp_app d')) = mk_firmware (mk_toy_flash [] [] false []) false)
    (fresh_firmware []).
Proof. by vm_compute. Qed.
End firmware_witnesses.
