(* ===== verification/FirmwareOverPouch.v ===== *)
(** A firmware update from the bytes pushed to a device to its reset: the pouch that
    brings the manifest and the image ([src/downlink.c] and what is below it), the
    dispatcher ([lib/golioth/golioth.c]), the OTA service and the component of the
    example application, put together. *)
From stdpp Require Import relations.
From S2P Require Import Prelude Zephyr Config Buf Block Header Node CryptoNone CryptoSpec Reference Entry Stream Uplink.
From S2P Require Import Downlink Pouch Receive.
From S2P Require Import Zcbor Names Dispatch Ota OtaManifest OtaUpper OtaTransfer Settings Golioth Firmware.

Section update_over_pouch.
Context `{COk : ConfigOk} `{OcOk : OtaConfigOk} `{Hex : HexDecoder} `{ZcS : ZcborSpec} `{FlS : FlashSpec}.
Context `{ZS : ZephyrSpec} `{Mal : Malloc} `{Cr : Crypto} {CS : CryptoSpec Cr} `{HC : HeaderCodecSpec} `{Hnd : Handlers}.
Context (handlers : list (golioth_settings_handler (upper firmware))) (stack_key : zcbor_map_key) (stack_hash : list Z).
Abbreviation services := (downlink_services handlers stack_key stack_hash).
Implicit Types (d : dispatch (golioth firmware)) (m : golioth_ota_component) (n : node).

(** What the server sends: the manifest in an entry, then the pieces of the image in a
    stream with the id [iu_id]. *)
Record image_update := mk_image_update {
  iu_manifest : list Z;
  iu_manifest_type : Z;
  iu_id : Z;
  iu_version : list Z;
  iu_image_type : Z;
  iu_image : list (list Z);
}.
Implicit Types (u : image_update).

Definition manifest_entry u : entry :=
  mk_app_entry GOLIOTH_OTA_MANIFEST_PATH (iu_manifest_type u) (iu_manifest u).

Definition update_blocks u : list (list Z) :=
  entry_block [manifest_entry u] ::
  stream_pouch (iu_id u) (firmware_path (iu_version u)) (iu_image_type u) (iu_image u).

(** Everything fits in its block. *)
Record sendable u : Prop := {
  sn_entry : wf_entry (manifest_entry u);
  sn_manifest : zlen (entry_bytes (manifest_entry u)) ≤ MAX_BLOCK_PAYLOAD_SIZE;
  sn_id : 0 < iu_id u < 32;
  sn_type : 0 ≤ iu_image_type u < 65536;
  sn_image : iu_image u ≠ [];
  sn_pieces : stream_fits (firmware_path (iu_version u)) (iu_image u);
  sn_size : zlen (concat (iu_image u)) < 2 ^ 32;
  sn_version : Forall (λ c, c ≠ 0) (iu_version u);
}.

(** The manifest offers a version of the component [main] other than the one running,
    to a device that waits for one. *)
Record new_version u d : Prop := {
  nv_ready : sdk_ready handlers stack_key stack_hash d;
  nv_name : zlen component_main ≤ CONFIG_GOLIOTH_OTA_MAX_PACKAGE_NAME_LEN;
  nv_offer : ∃ doc m, cbor_encodes (iu_manifest u) doc ∧ offers stack_hash doc m ∧
    c_string (c_package m) = component_main ∧ c_string APP_VERSION_STRING ≠ kept_version m;
}.

(** The device after the update. *)
Definition updated (image : list Z) d : Prop :=
  let fw := up_app (gl_upper (dp_app d)) in
  flash_slot (fw_flash fw) = image ∧ flash_upgrade (fw_flash fw) = true ∧ fw_rebooted fw = true.

Lemma update_delivers u :
  sendable u → ∃ css, Forall2 delivers (update_blocks u) css ∧
    concat css = entry_calls (manifest_entry u) ++
      map (λ h, start_cb h (iu_id u) (firmware_path (iu_version u)) (iu_image_type u)) pouch_downlink_handlers ++
      stream_data_calls (iu_id u) (iu_image u).
Proof.
  intros [He Hm Hid Hct Hne Hfit _ _].
  destruct (stream_pouch_delivers (iu_id u) (firmware_path (iu_version u)) (iu_image_type u) (iu_image u))
    as (css & Hdel & Hcss); [done..|].
  exists (entry_calls (manifest_entry u) :: css). split; [|cbn; by rewrite Hcss].
  constructor; [|done]. rewrite <- (app_nil_r (entry_calls _)).
  assert (entry_calls (manifest_entry u) ++ [] = concat (map entry_calls [manifest_entry u])) as -> by done.
  apply entries_deliver; [by constructor|]. unfold entries_bytes. cbn [map concat]. by rewrite app_nil_r.
Qed.

Lemma update_handled u d :
  pouch_downlink_handlers = [0%nat] → sendable u → new_version u d →
  is_Some (install (iu_image u) (fw_flash (up_app (gl_upper (dp_app d))))) →
  wp (Dispatch.handle_all services 0
        (entry_calls (manifest_entry u) ++
         map (λ h, start_cb h (iu_id u) (firmware_path (iu_version u)) (iu_image_type u)) pouch_downlink_handlers ++
         stream_data_calls (iu_id u) (iu_image u)))
    (λ _ d', updated (concat (iu_image u)) d') d.
Proof.
  intros Hh [_ _ Hid _ Hne _ Htot Hver] [Hrd Hname (doc & m & Hx & Hoff & Hpkg & Hcur)] [f Hf].
  unfold entry_calls. rewrite !Hh. cbn [map]. eapply wp_mono.
  - by apply (update_run handlers stack_key stack_hash doc (iu_manifest u) m 0 (iu_manifest_type u) (iu_id u)
      (iu_version u) (iu_image_type u) (iu_image u) f d); try done; lia.
  - intros [] d' Hd'. unfold updated. cbn zeta. rewrite Hd'. destruct (install_image _ _ _ Hne Hf). by split_and!.
Qed.
End update_over_pouch.

(** ** Property *)

(** C3: a firmware update, from the bytes pushed to the reset. A pouch of a manifest and an
    image, whatever the crypto module that opens its blocks, is pushed to an idle device
    in pieces that are no longer than its shortest block, while its work items run, in any
    order, and every call of the flash writer for the image succeeds ([install]): as long as anything is left to do it can be done, the number of steps is
    bounded, and when nothing is left, handling the calls made leaves the device reset,
    with exactly the bytes of the image in the slot and the upgrade requested, unless an
    allocation on the way failed. What happens without these conditions:
    [Downlink.second_block_is_held] for longer pieces, [Firmware.failed_write_is_forgotten]
    for an error of the flash writer. *)
Theorem firmware_over_pouch `{COk : ConfigOk} `{OcOk : OtaConfigOk} `{Hex : HexDecoder} `{ZcS : ZcborSpec} `{FlS : FlashSpec}
    `{ZS : ZephyrSpec} `{Mal : Malloc} `{Cr : Crypto} {CS : CryptoSpec Cr} `{HC : HeaderCodecSpec} `{Hnd : Handlers}
    handlers stack_key stack_hash (u : image_update) (d : dispatch (golioth firmware)) (n : node) lk h room enc blocks chunks :
  pouch_downlink_handlers = [0%nat] → receiver n → node_inv n lk →
  sendable u → new_version handlers stack_key stack_hash u d →
  is_Some (install (iu_image u) (fw_flash (up_app (gl_upper (dp_app d))))) →
  cbor_encode_pouch_header room h = Some enc → pushable enc blocks chunks →
  wp (crypto_downlink_start (hd_encryption_info h))
    (λ e c, e = success ∧ crypto_ok c ∧ decrypts c blocks (update_blocks u)) (n_crypto n) →
  wp pouch_downlink_start (λ _ n', collect_failed n' ∨ ∃ css : list (list callback),
    delivers_all (n_calls n) (length chunks + 2 * length blocks) css chunks n' ∧
    wp (Dispatch.handle_all (downlink_services handlers stack_key stack_hash) 0 (concat css))
      (λ _ d', updated (concat (iu_image u)) d') d) n.
Proof.
  intros Hh Hn Hinv Hu Hd Hf Henc Hpush Hacc. destruct (update_delivers u Hu) as (css & Hdel & Hcss).
  eapply wp_mono; [by apply (wp_receive h room enc Henc blocks (update_blocks u) css Hdel n lk)|].
  intros [] n' [Hc|Hgo]; [by left|right]. exists css. split; [done|].
  rewrite Hcss. by apply update_handled.
Qed.

(** ** Example *)

Section update_witnesses.
#[local] Existing Instances default_config default_config_ok zephyr_ref zephyr_ref_spec malloc_always crypto_none
  crypto_none_spec one_handler plain_codec plain_codec_spec zcbor_toy zcbor_toy_spec hex_ref ota_default ota_default_ok
  flash_toy flash_toy_spec.

(** The update of the example of [Firmware], to a device with blocks of 512 bytes. *)
Definition sample_update : image_update :=
  mk_image_update main_manifest 60 2 [50; 46; 48] 42 [[1; 2]; [3]; [4; 5]].

Definition update_header : pouch_header := mk_header POUCH_HEADER_VERSION (plaintext_info [115]).
Definition update_enc : list Z := default [] (cbor_encode_pouch_header 200 update_header).
Definition node_u : node := init_node (Some [120] : CryptoNone.st).

(** In pieces of four bytes, the size of the shortest block. *)
Definition update_chunks : list (list Z) :=
  pieces_of 4 100 (update_enc ++ concat (update_blocks sample_update)).

Lemma sample_sendable : sendable sample_update.
Proof.
  split; try done.
  - split; cbn; [split; [solve_bytes|done]|done|split; [unfold main_manifest; solve_bytes|done]].
  - split_and!; [done|done|by repeat constructor].
  - by repeat constructor.
Qed.

Lemma sample_new : new_version [] key_0 [] sample_update (fresh_firmware []).
Proof.
  split; [split; [done|done|by eexists]|done|].
  exists (IMap [(IInt 3, IList [main_item])]), main_offered. split_and!; [|split|done|done].
  - exists []. by vm_compute.
  - constructor; [|done]. constructor; [|done]. split; [|by apply short_read_whole]. repeat constructor; by eexists.
  - exists [], (IInt 3), main_item, []. split_and!; [done|done|done|by vm_compute].
Qed.

Lemma node_u_receiver : receiver node_u.
Proof. split; [done|done|done|by eexists]. Qed.

Lemma sample_pushable : pushable update_enc (update_blocks sample_update) update_chunks.
Proof.
  split.
  - left. by vm_compute.
  - unfold update_blocks. cbn [stream_pouch stream_from sample_update iu_image iu_id].
    repeat apply List.Forall_cons; try apply List.Forall_nil;
      (apply block_sized; [done|by vm_compute|]; apply (bool_decide_unpack _); by vm_compute).
  - intros c x Hc%list_elem_of_In Hx%list_elem_of_In.
    assert (Forall (λ c, zlen c ≤ 4) update_chunks) as Hcs by (apply (bool_decide_unpack _); by vm_compute).
    assert (Forall (λ x, 4 ≤ zlen x) (update_blocks sample_update)) as Hxs by (apply (bool_decide_unpack _); by vm_compute).
    rewrite Forall_forall in Hcs, Hxs. specialize (Hcs c Hc). specialize (Hxs x Hx). cbn in Hcs, Hxs. lia.
  - intros c Hc%list_elem_of_In. revert c Hc. apply Forall_forall. apply (bool_decide_unpack _); by vm_compute.
Qed.

Lemma firmware_over_pouch_witness :
  wp pouch_downlink_start (λ _ n', collect_failed n' ∨ ∃ css : list (list callback),
    delivers_all (n_calls node_u) (length update_chunks + 2 * length (update_blocks sample_update)) css update_chunks n' ∧
    wp (Dispatch.handle_all (downlink_services [] key_0 []) 0 (concat css))
      (λ _ d', updated (concat (iu_image sample_update)) d') (fresh_firmware [])) node_u.
Proof.
  apply (firmware_over_pouch [] key_0 [] sample_update (fresh_firmware []) node_u [] update_header 200 update_enc
    (update_blocks sample_update) update_chunks); try done.
  - apply node_u_receiver.
  - apply init_node_inv.
  - apply sample_sendable.
  - apply sample_new.
  - apply sample_pushable.
  - split_and!; [done|by eexists|apply decrypts_plain].
Defined.

(** The same run, computed. *)
Example update_over_pouch_run :
  wp (pouch_downlink_start;; push_chunks update_chunks;; pouch_downlink_finish) (λ _ n,
    wp (Dispatch.handle_all (downlink_services [] key_0 []) 0 (n_calls (Nat.iter 8 run_first n)))
      (λ _ d, up_app (gl_upper (dp_app d)) = mk_firmware (mk_toy_flash [1; 2; 3; 4; 5] [1; 2; 3; 4; 5] true []) true)
      (fresh_firmware [])) node_u.
Proof. by vm_compute. Qed.
End update_witnesses.
