(* ===== verification/Credentials.v ===== *)
(** The credentials of the example application: [examples/ble_gatt/src/credentials.c].

    The file system ([zephyr/fs/fs.h]) and the key import of mbedTLS ([mbedtls/pk.h])
    are parameters, results are the error numbers of the C library. Buffers are
    objects of a heap; a pointer that was never assigned is [None]. *)
From S2P Require Import Prelude Zephyr Config Platform Buf Block Header Node CryptoNone Reference Cert.

Definition ENOENT_NR : Z := 2.
Definition ENOMEM_NR : Z := 12.
Definition EISDIR_NR : Z := 21.

(** ** Services *)

(** A directory entry: whether it is a file, and its size. *)
Record fs_dirent := mk_dirent { dirent_is_file : bool; dirent_size : Z }.

(** [fs_file_t] is a file that was opened. Reading gives the bytes read, and their
    number or an error. *)
Class Fs : Type := {
  fs_st : Type;
  fs_file_t : Type;
  fs_stat : list Z → fs_st → Z * fs_dirent;
  fs_mkdir : list Z → fs_st → Z * fs_st;
  fs_open_read : list Z → fs_st → Z * fs_file_t * fs_st;
  fs_read : fs_file_t → Z → fs_st → Z * list Z * fs_st;
  fs_close : fs_file_t → fs_st → fs_st;
  (* CONFIG_EXAMPLE_CREDENTIALS_DIR *)
  CERT_DIR : list Z;
}.

(** The files that are open. Reading gives at most the bytes asked for. *)
Class FsSpec (F : Fs) : Type := {
  fs_opened : fs_st → list fs_file_t;
  mkdir_opened : ∀ p s, fs_opened (fs_mkdir p s).2 = fs_opened s;
  open_opened : ∀ p s e h s', fs_open_read p s = (e, h, s') →
    fs_opened s' = if e =? 0 then h :: fs_opened s else fs_opened s;
  open_error : ∀ p s e h s', fs_open_read p s = (e, h, s') → e ≤ 0;
  read_opened : ∀ h n s, fs_opened (fs_read h n s).2 = fs_opened s;
  read_count : ∀ h n s r l s', fs_read h n s = (r, l, s') → 0 ≤ n → zlen l ≤ n ∧ (0 ≤ r → r = zlen l);
  close_opened : ∀ h l s, fs_opened s = h :: l → fs_opened (fs_close h s) = l;
}.

(** [psa_key_attributes_t], as set here. *)
Inductive key_attribute := PSA_ALG_ECDH | PSA_KEY_TYPE_ECC_KEY_PAIR_SECP_R1 | PSA_KEY_USAGE_DERIVE.

(** Parsing and importing a key; both work on the key store and the random generator. *)
Class Pk {Ps : Psa} : Type := {
  mbedtls_pk_context : Type;
  mbedtls_pk_parse_key : list Z → psa_st → bool * mbedtls_pk_context * psa_st;
  mbedtls_pk_import_into_psa : mbedtls_pk_context → list key_attribute → psa_st → option Z * psa_st;
}.

(** ** State *)

Record cred `{Ps : Psa} `{F : Fs} := mk_cred {
  cr_fs : fs_st;
  cr_heap : gmap nat (list Z);
  cr_mallocs : nat;
  cr_psa : psa_st;
}.
Arguments mk_cred {_ _}.

Section credentials.
Context `{Cfg : Config} `{Mal : Malloc} `{Ps : Psa} `{F : Fs} `{P : !Pk}.

Definition CERT_FILE : list Z := CERT_DIR ++ [47; 99; 114; 116; 46; 100; 101; 114]. (* "/crt.der" *)
Definition KEY_FILE : list Z := CERT_DIR ++ [47; 107; 101; 121; 46; 100; 101; 114]. (* "/key.der" *)

Definition set_fs (f : fs_st) (s : cred) : cred := mk_cred f (cr_heap s) (cr_mallocs s) (cr_psa s).
Definition set_heap (h : gmap nat (list Z)) (s : cred) : cred := mk_cred (cr_fs s) h (cr_mallocs s) (cr_psa s).
Definition set_psa (p : psa_st) (s : cred) : cred := mk_cred (cr_fs s) (cr_heap s) (cr_mallocs s) p.

(** Conversion from [size_t] to [ssize_t]. *)
Definition ssz (x : Z) : Z := let x := usz x in if x <? 2 ^ (size_bits - 1) then x else x - 2 ^ size_bits.

Definition malloc (size : Z) : M cred (option nat) := λ s,
  let n := cr_mallocs s in
  match malloc_bytes n size with
  | None => Ret None (mk_cred (cr_fs s) (cr_heap s) (S n) (cr_psa s))
  | Some l => Ret (Some n) (mk_cred (cr_fs s) (<[n := l]> (cr_heap s)) (S n) (cr_psa s))
  end.

(** Freeing a pointer that was never assigned, or that is not an object. *)
Definition free (p : option nat) : M cred unit := λ s,
  match p with
  | None => UB
  | Some p =>
      match cr_heap s !! p with
      | None => UB
      | Some _ => Ret tt (set_heap (delete p (cr_heap s)) s)
      end
  end.

(** ** [credentials.c] *)

Definition import_raw_pk (private_key : option nat) (size : Z) : M cred Z := λ s,
  match private_key ≫= λ p, cr_heap s !! p with
  | None => UB
  | Some bytes =>
      let '(ok, pk, psa) := mbedtls_pk_parse_key (slice 0 size bytes) (cr_psa s) in
      if negb ok then Ret PSA_KEY_ID_NULL (set_psa psa s) else
      let attrs := [PSA_ALG_ECDH; PSA_KEY_TYPE_ECC_KEY_PAIR_SECP_R1; PSA_KEY_USAGE_DERIVE] in
      let '(key_id, psa) := mbedtls_pk_import_into_psa pk attrs psa in
      Ret (default PSA_KEY_ID_NULL key_id) (set_psa psa s)
  end.

Definition ensure_credentials_dir : M cred unit :=
  s ← get;
  let err := (fs_stat CERT_DIR (cr_fs s)).1 in
  if err =? - ENOENT_NR then modify (set_fs (fs_mkdir CERT_DIR (cr_fs s)).2) else mret tt.

Definition get_file_size (path : list Z) : M cred Z :=
  s ← get;
  let '(err, dirent) := fs_stat path (cr_fs s) in
  if err <? 0 then mret err else
  if negb (dirent_is_file dirent) then mret (- EISDIR_NR) else
  mret (ssz (dirent_size dirent)).

(** The file, into the buffer that was allocated for it. *)
Definition read_into (path : list Z) (size : Z) (p : nat) : M cred (Z * option nat) :=
  s ← get;
  let '(err, file, f) := fs_open_read path (cr_fs s) in
  modify (set_fs f);;
  if negb (err =? 0) then free (Some p);; mret (err, None) else
  s ← get;
  let '(size, bytes, f) := fs_read file size (cr_fs s) in
  modify (set_fs f);;
  modify (λ s, set_heap (alter (splice 0 bytes) p (cr_heap s)) s);;
  (if size <? 0 then free (Some p) else mret tt);;
  modify (λ s, set_fs (fs_close file (cr_fs s)) s);;
  mret (size, if size <? 0 then None else Some p).

(** The result, and what [*out] was set to, if it was. *)
Definition read_file (path : list Z) : M cred (Z * option nat) :=
  ensure_credentials_dir;;
  size ← get_file_size path;
  if size <=? 0 then mret (size, None) else
  buf ← malloc size;
  match buf with
  | None => mret (- ENOMEM_NR, None)
  | Some p =>
      read_into path size p
  end.

Definition load_private_key : M cred Z :=
  '(size, buf) ← read_file KEY_FILE;
  if size <? 0 then mret PSA_KEY_ID_NULL else
  key_id ← import_raw_pk buf size;
  free buf;;
  mret key_id.

(** The result, and the buffer and the size of the certificate when it is 0. *)
Definition load_certificate : M cred (Z * option (option nat * Z)) :=
  '(size, buf) ← read_file CERT_FILE;
  if size <? 0 then mret (size, None) else mret (0, Some (buf, usz size)).

Definition free_certificate (buffer : option nat) : M cred unit := free buffer.
End credentials.

(** ** Properties *)

Section no_leaks.
Context `{COk : ConfigOk} `{Mal : Malloc} `{Ps : Psa} `{FS : FsSpec} `{P : !Pk}.
Implicit Types (s : cred).

Definition heap_ok s : Prop := ∀ p, is_Some (cr_heap s !! p) → (p < cr_mallocs s)%nat.

(** What [read_file] takes the size of a file for, in the directory it ensures. *)
Definition stated_size (path : list Z) s : Z :=
  let f := if (fs_stat CERT_DIR (cr_fs s)).1 =? - ENOENT_NR then (fs_mkdir CERT_DIR (cr_fs s)).2 else cr_fs s in
  let '(err, dirent) := fs_stat path f in
  if err <? 0 then err else
  if dirent_is_file dirent then ssz (dirent_size dirent) else - EISDIR_NR.

Definition same_open s s' : Prop := fs_opened (cr_fs s') = fs_opened (cr_fs s).

(** A buffer of its own with the file in it, or nothing. *)
Definition read_outcome (path : list Z) s (r : Z * option nat) s' : Prop :=
  same_open s s' ∧
  match r with
  | (size, None) => cr_heap s' = cr_heap s ∧ (if stated_size path s =? 0 then size = 0 else size < 0)
  | (size, Some p) => 0 ≤ size ∧ stated_size path s ≠ 0 ∧ cr_heap s !! p = None ∧
      ∃ bytes, cr_heap s' = <[p := bytes]> (cr_heap s) ∧ size ≤ zlen bytes
  end.

Lemma wp_free p bytes h Q s :
  cr_heap s = <[p := bytes]> h → h !! p = None → Q tt (set_heap h s) → wp (free (Some p)) Q s.
Proof.
  intros Hs Hp HQ. eapply wp_eq; [|exact HQ]. unfold free. rewrite Hs, lookup_insert_eq.
  by rewrite delete_insert_id.
Qed.

Lemma wp_ensure_dir path Q s :
  (∀ s', same_open s s' → cr_heap s' = cr_heap s → cr_mallocs s' = cr_mallocs s →
     get_file_size path s' = Ret (stated_size path s) s' → Q tt s') →
  wp ensure_credentials_dir Q s.
Proof.
  intros HQ. unfold ensure_credentials_dir. wp_step. wp_step.
  assert (∀ s', cr_fs s' = (if (fs_stat CERT_DIR (cr_fs s)).1 =? - ENOENT_NR then (fs_mkdir CERT_DIR (cr_fs s)).2
      else cr_fs s) → get_file_size path s' = Ret (stated_size path s) s') as Hg.
  { intros s' Hs'. unfold get_file_size, stated_size. cbv [mbind M_bind get]. rewrite <- Hs'.
    destruct (fs_stat path (cr_fs s')) as [err dirent]. destruct (err <? 0); [done|]. by destruct (dirent_is_file dirent). }
  destruct (_ =? - ENOENT_NR); wp_step; apply HQ; try done; [apply mkdir_opened|by apply Hg|by apply Hg].
Qed.

(** Once the buffer is there. *)
Lemma wp_read_opened path size p l s Q :
  zlen l = size → 0 < size → cr_heap s !! p = None →
  (∀ r s', same_open s s' → 
     match r with
     | (n, None) => cr_heap s' = cr_heap s ∧ n < 0
     | (n, Some q) => q = p ∧ 0 ≤ n ∧ ∃ bytes, cr_heap s' = <[p := bytes]> (cr_heap s) ∧ n ≤ zlen bytes
     end → Q r s') →
  wp (read_into path size p) Q (set_heap (<[p := l]> (cr_heap s)) s).
Proof.
  intros Hl Hsz Hp HQ. unfold read_into. do 2 wp_step. cbn [cr_fs set_heap].
  destruct (fs_open_read path (cr_fs s)) as [[err file] f] eqn:Ho.
  pose proof (open_opened _ _ _ _ _ Ho) as Hopen. pose proof (open_error _ _ _ _ _ Ho) as Herr. do 2 wp_step.
  destruct (Z.eqb_spec err 0) as [->|Hne]; cbn [negb].
  2: { wp_step. eapply (wp_free p l (cr_heap s)); [done|done|]. wp_step. apply HQ; [done|]. split; [done|lia]. }
  do 2 wp_step. cbn [cr_fs set_fs]. destruct (fs_read file size f) as [[n bytes] f'] eqn:Hr.
  pose proof (read_opened file size f) as Hread. rewrite Hr in Hread. cbn [snd] in Hread.
  destruct (read_count _ _ _ _ _ _ Hr) as [Hlen Hcount]; [lia|].
  do 4 wp_step. cbn [cr_heap set_heap set_fs]. rewrite alter_insert_eq.
  assert (∀ h : gmap nat (list Z), same_open s (set_fs (fs_close file f') (set_heap h s))) as Hclose.
  { intros h. unfold same_open. cbn. apply close_opened. by rewrite Hread, Hopen. }
  destruct (Z.ltb_spec n 0) as [Hn|Hn]; wp_step.
  - eapply (wp_free p _ (cr_heap s)); [done|done|]. do 3 wp_step. apply HQ; [apply (Hclose (cr_heap s))|]. by split.
  - do 4 wp_step. apply HQ; [apply (Hclose (<[p := splice 0 bytes l]> (cr_heap s)))|].
    split; [done|]. split; [done|]. eexists. split; [done|]. specialize (Hcount Hn). subst n.
    unfold zlen, splice. rewrite !length_app. lia.
Qed.

Definition next_malloc s : cred := mk_cred (cr_fs s) (cr_heap s) (S (cr_mallocs s)) (cr_psa s).

Lemma wp_malloc size Q s :
  0 ≤ size → Q None (next_malloc s) →
  (∀ l, zlen l = size → Q (Some (cr_mallocs s)) (set_heap (<[cr_mallocs s := l]> (cr_heap s)) (next_malloc s))) →
  wp (malloc size) Q s.
Proof.
  intros Hs HN HS. unfold malloc, wp. cbv zeta. destruct (malloc_bytes _ _) as [l|] eqn:Hl; [|done].
  by apply HS, (malloc_bytes_len _ _ _ Hs Hl).
Qed.

Lemma wp_read_file path Q s :
  heap_ok s → (∀ r s', read_outcome path s r s' → Q r s') → wp (read_file path) Q s.
Proof.
  intros Hok HQ. unfold read_file. wp_step. apply (wp_ensure_dir path). intros s1 Ho1 Hh1 Hm1 Hsize.
  wp_step. eapply wp_eq; [exact Hsize|].
  destruct (Z.leb_spec (stated_size path s) 0) as [Hle|Hgt].
  { wp_step. apply HQ. split; [done|]. split; [done|]. destruct (Z.eqb_spec (stated_size path s) 0); lia. }
  assert (cr_heap s !! cr_mallocs s = None) as Hfresh.
  { apply eq_None_not_Some. intros Hs%Hok. lia. }
  wp_step. apply wp_malloc; [lia| |].
  - wp_step. apply HQ. split; [done|]. split; [done|]. by destruct (Z.eqb_spec (stated_size path s) 0); [lia|].
  - intros l Hl. rewrite Hm1.
    change (cr_heap s1) with (cr_heap (next_malloc s1)).
    apply (wp_read_opened _ _ _ l (next_malloc s1)); [done|done|cbn; by rewrite Hh1|].
    intros [n [p|]] s' Hs' Hr; apply HQ; (split; [unfold same_open in *; by rewrite Hs'|]);
      cbn [cr_heap next_malloc] in Hr; rewrite Hh1 in Hr.
    + destruct Hr as (-> & Hn & bytes & Hb & Hlen). split_and!; [done|lia|done|by exists bytes].
    + destruct Hr as [Hh Hn]. split; [done|]. by destruct (Z.eqb_spec (stated_size path s) 0); [lia|].
Qed.

Lemma wp_import_raw_pk p size bytes s Q :
  cr_heap s !! p = Some bytes → (∀ key psa, Q key (set_psa psa s)) → wp (import_raw_pk (Some p) size) Q s.
Proof.
  intros Hp HQ. unfold import_raw_pk, wp. cbv [mbind option_bind]. rewrite Hp.
  destruct (mbedtls_pk_parse_key _ _) as [[[|] pk] psa]; cbn; [|apply HQ].
  destruct (mbedtls_pk_import_into_psa _ _ _) as [k psa']. apply HQ.
Qed.
End no_leaks.

(** C20: loading the private key gives back all it took, whatever the file system, the
    allocator and the import do: the buffer is freed and the file closed on every
    branch. The one exception is a file that is empty: the buffer pointer is then used
    and freed without having been set. *)
Theorem load_private_key_outcomes `{COk : ConfigOk} `{Mal : Malloc} `{Ps : Psa} `{FS : FsSpec} `{P : !Pk} (s : cred) :
  heap_ok s →
  if decide (stated_size KEY_FILE s = 0) then load_private_key s = UB
  else wp load_private_key (λ _ s', cr_heap s' = cr_heap s ∧ same_open s s') s.
Proof.
  intros Hok. pose proof (wp_read_file KEY_FILE (read_outcome KEY_FILE s) s Hok ltac:(done)) as Hr.
  case_decide as Hz.
  - apply ub_bind. eapply wp_mono; [exact Hr|]. intros [n [p|]] s' [_ H]; [by destruct H as (_ & Hs & _)|].
    rewrite Hz in H. cbn in H. destruct H as [_ ->]. done.
  - unfold load_private_key. wp_step. eapply wp_mono; [exact Hr|]. intros [n [p|]] s' [Ho H].
    + destruct H as (Hn & _ & Hp & bytes & Hh & _). rewrite (proj2 (Z.ltb_ge _ _)) by done. wp_step.
      eapply wp_import_raw_pk; [by rewrite Hh, lookup_insert_eq|]. intros key psa. wp_step.
      eapply (wp_free p bytes (cr_heap s)); [done|done|]. by wp_step.
    + destruct H as [Hh Hn]. rewrite (proj2 (Z.eqb_neq _ _)) in Hn by done.
      rewrite (proj2 (Z.ltb_lt _ _)) by done. by wp_step.
Qed.

(** Loading the certificate leaves one buffer behind, if it succeeds; for an empty file
    it succeeds without one. *)
Lemma load_certificate_outcomes `{COk : ConfigOk} `{Mal : Malloc} `{Ps : Psa} `{FS : FsSpec} (s : cred) :
  heap_ok s →
  wp load_certificate (λ r s', same_open s s' ∧
    match r with
    | (err, None) => err < 0 ∧ cr_heap s' = cr_heap s
    | (err, Some (None, size)) => err = 0 ∧ size = 0 ∧ stated_size CERT_FILE s = 0 ∧ cr_heap s' = cr_heap s
    | (err, Some (Some p, size)) => err = 0 ∧ cr_heap s !! p = None ∧
        ∃ bytes, cr_heap s' = <[p := bytes]> (cr_heap s) ∧ size ≤ zlen bytes
    end) s.
Proof.
  intros Hok. unfold load_certificate. wp_step. apply wp_read_file; [done|]. intros [n [p|]] s' [Ho H].
  - destruct H as (Hn & _ & Hp & bytes & Hh & Hl). rewrite (proj2 (Z.ltb_ge _ _)) by done. wp_step.
    split_and!; [done|done|done|]. exists bytes. split; [done|]. unfold usz.
    pose proof (Z.mod_le n (2 ^ size_bits) ltac:(lia)). pose proof size_bits_range.
    assert (0 < 2 ^ size_bits) by (apply Z.pow_pos_nonneg; lia). lia.
  - destruct H as [Hh Hn]. destruct (Z.eqb_spec (stated_size CERT_FILE s) 0) as [Hz|Hz].
    + subst n. cbn [Z.ltb Z.compare]. by wp_step.
    + rewrite (proj2 (Z.ltb_lt _ _)) by done. by wp_step.
Qed.

(** ** Examples *)

(** A file system that only has files, and a key import that counts. *)
Definition fs_toy : Fs := {|
  fs_st := gmap (list Z) (list Z) * list (list Z);
  fs_file_t := list Z;
  fs_stat p f := match f.1 !! p with Some l => (0, mk_dirent true (zlen l)) | None => (- ENOENT_NR, mk_dirent false 0) end;
  fs_mkdir _ f := (0, f);
  fs_open_read p f := match f.1 !! p with Some _ => (0, p, (f.1, p :: f.2)) | None => (- ENOENT_NR, p, f) end;
  fs_read h n f := let l := slice 0 n (default [] (f.1 !! h)) in (zlen l, l, f);
  fs_close _ f := (f.1, tail f.2);
  CERT_DIR := [47; 99];
|}.

Definition fs_toy_spec : FsSpec fs_toy.
Proof.
  refine {| fs_opened := λ f : fs_st (Fs := fs_toy), f.2 : list (fs_file_t (Fs := fs_toy)) |}; try done.
  - intros p [m o] e h s'. cbn. by destruct (m !! p); intros [= <- <- <-].
  - intros p [m o] e h s'. cbn. by destruct (m !! p); intros [= <- <- <-].
  - intros h n [m o] r l s'. cbn. intros [= <- <- <-] Hn. split; [|done].
    unfold slice, zlen. rewrite length_take. lia.
  - intros h l [m o] Ho. cbn in *. by rewrite Ho.
Defined.

Section credentials_witnesses.
#[local] Existing Instances small_config small_config_ok malloc_always psa_toy fs_toy fs_toy_spec.

#[local] Instance pk_toy : Pk := {|
  mbedtls_pk_context := list Z;
  mbedtls_pk_parse_key l s := (bool_decide (l ≠ []), l, s);
  mbedtls_pk_import_into_psa l attrs s := (Some (100 + zlen l + zlen attrs), s);
|}.

Definition key_disk (key : list Z) : cred :=
  mk_cred ({[ KEY_FILE := key ]}, []) ∅ 0 (∅, 0).

Lemma load_private_key_outcomes_witness :
  if decide (stated_size KEY_FILE (key_disk [1; 2; 3]) = 0) then load_private_key (key_disk [1; 2; 3]) = UB
  else wp load_private_key (λ _ s', cr_heap s' = ∅ ∧ same_open (key_disk [1; 2; 3]) s') (key_disk [1; 2; 3]).
Proof. apply (load_private_key_outcomes (key_disk [1; 2; 3])). by intros p [? ?]. Defined.

Example key_loaded : wp load_private_key (λ key _, key = 106) (key_disk [1; 2; 3]).
Proof. by vm_compute. Qed.

Example empty_key_undefined : load_private_key (key_disk []) = UB.
Proof. apply is_undefined_ub. by vm_compute. Qed.
End credentials_witnesses.
