(* ===== verification/Application.v ===== *)
(** The example application: the water sensor ([examples/ble_gatt/src/sensors]:
    [water_sensor.c], [sensors.c]), and [examples/ble_gatt/src/main.c], which ties the
    library, the SDK and the credentials together; and the registration of the service,
    [src/transport/ble_gatt/peripheral.c].

    The drivers of the board (GPIO pins and Bluetooth) are parameters; results are error
    numbers. [A] is the state of the OTA components of the application. *)
From stdpp Require Import relations.
From S2P Require Import Prelude Zephyr Config Platform Buf Block Header Node CryptoNone Reference Entry Stream Uplink.
From S2P Require Import Downlink Pouch Cert Zcbor ZcborOut Names Dispatch Ota OtaManifest OtaUpper OtaTransfer.
From S2P Require Import Settings Golioth Credentials.

Definition ENODEV_NR : Z := 19.

(** ** The board *)

Inductive gpio_pin := water_detect | led.
Inductive gpio_flags := GPIO_INPUT | GPIO_OUTPUT_ACTIVE.

(** [struct golioth_ble_gatt_adv_data] *)
Record golioth_ble_gatt_adv_data := mk_adv { adv_version : Z; adv_flags : Z }.

Class Board : Type := {
  gpio_st : Type;
  (* whether the pin is in the device tree *)
  has_port : gpio_pin → bool;
  device_is_ready : gpio_pin → gpio_st → bool;
  gpio_pin_configure_dt : gpio_pin → gpio_flags → gpio_st → Z * gpio_st;
  gpio_pin_get_dt : gpio_pin → gpio_st → Z * gpio_st;
  gpio_pin_set_dt : gpio_pin → Z → gpio_st → gpio_st;
  bt_st : Type;
  (* the number of attributes *)
  bt_gatt_service_register : Z → bt_st → Z * bt_st;
  bt_enable : bt_st → Z * bt_st;
  (* the service data of the scan response, if there is one *)
  bt_le_adv_start : option golioth_ble_gatt_adv_data → bt_st → Z * bt_st;
  bt_le_adv_update_data : option golioth_ble_gatt_adv_data → bt_st → Z * bt_st;
  (* the attributes of the section [bt_gatt_attr] *)
  bt_gatt_attr_count : Z;
  CONFIG_EXAMPLE_SYNC_PERIOD_S : Z;
}.

(** The calls that made the radio advertise, or change what it advertises, so far. *)
Inductive bt_call :=
  | adv_start (sd : option golioth_ble_gatt_adv_data)
  | adv_update (sd : option golioth_ble_gatt_adv_data).

Class BoardSpec (Bd : Board) : Type := {
  bt_calls : bt_st → list bt_call;
  adv_start_call : ∀ sd b, bt_calls (bt_le_adv_start sd b).2 = bt_calls b ++ [adv_start sd];
  adv_update_call : ∀ sd b, bt_calls (bt_le_adv_update_data sd b).2 = bt_calls b ++ [adv_update sd];
}.

(** ** State *)

(** Delayable work. *)
Inductive app_work := water_report_work | sync_request_work | disconnect_work.

#[export] Instance app_work_eq_dec : EqDecision app_work.
Proof. solve_decision. Defined.

(** The static variables of [water_sensor.c] and [main.c]; the work that is scheduled,
    with the seconds it waits; the drivers; and the other components. *)
Record app `{Zk : Zephyr} `{Cr : Crypto} `{Ps : Psa} `{F : Fs} `{Bd : Board} (A : Type) := mk_app {
  pouch_session_active : bool;
  last_water_state : bool;
  ap_adv : golioth_ble_gatt_adv_data;
  ap_delayed : list (app_work * Z);
  ap_gpio : gpio_st;
  ap_bt : bt_st;
  ap_cred : cred;
  ap_golioth : golioth A;
  ap_node : node;
}.
Arguments mk_app {_ _ _ _ _ A}.
Arguments pouch_session_active {_ _ _ _ _ A} a.
Arguments last_water_state {_ _ _ _ _ A} a.
Arguments ap_adv {_ _ _ _ _ A} a.
Arguments ap_delayed {_ _ _ _ _ A} a.
Arguments ap_gpio {_ _ _ _ _ A} a.
Arguments ap_bt {_ _ _ _ _ A} a.
Arguments ap_cred {_ _ _ _ _ A} a.
Arguments ap_golioth {_ _ _ _ _ A} a.
Arguments ap_node {_ _ _ _ _ A} a.

Definition WATER_REPORT_PERIOD_S : Z := 10.
(** [types.h] *)
Definition POUCH_CONTENT_TYPE_JSON : Z := 50.
Definition POUCH_VERSION : Z := 1.
(** [ble_gatt/common/types.h] *)
Definition GOLIOTH_BLE_GATT_VERSION : Z := 1.
Definition GOLIOTH_BLE_GATT_ADV_VERSION_POUCH_SHIFT : Z := 4.
Definition GOLIOTH_BLE_GATT_ADV_VERSION_SELF_SHIFT : Z := 0.

(** [service_data] at first. *)
Definition service_data : golioth_ble_gatt_adv_data :=
  mk_adv (u8 (Z.lor (Z.shiftl POUCH_VERSION GOLIOTH_BLE_GATT_ADV_VERSION_POUCH_SHIFT)
    (Z.shiftl GOLIOTH_BLE_GATT_VERSION GOLIOTH_BLE_GATT_ADV_VERSION_SELF_SHIFT))) 0.

Section app.
Context `{Cfg : Config} `{Zk : Zephyr} `{Mal : Malloc} `{Cr : Crypto} `{Hnd : Handlers}.
Context `{Ps : Psa} `{F : Fs} `{P : !Pk} `{Bd : Board}.
Context `{Oc : OtaConfig} `{Ze : ZcborEncoder} {A : Type} `{App : OtaApp A}.
Implicit Types (a : app A).

Definition set_active (b : bool) a : app A :=
  mk_app b (last_water_state a) (ap_adv a) (ap_delayed a) (ap_gpio a) (ap_bt a) (ap_cred a) (ap_golioth a) (ap_node a).
Definition set_last (b : bool) a : app A :=
  mk_app (pouch_session_active a) b (ap_adv a) (ap_delayed a) (ap_gpio a) (ap_bt a) (ap_cred a) (ap_golioth a) (ap_node a).
Definition set_flags (f : Z) a : app A :=
  mk_app (pouch_session_active a) (last_water_state a) (mk_adv (adv_version (ap_adv a)) f) (ap_delayed a) (ap_gpio a)
    (ap_bt a) (ap_cred a) (ap_golioth a) (ap_node a).
Definition set_delayed (w : list (app_work * Z)) a : app A :=
  mk_app (pouch_session_active a) (last_water_state a) (ap_adv a) w (ap_gpio a) (ap_bt a) (ap_cred a) (ap_golioth a) (ap_node a).
Definition set_gpio (g : gpio_st) a : app A :=
  mk_app (pouch_session_active a) (last_water_state a) (ap_adv a) (ap_delayed a) g (ap_bt a) (ap_cred a) (ap_golioth a) (ap_node a).
Definition set_bt (b : bt_st) a : app A :=
  mk_app (pouch_session_active a) (last_water_state a) (ap_adv a) (ap_delayed a) (ap_gpio a) b (ap_cred a) (ap_golioth a) (ap_node a).
Definition set_cred (c : cred) a : app A :=
  mk_app (pouch_session_active a) (last_water_state a) (ap_adv a) (ap_delayed a) (ap_gpio a) (ap_bt a) c (ap_golioth a) (ap_node a).
Definition set_sdk (t : golioth A * node) a : app A :=
  mk_app (pouch_session_active a) (last_water_state a) (ap_adv a) (ap_delayed a) (ap_gpio a) (ap_bt a) (ap_cred a) t.1 t.2.

Definition on_gpio {B} (f : gpio_st → B * gpio_st) : M (app A) B :=
  λ a, Ret (f (ap_gpio a)).1 (set_gpio (f (ap_gpio a)).2 a).
Definition on_bt {B} (f : bt_st → B * bt_st) : M (app A) B :=
  λ a, Ret (f (ap_bt a)).1 (set_bt (f (ap_bt a)).2 a).
Definition on_cred {B} (m : M cred B) : M (app A) B := zoom ap_cred set_cred m.
Definition on_node {B} (m : M node B) : M (app A) B := zoom ap_node (λ n a, set_sdk (ap_golioth a, n) a) m.
Definition on_sdk {B} (m : M (golioth A * node) B) : M (app A) B := zoom (λ a, (ap_golioth a, ap_node a)) set_sdk m.

(** Scheduling work that is scheduled already has no effect. *)
Definition k_work_schedule (w : app_work) (seconds : Z) : M (app A) unit :=
  modify (λ a, if decide (w ∈ (ap_delayed a).*1) then a else set_delayed (ap_delayed a ++ [(w, seconds)]) a).

(** ** [water_sensor.c], [sensors.c] *)

(** What locking the entry block gives, without waiting and with. *)
Context (water_lock lock : rc).

Definition water_payload (water_detected : bool) : list Z := if water_detected then water_present else water_absent.

Definition water_report_internal : M (app A) unit :=
  a ← get;
  if negb (has_port water_detect) || negb (device_is_ready water_detect (ap_gpio a)) then mret tt else
  val ← on_gpio (gpio_pin_get_dt water_detect);
  if val <? 0 then mret tt else
  let water_detected := 0 <? val in
  a ← get;
  (if negb (Bool.eqb water_detected (last_water_state a)) then modify (set_last water_detected) else mret tt);;
  a ← get;
  if pouch_session_active a then
    let payload := water_payload water_detected in
    on_node (pouch_uplink_entry_write water_lock (Some WATER_PATH) POUCH_CONTENT_TYPE_JSON (Some payload) (zlen payload));;
    mret tt
  else mret tt.

Definition water_report_work_handler : M (app A) unit :=
  water_report_internal;;
  k_work_schedule water_report_work WATER_REPORT_PERIOD_S.

Definition water_sensor_init : M (app A) Z :=
  if negb (has_port water_detect) then mret (- ENODEV_NR) else
  a ← get;
  if negb (device_is_ready water_detect (ap_gpio a)) then mret (- ENODEV_NR) else
  ret ← on_gpio (gpio_pin_configure_dt water_detect GPIO_INPUT);
  if ret <? 0 then mret ret else
  val ← on_gpio (gpio_pin_get_dt water_detect);
  (if val <? 0 then modify (set_last false) else modify (set_last (0 <? val)));;
  k_work_schedule water_report_work WATER_REPORT_PERIOD_S;;
  mret 0.

Definition water_sensor_pouch_session_start : M (app A) unit :=
  modify (set_active true);;
  water_report_internal.

Definition water_sensor_pouch_session_end : M (app A) unit := modify (set_active false).

Definition sensors_init_all : M (app A) Z :=
  err ← water_sensor_init;
  if negb (err =? 0) then mret err else mret 0.

Definition sensors_pouch_session_start : M (app A) unit := water_sensor_pouch_session_start.
Definition sensors_pouch_session_end : M (app A) unit := water_sensor_pouch_session_end.

(** ** [main.c] *)

Definition disconnect_work_handler : M (app A) unit :=
  a ← get;
  on_bt (bt_le_adv_start (Some (ap_adv a)));;
  mret tt.

Definition disconnected (reason : Z) : M (app A) unit := k_work_schedule disconnect_work 1.

Definition sync_request_work_handler : M (app A) unit :=
  modify (set_flags 1);;
  a ← get;
  on_bt (bt_le_adv_update_data (Some (ap_adv a)));;
  mret tt.

Definition pouch_event_handler (event : pouch_event) : M (app A) unit :=
  (if decide (event = POUCH_EVENT_SESSION_START) then
     sensors_pouch_session_start;;
     on_sdk (sync_to_cloud lock);;
     mret tt
   else mret tt);;
  (if decide (event = POUCH_EVENT_SESSION_END) then
     sensors_pouch_session_end;;
     modify (set_flags 0);;
     a ← get;
     on_bt (bt_le_adv_update_data (Some (ap_adv a)));;
     k_work_schedule sync_request_work CONFIG_EXAMPLE_SYNC_PERIOD_S
   else mret tt).

(** A delayed work item runs; it is not scheduled while it runs. *)
Definition run_app_work (w : app_work) : M (app A) unit :=
  modify (λ a, set_delayed (filter (λ d, d.1 ≠ w) (ap_delayed a)) a);;
  match w with
  | water_report_work => water_report_work_handler
  | sync_request_work => sync_request_work_handler
  | disconnect_work => disconnect_work_handler
  end.

(** [src/transport/ble_gatt/peripheral.c]. *)
Definition golioth_ble_gatt_peripheral_init : M (app A) Z := on_bt (bt_gatt_service_register bt_gatt_attr_count).

(** Blinking three times shows that the device is alive. *)
Definition led_set (value : Z) : M (app A) unit := modify (λ a, set_gpio (gpio_pin_set_dt led value (ap_gpio a)) a).

Definition blink : M (app A) unit :=
  if has_port led then
    err ← on_gpio (gpio_pin_configure_dt led GPIO_OUTPUT_ACTIVE);
    if err =? 0 then led_set 1;; led_set 0;; led_set 1;; led_set 0;; led_set 1;; led_set 0 else mret tt
  else mret tt.

(** [config.certificate], as [crypto_init] sees it. *)
Definition loaded_cert (cert : option nat * Z) a : pouch_cert :=
  mk_cert (cert.1 ≫= λ p, cr_heap (ap_cred a) !! p) cert.2.

(** [crypto_init] is that of the crypto module, on the private key and the certificate;
    [true] when [main] gets to its last loop, which only sleeps. *)
Definition main (crypto_init : Z → pouch_cert → M crypto_st rc) : M (app A) bool :=
  blink;;
  err ← golioth_ble_gatt_peripheral_init;
  if negb (err =? 0) then mret false else
  err ← on_bt bt_enable;
  if negb (err =? 0) then mret false else
  '(_, cert) ← on_cred load_certificate;
  match cert with
  | None => mret false
  | Some cert =>
      private_key ← on_cred load_private_key;
      if private_key =? PSA_KEY_ID_NULL then mret false else
      a ← get;
      err ← on_node (pouch_init (crypto_init private_key (loaded_cert cert a)));
      if decide (err ≠ success) then mret false else
      err ← on_bt (bt_le_adv_start None);
      if negb (err =? 0) then mret false else
      (if has_port led then on_gpio (gpio_pin_configure_dt led GPIO_OUTPUT_ACTIVE);; mret tt else mret tt);;
      sensors_init_all;;
      k_work_schedule sync_request_work CONFIG_EXAMPLE_SYNC_PERIOD_S;;
      mret true
  end.
End app.

(** The setting [LED]; the callback works on the pins in a state [W]. *)
Section led_setting.
Context `{Bd : Board} {W : Type} (pins : W → gpio_st) (set_pins : gpio_st → W → W).

Definition led_setting_cb (new_value : bool) : M W rc :=
  (if has_port led
   then modify (λ w, set_pins (gpio_pin_set_dt led (if new_value then 1 else 0) (pins w)) w) else mret tt);;
  mret success.

Definition led_handler : golioth_settings_handler W := mk_settings_handler setting_led (bool_cb led_setting_cb).

(** A setting of that name sets the pin; one of another type is refused. *)
Lemma led_setting_received v w : has_port led = true →
  golioth_settings_receive_one [led_handler] (mk_setting setting_led v) w =
  match v with
  | bool_val new_value => Ret success (set_pins (gpio_pin_set_dt led (if new_value then 1 else 0) (pins w)) w)
  | _ => Ret (Some EINVAL) w
  end.
Proof.
  intros Hl. unfold golioth_settings_receive_one. cbn [receive_one_loop sh_key sv_key].
  unfold str_eq. cbn [led_handler sh_key]. rewrite bool_decide_true by done.
  destruct v; try done. cbn. unfold led_setting_cb. by rewrite Hl.
Qed.
End led_setting.

(** ** Starting a session *)

Section session_start.
Context `{COk : ConfigOk} `{Zk : Zephyr} `{Mal : Malloc} `{Cr : Crypto} `{Hnd : Handlers}.
Context `{Ps : Psa} `{F : Fs} `{Bd : Board} `{OcOk : OtaConfigOk} `{ZeS : ZcborEncoderSpec} {A : Type} `{App : OtaApp A}.
Context (water_lock lock : rc).
Implicit Types (a : app A).

(** The reading of the sensor: nothing if there is none, or if reading fails. *)
Definition reading a : option bool :=
  if has_port water_detect && device_is_ready water_detect (ap_gpio a) then
    let val := (gpio_pin_get_dt water_detect (ap_gpio a)).1 in
    if val <? 0 then None else Some (0 <? val)
  else None.

(** The pins behind the reading. *)
Definition pins_read a : gpio_st :=
  if has_port water_detect && device_is_ready water_detect (ap_gpio a)
  then (gpio_pin_get_dt water_detect (ap_gpio a)).2 else ap_gpio a.

(** The application with another node: in a session, and with the reading taken. *)
Definition reported a (n : node) : app A :=
  mk_app true (default (last_water_state a) (reading a)) (ap_adv a) (ap_delayed a) (pins_read a) (ap_bt a) (ap_cred a)
    (ap_golioth a) n.

(** The entry with the reading: the JSON text [{"water_present":true}], or [false], on the
    path [".s/water"]. *)
Definition reading_text (wet : bool) : list Z :=
  if wet then [123; 34; 119; 97; 116; 101; 114; 95; 112; 114; 101; 115; 101; 110; 116; 34; 58; 116; 114; 117; 
    101; 125]
  else [123; 34; 119; 97; 116; 101; 114; 95; 112; 114; 101; 115; 101; 110; 116; 34; 58; 102; 97; 108; 
    115; 101; 125].

Definition ref_water (r : option bool) : M node unit :=
  match r with
  | None => mret tt
  | Some wet =>
      pouch_uplink_entry_write water_lock (Some [46; 115; 47; 119; 97; 116; 101; 114]) 50 (Some (reading_text wet))
        (zlen (reading_text wet));;
      mret tt
  end.

Definition ref_session_start a : M node unit :=
  ref_water (reading a);;
  ref_sync lock (ap_golioth a);;
  mret tt.

Lemma water_report_run a : pouch_session_active a = true →
  outcome_rel (λ _ a' n, a' = reported a n)
    (water_report_internal water_lock a) (ref_water (reading a) (ap_node a)).
Proof.
  intros Ha. unfold water_report_internal, reported, pins_read, reading. apply outcome_rel_left, wp_get.
  rewrite <- negb_andb. destruct (_ && _); cbn [negb].
  2: { cbn. destruct a; cbn in *. by subst. }
  apply outcome_rel_left. unfold on_gpio. eapply wp_eq; [done|]. destruct (gpio_pin_get_dt _ _) as [val g]. cbn [fst snd].
  destruct (val <? 0); [cbn; destruct a; cbn in *; by subst|]. cbn zeta. apply outcome_rel_left, wp_get, outcome_rel_left.
  assert (∀ b (m : M (app A) unit) Q, (if negb (Bool.eqb b (last_water_state a)) then modify (set_last b) else mret tt) = m →
    Q tt (set_last b (set_gpio g a)) → wp m Q (set_gpio g a)) as Hset.
  { intros b m Q <- HQ. destruct (Bool.eqb_spec b (last_water_state a)) as [->|]; [|done]. by destruct a. }
  eapply Hset; [done|]. apply outcome_rel_left, wp_get. cbn [pouch_session_active set_last set_gpio]. rewrite Ha.
  cbn [default ref_water from_option id]. change (reading_text (0 <? val)) with (water_payload (0 <? val)).
  eapply outcome_rel_bind; [by apply (outcome_rel_zoom _ _ _ (λ _ a' n, a' = set_sdk (ap_golioth a, n) (set_last (0 <? val) (set_gpio g a))))|].
  intros _ a' n ->. destruct a; cbn in *. by subst.
Qed.

Lemma session_start_run a :
  length (up_data (gl_upper (ap_golioth a))) = length components → Forall status_ok (ota_statuses (gl_upper (ap_golioth a))) →
  - 2 ^ 63 ≤ gl_version (ap_golioth a) < 2 ^ 63 →
  outcome_rel (λ _ a' n, a' = reported a n)
    (pouch_event_handler water_lock lock POUCH_EVENT_SESSION_START a) (ref_session_start a (ap_node a)).
Proof.
  intros Hl Hst Hv. unfold pouch_event_handler, ref_session_start.
  rewrite (decide_True (P := POUCH_EVENT_SESSION_START = POUCH_EVENT_SESSION_START)) by done.
  rewrite (decide_False (P := POUCH_EVENT_SESSION_START = POUCH_EVENT_SESSION_END)) by done. rewrite seq_ret.
  eapply (outcome_rel_bind (λ _ a' n, a' = reported a n)).
  { apply outcome_rel_left, wp_modify. exact (water_report_run (set_active true a) eq_refl). }
  intros _ ? n ->. eapply outcome_rel_bind.
  - unfold on_sdk. apply (outcome_rel_zoom_left _ _ _ (λ _ a' n', a' = reported a n')).
    eapply outcome_rel_mono; [by apply (sync_to_cloud_run lock (ap_golioth a) n)|]. by intros _ t n' ->.
  - by intros _ ? n' ->.
Qed.
End session_start.

(** ** Work that comes back *)

Create HintDb quiet.

Section steps.
Context `{Cfg : Config} `{Zk : Zephyr} `{Mal : Malloc} `{Cr : Crypto} `{Hnd : Handlers}.
Context `{Ps : Psa} `{F : Fs} `{P : !Pk} `{BdS : BoardSpec}.
Context `{Oc : OtaConfig} `{Ze : ZcborEncoder} {A : Type} `{App : OtaApp A}.
Context (water_lock lock : rc).
Implicit Types (a : app A) (w : app_work).

(** What happens once [main] is running: delayed work runs, pouch emits an event, the
    connection ends, the library, the callbacks and the pins change, and so does the radio,
    which forgets no call. *)
Inductive app_step : app A → app A → Prop :=
  | step_work w a a' :
      w ∈ (ap_delayed a).*1 → run_app_work water_lock w a = Ret tt a' → app_step a a'
  | step_event e a a' : pouch_event_handler water_lock lock e a = Ret tt a' → app_step a a'
  | step_disconnected reason a a' : disconnected reason a = Ret tt a' → app_step a a'
  | step_library t g a : app_step a (set_sdk t (set_gpio g a))
  | step_radio b a : bt_calls b = bt_calls (ap_bt a) → app_step a (set_bt b a).

Definition scheduled w a : Prop := w ∈ (ap_delayed a).*1.

Definition call_data (c : bt_call) : option golioth_ble_gatt_adv_data :=
  match c with adv_start sd | adv_update sd => sd end.

(** What the radio was last told to advertise asks for a sync. *)
Definition asks a : Prop :=
  ∃ calls c d, bt_calls (ap_bt a) = calls ++ [c] ∧ call_data c = Some d ∧ adv_flags d = 1.

(** A sync is asked for, also by the data kept for later calls, or will be. *)
Definition sync_due a : Prop := scheduled sync_request_work a ∨ adv_flags (ap_adv a) = 1 ∧ asks a.

(** Parts of a handler that touch neither the advertised data, nor the schedule, nor the
    radio. *)
Definition quiet {B} (m : M (app A) B) : Prop :=
  ∀ a x a', m a = Ret x a' → ap_adv a' = ap_adv a ∧ ap_delayed a' = ap_delayed a ∧ ap_bt a' = ap_bt a.

Lemma quiet_ret {B} (x : B) : quiet (mret x).
Proof. by intros a y a' [= <- <-]. Qed.
Lemma quiet_get : quiet get.
Proof. by intros a y a' [= <- <-]. Qed.
Lemma quiet_bind {B C} (m : M (app A) B) (k : B → M (app A) C) :
  quiet m → (∀ x, quiet (k x)) → quiet (m ≫= k).
Proof.
  intros Hm Hk a y a'. unfold mbind, M_bind. destruct (m a) as [x b| |] eqn:Hma; [|done|done].
  intros (-> & -> & ->)%Hk. by apply (Hm a x b).
Qed.
Lemma quiet_modify f :
  (∀ a, ap_adv (f a) = ap_adv a ∧ ap_delayed (f a) = ap_delayed a ∧ ap_bt (f a) = ap_bt a) → quiet (modify f).
Proof. intros Hf a y a' [= <- <-]. apply Hf. Qed.
Lemma quiet_if {B} (b : bool) (m m' : M (app A) B) : quiet m → quiet m' → quiet (if b then m else m').
Proof. by destruct b. Qed.
Lemma quiet_gpio {B} (f : gpio_st → B * gpio_st) : quiet (on_gpio f).
Proof. by intros a y a' [= <- <-]. Qed.
Lemma quiet_zoom {S B} (g : app A → S) p (m : M S B) :
  (∀ s a, ap_adv (p s a) = ap_adv a ∧ ap_delayed (p s a) = ap_delayed a ∧ ap_bt (p s a) = ap_bt a) → quiet (zoom g p m).
Proof. intros Hp a y a'. unfold zoom. destruct (m (g a)); [|done|done]. intros [= <- <-]. apply Hp. Qed.

Hint Resolve quiet_ret quiet_get quiet_bind quiet_if quiet_gpio : quiet.
Hint Extern 1 (quiet (modify _)) => by apply quiet_modify : quiet.
Hint Extern 1 (quiet (on_node _)) => by apply quiet_zoom : quiet.
Hint Extern 1 (quiet (on_sdk _)) => by apply quiet_zoom : quiet.
Hint Extern 1 (quiet (on_cred _)) => by apply quiet_zoom : quiet.

Lemma quiet_water_report : quiet (water_report_internal water_lock).
Proof. unfold water_report_internal. eauto 20 with quiet. Qed.

(** Scheduling, and running work: what is scheduled then. *)
Lemma k_work_schedule_run w seconds a :
  ∃ l, k_work_schedule w seconds a = Ret tt (set_delayed l a) ∧ ∀ v, v ∈ l.*1 ↔ v = w ∨ scheduled v a.
Proof.
  unfold k_work_schedule, scheduled. destruct (decide (w ∈ (ap_delayed a).*1)) as [Hw|Hw].
  - exists (ap_delayed a). unfold modify. rewrite decide_True by done. split; [by destruct a|]. naive_solver.
  - exists (ap_delayed a ++ [(w, seconds)]). unfold modify. rewrite decide_False by done. split; [done|].
    intros v. rewrite fmap_app, elem_of_app. set_solver.
Qed.

(** What one step does to the schedule, to the data kept, and to the radio, which is given
    the calls [l]. *)
Record progress a a' (l : list bt_call) : Prop := {
  pr_calls : bt_calls (ap_bt a') = bt_calls (ap_bt a) ++ l;
  pr_sync : sync_due a → sync_due a';
  pr_report : scheduled water_report_work a → scheduled water_report_work a';
  pr_connect : scheduled disconnect_work a →
    scheduled disconnect_work a' ∨ ∃ d, adv_start (Some d) ∈ l;
}.

Definition progresses a a' : Prop := ∃ l, progress a a' l.

(** Steps that leave the radio alone and take nothing off the schedule. *)
Lemma calm_progress a a' :
  bt_calls (ap_bt a') = bt_calls (ap_bt a) → ap_adv a' = ap_adv a →
  (∀ v, scheduled v a → scheduled v a') → progress a a' [].
Proof.
  intros Hb Ha Hs. split; [by rewrite app_nil_r|..|by auto|by auto].
  intros [H|[Hf Hk]]; [left; auto|right]. rewrite Ha. split; [done|]. unfold asks. by rewrite Hb.
Qed.

Lemma quiet_progress {B} (m : M (app A) B) a x a' : quiet m → m a = Ret x a' → progresses a a'.
Proof.
  intros Hm (Ha & Hd & Hb)%Hm. exists []. apply calm_progress; [by rewrite Hb|done|].
  unfold scheduled. by rewrite Hd.
Qed.

(** The work item that runs is taken off the schedule. *)
Lemma scheduled_filter w v a :
  v ≠ w → scheduled v a → scheduled v (set_delayed (filter (λ d, d.1 ≠ w) (ap_delayed a)) a).
Proof.
  intros Hne. unfold scheduled. cbn [ap_delayed set_delayed]. intros ([v' n] & -> & Hin)%list_elem_of_fmap.
  apply list_elem_of_fmap. exists (v', n). split; [done|]. by apply list_elem_of_filter.
Qed.

Lemma report_progress a a' :
  run_app_work water_lock water_report_work a = Ret tt a' → progresses a a'.
Proof.
  unfold run_app_work, water_report_work_handler. cbv [mbind M_bind modify].
  set (a0 := set_delayed _ a). destruct (water_report_internal water_lock a0) as [x b| |] eqn:Hb; [|done|done].
  destruct (quiet_water_report _ _ _ Hb) as (Ha & Hd & Hbt).
  destruct (k_work_schedule_run water_report_work WATER_REPORT_PERIOD_S b) as (l & -> & Hl). intros [= <-].
  exists []. apply calm_progress; cbn [ap_bt ap_adv set_delayed]; [by rewrite Hbt|done|].
  intros v Hv. unfold scheduled. cbn [ap_delayed set_delayed]. apply Hl.
  destruct (decide (v = water_report_work)) as [|Hne]; [by left|right].
  unfold scheduled. rewrite Hd. by apply scheduled_filter.
Qed.

(** Running the work that asks for a sync, and what that does. *)
Lemma sync_request_run a : ∃ a',
  run_app_work water_lock sync_request_work a = Ret tt a' ∧ adv_flags (ap_adv a') = 1 ∧ asks a' ∧
  bt_calls (ap_bt a') = bt_calls (ap_bt a) ++ [adv_update (Some (ap_adv a'))] ∧
  ∀ v, v ≠ sync_request_work → scheduled v a → scheduled v a'.
Proof.
  eexists. split; [done|]. cbn [ap_adv set_bt set_flags adv_flags ap_bt set_delayed].
  split; [done|]. rewrite adv_update_call. split; [|split; [done|]].
  - eexists _, _, _. cbn [ap_bt set_bt]. rewrite adv_update_call. by split_and!.
  - intros v Hv Hs. by apply (scheduled_filter sync_request_work v a) in Hs.
Qed.

Lemma disconnect_progress a a' :
  run_app_work water_lock disconnect_work a = Ret tt a' → progresses a a'.
Proof.
  unfold run_app_work, disconnect_work_handler, on_bt. cbv [mbind M_bind mret M_ret modify get]. intros [= <-].
  exists [adv_start (Some (ap_adv a))].
  assert (∀ v, v ≠ disconnect_work → scheduled v a → scheduled v (set_delayed (filter (λ d, d.1 ≠ disconnect_work) (ap_delayed a)) a)) as Hs.
  { intros v Hv. by apply scheduled_filter. }
  split; cbn [ap_bt ap_adv set_bt set_delayed].
  - by rewrite adv_start_call.
  - intros [H|[Hf Hk]]; [left; by apply Hs|right]. split; [done|]. eexists _, _, _. cbn [ap_bt set_bt].
    rewrite adv_start_call. by split_and!.
  - by apply Hs.
  - intros _. right. eexists. apply list_elem_of_singleton. done.
Qed.

Lemma run_app_work_progress w a a' : run_app_work water_lock w a = Ret tt a' → progresses a a'.
Proof.
  destruct w; [apply report_progress| |apply disconnect_progress].
  intros Hr. destruct (sync_request_run a) as (b & Hb & Hf & Hk & Hc & Hs). rewrite Hr in Hb. injection Hb as <-.
  eexists. split; [exact Hc|by right|by apply Hs|]. left. by apply Hs.
Qed.

Lemma event_handler_progress e a a' : pouch_event_handler water_lock lock e a = Ret tt a' → progresses a a'.
Proof.
  destruct e; unfold pouch_event_handler.
  - rewrite (decide_True (P := POUCH_EVENT_SESSION_START = POUCH_EVENT_SESSION_START)) by done.
    rewrite (decide_False (P := POUCH_EVENT_SESSION_START = POUCH_EVENT_SESSION_END)) by done.
    apply quiet_progress.
    apply quiet_bind; [|auto with quiet]. unfold sensors_pouch_session_start, water_sensor_pouch_session_start.
    pose proof quiet_water_report. eauto 10 with quiet.
  - rewrite (decide_False (P := POUCH_EVENT_SESSION_END = POUCH_EVENT_SESSION_START)) by done.
    rewrite (decide_True (P := POUCH_EVENT_SESSION_END = POUCH_EVENT_SESSION_END)) by done.
    unfold sensors_pouch_session_end, water_sensor_pouch_session_end, on_bt. cbv [mbind M_bind mret M_ret modify get].
    edestruct k_work_schedule_run as (l & -> & Hl). intros [= <-]. eexists [_].
    unfold sync_due, scheduled in *. split; cbn [ap_bt ap_delayed set_delayed].
    + cbn [ap_bt set_bt]. rewrite adv_update_call. done.
    + intros _. left. apply Hl. by left.
    + intros H. apply Hl. by right.
    + intros H. left. apply Hl. by right.
Qed.

Lemma disconnected_progress reason a a' : disconnected reason a = Ret tt a' →
  progress a a' [] ∧ scheduled disconnect_work a' ∧ ap_bt a' = ap_bt a.
Proof.
  unfold disconnected. destruct (k_work_schedule_run disconnect_work 1 a) as (l & -> & Hl). intros [= <-].
  unfold scheduled. cbn [ap_bt ap_delayed set_delayed]. split; [|split; [apply Hl; by left|done]].
  apply calm_progress; [done|done|]. intros v Hv. apply Hl. by right.
Qed.

Lemma app_step_progress a a' : app_step a a' → progresses a a'.
Proof.
  intros [w b b' _ Hw|e b b' He|reason b b' Hd|t g b|bt b Hb].
  - by eapply run_app_work_progress.
  - by eapply event_handler_progress.
  - exists []. by eapply disconnected_progress.
  - exists []. by apply calm_progress.
  - exists []. by apply calm_progress.
Qed.

Lemma app_steps_progress a a' : rtc app_step a a' → progresses a a'.
Proof.
  induction 1 as [a|a b c (l1 & [Hc1 Hs1 Hr1 Hk1])%app_step_progress _ (l2 & [Hc2 Hs2 Hr2 Hk2])].
  - exists []. by apply calm_progress.
  - exists (l1 ++ l2). split; [by rewrite Hc2, Hc1, app_assoc|auto|auto|].
    intros H. destruct (Hk1 H) as [H1|[d Hd]].
    + destruct (Hk2 H1) as [|[d Hd]]; [by left|right]. exists d. apply elem_of_app. by right.
    + right. exists d. apply elem_of_app. by left.
Qed.

(** What holds of the value and the state a program ends with. *)
Definition ends {B} (Q : B → app A → Prop) (m : M (app A) B) : Prop := ∀ a x a', m a = Ret x a' → Q x a'.

Lemma ends_bind {B C} Q (m : M (app A) B) (k : B → M (app A) C) : (∀ x, ends Q (k x)) → ends Q (m ≫= k).
Proof. intros Hk a y a'. unfold mbind, M_bind. destruct (m a) as [x b| |]; [|done|done]. apply Hk. Qed.

Lemma ends_ret {B} (Q : B → app A → Prop) x : (∀ a, Q x a) → ends Q (mret x).
Proof. by intros HQ a y a' [= <- <-]. Qed.

Lemma ends_if {B} Q (b : bool) (m m' : M (app A) B) : (b = true → ends Q m) → (b = false → ends Q m') → ends Q (if b then m else m').
Proof. destruct b; auto. Qed.

Lemma ends_schedule {B} (Q : B → app A → Prop) w n x :
  (∀ a, scheduled w a → Q x a) → ends Q (k_work_schedule w n;; mret x).
Proof.
  intros HQ a y a'. cbv [mbind M_bind]. destruct (k_work_schedule_run w n a) as (l & -> & Hl).
  intros [= <- <-]. apply HQ, Hl. by left.
Qed.

Ltac ends_step := first [apply ends_ret; intros | apply ends_schedule; intros | apply ends_bind; intros | apply ends_if; intros].

(** Sensors that were initialised are reported. *)
Lemma water_sensor_init_schedules : ends (λ ret a, ret = 0 → scheduled water_report_work a) water_sensor_init.
Proof. unfold water_sensor_init, ENODEV_NR. repeat ends_step; [lia..|done]. Qed.

Lemma main_schedules crypto_init : ends (λ running a, running = true → sync_due a) (main crypto_init).
Proof.
  assert (∀ b (m : M (app A) bool), ends (λ running a, running = true → sync_due a) m →
    ends (λ running a, running = true → sync_due a) (if b : bool then mret false else m)) as Hif.
  { intros [] m Hm; [by apply ends_ret|done]. }
  unfold main. apply ends_bind; intros _. apply ends_bind; intros err. apply Hif, ends_bind; intros err'.
  apply Hif, ends_bind; intros [e [cert|]]; [|by apply ends_ret]. apply ends_bind; intros key.
  apply Hif, ends_bind; intros a. apply ends_bind; intros err''. destruct (decide _); [by apply ends_ret|].
  apply ends_bind; intros e2. apply Hif, ends_bind; intros _. apply ends_bind; intros _.
  apply ends_schedule. intros b Hb _. by left.
Qed.
End steps.

(** ** Properties *)

(** C19: starting a session reports: the handler of the session event first writes an
    entry with the reading of the water sensor, if there is one, then the entries of
    the SDK, and closes the pouch; the entries, their order and their contents are
    those of the reference, whatever the calls return, and nothing but the node, the
    pin, the last reading and the session flag changes. *)
Theorem session_start_reports `{COk : ConfigOk} `{Zk : Zephyr} `{Mal : Malloc} `{Cr : Crypto} `{Hnd : Handlers}
    `{Ps : Psa} `{F : Fs} `{Bd : Board} `{OcOk : OtaConfigOk} `{ZeS : ZcborEncoderSpec} {A : Type} `{App : OtaApp A}
    water_lock lock (a : app A) :
  length (up_data (gl_upper (ap_golioth a))) = length components → Forall status_ok (ota_statuses (gl_upper (ap_golioth a))) →
  - 2 ^ 63 ≤ gl_version (ap_golioth a) < 2 ^ 63 →
  outcome_rel (λ _ a' n, a' = reported a n)
    (pouch_event_handler water_lock lock POUCH_EVENT_SESSION_START a) (ref_session_start water_lock lock a (ap_node a)).
Proof. apply session_start_run. Qed.

(** C28: once [main] is running, at all times, whatever work runs and events come, in any
    order: either what the radio was last told to advertise asks for a sync, or the work
    that tells it so is scheduled, and when that runs the radio is told; a sensor whose
    reports are scheduled stays so; and after the end of a connection the work that
    starts advertising again stays scheduled until the radio was told to start. *)
Theorem sync_never_forgotten `{Cfg : Config} `{Zk : Zephyr} `{Mal : Malloc} `{Cr : Crypto} `{Hnd : Handlers}
    `{Ps : Psa} `{F : Fs} `{P : !Pk} `{BdS : BoardSpec} `{Oc : OtaConfig} `{Ze : ZcborEncoder} {A : Type} `{App : OtaApp A}
    water_lock lock crypto_init (a0 a1 a : app A) :
  main crypto_init a0 = Ret true a1 → rtc (app_step water_lock lock) a1 a →
  (asks a ∨ scheduled sync_request_work a ∧
     ∃ a', run_app_work water_lock sync_request_work a = Ret tt a' ∧ asks a') ∧
  (scheduled water_report_work a1 → scheduled water_report_work a) ∧
  ∀ reason b b', disconnected reason a = Ret tt b → rtc (app_step water_lock lock) b b' →
    scheduled disconnect_work b' ∨
    ∃ l d, bt_calls (ap_bt b') = bt_calls (ap_bt a) ++ l ∧ adv_start (Some d) ∈ l.
Proof.
  intros Hmain Hsteps. pose proof (main_schedules crypto_init a0 true a1 Hmain eq_refl) as Hdue.
  destruct (app_steps_progress _ _ _ _ Hsteps) as (l & [_ Hs Hr _]). split; [|split; [done|]].
  - destruct (Hs Hdue) as [H|[_ H]]; [right|by left]. split; [done|].
    destruct (sync_request_run water_lock a) as (a' & Ha & _ & Hk & _). by exists a'.
  - intros reason b b' (_ & Hd & Hb)%(disconnected_progress _) (l' & [Hc _ _ Hk])%app_steps_progress.
    destruct (Hk Hd) as [|[d Hin]]; [by left|right]. exists l', d. by rewrite Hc, Hb.
Qed.

(** ** Examples *)

(** A board whose water pin reads as its state says, and whose radio logs the calls. *)
Definition board_toy : Board := {|
  gpio_st := Z;
  has_port _ := true;
  device_is_ready _ _ := true;
  gpio_pin_configure_dt _ _ g := (0, g);
  gpio_pin_get_dt _ g := (g, g);
  gpio_pin_set_dt _ _ g := g;
  bt_st := list bt_call;
  bt_gatt_service_register n b := (0, b);
  bt_enable b := (0, b);
  bt_le_adv_start sd b := (0, b ++ [adv_start sd]);
  bt_le_adv_update_data sd b := (0, b ++ [adv_update sd]);
  bt_gatt_attr_count := 13;
  CONFIG_EXAMPLE_SYNC_PERIOD_S := 30;
|}.

Definition board_toy_spec : BoardSpec board_toy.
Proof. by refine {| bt_calls := (λ b, b) : bt_st (Board := board_toy) → list bt_call |}. Defined.

Section application_witnesses.
#[local] Existing Instances small_config small_config_ok zephyr_ref malloc_always crypto_none one_handler
  psa_toy fs_toy pk_toy board_toy board_toy_spec ota_default ota_default_ok zcbor_toy_encoder zcbor_toy_encoder_spec one_component.

(** The credentials are there, the sensor is wet, and the component is marked. *)
Definition booting : app (list Z) :=
  mk_app false false service_data [] 1 [] (mk_cred (list_to_map [(KEY_FILE, [1; 2]); (CERT_FILE, [3])], []) ∅ 0 (∅, 0))
    marked node_0.

Definition none_init (private_key : Z) (cert : pouch_cert) : M crypto_st rc := CryptoNone.crypto_init (Some [100]).

Lemma session_start_reports_witness :
  outcome_rel (λ _ a' n, a' = reported booting n)
    (pouch_event_handler success success POUCH_EVENT_SESSION_START booting)
    (ref_session_start success success booting node_0).
Proof.
  apply (session_start_reports success success booting); [done| |done].
  constructor; [right; by apply (bool_decide_unpack _)|done].
Defined.

Definition first_boot : option (app (list Z) * app (list Z)) :=
  match main none_init booting with
  | Ret true a1 =>
      match pouch_event_handler success success POUCH_EVENT_SESSION_END a1 with
      | Ret _ a => Some (a1, a)
      | _ => None
      end
  | _ => None
  end.

Example boots : (if first_boot is Some _ then true else false) = true.
Proof. by vm_compute. Qed.

Lemma first_boot_inv a1 a : first_boot = Some (a1, a) →
  main none_init booting = Ret true a1 ∧ app_step success success a1 a.
Proof.
  unfold first_boot. destruct (main none_init booting) as [[|] b1| |]; try discriminate.
  destruct (pouch_event_handler success success POUCH_EVENT_SESSION_END b1) as [[] b| |] eqn:He; try discriminate.
  intros [= -> ->]. split; [done|]. exact (step_event _ _ _ _ _ He).
Qed.

Lemma sync_never_forgotten_witness :
  match first_boot with
  | Some (a1, a) =>
      (asks a ∨ scheduled sync_request_work a ∧
         ∃ a', run_app_work success sync_request_work a = Ret tt a' ∧ asks a') ∧
      (scheduled water_report_work a1 → scheduled water_report_work a) ∧
      ∀ reason b b', disconnected reason a = Ret tt b → rtc (app_step success success) b b' →
        scheduled disconnect_work b' ∨
        ∃ l d, bt_calls (ap_bt b') = bt_calls (ap_bt a) ++ l ∧ adv_start (Some d) ∈ l
  | None => False
  end.
Proof.
  pose proof boots as Hb. destruct first_boot as [[a1 a]|] eqn:H; [|discriminate Hb].
  apply first_boot_inv in H as [Hm Hs].
  apply (sync_never_forgotten success success none_init booting a1 a Hm (rtc_once _ _ Hs)).
Defined.

(** The device comes up, asks for a sync, and clears the request after the session. *)
Example application_runs :
  wp (main none_init;;
      run_app_work success sync_request_work;;
      pouch_event_handler success success POUCH_EVENT_SESSION_START;;
      pouch_event_handler success success POUCH_EVENT_SESSION_END)
    (λ _ a, map (λ c, adv_flags <$> call_data c) (ap_bt a) = [None; Some 1; Some 0] ∧ last_water_state a = true ∧
       (ap_delayed a).*1 = [water_report_work; sync_request_work]) booting.
Proof. by vm_compute. Qed.
End application_witnesses.
